(** * MergedBlockOutputStream: the write path of a MergeTree data part

    A shallow embedding of
    [dbms/src/Storages/MergeTree/MergedBlockOutputStream.cpp]:
    the column streams, the granule writer [writeData], the full part
    writer [MergedBlockOutputStream] and the column-only writer
    [MergedColumnOnlyOutputStream], followed by the properties of the
    part format that are proved about them. *)

From Stdlib Require Import ZArith String List Lia Sorted Permutation.
From Stdlib.Strings Require Import Ascii Byte.
From Stdlib Require Import DecimalString.
From stdpp Require Import base option list gmap strings fin_maps.

Local Open Scope Z_scope.

(** ** Machine integers *)

(** [size_t] is a 64-bit unsigned integer: every arithmetic result of the
    source is reduced modulo [2^64]. *)
Definition size_t_modulus : Z := 2 ^ 64.
Definition wrap (z : Z) : Z := z mod size_t_modulus.

(** ** Outcomes of a C++ member function

    A member function either returns, leaving the object in a new state,
    or throws, leaving it in the state reached at the [throw].  Two more
    outcomes have no state: undefined behaviour (a division by zero, a
    null [unique_ptr] dereferenced, an element read out of range) and a
    loop that has not finished when the fuel of the model ran out. *)

Inductive ErrorCode :=
  | NOT_IMPLEMENTED
  | BAD_ARGUMENTS
  | SIZES_OF_COLUMNS_DOESNT_MATCH
  | NOT_FOUND_COLUMN_IN_BLOCK
  | POSITION_OUT_OF_BOUND
  | SIZE_OF_PERMUTATION_IS_LESS_THAN_REQUIRED.

Inductive outcome (S A : Type) :=
  | Returns (a : A) (s : S)
  | Throws (e : ErrorCode) (s : S)
  | Undefined
  | Diverges.
Arguments Returns {S A} a s.
Arguments Throws {S A} e s.
Arguments Undefined {S A}.
Arguments Diverges {S A}.

Definition M (S A : Type) : Type := S -> outcome S A.

Definition ret {S A} (a : A) : M S A := fun s => Returns a s.
Definition throw {S A} (e : ErrorCode) : M S A := fun s => Throws e s.
Definition undefined {S A} : M S A := fun _ => Undefined.
Definition get {S} : M S S := fun s => Returns s s.
Definition modify {S} (f : S -> S) : M S unit := fun s => Returns tt (f s).

Definition bind {S A B} (m : M S A) (k : A -> M S B) : M S B :=
  fun s =>
    match m s with
    | Returns a s' => k a s'
    | Throws e s' => Throws e s'
    | Undefined => Undefined
    | Diverges => Diverges
    end.

Notation "'let*' x ':=' m 'in' k" := (bind m (fun x => k))
  (at level 10, x name, m at level 100, k at level 200).
Notation "'do' m 'then' k" := (bind m (fun _ => k))
  (at level 10, m at level 100, k at level 200).

(** [for (x : l) body(x);] *)
Fixpoint for_each {S A} (l : list A) (body : A -> M S unit) : M S unit :=
  match l with
  | [] => ret tt
  | x :: l' => do body x then for_each l' body
  end.

(** A member function of a base class run on a derived object. *)
Definition on_base {S B A} (proj : S -> B) (upd : B -> S -> S)
    (m : M B A) : M S A :=
  fun s =>
    match m (proj s) with
    | Returns a b => Returns a (upd b s)
    | Throws e b => Throws e (upd b s)
    | Undefined => Undefined
    | Diverges => Diverges
    end.

(** [m] keeps the invariant [P] of the state, whether it returns or
    throws. *)
Definition keeps {S A} (P : S -> Prop) (m : M S A) : Prop :=
  forall s, P s ->
    match m s with
    | Returns _ s' | Throws _ s' => P s'
    | _ => True
    end.

(** ** Substreams and the type system interface *)

(** [IDataType::Substream::Type]. *)
Inductive Substream :=
  | ArrayElements
  | ArraySizes
  | NullableElements
  | NullMap.

Global Instance Substream_eq_dec : EqDecision Substream.
Proof. solve_decision. Defined.

Definition SubstreamPath := list Substream.

(** [!substream_path.empty() && substream_path.back().type == ArraySizes] *)
Definition is_array_sizes (substream_path : SubstreamPath) : bool :=
  match last substream_path with
  | Some ArraySizes => true
  | _ => false
  end.

(** The part of [IDataType] and [IColumn] that the writers call.  A column
    is the list of its values; the writers never look inside a value.

    - [enumerateStreams type] lists the paths the callback is invoked
      with, in invocation order;
    - [serializeBinaryBulkWithMultipleStreams type column offset limit]
      lists, in order, the bytes the serializer writes and the path it
      asked the stream getter for;
    - [serializeBinary type v] is the binary image of one value, as
      written to the primary index. *)
Class IDataType (DataType Field : Type) := {
  enumerateStreams : DataType -> list SubstreamPath;
  getFileNameForStream : string -> SubstreamPath -> string;
  serializeBinaryBulkWithMultipleStreams :
    DataType -> list Field -> Z -> Z -> list (SubstreamPath * list byte);
  serializeBinary : DataType -> Field -> list byte;
}.

(** [writeIntBinary] of a [size_t]: eight bytes, little endian. *)
Definition byte_of_Z (z : Z) : byte :=
  match Byte.of_N (Z.to_N (z mod 256)) with
  | Some b => b
  | None => x00
  end.

Definition writeIntBinary_bytes (x : Z) : list byte :=
  map (fun k => byte_of_Z (Z.shiftr x (8 * Z.of_nat k))) (seq 0 8).

(** ** Checksums ([MergeTreeData::DataPart::Checksums]) *)

Record Checksum := mkChecksum {
  file_size : Z;
  file_hash : Z * Z;
  is_compressed : bool;
  uncompressed_size : Z;
  uncompressed_hash : Z * Z;
}.

Definition Checksum_default : Checksum :=
  mkChecksum 0 (0, 0) false 0 (0, 0).

Abbreviation Checksums := (gmap string Checksum).

(** [checksums.files[k].field = v]: [operator[]] inserts a default entry
    when [k] is absent. *)
Definition files_set (k : string) (f : Checksum -> Checksum)
    (checksums : Checksums) : Checksums :=
  <[k := f (default Checksum_default (checksums !! k))]> checksums.

(** [CompressionMethod], an enumeration of the codecs ([IO/CompressedStream.h]). *)
Inductive CompressionMethod := QuickLZ | LZ4 | LZ4HC | ZSTD | NONE.

(** The I/O collaborators: the codec behind [CompressedWriteBuffer] with
    the size of its working buffer, the hash of [HashingWriteBuffer], and
    the text forms of the column list and of the checksums. *)
Class IOEnv (DataType : Type) := {
  compress : CompressionMethod -> list byte -> list byte;
  buffer_size : nat;
  getHash : list byte -> Z * Z;
  NamesAndTypesList_writeText : list (string * DataType) -> list byte;
  Checksums_write : Checksums -> list byte;
}.

(** ** The file system *)

Record FileSystem := mkFileSystem {
  directories : gset string;
  files : gmap string (list byte);
}.

(** [Poco::File(path).createDirectories()] *)
Definition createDirectories (path : string) (fs : FileSystem) : FileSystem :=
  mkFileSystem ({[path]} ∪ directories fs) (files fs).

(** [Poco::File(path).remove(true)]: the directory and all below it. *)
Definition remove_recursive (path : string) (fs : FileSystem) : FileSystem :=
  mkFileSystem
    (filter (fun d => String.prefix path d = false) (directories fs))
    (filter (fun kv => String.prefix path kv.1 = false) (files fs)).

(** A file opened with [O_TRUNC | O_CREAT | O_WRONLY]. *)
Definition create_file (path : string) (fs : FileSystem) : FileSystem :=
  mkFileSystem (directories fs) (<[path := []]> (files fs)).

(** What a write buffer has flushed becomes the content of its file. *)
Definition store_file (path : string) (content : list byte)
    (fs : FileSystem) : FileSystem :=
  mkFileSystem (directories fs) (<[path := content]> (files fs)).

(** ** The storage the part belongs to ([MergeTreeData]) *)

(** [MergeTreeData::MergingParams::Mode]; the writers only compare it with
    [Unsorted]. *)
Inductive Mode :=
  | Ordinary | Collapsing | Summing | Aggregating | Unsorted | Replacing
  | Graphite.

Global Instance Mode_eq_dec : EqDecision Mode.
Proof. solve_decision. Defined.

(** An element of the sort description: a column by name or, when the
    name is empty, by position. *)
Record SortColumnDescription := mkSortColumnDescription {
  column_name : string;
  column_number : nat;
}.

Record Settings := mkSettings {
  settings_min_compress_block_size : Z;
  settings_max_compress_block_size : Z;
  settings_min_bytes_to_use_direct_io : Z;
}.

Record MergeTreeData := mkMergeTreeData {
  index_granularity : Z;
  merging_params_mode : Mode;
  getSortDescription : list SortColumnDescription;
  getSettings : Settings;
}.

Section Writers.

Context {DataType Field : Type}.
Context `{!IDataType DataType Field} `{!IOEnv DataType}.

(** ** ColumnStream *)

(** One physical stream: the data file behind [plain_hashing], the
    compressing buffer [compressed] in front of it, and the marks file.

    - [plain_hashing] holds every byte that reached the data file buffer,
      so that [plain_hashing.count()] is its length;
    - [compressed_blocks] holds the uncompressed bytes of the blocks
      already compressed and [compressed] the bytes of the open block, so
      that [compressed.offset()] is the length of the latter;
    - [marks] holds the integers written to the marks file. *)
Record ColumnStream := mkColumnStream {
  escaped_column_name : string;
  data_file_extension : string;
  marks_file_extension : string;
  plain_file : string;
  compression : CompressionMethod;
  plain_hashing : list byte;
  compressed_blocks : list byte;
  compressed : list byte;
  marks_file : string;
  marks : list Z;
}.

Definition DATA_FILE_EXTENSION : string := ".bin".
Definition MARKS_FILE_EXTENSION : string := ".mrk".

Definition plain_hashing_count (s : ColumnStream) : Z :=
  Z.of_nat (length (plain_hashing s)).
Definition compressed_offset (s : ColumnStream) : Z :=
  Z.of_nat (length (compressed s)).
Definition compressed_count (s : ColumnStream) : Z :=
  Z.of_nat (length (compressed_blocks s) + length (compressed s)).
Definition marks_bytes (s : ColumnStream) : list byte :=
  flat_map writeIntBinary_bytes (marks s).

(** [compressed.next()]: compress the open block into the data file
    buffer; nothing happens when the block is empty. *)
Definition compressed_next (s : ColumnStream) : ColumnStream :=
  match compressed s with
  | [] => s
  | _ =>
      mkColumnStream (escaped_column_name s) (data_file_extension s)
        (marks_file_extension s) (plain_file s) (compression s)
        (plain_hashing s ++ compress (compression s) (compressed s))
        (compressed_blocks s ++ compressed s) []
        (marks_file s) (marks s)
  end.

(** [compressed.nextIfAtEnd()] *)
Definition compressed_nextIfAtEnd (s : ColumnStream) : ColumnStream :=
  if (length (compressed s) =? buffer_size)%nat then compressed_next s else s.

(** One byte written into [compressed]. *)
Definition compressed_put (s : ColumnStream) (b : byte) : ColumnStream :=
  let s := compressed_nextIfAtEnd s in
  mkColumnStream (escaped_column_name s) (data_file_extension s)
    (marks_file_extension s) (plain_file s) (compression s)
    (plain_hashing s) (compressed_blocks s) (compressed s ++ [b])
    (marks_file s) (marks s).

(** [compressed.write(bytes)] *)
Definition compressed_write (bytes : list byte) (s : ColumnStream)
    : ColumnStream :=
  fold_left compressed_put bytes s.

(** [writeIntBinary(x, stream.marks)] *)
Definition writeIntBinary (x : Z) (s : ColumnStream) : ColumnStream :=
  mkColumnStream (escaped_column_name s) (data_file_extension s)
    (marks_file_extension s) (plain_file s) (compression s)
    (plain_hashing s) (compressed_blocks s) (compressed s)
    (marks_file s) (marks s ++ [x]).

(** The constructor: both files are created empty. *)
Definition ColumnStream_new (escaped_column_name_ data_path
    data_file_extension_ marks_path marks_file_extension_ : string)
    (max_compress_block_size : Z) (compression_method : CompressionMethod)
    (estimated_size aio_threshold : Z) (fs : FileSystem)
    : ColumnStream * FileSystem :=
  (mkColumnStream escaped_column_name_ data_file_extension_
     marks_file_extension_ (data_path +:+ data_file_extension_)
     compression_method [] [] []
     (marks_path +:+ marks_file_extension_) [],
   create_file (marks_path +:+ marks_file_extension_)
     (create_file (data_path +:+ data_file_extension_) fs)).

(** [ColumnStream::finalize]: the open block is compressed, then the data
    file buffer and the marks buffer are flushed to their files. *)
Definition finalize (s : ColumnStream) (fs : FileSystem)
    : ColumnStream * FileSystem :=
  let s := compressed_next s in
  (s, store_file (marks_file s) (marks_bytes s)
        (store_file (plain_file s) (plain_hashing s) fs)).

(** [ColumnStream::sync]: durability only, the content does not change. *)
Definition ColumnStream_sync (s : ColumnStream) (fs : FileSystem)
    : FileSystem := fs.

(** [ColumnStream::addToChecksums] *)
Definition addToChecksums (s : ColumnStream) (checksums : Checksums)
    : Checksums :=
  let name := escaped_column_name s in
  let bin := name +:+ data_file_extension s in
  let mrk := name +:+ marks_file_extension s in
  let checksums := files_set bin (fun c =>
    mkChecksum (file_size c) (file_hash c) true
      (uncompressed_size c) (uncompressed_hash c)) checksums in
  let checksums := files_set bin (fun c =>
    mkChecksum (file_size c) (file_hash c) (is_compressed c)
      (compressed_count s) (uncompressed_hash c)) checksums in
  let checksums := files_set bin (fun c =>
    mkChecksum (file_size c) (file_hash c) (is_compressed c)
      (uncompressed_size c)
      (getHash (compressed_blocks s ++ compressed s))) checksums in
  let checksums := files_set bin (fun c =>
    mkChecksum (plain_hashing_count s) (file_hash c) (is_compressed c)
      (uncompressed_size c) (uncompressed_hash c)) checksums in
  let checksums := files_set bin (fun c =>
    mkChecksum (file_size c) (getHash (plain_hashing s)) (is_compressed c)
      (uncompressed_size c) (uncompressed_hash c)) checksums in
  let checksums := files_set mrk (fun c =>
    mkChecksum (8 * Z.of_nat (length (marks s))) (file_hash c)
      (is_compressed c) (uncompressed_size c) (uncompressed_hash c))
    checksums in
  files_set mrk (fun c =>
    mkChecksum (file_size c) (getHash (marks_bytes s)) (is_compressed c)
      (uncompressed_size c) (uncompressed_hash c)) checksums.

(** ** IMergedBlockOutputStream *)

Record IMergedBlockOutputStream := mkIMergedBlockOutputStream {
  storage : MergeTreeData;
  min_compress_block_size : Z;
  max_compress_block_size : Z;
  aio_threshold : Z;
  compression_method : CompressionMethod;
  column_streams : gmap string ColumnStream;
  index_offset : Z;
}.

(** The constructor; [index_offset] starts at [0] and there is no stream. *)
Definition IMergedBlockOutputStream_new (storage_ : MergeTreeData)
    (min_compress_block_size_ max_compress_block_size_ : Z)
    (compression_method_ : CompressionMethod) (aio_threshold_ : Z)
    : IMergedBlockOutputStream :=
  mkIMergedBlockOutputStream storage_ min_compress_block_size_
    max_compress_block_size_ aio_threshold_ compression_method_ ∅ 0.

Definition set_column_streams (streams : gmap string ColumnStream)
    (self : IMergedBlockOutputStream) : IMergedBlockOutputStream :=
  mkIMergedBlockOutputStream (storage self) (min_compress_block_size self)
    (max_compress_block_size self) (aio_threshold self)
    (compression_method self) streams (index_offset self).

Definition set_index_offset (offset : Z)
    (self : IMergedBlockOutputStream) : IMergedBlockOutputStream :=
  mkIMergedBlockOutputStream (storage self) (min_compress_block_size self)
    (max_compress_block_size self) (aio_threshold self)
    (compression_method self) (column_streams self) offset.

(** [IMergedBlockOutputStream::addStream]: one stream per substream of the
    type, unless the substream is skipped or its stream exists. *)
Definition addStream (path name : string) (type : DataType)
    (estimated_size : Z) (skip_offsets : bool)
    (st : IMergedBlockOutputStream * FileSystem)
    : IMergedBlockOutputStream * FileSystem :=
  fold_left
    (fun '(self, fs) substream_path =>
       if skip_offsets && is_array_sizes substream_path then (self, fs)
       else
         let stream_name := getFileNameForStream name substream_path in
         match column_streams self !! stream_name with
         | Some _ => (self, fs)
         | None =>
             let '(stream, fs') :=
               ColumnStream_new stream_name
                 (path +:+ stream_name) DATA_FILE_EXTENSION
                 (path +:+ stream_name) MARKS_FILE_EXTENSION
                 (max_compress_block_size self) (compression_method self)
                 estimated_size (aio_threshold self) fs in
             (set_column_streams
                (<[stream_name := stream]> (column_streams self)) self, fs')
         end)
    (enumerateStreams type) st.

(** [*column_streams[stream_name]] updated in place.  [operator[]] on a
    missing name yields a null pointer, whose dereference is undefined. *)
Definition with_stream (stream_name : string)
    (f : ColumnStream -> ColumnStream) : M IMergedBlockOutputStream unit :=
  fun self =>
    match column_streams self !! stream_name with
    | Some stream =>
        Returns tt
          (set_column_streams (<[stream_name := f stream]> (column_streams self))
             self)
    | None => Undefined
    end.

(** The body of the "write marks" callback for one stream. *)
Definition write_mark (min_compress_block_size_ : Z) (stream : ColumnStream)
    : ColumnStream :=
  let stream :=
    if compressed_offset stream >=? min_compress_block_size_
    then compressed_next stream else stream in
  let stream := writeIntBinary (plain_hashing_count stream) stream in
  writeIntBinary (compressed_offset stream) stream.

(** [enumerateStreams] with a callback that returns at once on a skipped
    array-sizes substream and otherwise updates the named stream. *)
Definition for_each_stream (name : string) (type : DataType)
    (skip_offsets : bool) (f : ColumnStream -> ColumnStream)
    : M IMergedBlockOutputStream unit :=
  for_each (enumerateStreams type) (fun substream_path =>
    if skip_offsets && is_array_sizes substream_path then ret tt
    else with_stream (getFileNameForStream name substream_path) f).

(** The serializer run against [stream_getter]: a null getter result
    drops the bytes, otherwise they go into [compressed] of the stream. *)
Definition serialize_granule (name : string) (type : DataType)
    (column : list Field) (skip_offsets : bool) (prev_mark limit : Z)
    : M IMergedBlockOutputStream unit :=
  for_each (serializeBinaryBulkWithMultipleStreams type column prev_mark limit)
    (fun '(substream_path, bytes) =>
       if skip_offsets && is_array_sizes substream_path then ret tt
       else with_stream (getFileNameForStream name substream_path)
              (compressed_write bytes)).

(** The [while (prev_mark < size)] loop of [writeData].  [offset_columns]
    is received and never read or written. *)
Fixpoint writeData_loop (fuel : nat) (name : string) (type : DataType)
    (column : list Field) (offset_columns : gset string)
    (skip_offsets : bool) (size prev_mark : Z) {struct fuel}
    : M IMergedBlockOutputStream unit :=
  if prev_mark <? size then
    match fuel with
    | O => fun _ => Diverges
    | S fuel' =>
        let* self := get in
        let* limit :=
          (if (prev_mark =? 0) && negb (index_offset self =? 0)
           then ret (index_offset self)
           else
             do for_each_stream name type skip_offsets
                  (write_mark (min_compress_block_size self))
             then ret (index_granularity (storage self))) in
        do serialize_granule name type column skip_offsets prev_mark limit then
        do for_each_stream name type skip_offsets compressed_nextIfAtEnd then
        writeData_loop fuel' name type column offset_columns skip_offsets
          size (wrap (prev_mark + limit))
    end
  else ret tt.

(** [IMergedBlockOutputStream::writeData] *)
Definition writeData (fuel : nat) (name : string) (type : DataType)
    (column : list Field) (offset_columns : gset string)
    (skip_offsets : bool) : M IMergedBlockOutputStream unit :=
  writeData_loop fuel name type column offset_columns skip_offsets
    (Z.of_nat (length column)) 0.

(** ** Blocks

    A block is the list of its columns.  [Block] and [IColumn] are
    declared outside this file; the definitions below are the operations
    the writers call on them. *)

Record ColumnWithTypeAndName := mkColumnWithTypeAndName {
  column : list Field;
  type : DataType;
  name : string;
}.

Definition Block := list ColumnWithTypeAndName.

(** [IColumn::size] *)
Definition IColumn_size (c : list Field) : Z := Z.of_nat (length c).

(** [IColumn::cloneEmpty] *)
Definition cloneEmpty (c : list Field) : list Field := [].

(** [IColumn::permute(perm, 0)]: row [i] of the result is row [perm[i]]
    of the column; a permutation shorter than the column is rejected and
    an entry outside the column is read out of range. *)
Definition permute {St} (c : list Field) (perm : list nat)
    : M St (list Field) :=
  if (length perm <? length c)%nat
  then throw SIZE_OF_PERMUTATION_IS_LESS_THAN_REQUIRED
  else
    match mapM (fun k => c !! k) (take (length c) perm) with
    | Some res => ret res
    | None => undefined
    end.

(** [Block::rows]: the size of the first column. *)
Definition rows (block : Block) : Z :=
  match block with
  | [] => 0
  | elem :: _ => IColumn_size (column elem)
  end.

(** [Block::checkNumberOfRows] *)
Definition checkNumberOfRows {St} (block : Block) : M St unit :=
  if forallb (fun elem => IColumn_size (column elem) =? rows block) block
  then ret tt
  else throw SIZES_OF_COLUMNS_DOESNT_MATCH.

(** [Block::getByName] *)
Definition getByName {St} (block : Block) (name_ : string)
    : M St ColumnWithTypeAndName :=
  match find (fun elem => String.eqb (name elem) name_) block with
  | Some elem => ret elem
  | None => throw NOT_FOUND_COLUMN_IN_BLOCK
  end.

(** [Block::safeGetByPosition] *)
Definition safeGetByPosition {St} (block : Block) (position : nat)
    : M St ColumnWithTypeAndName :=
  match block !! position with
  | Some elem => ret elem
  | None => throw POSITION_OUT_OF_BOUND
  end.

(** ** MergedBlockOutputStream *)

Record MergedBlockOutputStream := mkMergedBlockOutputStream {
  base : IMergedBlockOutputStream;
  columns_list : list (string * DataType);
  part_path : string;
  marks_count : Z;
  index_file_stream : option string;
  index_stream : option (list byte);
  index_columns : list (list Field);
}.

Definition set_base (b : IMergedBlockOutputStream)
    (self : MergedBlockOutputStream) : MergedBlockOutputStream :=
  mkMergedBlockOutputStream b (columns_list self) (part_path self)
    (marks_count self) (index_file_stream self) (index_stream self)
    (index_columns self).

Definition set_marks_count (n : Z)
    (self : MergedBlockOutputStream) : MergedBlockOutputStream :=
  mkMergedBlockOutputStream (base self) (columns_list self) (part_path self)
    n (index_file_stream self) (index_stream self) (index_columns self).

Definition set_index_stream (stream : option (list byte))
    (self : MergedBlockOutputStream) : MergedBlockOutputStream :=
  mkMergedBlockOutputStream (base self) (columns_list self) (part_path self)
    (marks_count self) (index_file_stream self) stream (index_columns self).

Definition set_index_columns (index : list (list Field))
    (self : MergedBlockOutputStream) : MergedBlockOutputStream :=
  mkMergedBlockOutputStream (base self) (columns_list self) (part_path self)
    (marks_count self) (index_file_stream self) (index_stream self) index.

Definition mode_of (self : MergedBlockOutputStream) : Mode :=
  merging_params_mode (storage (base self)).

(** [MergedBlockOutputStream::init] *)
Definition init (st : MergedBlockOutputStream * FileSystem)
    : MergedBlockOutputStream * FileSystem :=
  let '(self, fs) := st in
  let fs := createDirectories (part_path self) fs in
  if decide (mode_of self ≠ Unsorted) then
    (mkMergedBlockOutputStream (base self) (columns_list self)
       (part_path self) (marks_count self)
       (Some (part_path self +:+ "primary.idx")) (Some [])
       (index_columns self),
     create_file (part_path self +:+ "primary.idx") fs)
  else (self, fs).

(** [addStream] called from a constructor of the derived class. *)
Definition addStream_in (name_ : string) (type_ : DataType)
    (estimated_size : Z) (st : MergedBlockOutputStream * FileSystem)
    : MergedBlockOutputStream * FileSystem :=
  let '(self, fs) := st in
  let '(b, fs') :=
    addStream (part_path self) name_ type_ estimated_size false
      (base self, fs) in
  (set_base b self, fs').

(** The constructor without size hints. *)
Definition MergedBlockOutputStream_new (storage_ : MergeTreeData)
    (part_path_ : string) (columns_list_ : list (string * DataType))
    (compression_method_ : CompressionMethod) (fs : FileSystem)
    : MergedBlockOutputStream * FileSystem :=
  let self :=
    mkMergedBlockOutputStream
      (IMergedBlockOutputStream_new storage_
         (settings_min_compress_block_size (getSettings storage_))
         (settings_max_compress_block_size (getSettings storage_))
         compression_method_
         (settings_min_bytes_to_use_direct_io (getSettings storage_)))
      columns_list_ part_path_ 0 None None [] in
  fold_left (fun st it => addStream_in it.1 it.2 0 st) columns_list_
    (init (self, fs)).

(** The constructor with the sizes of the merged columns. *)
Definition MergedBlockOutputStream_new_sized (storage_ : MergeTreeData)
    (part_path_ : string) (columns_list_ : list (string * DataType))
    (compression_method_ : CompressionMethod)
    (merged_column_to_size_ : gmap string Z) (aio_threshold_ : Z)
    (fs : FileSystem) : MergedBlockOutputStream * FileSystem :=
  let self :=
    mkMergedBlockOutputStream
      (IMergedBlockOutputStream_new storage_
         (settings_min_compress_block_size (getSettings storage_))
         (settings_max_compress_block_size (getSettings storage_))
         compression_method_ aio_threshold_)
      columns_list_ part_path_ 0 None None [] in
  fold_left
    (fun st it =>
       let estimated_size :=
         if 0 <? aio_threshold_
         then default 0 (merged_column_to_size_ !! it.1) else 0 in
       addStream_in it.1 it.2 estimated_size st)
    columns_list_ (init (self, fs)).

Definition getPartPath (self : MergedBlockOutputStream) : string :=
  part_path self.

Definition getIndex (self : MergedBlockOutputStream) : list (list Field) :=
  index_columns self.

Definition marksCount (self : MergedBlockOutputStream) : Z :=
  marks_count self.

(** [writeData] of the base class, run on the full writer. *)
Definition writeData_in (fuel : nat) (name_ : string) (type_ : DataType)
    (column_ : list Field) (offset_columns : gset string)
    (skip_offsets : bool) : M MergedBlockOutputStream unit :=
  on_base base set_base
    (writeData fuel name_ type_ column_ offset_columns skip_offsets).

(** The first loop of [writeImpl]: the primary key columns, permuted when
    a permutation is given, and the position of each by name. *)
Fixpoint resolve_primary_columns {St} (block : Block)
    (permutation : option (list nat))
    (sort_description : list SortColumnDescription) (i : nat)
    (primary_columns : list ColumnWithTypeAndName)
    (primary_columns_name_to_position : gmap string nat)
    : M St (list ColumnWithTypeAndName * gmap string nat) :=
  match sort_description with
  | [] => ret (primary_columns, primary_columns_name_to_position)
  | descr :: rest =>
      let* name_ :=
        (if negb (String.eqb (column_name descr) "")
         then ret (column_name descr)
         else
           let* elem := safeGetByPosition block (column_number descr) in
           ret (name elem)) in
      match primary_columns_name_to_position !! name_ with
      | Some _ => throw BAD_ARGUMENTS
      | None =>
          let* elem :=
            (if negb (String.eqb (column_name descr) "")
             then getByName block (column_name descr)
             else safeGetByPosition block (column_number descr)) in
          let* elem :=
            match permutation with
            | Some perm =>
                let* permuted := permute (column elem) perm in
                ret (mkColumnWithTypeAndName permuted (type elem) (name elem))
            | None => ret elem
            end in
          resolve_primary_columns block permutation rest (S i)
            (primary_columns ++ [elem])
            (<[name_ := i]> primary_columns_name_to_position)
      end
  end.

(** The second loop of [writeImpl]: every column of [columns_list]. *)
Definition write_columns (fuel : nat) (block : Block)
    (permutation : option (list nat))
    (primary_columns : list ColumnWithTypeAndName)
    (primary_columns_name_to_position : gmap string nat)
    (offset_columns : gset string) (columns : list (string * DataType))
    : M MergedBlockOutputStream unit :=
  for_each columns (fun it =>
    let* column_ := getByName block it.1 in
    match permutation with
    | Some perm =>
        match primary_columns_name_to_position !! it.1 with
        | Some position =>
            match primary_columns !! position with
            | Some primary =>
                writeData_in fuel (name column_) (type column_)
                  (column primary) offset_columns false
            | None => undefined
            end
        | None =>
            let* permutted_column := permute (column column_) perm in
            writeData_in fuel (name column_) (type column_)
              permutted_column offset_columns false
        end
    | None =>
        writeData_in fuel (name column_) (type column_) (column column_)
          offset_columns false
    end).

(** The body of the loop over [j] in the index loop: row [i] of the
    primary key column [j] is appended to [index_columns[j]] and written
    to [index_stream]. *)
Definition index_insert (primary_columns : list ColumnWithTypeAndName)
    (i : Z) (j : nat) : M MergedBlockOutputStream unit :=
  fun self =>
    match primary_columns !! j, index_columns self !! j, index_stream self with
    | Some primary_column, Some index_column, Some out =>
        match column primary_column !! Z.to_nat i with
        | Some v =>
            Returns tt
              (set_index_stream
                 (Some (out ++ serializeBinary (type primary_column) v))
                 (set_index_columns
                    (<[j := index_column ++ [v]]> (index_columns self)) self))
        | None => Undefined
        end
    | _, _, _ => Undefined
    end.

(** [for (size_t i = index_offset; i < rows; i += index_granularity)] *)
Fixpoint index_loop (fuel : nat)
    (primary_columns : list ColumnWithTypeAndName) (rows_ i : Z)
    {struct fuel} : M MergedBlockOutputStream unit :=
  if i <? rows_ then
    match fuel with
    | O => fun _ => Diverges
    | S fuel' =>
        let* self := get in
        do (if decide (mode_of self ≠ Unsorted)
            then for_each (seq 0 (length primary_columns))
                   (index_insert primary_columns i)
            else ret tt) then
        do modify (fun self => set_marks_count (wrap (marks_count self + 1)) self) then
        index_loop fuel' primary_columns rows_
          (wrap (i + index_granularity (storage (base self))))
    end
  else ret tt.

(** The last two statements of [write]: the carried [index_offset]. *)
Definition written_for_last_mark (granularity offset rows_ : Z) : Z :=
  wrap (wrap (granularity - offset) + rows_) mod granularity.

Definition next_index_offset (granularity offset rows_ : Z) : Z :=
  wrap (granularity - written_for_last_mark granularity offset rows_)
    mod granularity.

Definition update_index_offset (rows_ : Z) : M IMergedBlockOutputStream unit :=
  fun self =>
    let granularity := index_granularity (storage self) in
    if granularity =? 0 then Undefined
    else
      Returns tt
        (set_index_offset
           (next_index_offset granularity (index_offset self) rows_) self).

(** [MergedBlockOutputStream::writeImpl] *)
Definition writeImpl (fuel : nat) (block : Block)
    (permutation : option (list nat)) : M MergedBlockOutputStream unit :=
  do checkNumberOfRows block then
  let rows_ := rows block in
  let offset_columns : gset string := ∅ in
  let* self := get in
  let sort_description := getSortDescription (storage (base self)) in
  let* primary :=
    resolve_primary_columns block permutation sort_description 0%nat [] ∅ in
  let primary_columns := primary.1 in
  let primary_columns_name_to_position := primary.2 in
  do (match index_columns self with
      | [] =>
          modify (set_index_columns
                    (map (fun elem => cloneEmpty (column elem)) primary_columns))
      | _ => ret tt
      end) then
  do write_columns fuel block permutation primary_columns
       primary_columns_name_to_position offset_columns (columns_list self) then
  let* self := get in
  do index_loop fuel primary_columns rows_ (index_offset (base self)) then
  on_base base set_base (update_index_offset rows_).

(** [MergedBlockOutputStream::write] *)
Definition write (fuel : nat) (block : Block)
    : M MergedBlockOutputStream unit :=
  writeImpl fuel block None.

(** [MergedBlockOutputStream::writeWithPermutation] *)
Definition writeWithPermutation (fuel : nat) (block : Block)
    (permutation : list nat) : M MergedBlockOutputStream unit :=
  writeImpl fuel block (Some permutation).

(** [MergedBlockOutputStream::writeSuffix] *)
Definition writeSuffix : M (MergedBlockOutputStream * FileSystem) unit :=
  throw NOT_IMPLEMENTED.

(** The loop of the suffix functions over [column_streams]: every stream
    is finalized, synced on request, and added to the checksums.  The
    source visits the streams in the order of their names; a visit
    touches the files and the checksum entries of its stream only. *)
Definition finalize_streams (sync_ : bool)
    (streams : gmap string ColumnStream) (checksums : Checksums)
    (fs : FileSystem) : Checksums * FileSystem :=
  map_fold
    (fun _ stream '(checksums, fs) =>
       let '(stream, fs) := finalize stream fs in
       let fs := if sync_ then ColumnStream_sync stream fs else fs in
       (addToChecksums stream checksums, fs))
    (checksums, fs) streams.

(** [MergedBlockOutputStream::writeSuffixAndGetChecksums], with the column
    list and the checksums of the columns written elsewhere. *)
Definition writeSuffixAndGetChecksums
    (total_column_list : list (string * DataType))
    (additional_column_checksums : option Checksums)
    : M (MergedBlockOutputStream * FileSystem) Checksums :=
  fun '(self, fs) =>
    let checksums : Checksums := default ∅ additional_column_checksums in
    let after_index :=
      if decide (mode_of self ≠ Unsorted) then
        match index_stream self with
        | Some out =>
            let fs := store_file (part_path self +:+ "primary.idx") out fs in
            let checksums := files_set "primary.idx" (fun c =>
              mkChecksum (Z.of_nat (length out)) (file_hash c)
                (is_compressed c) (uncompressed_size c) (uncompressed_hash c))
              checksums in
            let checksums := files_set "primary.idx" (fun c =>
              mkChecksum (file_size c) (getHash out)
                (is_compressed c) (uncompressed_size c) (uncompressed_hash c))
              checksums in
            Some (checksums, fs, set_index_stream None self)
        | None => None
        end
      else Some (checksums, fs, self) in
    match after_index with
    | None => Undefined
    | Some (checksums, fs, self) =>
        let '(checksums, fs) :=
          finalize_streams false (column_streams (base self)) checksums fs in
        let self := set_base (set_column_streams ∅ (base self)) self in
        if marks_count self =? 0 then
          let fs := remove_recursive (part_path self) fs in
          let checksums : Checksums := ∅ in
          Returns checksums (self, fs)
        else
          let fs :=
            store_file (part_path self +:+ "columns.txt")
              (NamesAndTypesList_writeText total_column_list) fs in
          let fs :=
            store_file (part_path self +:+ "checksums.txt")
              (Checksums_write checksums) fs in
          Returns checksums (self, fs)
    end.

(** The overload without arguments. *)
Definition writeSuffixAndGetChecksums_own
    : M (MergedBlockOutputStream * FileSystem) Checksums :=
  fun '(self, fs) =>
    writeSuffixAndGetChecksums (columns_list self) None (self, fs).

End Writers.

Arguments ColumnWithTypeAndName : clear implicits.
Arguments Block : clear implicits.
Arguments MergedBlockOutputStream : clear implicits.

(** ** MergedColumnOnlyOutputStream *)
Module ColumnOnly.
Section ColumnOnly.

Context {DataType Field : Type}.
Context `{!IDataType DataType Field} `{!IOEnv DataType}.

Record MergedColumnOnlyOutputStream := mkMergedColumnOnlyOutputStream {
  base : IMergedBlockOutputStream;
  part_path : string;
  initialized : bool;
  sync : bool;
  skip_offsets : bool;
}.

Definition set_base (b : IMergedBlockOutputStream)
    (self : MergedColumnOnlyOutputStream) : MergedColumnOnlyOutputStream :=
  mkMergedColumnOnlyOutputStream b (part_path self) (initialized self)
    (sync self) (skip_offsets self).

Definition set_initialized (flag : bool)
    (self : MergedColumnOnlyOutputStream) : MergedColumnOnlyOutputStream :=
  mkMergedColumnOnlyOutputStream (base self) (part_path self) flag
    (sync self) (skip_offsets self).

(** The constructor; [initialized] starts false. *)
Definition MergedColumnOnlyOutputStream_new (storage_ : MergeTreeData)
    (part_path_ : string) (sync_ : bool)
    (compression_method_ : CompressionMethod) (skip_offsets_ : bool)
    : MergedColumnOnlyOutputStream :=
  mkMergedColumnOnlyOutputStream
    (IMergedBlockOutputStream_new storage_
       (settings_min_compress_block_size (getSettings storage_))
       (settings_max_compress_block_size (getSettings storage_))
       compression_method_
       (settings_min_bytes_to_use_direct_io (getSettings storage_)))
    part_path_ false sync_ skip_offsets_.

(** The lazy initialization at the first block: the streams of the
    columns of that block. *)
Definition initialize (block : Block DataType Field)
    (st : MergedColumnOnlyOutputStream * FileSystem)
    : MergedColumnOnlyOutputStream * FileSystem :=
  let '(self, fs) := st in
  if initialized self then (self, fs)
  else
    let '(b, fs) :=
      fold_left
        (fun st elem =>
           addStream (part_path self) (name elem) (type elem) 0
             (skip_offsets self) st)
        block (set_column_streams ∅ (base self), fs) in
    (set_initialized true (set_base b self), fs).

(** [MergedColumnOnlyOutputStream::write] *)
Definition write (fuel : nat) (block : Block DataType Field)
    : M (MergedColumnOnlyOutputStream * FileSystem) unit :=
  fun st =>
    let '(self, fs) := initialize block st in
    let rows_ := rows block in
    let offset_columns : gset string := ∅ in
    on_base (fun st => base st.1) (fun b st => (set_base b st.1, st.2))
      (do for_each block (fun elem =>
            writeData fuel (name elem) (type elem) (column elem)
              offset_columns (skip_offsets self)) then
       update_index_offset rows_)
      (self, fs).

(** [MergedColumnOnlyOutputStream::writeSuffix] *)
Definition writeSuffix
    : M (MergedColumnOnlyOutputStream * FileSystem) unit :=
  throw NOT_IMPLEMENTED.

(** [MergedColumnOnlyOutputStream::writeSuffixAndGetChecksums] *)
Definition writeSuffixAndGetChecksums
    : M (MergedColumnOnlyOutputStream * FileSystem) Checksums :=
  fun '(self, fs) =>
    let '(checksums, fs) :=
      finalize_streams (sync self) (column_streams (base self)) ∅ fs in
    Returns checksums
      (set_initialized false
         (set_base (set_column_streams ∅ (base self)) self), fs).

End ColumnOnly.
End ColumnOnly.

(** ** A small type system

    [IDataType] and its implementations are declared outside this file.
    The instance below follows [DataTypeNumber], [DataTypeArray] and
    [IDataType::getFileNameForStream] for one scalar type and arrays of
    it; it is what the examples run on.  The theorems hold for every
    instance. *)
Module Example.

Inductive DataType :=
  | UInt8
  | Array (nested : DataType).

#[warnings="-register-all"]
Inductive Field :=
  | UInt (z : Z)
  | Arr (elements : list Field).

Definition elements_of (v : Field) : list Field :=
  match v with
  | UInt _ => []
  | Arr l => l
  end.

Fixpoint enumerate (type : DataType) (path : SubstreamPath)
    : list SubstreamPath :=
  match type with
  | UInt8 => [path]
  | Array nested =>
      (path ++ [ArraySizes]) :: enumerate nested (path ++ [ArrayElements])
  end.

(** [Nested::extractTableName]: the part of the name before the dot. *)
Fixpoint extractTableName (column_name : string) : string :=
  match column_name with
  | EmptyString => EmptyString
  | String c rest =>
      if Ascii.eqb c "."%char then EmptyString
      else String c (extractTableName rest)
  end.

(** [escapeForFileName] on names made of letters, digits, [_] and [.]. *)
Fixpoint escapeForFileName (s : string) : string :=
  match s with
  | EmptyString => EmptyString
  | String c rest =>
      if Ascii.eqb c "."%char then "%2E" +:+ escapeForFileName rest
      else String c (escapeForFileName rest)
  end.

Definition toString (n : nat) : string :=
  DecimalString.NilEmpty.string_of_uint (Nat.to_uint n).

Fixpoint stream_suffix (path : SubstreamPath) (array_level : nat) : string :=
  match path with
  | [] => ""
  | NullMap :: rest => ".null" +:+ stream_suffix rest array_level
  | ArraySizes :: rest =>
      ".size" +:+ toString array_level +:+ stream_suffix rest array_level
  | ArrayElements :: rest => stream_suffix rest (S array_level)
  | NullableElements :: rest => stream_suffix rest array_level
  end.

Definition fileNameForStream (column_name : string) (path : SubstreamPath)
    : string :=
  let nested_table_name := extractTableName column_name in
  let is_sizes_of_nested_type :=
    is_array_sizes path && negb (String.eqb nested_table_name column_name) in
  escapeForFileName
    (if is_sizes_of_nested_type then nested_table_name else column_name)
  +:+ stream_suffix path 0.

Definition value_byte (v : Field) : byte :=
  match v with
  | UInt z => byte_of_Z z
  | Arr _ => x00
  end.

Fixpoint serializeBulk (type : DataType) (rows_ : list Field)
    (path : SubstreamPath) : list (SubstreamPath * list byte) :=
  match type with
  | UInt8 => [(path, map value_byte rows_)]
  | Array nested =>
      (path ++ [ArraySizes],
       flat_map (fun v => writeIntBinary_bytes
                            (Z.of_nat (length (elements_of v)))) rows_)
      :: serializeBulk nested (flat_map elements_of rows_)
           (path ++ [ArrayElements])
  end.

(** Rows [offset, offset + limit) of the column; [limit = 0] means all
    the rows from [offset] on. *)
Definition row_range (column : list Field) (offset limit : Z) : list Field :=
  let rest := drop (Z.to_nat offset) column in
  if limit =? 0 then rest else take (Z.to_nat limit) rest.

Fixpoint serializeValue (type : DataType) (v : Field) : list byte :=
  match type with
  | UInt8 => [value_byte v]
  | Array nested =>
      writeIntBinary_bytes (Z.of_nat (length (elements_of v)))
      ++ flat_map (serializeValue nested) (elements_of v)
  end.

#[export] Instance type_system : IDataType DataType Field := {
  enumerateStreams type := enumerate type [];
  getFileNameForStream := fileNameForStream;
  serializeBinaryBulkWithMultipleStreams type column offset limit :=
    serializeBulk type (row_range column offset limit) [];
  serializeBinary := serializeValue;
}.

(** A codec that stores a block behind its length, and a small buffer. *)
#[export] Instance io_env : IOEnv DataType := {
  compress _ block := byte_of_Z (Z.of_nat (length block)) :: block;
  buffer_size := 16%nat;
  getHash bytes := (Z.of_nat (length bytes), 0);
  NamesAndTypesList_writeText columns :=
    flat_map (fun it => [byte_of_Z (Z.of_nat (String.length it.1))]) columns;
  Checksums_write checksums := [byte_of_Z (Z.of_nat (size checksums))];
}.

Definition settings : Settings := mkSettings 8 16 0.

Definition storage_of (granularity : Z) (mode : Mode) : MergeTreeData :=
  mkMergeTreeData granularity mode [mkSortColumnDescription "k" 0] settings.

Definition no_files : FileSystem := mkFileSystem ∅ ∅.

Definition key_column (values : list Z)
    : ColumnWithTypeAndName DataType Field :=
  mkColumnWithTypeAndName (map UInt values) UInt8 "k".

(** The writer of a part with the single key column [k]. *)
Definition key_writer (granularity : Z) (mode : Mode)
    : MergedBlockOutputStream DataType Field * FileSystem :=
  MergedBlockOutputStream_new (storage_of granularity mode) "/part/"
    [("k", UInt8)] LZ4 no_files.

(** Ten rows of the key column, in one block and in two. *)
Definition ten_rows : Block DataType Field :=
  [key_column [0; 1; 2; 3; 4; 5; 6; 7; 8; 9]].

Definition first_five : Block DataType Field := [key_column [0; 1; 2; 3; 4]].

Definition last_five : Block DataType Field := [key_column [5; 6; 7; 8; 9]].

(** Three rows with the key and a value column, not yet sorted. *)
Definition unsorted_rows : Block DataType Field :=
  [key_column [5; 3; 9];
   mkColumnWithTypeAndName [UInt 50; UInt 30; UInt 90] UInt8 "v"].

Definition key_value_writer : MergedBlockOutputStream DataType Field * FileSystem :=
  MergedBlockOutputStream_new (storage_of 4 Ordinary) "/part/"
    [("k", UInt8); ("v", UInt8)] LZ4 no_files.

(** A part with the nested structure [n] of two arrays, and one row of it. *)
Definition nested_writer : MergedBlockOutputStream DataType Field * FileSystem :=
  MergedBlockOutputStream_new (storage_of 4 Ordinary) "/part/"
    [("k", UInt8); ("n.a", Array UInt8); ("n.b", Array UInt8)] LZ4 no_files.

Definition nested_row : Block DataType Field :=
  [key_column [7];
   mkColumnWithTypeAndName [Arr [UInt 1]] (Array UInt8) "n.a";
   mkColumnWithTypeAndName [Arr [UInt 2]] (Array UInt8) "n.b"].

(** A part whose sort description has the key twice, by name and by
    position. *)
Definition twice_keyed_writer
    : MergedBlockOutputStream DataType Field * FileSystem :=
  MergedBlockOutputStream_new
    (mkMergeTreeData 4 Ordinary
       [mkSortColumnDescription "k" 0; mkSortColumnDescription "" 0] settings)
    "/part/" [("k", UInt8)] LZ4 no_files.

End Example.


(** * Notions used in the statements *)

Section Notions.

Context {DataType Field : Type}.
Context `{!IDataType DataType Field} `{!IOEnv DataType}.

(** The three updates that [writeData] applies to a stream. *)
Inductive stream_update : (ColumnStream -> ColumnStream) -> Prop :=
  | update_mark (m : Z) : stream_update (write_mark m)
  | update_write (bytes : list byte) : stream_update (compressed_write bytes)
  | update_nextIfAtEnd : stream_update compressed_nextIfAtEnd.

(** The granules of one [writeData] call: the values of [prev_mark] and
    [limit] of the iterations of its loop, as long as the fuel lasts. *)
Fixpoint granules (fuel : nat) (granularity offset size prev_mark : Z)
    : option (list (Z * Z)) :=
  if prev_mark <? size then
    match fuel with
    | O => None
    | S fuel' =>
        let limit :=
          if (prev_mark =? 0) && negb (offset =? 0) then offset
          else granularity in
        option_map (cons (prev_mark, limit))
          (granules fuel' granularity offset size (wrap (prev_mark + limit)))
    end
  else Some [].

(** An iteration writes marks unless it is the short first granule. *)
Definition is_marked (offset : Z) (granule : Z * Z) : bool :=
  negb ((granule.1 =? 0) && negb (offset =? 0)).

(** The body of the loop of [writeData] at one granule. *)
Definition write_granule (name_ : string) (type_ : DataType)
    (column_ : list Field) (skip_offsets : bool)
    (min_compress_block_size_ offset : Z) (granule : Z * Z)
    : M IMergedBlockOutputStream unit :=
  do (if is_marked offset granule
      then for_each_stream name_ type_ skip_offsets
             (write_mark min_compress_block_size_)
      else ret tt) then
  do serialize_granule name_ type_ column_ skip_offsets granule.1 granule.2 then
  for_each_stream name_ type_ skip_offsets compressed_nextIfAtEnd.

(** Every stream that [writeData] looks up for the column exists. *)
Definition streams_ready (name_ : string) (type_ : DataType)
    (column_ : list Field) (skip_offsets : bool)
    (streams : gmap string ColumnStream) : Prop :=
  (forall path, In path (enumerateStreams type_) ->
     skip_offsets && is_array_sizes path = false ->
     is_Some (streams !! getFileNameForStream name_ path)) /\
  (forall offset limit path bytes,
     In (path, bytes)
        (serializeBinaryBulkWithMultipleStreams type_ column_ offset limit) ->
     skip_offsets && is_array_sizes path = false ->
     is_Some (streams !! getFileNameForStream name_ path)).

(** Two states of the writer that differ in the content of the streams
    only. *)
Definition same_frame (a b : IMergedBlockOutputStream) : Prop :=
  storage b = storage a /\
  min_compress_block_size b = min_compress_block_size a /\
  max_compress_block_size b = max_compress_block_size a /\
  aio_threshold b = aio_threshold a /\
  compression_method b = compression_method a /\
  index_offset b = index_offset a /\
  dom (column_streams b) = dom (column_streams a).

(** The names of the streams of a column, in enumeration order. *)
Definition stream_names (name_ : string) (type_ : DataType)
    (skip_offsets : bool) : list string :=
  map (getFileNameForStream name_)
    (filter (fun path => skip_offsets && is_array_sizes path = false)
       (enumerateStreams type_)).

(** *** Streams *)

(** A stream of the part under [path]: its two files are named after the
    stream, with the extensions of data and of marks. *)
Definition stream_of_part (path : string) (s : ColumnStream) : Prop :=
  data_file_extension s = DATA_FILE_EXTENSION /\
  marks_file_extension s = MARKS_FILE_EXTENSION /\
  plain_file s = (path +:+ escaped_column_name s) +:+ DATA_FILE_EXTENSION /\
  marks_file s = (path +:+ escaped_column_name s) +:+ MARKS_FILE_EXTENSION.

(** The marks of a stream, as the pairs they were written in. *)
Fixpoint mark_pairs (ints : list Z) : list (Z * Z) :=
  match ints with
  | physical :: logical :: rest => (physical, logical) :: mark_pairs rest
  | _ => []
  end.

(** The physical offsets of the marks of a stream never decrease, and
    none is beyond the bytes that reached the data file. *)
Definition marks_monotone (s : ColumnStream) : Prop :=
  Nat.Even (length (marks s)) /\
  StronglySorted Z.le (map fst (mark_pairs (marks s))) /\
  Forall (fun mark => mark.1 <= plain_hashing_count s) (mark_pairs (marks s)).

(** Every stream of the writer has the property [Q]. *)
Definition all_streams (Q : ColumnStream -> Prop)
    (self : IMergedBlockOutputStream) : Prop :=
  forall n s, column_streams self !! n = Some s -> Q s.

(** *** Sequences of calls *)

(** The rows that a sequence of calls writes. *)
Definition written_rows
    (calls : list (Block DataType Field * option (list nat))) : Z :=
  foldr (fun call n => rows call.1 + n) 0 calls.


(** [write] called on the blocks of a list, in order. *)
Definition write_all (fuel : nat) (blocks : list (Block DataType Field))
    : M (MergedBlockOutputStream DataType Field) unit :=
  for_each blocks (write fuel).

(** [write] or [writeWithPermutation] called on a list of blocks, each
    with its permutation if it has one. *)
Definition write_calls (fuel : nat)
    (calls : list (Block DataType Field * option (list nat)))
    : M (MergedBlockOutputStream DataType Field) unit :=
  for_each calls (fun call => writeImpl fuel call.1 call.2).

(** *** Permutations *)

(** The column with its rows in the order of the permutation. *)
Definition permuted (c : list Field) (perm : list nat) : list Field :=
  default [] (mapM (fun k => c !! k) (take (length c) perm)).

(** The block with every column permuted: the rows sorted physically. *)
Definition permute_block (block : Block DataType Field) (perm : list nat)
    : Block DataType Field :=
  map (fun elem =>
         mkColumnWithTypeAndName (permuted (column elem) perm) (type elem)
           (name elem)) block.

(** *** Rows *)

(** A row of a block: the name, the type and the value of every column. *)
Definition Row : Type := list (string * DataType * Field).

Definition row_at (block : Block DataType Field) (i : nat) : option Row :=
  mapM (fun elem =>
          match column elem !! i with
          | Some v => Some (name elem, type elem, v)
          | None => None
          end) block.

(** The rows of a block, first to last. *)
Definition block_rows (block : Block DataType Field) : list Row :=
  default [] (mapM (row_at block) (seq 0 (Z.to_nat (rows block)))).

(** The rows of a sequence of blocks. *)
Definition total_rows (blocks : list (Block DataType Field)) : list Row :=
  concat (map block_rows blocks).

(** The primary key of a row: for each element of the sort description
    the type and the value of the column it names. *)
Definition key_of_row (sort_description : list SortColumnDescription)
    (row : Row) : option (list (DataType * Field)) :=
  mapM (fun descr =>
          match
            (if negb (String.eqb (column_name descr) "")
             then find (fun cell => String.eqb cell.1.1 (column_name descr)) row
             else row !! column_number descr)
          with
          | Some cell => Some (cell.1.2, cell.2)
          | None => None
          end) sort_description.

(** *** Sampling *)

(** Of a list, the element after [skip] elements and then every
    [granularity]-th one. *)
Fixpoint sample_from {A} (granularity : Z) (skip : nat) (l : list A)
    : list A :=
  match l with
  | [] => []
  | x :: l' =>
      match skip with
      | O => x :: sample_from granularity (Z.to_nat (granularity - 1)) l'
      | S k => sample_from granularity k l'
      end
  end.

(** *** The primary index *)

(** The values of the index column [j]; none before the index exists. *)
Definition index_column_at (self : MergedBlockOutputStream DataType Field)
    (j : nat) : list Field :=
  default [] (index_columns self !! j).

(** The index as the first block initializes it: one empty column per
    element of the sort description. *)
Definition ensure_index (n : nat) (self : MergedBlockOutputStream DataType Field)
    : MergedBlockOutputStream DataType Field :=
  match index_columns self with
  | [] => set_index_columns (replicate n []) self
  | _ => self
  end.

(** Two states of the full writer that differ in the content of the
    streams only. *)
Definition only_streams_changed
    (self0 self : MergedBlockOutputStream DataType Field) : Prop :=
  exists b, self = set_base b self0 /\ same_frame (base self0) b.

(** The column of a block that an element of the sort description names. *)
Definition lookup_column (block : Block DataType Field)
    (descr : SortColumnDescription)
    : option (ColumnWithTypeAndName DataType Field) :=
  if negb (String.eqb (column_name descr) "")
  then find (fun elem => String.eqb (name elem) (column_name descr)) block
  else block !! column_number descr.

(** The index columns, as they are once the first block has come. *)
Definition index_view (n : nat) (self : MergedBlockOutputStream DataType Field)
    : list (list Field) :=
  index_columns (ensure_index n self).

(** The count of marks, the bytes of [primary.idx] and the index columns. *)
Definition index_summary (n : nat)
    (self : MergedBlockOutputStream DataType Field)
    : Z * option (list byte) * list (list Field) :=
  (marks_count self, index_stream self, index_view n self).

Definition is_sorted (self : MergedBlockOutputStream DataType Field) : bool :=
  bool_decide (mode_of self ≠ Unsorted).

(** [sample_row] on the summary. *)
Definition summary_step (sorted : bool)
    (summary : Z * option (list byte) * list (list Field))
    (key : list (DataType * Field))
    : Z * option (list byte) * list (list Field) :=
  (wrap (summary.1.1 + 1),
   if sorted
   then option_map (fun out => out ++ flat_map (fun tv => serializeBinary tv.1 tv.2) key)
          summary.1.2
   else summary.1.2,
   if sorted
   then zip_with (fun col tv => col ++ [tv.2]) summary.2 key
   else summary.2).

(** The state in which the writer takes a call: the carried offset is
    below the granularity, the index has no column yet or one per element
    of the sort description, and [primary.idx] is open in the sorted
    modes. *)
Definition writer_ready (self : MergedBlockOutputStream DataType Field)
    : Prop :=
  0 <= index_offset (base self) < index_granularity (storage (base self)) /\
  (index_columns self = [] \/
   length (index_columns self)
   = length (getSortDescription (storage (base self)))) /\
  (mode_of self <> Unsorted -> is_Some (index_stream self)).

(** In a sorted mode the index columns all have [marks_count] values, as
    far as a [size_t] can tell. *)
Definition index_in_step (self : MergedBlockOutputStream DataType Field)
    : Prop :=
  mode_of self <> Unsorted /\
  (index_columns self = [] /\ marks_count self = 0 \/
   length (index_columns self)
   = length (getSortDescription (storage (base self)))) /\
  Forall (fun col => wrap (IColumn_size col) = marks_count self)
    (index_columns self).

(** The binary image of a primary key in [primary.idx]. *)
Definition key_image (key : list (DataType * Field)) : list byte :=
  flat_map (fun tv => serializeBinary tv.1 tv.2) key.

(** What one sampled row does to the index and to the count of marks. *)
Definition push_key (key : list (DataType * Field))
    (self : MergedBlockOutputStream DataType Field)
    : MergedBlockOutputStream DataType Field :=
  set_index_stream
    (option_map (fun out => out ++ key_image key) (index_stream self))
    (set_index_columns
       (zip_with (fun col tv => col ++ [tv.2]) (index_columns self) key) self).

Definition sample_row (key : list (DataType * Field))
    (self : MergedBlockOutputStream DataType Field)
    : MergedBlockOutputStream DataType Field :=
  set_marks_count (wrap (marks_count self + 1))
    (if decide (mode_of self ≠ Unsorted) then push_key key self else self).

(** The key of row [i] of the resolved primary key columns. *)
Definition key_at (primary_columns : list (ColumnWithTypeAndName DataType Field))
    (i : nat) : option (list (DataType * Field)) :=
  mapM (fun elem =>
          match column elem !! i with
          | Some v => Some (type elem, v)
          | None => None
          end) primary_columns.

(** *** Streams as [addStream] creates them *)

(** The two files of the stream [n] of the part under [path]. *)
Definition stream_files (path n : string) : list string :=
  [(path +:+ n) +:+ DATA_FILE_EXTENSION; (path +:+ n) +:+ MARKS_FILE_EXTENSION].

(** The stream [n] with nothing written to it yet. *)
Definition empty_stream (path n : string) (method : CompressionMethod)
    : ColumnStream :=
  mkColumnStream n DATA_FILE_EXTENSION MARKS_FILE_EXTENSION
    ((path +:+ n) +:+ DATA_FILE_EXTENSION) method [] [] []
    ((path +:+ n) +:+ MARKS_FILE_EXTENSION) [].

(** The fields of the writer that [addStream] and [writeData] leave alone. *)
Definition same_settings (a b : IMergedBlockOutputStream) : Prop :=
  storage b = storage a /\
  min_compress_block_size b = min_compress_block_size a /\
  max_compress_block_size b = max_compress_block_size a /\
  aio_threshold b = aio_threshold a /\
  compression_method b = compression_method a /\
  index_offset b = index_offset a.

(** What adding the streams [names] under [path] does to the writer and
    to the file system: a stream that exists is kept as it is, a missing
    one is created empty together with its two files, and nothing else
    changes. *)
Definition streams_added (path : string) (names : list string)
    (st st' : IMergedBlockOutputStream * FileSystem) : Prop :=
  same_settings st.1 st'.1 /\
  (forall n s, column_streams st.1 !! n = Some s ->
     column_streams st'.1 !! n = Some s) /\
  (forall n, column_streams st.1 !! n = None ->
     column_streams st'.1 !! n
     = if decide (n ∈ names)
       then Some (empty_stream path n (compression_method st.1)) else None) /\
  directories st'.2 = directories st.2 /\
  (forall n file, n ∈ names -> column_streams st.1 !! n = None ->
     file ∈ stream_files path n -> files st'.2 !! file = Some []) /\
  (forall file,
     (forall n, n ∈ names -> column_streams st.1 !! n = None ->
        file ∉ stream_files path n) ->
     files st'.2 !! file = files st.2 !! file).

(** The names of the streams of a list of columns. *)
Definition part_stream_names (columns : list (string * DataType))
    (skip_offsets : bool) : list string :=
  flat_map (fun it => stream_names it.1 it.2 skip_offsets) columns.

(** The name under which an element of the sort description enters the
    map of the primary key columns. *)
Definition sort_column_name (block : Block DataType Field)
    (descr : SortColumnDescription) : option string :=
  if negb (String.eqb (column_name descr) "") then Some (column_name descr)
  else option_map name (block !! column_number descr).

(** The values of the key column [j] in a list of primary keys. *)
Definition key_column_values (j : nat) (keys : list (list (DataType * Field)))
    : list Field :=
  omap (fun key : list (DataType * Field) => option_map snd (key !! j)) keys.

(** *** The files and the checksums of a finalized stream *)

(** The stream [n], in the state [s] in which the suffix function found
    it, is on disk and in the checksums: its data file holds the
    compressed blocks, the last one closed, and its marks file holds the
    marks; the two entries of the checksums give the sizes and the hashes
    of these very contents, and for the data also the size and the hash of
    what was compressed. *)
Definition stream_checksummed (path n : string) (s : ColumnStream)
    (checksums : Checksums) (fs : FileSystem) : Prop :=
  let data := plain_hashing (compressed_next s) in
  let uncompressed := compressed_blocks s ++ compressed s in
  files fs !! ((path +:+ n) +:+ DATA_FILE_EXTENSION) = Some data /\
  files fs !! ((path +:+ n) +:+ MARKS_FILE_EXTENSION) = Some (marks_bytes s) /\
  (exists c, checksums !! (n +:+ DATA_FILE_EXTENSION) = Some c /\
     file_size c = Z.of_nat (length data) /\
     file_hash c = getHash data /\
     is_compressed c = true /\
     uncompressed_size c = Z.of_nat (length uncompressed) /\
     uncompressed_hash c = getHash uncompressed) /\
  (exists c, checksums !! (n +:+ MARKS_FILE_EXTENSION) = Some c /\
     file_size c = Z.of_nat (length (marks_bytes s)) /\
     file_hash c = getHash (marks_bytes s)).

(** The rows of the part at which the granules that get a mark start,
    when columns of [sizes] rows are written one after the other: of each
    [writeData] call the granules that are marked, their first rows
    counted from the first row of the part.  [offset] is the carried
    [index_offset] and [before] the number of rows written before. *)
Fixpoint marked_rows (granularity offset before : Z) (sizes : list Z)
    : list Z :=
  match sizes with
  | [] => []
  | size :: rest =>
      map (fun granule : Z * Z => before + granule.1)
        (List.filter (is_marked offset)
           (default []
              (granules (Z.to_nat size) granularity offset size 0)))
      ++ marked_rows granularity (next_index_offset granularity offset size)
           (before + size) rest
  end.

(** The number of columns of the list that a stream belongs to. *)
Definition stream_uses (columns : list (string * DataType)) (n : string)
    : nat :=
  count_occ string_dec (part_stream_names columns false) n.

(** What was written into the data of a stream, before compression: the
    blocks that were closed and the open one. *)
Definition uncompressed_data (s : ColumnStream) : list byte :=
  compressed_blocks s ++ compressed s.

(** The bytes that the serializer yields for the stream [n] when it is run
    on one granule of a column. *)
Definition granule_bytes (name_ : string) (type_ : DataType)
    (column_ : list Field) (skip_offsets : bool) (n : string)
    (granule : Z * Z) : list byte :=
  flat_map (fun '(substream_path, bytes) =>
              if skip_offsets && is_array_sizes substream_path then []
              else if decide (n = getFileNameForStream name_ substream_path)
                   then bytes else [])
    (serializeBinaryBulkWithMultipleStreams type_ column_ granule.1 granule.2).

(** A stream of the part under [path] that is registered under its own
    name. *)
Definition stream_registered (path n : string) (s : ColumnStream) : Prop :=
  escaped_column_name s = n /\ stream_of_part path s.

End Notions.

(** * Properties *)

(** ** The outcome monad *)

Lemma bind_Returns {S A B} (m : M S A) (k : A -> M S B) s b s' :
  bind m k s = Returns b s' <->
  exists a s1, m s = Returns a s1 /\ k a s1 = Returns b s'.
Proof.
  unfold bind. split.
  - destruct (m s) as [a s1| | |]; try discriminate. eauto.
  - intros (a & s1 & -> & H). exact H.
Qed.

Lemma bind_eq {S A B} (m : M S A) (k : A -> M S B) s a s1 :
  m s = Returns a s1 -> bind m k s = k a s1.
Proof. unfold bind. now intros ->. Qed.

Lemma for_each_app {S A} (l1 l2 : list A) (body : A -> M S unit) s :
  for_each (l1 ++ l2) body s
  = (do for_each l1 body then for_each l2 body) s.
Proof.
  revert s. induction l1 as [|x l1 IH]; intros s; simpl.
  - reflexivity.
  - unfold bind in *. destruct (body x s); try reflexivity. apply IH.
Qed.

Lemma keeps_ret {S A} (P : S -> Prop) (a : A) : keeps P (ret a).
Proof. intros s Hs. exact Hs. Qed.

Lemma keeps_bind {S A B} (P : S -> Prop) (m : M S A) (k : A -> M S B) :
  keeps P m -> (forall a, keeps P (k a)) -> keeps P (bind m k).
Proof.
  intros Hm Hk s Hs. unfold bind. specialize (Hm s Hs).
  destruct (m s) as [a s1|e s1| |]; try exact Hm; try exact I.
  now apply Hk.
Qed.

Lemma keeps_get {S} (P : S -> Prop) : keeps P get.
Proof. intros s Hs. exact Hs. Qed.

Lemma keeps_for_each {S A} (P : S -> Prop) (l : list A)
    (body : A -> M S unit) :
  (forall x, keeps P (body x)) -> keeps P (for_each l body).
Proof.
  intros Hbody. induction l as [|x l IH]; simpl.
  - apply keeps_ret.
  - apply keeps_bind; [apply Hbody | intros _; exact IH].
Qed.

Lemma keeps_Returns {S A} (P : S -> Prop) (m : M S A) s a s' :
  keeps P m -> P s -> m s = Returns a s' -> P s'.
Proof. intros Hm Hs E. specialize (Hm s Hs). now rewrite E in Hm. Qed.

Lemma for_each_returns {S A} (I : S -> Prop) (l : list A)
    (body : A -> M S unit) :
  (forall x s, In x l -> I s -> exists s', body x s = Returns tt s' /\ I s') ->
  forall s, I s -> exists s', for_each l body s = Returns tt s' /\ I s'.
Proof.
  induction l as [|x l IH]; intros Hbody s Hs; simpl.
  - eauto.
  - destruct (Hbody x s (or_introl eq_refl) Hs) as (s1 & E1 & H1).
    unfold bind. rewrite E1. apply IH; [|exact H1].
    intros y s2 Hy. apply Hbody. now right.
Qed.

(** ** The granules of a column *)

Lemma wrap_small z : 0 <= z < size_t_modulus -> wrap z = z.
Proof. intros H. unfold wrap. now apply Z.mod_small. Qed.

Lemma granules_enough g io size :
  1 <= g -> 0 <= io < size_t_modulus -> size + g <= size_t_modulus ->
  forall fuel pm, 0 <= pm -> (Z.to_nat (size - pm) <= fuel)%nat ->
  exists l, granules fuel g io size pm = Some l.
Proof.
  intros Hg Hio Hsize. induction fuel as [|fuel IH]; intros pm Hpm Hfuel.
  - simpl. destruct (pm <? size) eqn:E; [|eauto].
    apply Z.ltb_lt in E. lia.
  - simpl. destruct (pm <? size) eqn:E; [|eauto].
    apply Z.ltb_lt in E.
    assert (Hlimit : 1 <= (if (pm =? 0) && negb (io =? 0) then io else g)
                     /\ pm + (if (pm =? 0) && negb (io =? 0) then io else g)
                        < size_t_modulus).
    { destruct (pm =? 0) eqn:E0; destruct (io =? 0) eqn:E1; simpl;
        try apply Z.eqb_eq in E0; try apply Z.eqb_neq in E1; lia. }
    destruct Hlimit as [H1 H2].
    rewrite wrap_small by lia.
    destruct (IH (pm + (if (pm =? 0) && negb (io =? 0) then io else g)))
      as [l ->]; [lia | lia |].
    simpl. eauto.
Qed.

(** The rows at which the granules start increase strictly, each granule
    has at least one row, and every granule but a short first one is
    marked. *)
Lemma granules_sorted g io size :
  1 <= g -> 0 <= io < size_t_modulus -> size + g <= size_t_modulus ->
  forall fuel pm l, 0 <= pm -> granules fuel g io size pm = Some l ->
  StronglySorted Z.lt (map fst l) /\
  Forall (fun gr => pm <= gr.1 < size /\ 1 <= gr.2) l.
Proof.
  intros Hg Hio Hsize. induction fuel as [|fuel IH]; intros pm l Hpm G.
  - simpl in G. destruct (pm <? size); [discriminate|].
    injection G as <-. split; constructor.
  - simpl in G. destruct (pm <? size) eqn:E.
    2:{ injection G as <-. split; constructor. }
    apply Z.ltb_lt in E.
    set (limit := if (pm =? 0) && negb (io =? 0) then io else g) in *.
    assert (Hlimit : 1 <= limit /\ pm + limit < size_t_modulus).
    { subst limit. destruct (pm =? 0) eqn:E0; destruct (io =? 0) eqn:E1; simpl;
        try apply Z.eqb_eq in E0; try apply Z.eqb_neq in E1; lia. }
    destruct Hlimit as [H1 H2].
    rewrite wrap_small in G by lia.
    destruct (granules fuel g io size (pm + limit)) as [l'|] eqn:G';
      [|discriminate].
    injection G as <-.
    destruct (IH (pm + limit) l') as [S1 S2]; [lia | exact G' |].
    split.
    + simpl. constructor; [exact S1|].
      rewrite Forall_map. eapply Forall_impl; [exact S2|].
      simpl. intros gr Hgr. lia.
    + constructor; [simpl; lia|].
      eapply Forall_impl; [exact S2|]. simpl. intros gr Hgr. lia.
Qed.

(** With a granularity of zero the loop makes no progress. *)
Lemma granules_zero size : 0 < size ->
  forall fuel, granules fuel 0 0 size 0 = None.
Proof.
  intros Hsize. induction fuel as [|fuel IH]; simpl.
  - destruct (0 <? size) eqn:E; [reflexivity|]. apply Z.ltb_ge in E. lia.
  - destruct (0 <? size) eqn:E; [|apply Z.ltb_ge in E; lia].
    simpl. change (wrap (0 + 0)) with 0. rewrite IH. reflexivity.
Qed.

Section WriteData.

Context {DataType Field : Type}.
Context `{!IDataType DataType Field} `{!IOEnv DataType}.

(** *** Frame: what [writeData] leaves alone *)

Lemma with_stream_outcome (n : string) (f : ColumnStream -> ColumnStream)
    (self : IMergedBlockOutputStream) :
  with_stream n f self
  = match column_streams self !! n with
    | Some s =>
        Returns tt (set_column_streams (<[n := f s]> (column_streams self)) self)
    | None => Undefined
    end.
Proof. reflexivity. Qed.

(** An invariant of the writer that every stream update keeps is kept by
    [writeData]. *)
Section Invariant.

Variable P : IMergedBlockOutputStream -> Prop.
Hypothesis P_update : forall self n s f,
  stream_update f -> P self -> column_streams self !! n = Some s ->
  P (set_column_streams (<[n := f s]> (column_streams self)) self).

Lemma with_stream_keeps n f : stream_update f -> keeps P (with_stream n f).
Proof.
  intros Hf self HP. rewrite with_stream_outcome.
  destruct (column_streams self !! n) eqn:E; [|exact I].
  now apply P_update.
Qed.

Lemma for_each_stream_keeps name_ type_ skip f :
  stream_update f -> keeps P (for_each_stream name_ type_ skip f).
Proof.
  intros Hf. unfold for_each_stream. apply keeps_for_each.
  intros path. destruct (skip && is_array_sizes path).
  - apply keeps_ret.
  - now apply with_stream_keeps.
Qed.

Lemma serialize_granule_keeps name_ type_ column_ skip pm limit :
  keeps P (serialize_granule name_ type_ column_ skip pm limit).
Proof.
  unfold serialize_granule. apply keeps_for_each.
  intros [path bytes]. destruct (skip && is_array_sizes path).
  - apply keeps_ret.
  - apply with_stream_keeps. constructor.
Qed.

Lemma write_granule_keeps name_ type_ column_ skip m io gr :
  keeps P (write_granule name_ type_ column_ skip m io gr).
Proof.
  unfold write_granule.
  apply keeps_bind; [|intros _; apply keeps_bind; [|intros _]].
  - destruct (is_marked io gr); [|apply keeps_ret].
    apply for_each_stream_keeps. constructor.
  - apply serialize_granule_keeps.
  - apply for_each_stream_keeps. constructor.
Qed.

Lemma writeData_loop_keeps fuel name_ type_ column_ oc skip size pm :
  keeps P (writeData_loop fuel name_ type_ column_ oc skip size pm).
Proof.
  revert pm. induction fuel as [|fuel IH]; intros pm; simpl.
  - destruct (pm <? size); [intros s _; exact I | apply keeps_ret].
  - destruct (pm <? size); [|apply keeps_ret].
    apply keeps_bind; [apply keeps_get | intros self].
    apply keeps_bind; [|intros limit; apply keeps_bind; [|intros _; apply keeps_bind; [|intros _]]].
    + destruct ((pm =? 0) && negb (index_offset self =? 0)); [apply keeps_ret|].
      apply keeps_bind; [|intros _; apply keeps_ret].
      apply for_each_stream_keeps. constructor.
    + apply serialize_granule_keeps.
    + apply for_each_stream_keeps. constructor.
    + apply IH.
Qed.

Lemma writeData_keeps fuel name_ type_ column_ oc skip :
  keeps P (writeData fuel name_ type_ column_ oc skip).
Proof. apply writeData_loop_keeps. Qed.

End Invariant.

(** *** The frame *)

Lemma same_frame_refl self : same_frame self self.
Proof. repeat split. Qed.

Lemma same_frame_update self0 self n s (f : ColumnStream -> ColumnStream) :
  same_frame self0 self -> column_streams self !! n = Some s ->
  same_frame self0
    (set_column_streams (<[n := f s]> (column_streams self)) self).
Proof.
  intros (H1 & H2 & H3 & H4 & H5 & H6 & H7) Hn.
  repeat split; simpl; try assumption.
  rewrite dom_insert_L, <- H7.
  assert (Hin : n ∈ dom (column_streams self)) by (apply elem_of_dom; eauto).
  apply set_eq. intros x. rewrite elem_of_union, elem_of_singleton.
  split; [intros [->|Hx]; assumption | auto].
Qed.

Lemma writeData_loop_frame fuel name_ type_ column_ oc skip size pm self a self' :
  writeData_loop fuel name_ type_ column_ oc skip size pm self = Returns a self' ->
  same_frame self self'.
Proof.
  intros E.
  eapply (keeps_Returns (same_frame self)); [|apply same_frame_refl|exact E].
  apply writeData_loop_keeps.
  intros s n st f _ Hs Hn. now apply same_frame_update.
Qed.

Lemma write_granule_frame name_ type_ column_ skip m io gr self a self' :
  write_granule name_ type_ column_ skip m io gr self = Returns a self' ->
  same_frame self self'.
Proof.
  intros E.
  eapply (keeps_Returns (same_frame self)); [|apply same_frame_refl|exact E].
  apply write_granule_keeps.
  intros s n st f _ Hs Hn. now apply same_frame_update.
Qed.

(** *** The loop of [writeData] runs over its granules *)

Lemma writeData_loop_step fuel name_ type_ column_ oc skip size pm self :
  (pm <? size) = true ->
  let limit :=
    if (pm =? 0) && negb (index_offset self =? 0) then index_offset self
    else index_granularity (storage self) in
  writeData_loop (S fuel) name_ type_ column_ oc skip size pm self
  = (do write_granule name_ type_ column_ skip (min_compress_block_size self)
          (index_offset self) (pm, limit)
     then writeData_loop fuel name_ type_ column_ oc skip size
            (wrap (pm + limit))) self.
Proof.
  intros Hlt. simpl. rewrite Hlt. unfold write_granule, is_marked. simpl.
  unfold bind at 1. unfold get.
  destruct ((pm =? 0) && negb (index_offset self =? 0)); simpl;
    unfold bind, ret;
    repeat (match goal with
            | |- context [match ?m ?s with Returns _ _ => _ | _ => _ end] =>
                destruct (m s) as [[] ?|? ?| |]
            end; try reflexivity).
Qed.

Lemma writeData_loop_granules fuel name_ type_ column_ oc skip size :
  forall pm self l,
  granules fuel (index_granularity (storage self)) (index_offset self) size pm
  = Some l ->
  writeData_loop fuel name_ type_ column_ oc skip size pm self
  = for_each l
      (write_granule name_ type_ column_ skip (min_compress_block_size self)
         (index_offset self)) self.
Proof.
  induction fuel as [|fuel IH]; intros pm self l G.
  - simpl in *. destruct (pm <? size); [discriminate|].
    injection G as <-. reflexivity.
  - destruct (pm <? size) eqn:Hlt.
    + rewrite writeData_loop_step by exact Hlt.
      simpl in G. rewrite Hlt in G.
      destruct (granules fuel _ _ _ _) as [l'|] eqn:G'; [|discriminate].
      injection G as <-. simpl. unfold bind.
      destruct (write_granule _ _ _ _ _ _ _ self) as [[] s1|e s1| |] eqn:E;
        try reflexivity.
      apply write_granule_frame in E.
      destruct E as (E1 & E2 & _ & _ & _ & E6 & _).
      rewrite (IH _ s1 l'); rewrite ?E1, ?E2, ?E6; [reflexivity | exact G'].
    + simpl in *. rewrite Hlt in *. injection G as <-. reflexivity.
Qed.

(** *** The streams visited by an enumeration *)

Lemma for_each_stream_names name_ type_ skip f self :
  for_each_stream name_ type_ skip f self
  = for_each (stream_names name_ type_ skip) (fun n => with_stream n f) self.
Proof.
  unfold for_each_stream, stream_names.
  revert self. induction (enumerateStreams type_) as [|path l IH]; intros self.
  - reflexivity.
  - rewrite filter_cons. simpl for_each at 1.
    destruct (decide (skip && is_array_sizes path = false)) as [E|E].
    + rewrite E. simpl. unfold bind.
      destruct (with_stream _ f self); try reflexivity. apply IH.
    + apply not_false_is_true in E. rewrite E. unfold bind, ret. apply IH.
Qed.

Lemma for_each_with_stream_lookup (f : ColumnStream -> ColumnStream) ns :
  NoDup ns ->
  forall self self',
  for_each ns (fun n => with_stream n f) self = Returns tt self' ->
  forall n,
    column_streams self' !! n
    = if decide (n ∈ ns) then f <$> column_streams self !! n
      else column_streams self !! n.
Proof.
  induction 1 as [|n0 ns Hn0 Hns IH]; intros self self' E n.
  - injection E as <-. rewrite decide_False; [reflexivity | apply not_elem_of_nil].
  - simpl in E. apply bind_Returns in E. destruct E as ([] & s1 & E1 & E2).
    rewrite with_stream_outcome in E1.
    destruct (column_streams self !! n0) as [st|] eqn:L; [|discriminate].
    injection E1 as <-. rewrite (IH _ _ E2 n). simpl.
    destruct (decide (n = n0)) as [->|Hne].
    + rewrite (decide_False (P := n0 ∈ ns)) by exact Hn0.
      rewrite (decide_True (P := n0 ∈ n0 :: ns)) by (apply elem_of_cons; auto).
      rewrite lookup_insert_eq, L. reflexivity.
    + rewrite lookup_insert_ne by congruence.
      destruct (decide (n ∈ ns)) as [Hin|Hin].
      * rewrite decide_True; [reflexivity | apply elem_of_cons; auto].
      * rewrite decide_False; [reflexivity|].
        rewrite elem_of_cons. intros [?|?]; contradiction.
Qed.

(** *** Progress: with its streams in place [writeData] returns *)

Lemma streams_ready_frame name_ type_ column_ skip self self' :
  same_frame self self' ->
  streams_ready name_ type_ column_ skip (column_streams self) ->
  streams_ready name_ type_ column_ skip (column_streams self').
Proof.
  intros (_ & _ & _ & _ & _ & _ & Hdom) [R1 R2].
  split; intros; apply elem_of_dom; rewrite Hdom; apply elem_of_dom; eauto.
Qed.

Lemma same_frame_trans a b c :
  same_frame a b -> same_frame b c -> same_frame a c.
Proof.
  intros (A1 & A2 & A3 & A4 & A5 & A6 & A7) (B1 & B2 & B3 & B4 & B5 & B6 & B7).
  repeat split; congruence.
Qed.

Lemma with_stream_returns n f self :
  is_Some (column_streams self !! n) ->
  exists self', with_stream n f self = Returns tt self' /\ same_frame self self'.
Proof.
  intros [s Hs]. rewrite with_stream_outcome, Hs.
  eexists. split; [reflexivity|].
  apply same_frame_update; [apply same_frame_refl | exact Hs].
Qed.

Lemma for_each_stream_returns name_ type_ column_ skip f self :
  streams_ready name_ type_ column_ skip (column_streams self) ->
  exists self',
    for_each_stream name_ type_ skip f self = Returns tt self' /\
    same_frame self self'.
Proof.
  intros Hready. unfold for_each_stream.
  apply (for_each_returns (same_frame self)); [|apply same_frame_refl].
  intros path s Hin Hs.
  destruct (skip && is_array_sizes path) eqn:E.
  - exists s. split; [reflexivity | exact Hs].
  - destruct (with_stream_returns (getFileNameForStream name_ path) f s)
      as (s' & E' & F').
    + eapply streams_ready_frame in Hready; [|exact Hs].
      destruct Hready as [R1 _]. now apply R1.
    + exists s'. split; [exact E' | eapply same_frame_trans; eassumption].
Qed.

Lemma serialize_granule_returns name_ type_ column_ skip pm limit self :
  streams_ready name_ type_ column_ skip (column_streams self) ->
  exists self',
    serialize_granule name_ type_ column_ skip pm limit self = Returns tt self' /\
    same_frame self self'.
Proof.
  intros Hready. unfold serialize_granule.
  apply (for_each_returns (same_frame self)); [|apply same_frame_refl].
  intros [path bytes] s Hin Hs.
  destruct (skip && is_array_sizes path) eqn:E.
  - exists s. split; [reflexivity | exact Hs].
  - destruct (with_stream_returns (getFileNameForStream name_ path)
                (compressed_write bytes) s) as (s' & E' & F').
    + eapply streams_ready_frame in Hready; [|exact Hs].
      destruct Hready as [_ R2]. eapply R2; eassumption.
    + exists s'. split; [exact E' | eapply same_frame_trans; eassumption].
Qed.

Lemma write_granule_returns name_ type_ column_ skip m io gr self :
  streams_ready name_ type_ column_ skip (column_streams self) ->
  exists self',
    write_granule name_ type_ column_ skip m io gr self = Returns tt self' /\
    same_frame self self'.
Proof.
  intros Hready. unfold write_granule.
  assert (H1 : exists s1,
    (if is_marked io gr
     then for_each_stream name_ type_ skip (write_mark m) else ret tt) self
    = Returns tt s1 /\ same_frame self s1).
  { destruct (is_marked io gr).
    - eapply for_each_stream_returns; exact Hready.
    - exists self. split; [reflexivity | apply same_frame_refl]. }
  destruct H1 as (s1 & E1 & F1).
  destruct (serialize_granule_returns name_ type_ column_ skip gr.1 gr.2 s1)
    as (s2 & E2 & F2); [eapply streams_ready_frame; eassumption|].
  destruct (for_each_stream_returns name_ type_ column_ skip
              compressed_nextIfAtEnd s2) as (s3 & E3 & F3).
  { eapply streams_ready_frame; [|exact Hready].
    eapply same_frame_trans; eassumption. }
  exists s3. split.
  - unfold bind. rewrite E1, E2. exact E3.
  - eapply same_frame_trans; [|exact F3]. eapply same_frame_trans; eassumption.
Qed.

Lemma for_each_granules_returns name_ type_ column_ skip m io l :
  forall self,
  streams_ready name_ type_ column_ skip (column_streams self) ->
  exists self',
    for_each l (write_granule name_ type_ column_ skip m io) self
    = Returns tt self' /\ same_frame self self'.
Proof.
  intros self Hready.
  apply (for_each_returns (same_frame self)); [|apply same_frame_refl].
  intros gr s _ Hs.
  destruct (write_granule_returns name_ type_ column_ skip m io gr s)
    as (s' & E & F); [eapply streams_ready_frame; eassumption|].
  exists s'. split; [exact E | eapply same_frame_trans; eassumption].
Qed.

(** *** No step of [writeData] fails to terminate *)

Lemma bind_halts {S A B} (m : M S A) (k : A -> M S B) :
  (forall s, m s <> Diverges) -> (forall a s, k a s <> Diverges) ->
  forall s, bind m k s <> Diverges.
Proof.
  intros Hm Hk s. unfold bind. specialize (Hm s).
  destruct (m s); try discriminate; [apply Hk | congruence].
Qed.

Lemma for_each_halts {S A} (l : list A) (body : A -> M S unit) :
  (forall x s, body x s <> Diverges) ->
  forall s, for_each l body s <> Diverges.
Proof.
  intros Hbody. induction l as [|x l IH]; simpl.
  - discriminate.
  - apply bind_halts; [apply Hbody | intros _; exact IH].
Qed.

Lemma with_stream_halts n f self : with_stream n f self <> Diverges.
Proof.
  rewrite with_stream_outcome. destruct (column_streams self !! n); discriminate.
Qed.

Lemma for_each_stream_halts name_ type_ skip f self :
  for_each_stream name_ type_ skip f self <> Diverges.
Proof.
  apply for_each_halts. intros path s.
  destruct (skip && is_array_sizes path);
    [discriminate | apply with_stream_halts].
Qed.

Lemma write_granule_halts name_ type_ column_ skip m io gr self :
  write_granule name_ type_ column_ skip m io gr self <> Diverges.
Proof.
  unfold write_granule.
  apply bind_halts; [|intros _; apply bind_halts; [|intros _]].
  - intros s. destruct (is_marked io gr);
      [apply for_each_stream_halts | discriminate].
  - apply for_each_halts. intros [path bytes] s.
    destruct (skip && is_array_sizes path);
      [discriminate | apply with_stream_halts].
  - apply for_each_stream_halts.
Qed.

(** *** Termination of the granule loop *)

Lemma writeData_loop_stuck name_ type_ column_ oc skip size :
  0 < size ->
  forall fuel self,
  index_granularity (storage self) = 0 -> index_offset self = 0 ->
  streams_ready name_ type_ column_ skip (column_streams self) ->
  writeData_loop fuel name_ type_ column_ oc skip size 0 self = Diverges.
Proof.
  intros Hsize. assert (Hlt : (0 <? size) = true) by now apply Z.ltb_lt.
  induction fuel as [|fuel IH]; intros self Hg Hio Hready.
  - simpl. now rewrite Hlt.
  - rewrite writeData_loop_step by exact Hlt.
    rewrite Hg, Hio. simpl. change (wrap (0 + 0)) with 0.
    destruct (write_granule_returns name_ type_ column_ skip
                (min_compress_block_size self) 0 (0, 0) self Hready)
      as (s1 & E1 & F1).
    unfold bind. rewrite E1. apply IH.
    + destruct F1 as (-> & _). exact Hg.
    + destruct F1 as (_ & _ & _ & _ & _ & -> & _). exact Hio.
    + eapply streams_ready_frame; eassumption.
Qed.

(** *** The mark of a granule *)

Lemma write_mark_spec m (stream : ColumnStream) :
  (m <= compressed_offset stream ->
   plain_hashing (write_mark m stream) = plain_hashing (compressed_next stream)
   /\ compressed (write_mark m stream) = []) /\
  (compressed_offset stream < m ->
   plain_hashing (write_mark m stream) = plain_hashing stream /\
   compressed (write_mark m stream) = compressed stream) /\
  marks (write_mark m stream)
  = marks stream ++ [plain_hashing_count (write_mark m stream);
                     compressed_offset (write_mark m stream)].
Proof.
  unfold write_mark.
  destruct (compressed_offset stream >=? m) eqn:E.
  - apply Z.geb_le in E. split; [intros _|split; [lia|]].
    + split; [reflexivity|]. simpl. unfold compressed_next.
      destruct (compressed stream) eqn:C; [exact C | reflexivity].
    + simpl. rewrite <- app_assoc.
      unfold compressed_next. destruct (compressed stream); reflexivity.
  - rewrite Z.geb_leb in E. apply Z.leb_gt in E.
    split; [lia | split; [intros _; split; reflexivity|]].
    simpl. rewrite <- app_assoc. reflexivity.
Qed.

(** C5.  In [writeData], at a granule of full granularity, the marks come
    before the rows: every stream of the column is first flushed exactly
    when its open block holds at least [min_compress_block_size] bytes,
    and then receives one mark, the count of [plain_hashing] followed by
    the offset of [compressed], both as they are when the serializer
    starts; no other stream is touched. *)
Theorem marks_written_before_granule fuel name_ type_ (column_ : list Field)
    oc skip size pm self :
  (pm <? size) = true ->
  is_marked (index_offset self) (pm, index_granularity (storage self)) = true ->
  NoDup (stream_names name_ type_ skip) ->
  streams_ready name_ type_ column_ skip (column_streams self) ->
  exists marked,
    for_each_stream name_ type_ skip
      (write_mark (min_compress_block_size self)) self = Returns tt marked /\
    (forall n,
       column_streams marked !! n
       = if decide (n ∈ stream_names name_ type_ skip)
         then write_mark (min_compress_block_size self)
                <$> column_streams self !! n
         else column_streams self !! n) /\
    writeData_loop (S fuel) name_ type_ column_ oc skip size pm self
    = (do serialize_granule name_ type_ column_ skip pm
            (index_granularity (storage self)) then
       do for_each_stream name_ type_ skip compressed_nextIfAtEnd then
       writeData_loop fuel name_ type_ column_ oc skip size
         (wrap (pm + index_granularity (storage self)))) marked /\
    (forall stream : ColumnStream,
       let m := min_compress_block_size self in
       let stream' := write_mark m stream in
       (m <= compressed_offset stream ->
        plain_hashing stream' = plain_hashing (compressed_next stream) /\
        compressed stream' = []) /\
       (compressed_offset stream < m ->
        plain_hashing stream' = plain_hashing stream /\
        compressed stream' = compressed stream) /\
       marks stream'
       = marks stream ++ [plain_hashing_count stream';
                          compressed_offset stream'] /\
       marks_bytes stream'
       = marks_bytes stream
         ++ writeIntBinary_bytes (plain_hashing_count stream')
         ++ writeIntBinary_bytes (compressed_offset stream')).
Proof.
  intros Hlt Hmarked Hnodup Hready.
  destruct (for_each_stream_returns name_ type_ column_ skip
              (write_mark (min_compress_block_size self)) self Hready)
    as (marked & E & F).
  exists marked. split; [exact E|]. split; [|split].
  - rewrite for_each_stream_names in E.
    apply (for_each_with_stream_lookup _ _ Hnodup _ _ E).
  - rewrite writeData_loop_step by exact Hlt.
    unfold is_marked in Hmarked. simpl in Hmarked.
    apply negb_true_iff in Hmarked. rewrite Hmarked.
    unfold write_granule, is_marked. simpl. rewrite Hmarked. simpl.
    unfold bind. rewrite E.
    repeat (match goal with
            | |- context [match ?m ?s with Returns _ _ => _ | _ => _ end] =>
                destruct (m s) as [[] ?|? ?| |]
            end; try reflexivity).
  - intros stream m stream'.
    destruct (write_mark_spec m stream) as (H1 & H2 & H3).
    split; [exact H1|]. split; [exact H2|]. split; [exact H3|].
    subst stream'. unfold marks_bytes. rewrite H3 at 1.
    rewrite flat_map_app. reflexivity.
Qed.

(** C10.  For every column and every [index_granularity >= 1] the granule
    loop of [writeData] terminates, as long as the row count plus the
    granularity is a [size_t]: a fuel of one unit per row is enough for
    the loop not to run out, and it returns when the streams of the column
    exist.  With [index_granularity = 0] and no carried offset the loop
    never ends on a column that has a row. *)
Theorem writeData_terminates name_ type_ (column_ : list Field) oc skip self :
  (1 <= index_granularity (storage self) ->
   0 <= index_offset self < size_t_modulus ->
   IColumn_size column_ + index_granularity (storage self) <= size_t_modulus ->
   forall fuel, (length column_ <= fuel)%nat ->
     writeData fuel name_ type_ column_ oc skip self <> Diverges /\
     (streams_ready name_ type_ column_ skip (column_streams self) ->
      exists self',
        writeData fuel name_ type_ column_ oc skip self = Returns tt self')) /\
  (index_granularity (storage self) = 0 -> index_offset self = 0 ->
   column_ <> [] ->
   streams_ready name_ type_ column_ skip (column_streams self) ->
   forall fuel, writeData fuel name_ type_ column_ oc skip self = Diverges).
Proof.
  split.
  - intros Hg Hio Hsize fuel Hfuel. unfold writeData, IColumn_size in *.
    destruct (granules_enough _ _ _ Hg Hio Hsize fuel 0) as [l G];
      [lia | lia |].
    rewrite (writeData_loop_granules _ _ _ _ _ _ _ _ _ _ G).
    split.
    + apply for_each_halts. intros gr s. apply write_granule_halts.
    + intros Hready.
      destruct (for_each_granules_returns name_ type_ column_ skip
                  (min_compress_block_size self) (index_offset self) l self
                  Hready) as (self' & E & _).
      eauto.
  - intros Hg Hio Hne Hready fuel. unfold writeData.
    apply writeData_loop_stuck; try assumption.
    destruct column_; [congruence | simpl; lia].
Qed.

End WriteData.

(** ** The suffix *)

Lemma prefix_app (p s : string) : String.prefix p (p +:+ s) = true.
Proof.
  induction p as [|a p IH]; simpl.
  - destruct s; reflexivity.
  - destruct (ascii_dec a a); [exact IH | contradiction].
Qed.

Lemma prefix_refl (p : string) : String.prefix p p = true.
Proof.
  induction p as [|a p IH]; simpl.
  - reflexivity.
  - destruct (ascii_dec a a); [exact IH | contradiction].
Qed.

Lemma remove_recursive_files path fs file :
  String.prefix path file = true ->
  files (remove_recursive path fs) !! file = None.
Proof.
  intros Hp. unfold remove_recursive. simpl.
  apply map_lookup_filter_None. right. intros x _. simpl. congruence.
Qed.

Lemma remove_recursive_directories path fs dir :
  String.prefix path dir = true ->
  dir ∉ directories (remove_recursive path fs).
Proof.
  intros Hp. unfold remove_recursive. simpl.
  rewrite elem_of_filter. intros [H _]. congruence.
Qed.

Section Suffix.

Context {DataType Field : Type}.
Context `{!IDataType DataType Field} `{!IOEnv DataType}.

(** C7.  When no mark was counted, [writeSuffixAndGetChecksums] removes
    the directory of the part with all that is below it, returns an empty
    checksum map whatever checksums were supplied, and leaves neither
    [columns.txt] nor [checksums.txt]. *)
Theorem empty_part_is_removed
    (total_column_list : list (string * DataType))
    (additional_column_checksums : option Checksums)
    (self : MergedBlockOutputStream DataType Field) (fs : FileSystem) :
  marks_count self = 0 ->
  (mode_of self <> Unsorted -> is_Some (index_stream self)) ->
  exists self' fs',
    writeSuffixAndGetChecksums total_column_list additional_column_checksums
      (self, fs) = Returns ∅ (self', fs') /\
    (exists fs'', fs' = remove_recursive (part_path self) fs'') /\
    (part_path self ∉ directories fs') /\
    (forall file, String.prefix (part_path self) file = true ->
       files fs' !! file = None) /\
    files fs' !! (part_path self +:+ "columns.txt") = None /\
    files fs' !! (part_path self +:+ "checksums.txt") = None /\
    column_streams (base self') = ∅.
Proof.
  intros Hmarks Hindex. unfold writeSuffixAndGetChecksums.
  pose proof (prefix_refl (part_path self)) as Hdir.
  destruct (decide (mode_of self ≠ Unsorted)) as [Hmode|Hmode].
  - destruct (Hindex Hmode) as [out Hout]. rewrite Hout.
    destruct (finalize_streams _ _ _ _) as [checksums fs1] eqn:Efin.
    simpl. rewrite Hmarks. simpl.
    eexists _, _. split; [reflexivity|].
    split; [eauto|]. split; [|split; [|split; [|split]]].
    + now apply remove_recursive_directories.
    + intros file Hp. now apply remove_recursive_files.
    + apply remove_recursive_files, prefix_app.
    + apply remove_recursive_files, prefix_app.
    + reflexivity.
  - destruct (finalize_streams _ _ _ _) as [checksums fs1] eqn:Efin.
    simpl. rewrite Hmarks. simpl.
    eexists _, _. split; [reflexivity|].
    split; [eauto|]. split; [|split; [|split; [|split]]].
    + now apply remove_recursive_directories.
    + intros file Hp. now apply remove_recursive_files.
    + apply remove_recursive_files, prefix_app.
    + apply remove_recursive_files, prefix_app.
    + reflexivity.
Qed.

(** C9.  [writeSuffix] of either writer throws [NOT_IMPLEMENTED] and leaves
    the writer and the files as they were. *)
Theorem writeSuffix_not_implemented :
  (forall st : MergedBlockOutputStream DataType Field * FileSystem,
     writeSuffix st = Throws NOT_IMPLEMENTED st) /\
  (forall st : ColumnOnly.MergedColumnOnlyOutputStream * FileSystem,
     ColumnOnly.writeSuffix st = Throws NOT_IMPLEMENTED st).
Proof. split; intros st; reflexivity. Qed.

End Suffix.

(** ** Sampling every [index_granularity]-th row *)

Lemma sample_from_lookup {A} g (l : list A) : 1 <= g ->
  forall i,
  sample_from g i l
  = match l !! i with
    | Some x => x :: sample_from g (i + Z.to_nat g) l
    | None => []
    end.
Proof.
  intros Hg. induction l as [|x l IH]; intros i.
  - reflexivity.
  - destruct i as [|i]; simpl.
    + replace (Z.to_nat g) with (S (Z.to_nat (g - 1))) by lia. reflexivity.
    + rewrite IH. reflexivity.
Qed.


Lemma sample_from_app {A} g (l1 l2 : list A) : 1 <= g ->
  forall skip, Z.of_nat skip < g ->
  sample_from g skip (l1 ++ l2)
  = sample_from g skip l1
    ++ sample_from g
         (Z.to_nat ((Z.of_nat skip - Z.of_nat (length l1)) mod g)) l2.
Proof.
  intros Hg. induction l1 as [|x l1 IH]; intros skip Hskip.
  - simpl. rewrite Z.sub_0_r, Z.mod_small by lia.
    rewrite Nat2Z.id. reflexivity.
  - destruct skip as [|skip]; simpl sample_from.
    + rewrite IH by lia. simpl app.
      assert (E : (Z.of_nat (Z.to_nat (g - 1)) - Z.of_nat (length l1)) mod g
                  = (Z.of_nat 0 - Z.of_nat (length (x :: l1))) mod g).
      { rewrite Z2Nat.id by lia.
        replace (Z.of_nat 0 - Z.of_nat (length (x :: l1)))
          with (g - 1 - Z.of_nat (length l1) + (-1) * g)
          by (simpl length; lia).
        now rewrite Z.mod_add by lia. }
      rewrite E. reflexivity.
    + rewrite IH by lia.
      replace (Z.of_nat (S skip) - Z.of_nat (S (length l1)))
        with (Z.of_nat skip - Z.of_nat (length l1)) by lia.
      reflexivity.
Qed.

Lemma sample_from_length {A} g (l : list A) : 1 <= g ->
  forall skip, Z.of_nat skip < g ->
  Z.of_nat (length (sample_from g skip l))
  = (Z.of_nat (length l) - Z.of_nat skip + g - 1) / g.
Proof.
  intros Hg. induction l as [|x l IH]; intros skip Hskip.
  - simpl. symmetry. apply Z.div_small. lia.
  - destruct skip as [|skip]; simpl sample_from.
    + change (length (x :: ?t)) with (S (length t)).
      rewrite !Nat2Z.inj_succ, IH by lia. rewrite Z2Nat.id by lia.
      assert (E : Z.succ (Z.of_nat (length l)) - Z.of_nat 0 + g - 1
                  = (Z.of_nat (length l) - (g - 1) + g - 1) + 1 * g) by lia.
      rewrite E, Z.div_add by lia. lia.
    + rewrite IH by lia. f_equal. simpl length. lia.
Qed.

(** ** The index loop *)

Section Index.

Context {DataType Field : Type}.
Context `{!IDataType DataType Field} `{!IOEnv DataType}.

Implicit Types self : MergedBlockOutputStream DataType Field.
Implicit Types pcs : list (ColumnWithTypeAndName DataType Field).

Lemma key_at_lookup pcs i key k pc :
  key_at pcs i = Some key -> pcs !! k = Some pc ->
  exists v, column pc !! i = Some v /\ key !! k = Some (type pc, v).
Proof.
  intros Hkey Hpc. apply mapM_Some in Hkey.
  destruct (Forall2_lookup_l _ _ _ _ _ Hkey Hpc) as (tv & Htv & E).
  destruct (column pc !! i) as [v|]; [|discriminate].
  injection E as <-. eauto.
Qed.

Lemma key_at_length pcs i key :
  key_at pcs i = Some key -> length key = length pcs.
Proof. intros Hkey. symmetry. eapply length_mapM, Hkey. Qed.

Lemma index_insert_from pcs i key :
  key_at pcs i = Some key ->
  forall m k self out,
  (k + m = length pcs)%nat ->
  length (index_columns self) = length pcs ->
  index_stream self = Some out ->
  for_each (seq k m) (index_insert pcs (Z.of_nat i)) self
  = Returns tt
      (set_index_stream (Some (out ++ key_image (drop k key)))
         (set_index_columns
            (take k (index_columns self)
             ++ zip_with (fun col tv => col ++ [tv.2])
                  (drop k (index_columns self)) (drop k key)) self)).
Proof.
  intros Hkey. pose proof (key_at_length _ _ _ Hkey) as Hlenkey.
  induction m as [|m IH]; intros k self out Hk Hlen Hout.
  - simpl. unfold ret. f_equal.
    rewrite (drop_ge key), (drop_ge (index_columns self)), take_ge by lia.
    unfold key_image. simpl. rewrite !app_nil_r.
    destruct self. simpl in *. subst. reflexivity.
  - simpl for_each.
    destruct (lookup_lt_is_Some_2 pcs k) as [pc Hpc]; [lia|].
    destruct (lookup_lt_is_Some_2 (index_columns self) k) as [col Hcol]; [lia|].
    destruct (key_at_lookup _ _ _ _ _ Hkey Hpc) as (v & Hv & Htv).
    unfold bind. unfold index_insert at 1.
    rewrite Hpc, Hcol, Hout, Nat2Z.id, Hv.
    rewrite (IH (S k) _ (out ++ serializeBinary (type pc) v));
      [|lia|simpl; rewrite length_insert; exact Hlen|reflexivity].
    f_equal. unfold set_index_stream, set_index_columns. simpl. f_equal.
    + rewrite (drop_S key _ k Htv). unfold key_image. simpl.
      rewrite <- app_assoc. reflexivity.
    + rewrite (take_S_r _ k (col ++ [v]))
        by (apply list_lookup_insert_eq; lia).
      rewrite take_insert_ge, drop_insert_lt by lia.
      rewrite (drop_S (index_columns self) _ k Hcol), (drop_S key _ k Htv).
      simpl. rewrite <- app_assoc. reflexivity.
Qed.

Lemma index_insert_all pcs i key self :
  key_at pcs i = Some key ->
  length (index_columns self) = length pcs ->
  is_Some (index_stream self) ->
  for_each (seq 0 (length pcs)) (index_insert pcs (Z.of_nat i)) self
  = Returns tt (push_key key self).
Proof.
  intros Hkey Hlen [out Hout].
  rewrite (index_insert_from pcs i key Hkey (length pcs) 0%nat self out)
    by (try reflexivity; assumption).
  unfold push_key. rewrite Hout. reflexivity.
Qed.

Lemma push_key_length key self :
  length key = length (index_columns self) ->
  length (index_columns (push_key key self)) = length (index_columns self).
Proof. intros E. unfold push_key. simpl. rewrite length_zip_with. lia. Qed.

Lemma index_loop_spec pcs (keys : list (list (DataType * Field))) g :
  1 <= g -> Z.of_nat (length keys) + g <= size_t_modulus ->
  (forall i key, keys !! i = Some key -> key_at pcs i = Some key) ->
  forall fuel i self,
  index_granularity (storage (base self)) = g ->
  (mode_of self <> Unsorted ->
   length (index_columns self) = length pcs /\ is_Some (index_stream self)) ->
  (length keys - i <= fuel)%nat ->
  index_loop fuel pcs (Z.of_nat (length keys)) (Z.of_nat i) self
  = Returns tt
      (fold_left (fun s key => sample_row key s) (sample_from g i keys) self).
Proof.
  intros Hg Hsize Hkeys.
  induction fuel as [|fuel IH]; intros i self Hgran Hidx Hfuel.
  - rewrite sample_from_lookup by exact Hg.
    rewrite (lookup_ge_None_2 keys i) by lia. simpl.
    destruct (Z.of_nat i <? Z.of_nat (length keys)) eqn:E; [|reflexivity].
    apply Z.ltb_lt in E. lia.
  - rewrite sample_from_lookup by exact Hg. simpl index_loop.
    destruct (Z.of_nat i <? Z.of_nat (length keys)) eqn:E.
    + apply Z.ltb_lt in E.
      destruct (lookup_lt_is_Some_2 keys i) as [key Hkey]; [lia|].
      rewrite Hkey. simpl fold_left.
      pose proof (Hkeys _ _ Hkey) as Hat.
      unfold bind at 1. unfold get.
      assert (Hstep :
        (if decide (mode_of self ≠ Unsorted)
         then for_each (seq 0 (length pcs)) (index_insert pcs (Z.of_nat i))
         else ret tt) self
        = Returns tt (if decide (mode_of self ≠ Unsorted)
                      then push_key key self else self)).
      { destruct (decide (mode_of self ≠ Unsorted)) as [Hm|Hm]; [|reflexivity].
        destruct (Hidx Hm) as [Hlen Hout].
        now apply index_insert_all. }
      unfold bind at 1. rewrite Hstep. unfold bind, modify.
      rewrite Hgran, wrap_small by lia.
      replace (Z.of_nat i + g) with (Z.of_nat (i + Z.to_nat g)) by lia.
      assert (Hmc : marks_count (if decide (mode_of self ≠ Unsorted)
                                 then push_key key self else self)
                    = marks_count self).
      { destruct (decide _); reflexivity. }
      rewrite Hmc.
      change (set_marks_count _ _) with (sample_row key self).
      apply IH.
      * unfold sample_row. simpl. destruct (decide _); assumption.
      * assert (Hmode : mode_of (sample_row key self) = mode_of self).
        { unfold sample_row, mode_of. simpl. destruct (decide _); reflexivity. }
        rewrite Hmode. intros Hm. destruct (Hidx Hm) as [Hlen Hout].
        unfold sample_row. simpl. rewrite decide_True by exact Hm.
        split.
        -- rewrite push_key_length; [exact Hlen|].
           rewrite (key_at_length _ _ _ Hat). lia.
        -- unfold push_key. simpl. destruct Hout as [out ->]. simpl. eauto.
      * lia.
    + apply Z.ltb_ge in E. rewrite (lookup_ge_None_2 keys i) by lia.
      reflexivity.
Qed.

End Index.

(** ** Blocks and the primary key columns *)

Section Resolve.

Context {DataType Field : Type}.
Context `{!IDataType DataType Field} `{!IOEnv DataType}.

Implicit Types block : Block DataType Field.
Implicit Types pcs : list (ColumnWithTypeAndName DataType Field).

Lemma getByName_Returns {St} block n (s s' : St) elem :
  getByName block n s = Returns elem s' ->
  s' = s /\ find (fun e => String.eqb (name e) n) block = Some elem.
Proof.
  unfold getByName. destruct (find _ block); [|discriminate].
  intros E. injection E as <- <-. auto.
Qed.

Lemma safeGetByPosition_Returns {St} block k (s s' : St) elem :
  safeGetByPosition block k s = Returns elem s' ->
  s' = s /\ block !! k = Some elem.
Proof.
  unfold safeGetByPosition. destruct (block !! k); [|discriminate].
  intros E. injection E as <- <-. auto.
Qed.

Lemma permute_Returns {St} (c : list Field) perm (s s' : St) res :
  permute c perm s = Returns res s' ->
  s' = s /\ (length c <= length perm)%nat /\
  mapM (fun k => c !! k) (take (length c) perm) = Some res.
Proof.
  unfold permute. destruct (length perm <? length c)%nat eqn:E; [discriminate|].
  apply Nat.ltb_ge in E.
  destruct (mapM _ _) as [res'|]; [|discriminate].
  intros E'. injection E' as <- <-. auto.
Qed.

Lemma permute_length {St} (c : list Field) perm (s s' : St) res :
  permute c perm s = Returns res s' -> length res = length c.
Proof.
  intros E. apply permute_Returns in E. destruct E as (_ & Hlen & E).
  apply length_mapM in E. rewrite length_take in E. lia.
Qed.

Lemma checkNumberOfRows_Returns {St} block (s s' : St) :
  checkNumberOfRows block s = Returns tt s' ->
  s' = s /\ Forall (fun elem => IColumn_size (column elem) = rows block) block.
Proof.
  unfold checkNumberOfRows.
  destruct (forallb _ block) eqn:E; [|discriminate].
  intros E'. injection E' as <-. split; [reflexivity|].
  rewrite forallb_forall in E. apply List.Forall_forall.
  intros elem Hin. apply Z.eqb_eq. now apply E.
Qed.

Lemma find_In_block block n elem :
  find (fun e => String.eqb (name e) n) block = Some elem -> In elem block.
Proof. intros E. now apply find_some in E. Qed.

(** The primary key columns have the rows of the block, permuted or not. *)
Lemma resolve_primary_columns_spec {St} block permutation :
  forall sd i pcs m (s s' : St) pcs' m',
  resolve_primary_columns block permutation sd i pcs m s
  = Returns (pcs', m') s' ->
  s' = s /\
  length pcs' = (length pcs + length sd)%nat /\
  forall n, Forall (fun e => length (column e) = n) block ->
            Forall (fun e => length (column e) = n) pcs ->
            Forall (fun e => length (column e) = n) pcs'.
Proof.
  induction sd as [|descr sd IH]; intros i pcs m s s' pcs' m' E.
  - injection E as <- <- <-. rewrite Nat.add_0_r. auto.
  - simpl in E. apply bind_Returns in E.
    destruct E as (n & s1 & E1 & E).
    assert (H1 : s1 = s).
    { destruct (negb (String.eqb (column_name descr) "")).
      - now injection E1 as _ <-.
      - apply bind_Returns in E1. destruct E1 as (e & s0 & E0 & E1).
        apply safeGetByPosition_Returns in E0. destruct E0 as [-> _].
        now injection E1 as _ <-. }
    subst s1. clear E1.
    destruct (m !! n); [discriminate|].
    apply bind_Returns in E. destruct E as (elem & s2 & E2 & E).
    apply bind_Returns in E. destruct E as (elem' & s3 & E3 & E).
    apply IH in E. destruct E as (-> & Hlen & Hrows).
    assert (H2 : s2 = s /\ In elem block).
    { destruct (negb (String.eqb (column_name descr) "")).
      - apply getByName_Returns in E2. destruct E2 as [-> F].
        split; [reflexivity | eapply find_In_block; exact F].
      - apply safeGetByPosition_Returns in E2. destruct E2 as [-> F].
        split; [reflexivity|]. apply list_elem_of_In.
        eapply list_elem_of_lookup_2; exact F. }
    destruct H2 as [-> Hin]. clear E2.
    assert (H3 : s3 = s /\ length (column elem') = length (column elem)).
    { destruct permutation as [perm|].
      - apply bind_Returns in E3. destruct E3 as (res & s0 & E0 & E3).
        injection E3 as <- <-. simpl.
        split; [now apply permute_Returns in E0 | eapply permute_length, E0].
      - injection E3 as <- <-. auto. }
    destruct H3 as [-> Hsame]. clear E3.
    split; [reflexivity|]. split.
    + rewrite Hlen, length_app. simpl. lia.
    + intros n0 Hblock Hpcs. apply Hrows; [exact Hblock|].
      apply Forall_app. split; [exact Hpcs|].
      constructor; [|constructor].
      rewrite Hsame. rewrite List.Forall_forall in Hblock. now apply Hblock.
Qed.

(** Columns of [n] rows have a key at every row below [n]. *)
Lemma keys_exist pcs n :
  Forall (fun e => length (column e) = n) pcs ->
  exists keys : list (list (DataType * Field)),
    length keys = n /\
    forall i key, keys !! i = Some key -> key_at pcs i = Some key.
Proof.
  intros Hrows.
  assert (Hsome : is_Some (mapM (key_at pcs) (seq 0 n))).
  { apply mapM_is_Some_2. apply List.Forall_forall. intros i Hi.
    apply in_seq in Hi. simpl. unfold key_at.
    apply mapM_is_Some_2. eapply Forall_impl; [exact Hrows|].
    intros e He. simpl.
    simpl in He.
    destruct (lookup_lt_is_Some_2 (column e) i) as [v ->]; [lia | eauto]. }
  destruct Hsome as [keys Hkeys]. exists keys. split.
  - apply length_mapM in Hkeys. rewrite length_seq in Hkeys. congruence.
  - intros i key Hi. apply mapM_Some in Hkeys.
    destruct (Forall2_lookup_r _ _ _ _ _ Hkeys Hi) as (j & Hj & E).
    apply lookup_seq in Hj. destruct Hj as [-> _]. exact E.
Qed.

End Resolve.

(** ** One call of [writeImpl] *)

Lemma next_index_offset_eq g io n :
  1 <= g -> 0 <= io < g -> 0 <= n -> n + g < size_t_modulus ->
  next_index_offset g io n = (g - (g - io + n) mod g) mod g /\
  next_index_offset g io n = (io - n) mod g.
Proof.
  intros Hg Hio Hn Hsize. unfold next_index_offset, written_for_last_mark.
  rewrite (wrap_small (g - io)) by lia.
  rewrite (wrap_small (g - io + n)) by lia.
  pose proof (Z.mod_pos_bound (g - io + n) g ltac:(lia)) as Hb.
  rewrite wrap_small by lia.
  split; [reflexivity|].
  rewrite Zminus_mod_idemp_r. f_equal. lia.
Qed.

Section WriteImpl.

Context {DataType Field : Type}.
Context `{!IDataType DataType Field} `{!IOEnv DataType}.

Implicit Types self : MergedBlockOutputStream DataType Field.
Implicit Types block : Block DataType Field.
Implicit Types pcs : list (ColumnWithTypeAndName DataType Field).

Lemma writeData_in_keeps self0 fuel n t (c : list Field) oc skip :
  keeps (only_streams_changed self0) (writeData_in fuel n t c oc skip).
Proof.
  intros s (b & -> & F). unfold writeData_in, on_base. simpl.
  pose proof (writeData_keeps (same_frame (base self0))
                (fun s n st f _ Hs Hn => same_frame_update _ s n st f Hs Hn)
                fuel n t c oc skip b F) as K.
  destruct (writeData fuel n t c oc skip b) as [a b'|e b'| |];
    try exact I; exists b'; (split; [destruct self0; reflexivity | exact K]).
Qed.

Lemma write_columns_frame fuel block perm pcs m oc cols self self' :
  write_columns fuel block perm pcs m oc cols self = Returns tt self' ->
  only_streams_changed self self'.
Proof.
  intros E.
  eapply (keeps_Returns (only_streams_changed self)); [| |exact E].
  2:{ exists (base self). split; [destruct self; reflexivity|].
      apply same_frame_refl. }
  unfold write_columns. apply keeps_for_each. intros it.
  apply keeps_bind.
  { intros s Hs. unfold getByName. destruct (find _ block); exact Hs. }
  intros elem. destruct perm as [perm|].
  - destruct (m !! it.1) as [pos|].
    + destruct (pcs !! pos); [apply writeData_in_keeps|].
      intros s Hs. exact I.
    + apply keeps_bind; [|intros c; apply writeData_in_keeps].
      intros s Hs. unfold permute.
      destruct (length perm <? length (column elem))%nat; [exact Hs|].
      destruct (mapM _ _); [exact Hs | exact I].
  - apply writeData_in_keeps.
Qed.

Lemma fold_sample_row_set_base (keys : list (list (DataType * Field))) b self :
  storage b = storage (base self) ->
  fold_left (fun s key => sample_row key s) keys (set_base b self)
  = set_base b (fold_left (fun s key => sample_row key s) keys self).
Proof.
  intros Hst. revert self Hst. induction keys as [|key keys IH]; intros self Hst.
  - reflexivity.
  - simpl. 
    assert (E : sample_row key (set_base b self)
                = set_base b (sample_row key self)).
    { unfold sample_row, mode_of. simpl. rewrite Hst.
      destruct (decide _); reflexivity. }
    rewrite E. apply IH.
    unfold sample_row. simpl. destruct (decide _); exact Hst.
Qed.

Lemma index_loop_more_fuel pcs n :
  forall fuel fuel' i self a self',
  index_loop fuel pcs n i self = Returns a self' -> (fuel <= fuel')%nat ->
  index_loop fuel' pcs n i self = Returns a self'.
Proof.
  induction fuel as [|fuel IH]; intros fuel' i self a self' E Hle.
  - simpl in E. destruct fuel'; simpl;
      destruct (i <? n); try discriminate; exact E.
  - destruct fuel' as [|fuel']; [lia|]. simpl in *.
    destruct (i <? n); [|exact E].
    apply bind_Returns in E. destruct E as (s0 & s1 & E1 & E).
    rewrite (bind_eq _ _ _ _ _ E1).
    apply bind_Returns in E. destruct E as (u & s2 & E2 & E).
    rewrite (bind_eq _ _ _ _ _ E2).
    apply bind_Returns in E. destruct E as (u' & s3 & E3 & E).
    rewrite (bind_eq _ _ _ _ _ E3).
    apply (IH fuel'); [exact E | lia].
Qed.

Lemma writeImpl_spec fuel block perm self self' :
  writeImpl fuel block perm self = Returns tt self' ->
  let g := index_granularity (storage (base self)) in
  let io := index_offset (base self) in
  let sd := getSortDescription (storage (base self)) in
  1 <= g -> 0 <= io < g -> rows block + g < size_t_modulus ->
  (mode_of self <> Unsorted ->
   (index_columns self = [] \/ length (index_columns self) = length sd) /\
   is_Some (index_stream self)) ->
  exists pcs m (keys : list (list (DataType * Field))) b',
    resolve_primary_columns block perm sd 0%nat [] ∅ self
    = Returns (pcs, m) self /\
    Z.of_nat (length keys) = rows block /\
    (forall i key, keys !! i = Some key -> key_at pcs i = Some key) /\
    self' = set_base b'
              (fold_left (fun s key => sample_row key s)
                 (sample_from g (Z.to_nat io) keys)
                 (ensure_index (length sd) self)) /\
    same_frame (set_index_offset ((io - rows block) mod g) (base self)) b'.
Proof.
  intros E g io sd Hg Hio Hsize Hwf. subst sd. unfold writeImpl in E.
  apply bind_Returns in E. destruct E as ([] & s0 & E0 & E).
  apply checkNumberOfRows_Returns in E0. destruct E0 as [-> Hrect].
  apply bind_Returns in E. destruct E as (self0 & s0 & E0 & E).
  injection E0 as <- <-.
  apply bind_Returns in E. destruct E as ([pcs m] & s0 & E0 & E).
  pose proof (resolve_primary_columns_spec _ _ _ _ _ _ _ _ _ _ E0)
    as (-> & Hlen & Hrows).
  simpl in Hlen. simpl in E.
  apply bind_Returns in E. destruct E as ([] & s1 & E1 & E).
  assert (Hs1 : s1 = ensure_index
                       (length (getSortDescription (storage (base self)))) self).
  { unfold ensure_index. destruct (index_columns self) eqn:Eidx.
    - injection E1 as <-. f_equal.
      rewrite <- Hlen. clear.
      induction pcs; simpl; [reflexivity | now f_equal].
    - now injection E1 as <-. }
  clear E1.
  apply bind_Returns in E. destruct E as ([] & s2 & E2 & E).
  apply write_columns_frame in E2. destruct E2 as (b2 & -> & F2).
  apply bind_Returns in E. destruct E as (self2 & s3 & E3 & E).
  injection E3 as <- <-.
  apply bind_Returns in E. destruct E as ([] & s3 & E3 & E).
  assert (Hn : 0 <= rows block).
  { unfold rows. destruct block; [lia | unfold IColumn_size; lia]. }
  destruct (keys_exist pcs (Z.to_nat (rows block))) as (keys & Hklen & Hkeys).
  { apply Hrows; [|constructor].
    eapply Forall_impl; [exact Hrect|]. intros e He. simpl in He.
    unfold IColumn_size in He. lia. }
  assert (Hbase1 : base s1 = base self).
  { subst s1. unfold ensure_index. destruct (index_columns self); reflexivity. }
  destruct F2 as (F21 & F22 & F23 & F24 & F25 & F26 & F27).
  rewrite Hbase1 in *. simpl in E3. rewrite F26 in E3.
  replace (rows block) with (Z.of_nat (length keys)) in E3 by lia.
  replace (index_offset (base self)) with (Z.of_nat (Z.to_nat io)) in E3
    by (subst io; lia).
  apply (index_loop_more_fuel _ _ _ (fuel + length keys)%nat) in E3; [|lia].
  rewrite (index_loop_spec pcs keys g) in E3; try assumption; try lia.
  2:{ simpl. rewrite F21. reflexivity. }
  2:{ unfold mode_of. simpl. rewrite F21. intros Hm.
      destruct (Hwf Hm) as [Hidx Hout]. subst s1. unfold ensure_index.
      destruct (index_columns self) eqn:Eidx; simpl.
      - rewrite length_replicate. split; [lia | exact Hout].
      - rewrite Eidx. destruct Hidx as [?|Hidx]; [discriminate|].
        split; [simpl in *; lia | exact Hout]. }
  injection E3 as <-.
  rewrite fold_sample_row_set_base in E by (rewrite F21, Hbase1; reflexivity).
  unfold on_base, update_index_offset in E. simpl in E.
  rewrite F21 in E. fold g in E.
  destruct (g =? 0) eqn:Eg; [apply Z.eqb_eq in Eg; lia|].
  injection E as <-.
  exists pcs, m, keys. eexists. split; [exact E0|].
  split; [lia|]. split; [exact Hkeys|]. split.
  - rewrite <- Hs1. destruct (fold_left _ _ s1); reflexivity.
  - rewrite F26. fold io.
    destruct (next_index_offset_eq g io (rows block)) as [_ ->]; try lia.
    repeat split; simpl; assumption.
Qed.

End WriteImpl.

(** ** Rows and keys *)

Section Rows.

Context {DataType Field : Type}.
Context `{!IDataType DataType Field} `{!IOEnv DataType}.

Implicit Types self : MergedBlockOutputStream DataType Field.
Implicit Types block : Block DataType Field.
Implicit Types pcs : list (ColumnWithTypeAndName DataType Field).

Lemma resolve_None_lookup {St} block :
  forall sd i pcs m (s s' : St) pcs' m',
  resolve_primary_columns block None sd i pcs m s = Returns (pcs', m') s' ->
  exists new, pcs' = pcs ++ new /\
    Forall2 (fun descr pc => lookup_column block descr = Some pc) sd new.
Proof.
  induction sd as [|descr sd IH]; intros i pcs m s s' pcs' m' E.
  - injection E as <- <- <-. exists []. rewrite app_nil_r. split; constructor.
  - simpl in E. apply bind_Returns in E.
    destruct E as (n & s1 & E1 & E).
    destruct (m !! n); [discriminate|].
    apply bind_Returns in E. destruct E as (elem & s2 & E2 & E).
    apply bind_Returns in E. destruct E as (elem' & s3 & E3 & E).
    injection E3 as <- <-.
    apply IH in E. destruct E as (new & -> & Hnew).
    exists (elem :: new). split; [now rewrite <- app_assoc|].
    constructor; [|exact Hnew].
    unfold lookup_column.
    destruct (negb (String.eqb (column_name descr) "")).
    + now apply getByName_Returns in E2.
    + now apply safeGetByPosition_Returns in E2.
Qed.

Lemma row_at_cells block i (row : Row) :
  row_at block i = Some row ->
  Forall2 (fun elem cell =>
             exists v, column elem !! i = Some v /\
                       cell = (name elem, type elem, v)) block row.
Proof.
  intros E. apply mapM_Some in E.
  eapply Forall2_impl; [exact E|].
  intros elem cell Hc. simpl in Hc.
  destruct (column elem !! i) as [v|]; [|discriminate].
  injection Hc as <-. eauto.
Qed.

(** Looking a column up in the block and taking its row [i] is looking
    the cell up in row [i]. *)
Lemma lookup_column_row block i (row : Row) descr pc :
  row_at block i = Some row ->
  lookup_column block descr = Some pc ->
  exists v, column pc !! i = Some v /\
    (if negb (String.eqb (column_name descr) "")
     then find (fun cell : string * DataType * Field =>
                  String.eqb cell.1.1 (column_name descr)) row
     else row !! column_number descr) = Some (name pc, type pc, v).
Proof.
  intros Hrow Hpc. apply row_at_cells in Hrow. unfold lookup_column in Hpc.
  destruct (negb (String.eqb (column_name descr) "")).
  - induction Hrow as [|elem cell block row (v & Hv & ->) Hrow IH].
    + discriminate.
    + simpl in *. destruct (String.eqb (name elem) (column_name descr)).
      * injection Hpc as <-. eauto.
      * now apply IH.
  - destruct (Forall2_lookup_l _ _ _ _ _ Hrow Hpc) as (cell & Hcell & v & Hv & ->).
    eauto.
Qed.

Lemma key_of_row_at block sd pcs i (row : Row) key :
  Forall2 (fun descr pc => lookup_column block descr = Some pc) sd pcs ->
  row_at block i = Some row -> key_at pcs i = Some key ->
  key_of_row sd row = Some key.
Proof.
  intros Hpcs Hrow Hkey. unfold key_of_row. apply mapM_Some.
  unfold key_at in Hkey. apply mapM_Some in Hkey.
  revert key Hkey. induction Hpcs as [|descr pc sd pcs Hpc Hpcs IH];
    intros key Hkey.
  - inversion Hkey. constructor.
  - inversion Hkey as [|? tv ? key' Htv Hkey']; subst. constructor; [|now apply IH].
    destruct (lookup_column_row _ _ _ _ _ Hrow Hpc) as (v & Hv & ->).
    rewrite Hv in Htv. injection Htv as <-. reflexivity.
Qed.

Lemma block_rows_rectangular block :
  Forall (fun elem => IColumn_size (column elem) = rows block) block ->
  mapM (row_at block) (seq 0 (Z.to_nat (rows block))) = Some (block_rows block).
Proof.
  intros Hrect. unfold block_rows.
  destruct (mapM (row_at block) _) as [rws|] eqn:E; [reflexivity|].
  exfalso. apply mapM_None in E. apply Exists_exists in E.
  destruct E as (i & Hi & E). apply list_elem_of_In, in_seq in Hi.
  unfold row_at in E. apply mapM_None, Exists_exists in E.
  destruct E as (elem & He & E).
  rewrite Forall_forall in Hrect. specialize (Hrect _ He). simpl in Hrect.
  unfold IColumn_size in Hrect.
  destruct (lookup_lt_is_Some_2 (column elem) i) as [v Hv]; [lia|].
  now rewrite Hv in E.
Qed.

(** The keys of the rows of a block written without a permutation. *)
Lemma keys_of_block_rows {St} block sd (s s' : St) pcs m
    (keys : list (list (DataType * Field))) :
  resolve_primary_columns block None sd 0%nat [] ∅ s = Returns (pcs, m) s' ->
  Forall (fun elem => IColumn_size (column elem) = rows block) block ->
  Z.of_nat (length keys) = rows block ->
  (forall i key, keys !! i = Some key -> key_at pcs i = Some key) ->
  mapM (key_of_row sd) (block_rows block) = Some keys.
Proof.
  intros E Hrect Hlen Hkeys.
  apply resolve_None_lookup in E. destruct E as (new & E & Hpcs).
  simpl in E. subst new.
  pose proof (block_rows_rectangular block Hrect) as Hrows.
  pose proof (length_mapM _ _ _ Hrows) as Hrl. rewrite length_seq in Hrl.
  apply mapM_Some in Hrows.
  apply mapM_Some. apply Forall2_same_length_lookup_2; [lia|].
  intros i row key Hrow Hkey.
  destruct (Forall2_lookup_r _ _ _ _ _ Hrows Hrow) as (j & Hj & Hat).
  apply lookup_seq in Hj. destruct Hj as [-> _]. simpl in Hat.
  eapply key_of_row_at; eauto.
Qed.

End Rows.

(** ** The index after a call, and after a sequence of calls *)

Section Summary.

Context {DataType Field : Type}.
Context `{!IDataType DataType Field} `{!IOEnv DataType}.

Implicit Types self : MergedBlockOutputStream DataType Field.
Implicit Types block : Block DataType Field.
Implicit Types keys : list (list (DataType * Field)).

Lemma index_view_length n self :
  length (index_columns self) = n -> index_view n self = index_columns self.
Proof.
  intros Hlen. unfold index_view, ensure_index.
  destruct (index_columns self) eqn:E; [|now rewrite E].
  simpl in *. subst n. reflexivity.
Qed.

Lemma ensure_index_length n self :
  index_columns self = [] \/ length (index_columns self) = n ->
  length (index_columns (ensure_index n self)) = n.
Proof.
  intros Hwf. unfold ensure_index.
  destruct (index_columns self) eqn:E; simpl.
  - apply length_replicate.
  - rewrite E. destruct Hwf as [?|Hlen]; [discriminate | exact Hlen].
Qed.

Lemma index_summary_ensure n self :
  index_columns self = [] \/ length (index_columns self) = n ->
  index_summary n (ensure_index n self) = index_summary n self.
Proof.
  intros Hwf. unfold index_summary. f_equal; [f_equal|].
  - unfold ensure_index. destruct (index_columns self); reflexivity.
  - unfold ensure_index. destruct (index_columns self); reflexivity.
  - rewrite index_view_length by now apply ensure_index_length.
    reflexivity.
Qed.

Lemma sample_row_summary n key self :
  length (index_columns self) = n -> length key = n ->
  index_summary n (sample_row key self)
  = summary_step (is_sorted self) (index_summary n self) key /\
  length (index_columns (sample_row key self)) = n /\
  mode_of (sample_row key self) = mode_of self /\
  (is_Some (index_stream self) -> is_Some (index_stream (sample_row key self))).
Proof.
  intros Hlen Hkey. unfold sample_row, is_sorted.
  destruct (decide (mode_of self ≠ Unsorted)) as [Hm|Hm].
  - rewrite bool_decide_eq_true_2 by exact Hm.
    assert (Hl : length (zip_with (fun col (tv : DataType * Field) => col ++ [tv.2])
                           (index_columns self) key) = n).
    { rewrite length_zip_with. lia. }
    split; [|split; [exact Hl|split; [reflexivity|]]].
    + unfold index_summary, summary_step. simpl.
      rewrite !index_view_length by (simpl; assumption). reflexivity.
    + intros [out Ho]. unfold push_key. simpl. rewrite Ho. simpl. eauto.
  - rewrite bool_decide_eq_false_2 by exact Hm.
    split; [|split; [exact Hlen|split; [reflexivity|auto]]].
    unfold index_summary, summary_step. simpl.
    rewrite !index_view_length by (simpl; assumption). reflexivity.
Qed.

Lemma sample_row_frame key self :
  base (sample_row key self) = base self /\
  columns_list (sample_row key self) = columns_list self /\
  part_path (sample_row key self) = part_path self.
Proof. unfold sample_row. simpl. destruct (decide _); auto. Qed.

Lemma fold_sample_row_summary n keys :
  Forall (fun key => length key = n) keys ->
  forall self, length (index_columns self) = n ->
  let self' := fold_left (fun s key => sample_row key s) keys self in
  index_summary n self'
  = fold_left (summary_step (is_sorted self)) keys (index_summary n self) /\
  length (index_columns self') = n /\
  mode_of self' = mode_of self /\
  (base self' = base self /\ columns_list self' = columns_list self /\
   part_path self' = part_path self) /\
  (is_Some (index_stream self) -> is_Some (index_stream self')).
Proof.
  induction 1 as [|key keys Hkey Hkeys IH]; intros self Hlen; simpl.
  - auto 10.
  - destruct (sample_row_summary n key self Hlen Hkey) as (E1 & E2 & E3 & E4).
    destruct (IH (sample_row key self) E2) as (F1 & F2 & F3 & F4 & F5).
    rewrite F1, E1, F3, E3.
    assert (Hs : is_sorted (sample_row key self) = is_sorted self).
    { unfold is_sorted. now rewrite E3. }
    rewrite Hs. split; [reflexivity|]. split; [exact F2|].
    split; [reflexivity|]. split; [|auto].
    destruct F4 as (-> & -> & ->). apply sample_row_frame.
Qed.

Lemma writeImpl_summary fuel block perm self self' :
  writeImpl fuel block perm self = Returns tt self' ->
  let g := index_granularity (storage (base self)) in
  let io := index_offset (base self) in
  let sd := getSortDescription (storage (base self)) in
  1 <= g -> writer_ready self -> rows block + g < size_t_modulus ->
  exists keys,
    Z.of_nat (length keys) = rows block /\
    (perm = None -> mapM (key_of_row sd) (block_rows block) = Some keys) /\
    index_summary (length sd) self'
    = fold_left (summary_step (is_sorted self))
        (sample_from g (Z.to_nat io) keys) (index_summary (length sd) self) /\
    index_offset (base self') = (io - rows block) mod g /\
    same_frame (set_index_offset ((io - rows block) mod g) (base self))
      (base self') /\
    columns_list self' = columns_list self /\
    part_path self' = part_path self /\
    writer_ready self'.
Proof.
  intros E g io sd Hg (Hio & Hidx & Hout) Hsize.
  assert (Hrect : Forall (fun elem => IColumn_size (column elem) = rows block)
                    block).
  { unfold writeImpl in E. apply bind_Returns in E.
    destruct E as ([] & s0 & E0 & _).
    now apply checkNumberOfRows_Returns in E0. }
  destruct (writeImpl_spec _ _ _ _ _ E Hg Hio Hsize)
    as (pcs & m & keys & b' & Eres & Hlen & Hkeys & -> & F); [auto|].
  pose proof (resolve_primary_columns_spec _ _ _ _ _ _ _ _ _ _ Eres)
    as (_ & Hpl & _). simpl in Hpl.
  assert (Hkl : Forall (fun key => length key = length sd)
                  (sample_from g (Z.to_nat io) keys)).
  { assert (Hall : Forall (fun key => length key = length sd) keys).
    { apply Forall_lookup. intros i key Hi. apply Hkeys in Hi.
      apply key_at_length in Hi. subst sd. lia. }
    clear - Hall. generalize (Z.to_nat io).
    induction Hall as [|key keys Hk Hall IH]; intros skip; simpl.
    - constructor.
    - destruct skip; [constructor; [exact Hk|]|]; apply IH. }
  destruct (fold_sample_row_summary _ _ Hkl (ensure_index (length sd) self))
    as (S1 & S2 & S3 & S4 & S5); [now apply ensure_index_length|].
  assert (Hmode : mode_of (ensure_index (length sd) self) = mode_of self).
  { unfold ensure_index, mode_of. destruct (index_columns self); reflexivity. }
  destruct S4 as (S41 & S42 & S43).
  assert (Hens : base (ensure_index (length sd) self) = base self /\
                 columns_list (ensure_index (length sd) self) = columns_list self /\
                 part_path (ensure_index (length sd) self) = part_path self /\
                 (is_Some (index_stream self) ->
                  is_Some (index_stream (ensure_index (length sd) self)))).
  { unfold ensure_index. destruct (index_columns self); auto. }
  destruct Hens as (N1 & N2 & N3 & N4).
  exists keys. split; [exact Hlen|].
  split; [|split; [|split; [|split; [|split; [|split]]]]].
  - intros ->. eapply keys_of_block_rows; eauto.
  - replace (index_summary (length sd) (set_base b' _))
      with (index_summary (length sd)
              (fold_left (fun s key => sample_row key s)
                 (sample_from g (Z.to_nat io) keys)
                 (ensure_index (length sd) self))).
    2:{ unfold index_summary, index_view, ensure_index. simpl.
        destruct (index_columns (fold_left _ _ _)); reflexivity. }
    rewrite S1, index_summary_ensure by exact Hidx.
    unfold is_sorted. rewrite Hmode. reflexivity.
  - destruct F as (_ & _ & _ & _ & _ & F6 & _). exact F6.
  - exact F.
  - simpl. etransitivity; [exact S42 | exact N2].
  - simpl. etransitivity; [exact S43 | exact N3].
  - destruct F as (F1 & _ & _ & _ & _ & F6 & _). simpl in F1, F6.
    unfold writer_ready, mode_of. simpl. rewrite F1, F6.
    split; [apply Z.mod_pos_bound; lia|]. split.
    + right. exact S2.
    + intros Hm. apply S5, N4, Hout. exact Hm.
Qed.

Lemma write_calls_summary fuel calls :
  forall self self',
  write_calls fuel calls self = Returns tt self' ->
  let g := index_granularity (storage (base self)) in
  let io := index_offset (base self) in
  let sd := getSortDescription (storage (base self)) in
  1 <= g -> writer_ready self ->
  Forall (fun call : Block DataType Field * option (list nat) =>
            Forall (fun elem => IColumn_size (column elem) = rows call.1) call.1 ->
            rows call.1 + g < size_t_modulus) calls ->
  exists keyss : list (list (list (DataType * Field))),
    Forall2 (fun (call : Block DataType Field * option (list nat)) keys =>
               Z.of_nat (length keys) = rows call.1 /\
               (call.2 = None ->
                mapM (key_of_row sd) (block_rows call.1) = Some keys))
      calls keyss /\
    index_summary (length sd) self'
    = fold_left (summary_step (is_sorted self))
        (sample_from g (Z.to_nat io) (concat keyss))
        (index_summary (length sd) self) /\
    index_offset (base self')
    = (io - Z.of_nat (length (concat keyss))) mod g /\
    storage (base self') = storage (base self) /\
    dom (column_streams (base self')) = dom (column_streams (base self)) /\
    columns_list self' = columns_list self /\
    part_path self' = part_path self /\
    writer_ready self'.
Proof.
  induction calls as [|[block perm] calls IH]; intros self self' E g io sd Hg Hready Hsize.
  - injection E as <-. exists []. simpl.
    destruct Hready as (Hio & ?). fold io g in Hio.
    rewrite Z.sub_0_r, Z.mod_small by lia.
    split; [apply Forall2_nil_2|].
    split; [reflexivity|]. split; [reflexivity|]. split; [reflexivity|].
    split; [reflexivity|]. split; [reflexivity|]. split; [reflexivity|].
    split; assumption.
  - unfold write_calls in E. simpl in E.
    apply bind_Returns in E. destruct E as ([] & s1 & E1 & E).
    inversion Hsize as [|? ? Hs1 Hs2]; subst.
    assert (Hrect : Forall (fun elem => IColumn_size (column elem) = rows block)
                      block).
    { unfold writeImpl in E1. apply bind_Returns in E1.
      destruct E1 as ([] & s0 & E0 & _).
      now apply checkNumberOfRows_Returns in E0. }
    destruct (writeImpl_summary _ _ _ _ _ E1 Hg Hready (Hs1 Hrect))
      as (keys & K1 & K2 & K3 & K4 & K5 & K6 & K7 & K8).
    destruct K5 as (F1 & _ & _ & _ & _ & _ & F7). simpl in F1, F7.
    assert (Hsort : is_sorted s1 = is_sorted self).
    { unfold is_sorted, mode_of. now rewrite F1. }
    destruct (IH s1 self' E) as (keyss & L1 & L2 & L3 & L4 & L5 & L6 & L7 & L8);
      [rewrite F1; exact Hg | exact K8 | rewrite F1; exact Hs2 |].
    rewrite F1, K4, Hsort in *. fold g io sd in L1, L2, L3, K3, K4 |- *.
    exists (keys :: keyss). simpl concat.
    split; [constructor; [split; assumption | exact L1]|].
    split; [|split; [|split; [|split; [|split; [|split]]]]].
    + rewrite sample_from_app by (destruct Hready as (Hio & _); fold io g in Hio; lia).
      rewrite fold_left_app, <- K3, L2.
      rewrite Z2Nat.id by (destruct Hready as (Hio & _); fold io in Hio; lia).
      rewrite K1. reflexivity.
    + rewrite L3, length_app, Nat2Z.inj_add, K1.
      rewrite Zminus_mod_idemp_l. f_equal. lia.
    + exact L4.
    + congruence.
    + congruence.
    + congruence.
    + exact L8.
Qed.

End Summary.

(** ** The constructor *)

Lemma fold_left_invariant {A B} (P : A -> Prop) (f : A -> B -> A) (l : list B) :
  (forall a x, P a -> P (f a x)) -> forall a, P a -> P (fold_left f l a).
Proof.
  intros Hf. induction l as [|x l IH]; intros a Ha; simpl; [exact Ha|].
  apply IH, Hf, Ha.
Qed.

Section Constructor.

Context {DataType Field : Type}.
Context `{!IDataType DataType Field} `{!IOEnv DataType}.

Lemma addStream_invariant
    (P : IMergedBlockOutputStream * FileSystem -> Prop) path n (t : DataType)
    est skip :
  (forall self fs stream_name,
     P (self, fs) -> column_streams self !! stream_name = None ->
     P (set_column_streams
          (<[stream_name :=
               (ColumnStream_new stream_name (path +:+ stream_name)
                  DATA_FILE_EXTENSION (path +:+ stream_name)
                  MARKS_FILE_EXTENSION (max_compress_block_size self)
                  (compression_method self) est (aio_threshold self) fs).1]>
             (column_streams self)) self,
        (ColumnStream_new stream_name (path +:+ stream_name)
           DATA_FILE_EXTENSION (path +:+ stream_name)
           MARKS_FILE_EXTENSION (max_compress_block_size self)
           (compression_method self) est (aio_threshold self) fs).2)) ->
  forall st, P st -> P (addStream path n t est skip st).
Proof.
  intros Hnew. unfold addStream. apply fold_left_invariant.
  intros [self fs] sp HP.
  destruct (skip && is_array_sizes sp); [exact HP|].
  destruct (column_streams self !! getFileNameForStream n sp) eqn:E;
    [exact HP|].
  now apply Hnew.
Qed.

(** The writer as its constructor leaves it. *)
Lemma MergedBlockOutputStream_new_spec storage_ path
    (cols : list (string * DataType)) method fs :
  let w := (MergedBlockOutputStream_new storage_ path cols method fs).1 in
  storage (base w) = storage_ /\
  index_offset (base w) = 0 /\
  marks_count w = 0 /\
  index_columns w = [] /\
  index_stream w
  = (if decide (merging_params_mode storage_ ≠ Unsorted)
     then Some [] else None) /\
  columns_list w = cols /\
  part_path w = path.
Proof.
  unfold MergedBlockOutputStream_new.
  match goal with
  | |- context [fold_left ?f cols ?init] =>
      apply (fold_left_invariant
               (fun st : MergedBlockOutputStream DataType Field * FileSystem =>
                  let w := st.1 in
                  storage (base w) = storage_ /\
                  index_offset (base w) = 0 /\
                  marks_count w = 0 /\
                  index_columns w = [] /\
                  index_stream w
                  = (if decide (merging_params_mode storage_ ≠ Unsorted)
                     then Some [] else None) /\
                  columns_list w = cols /\
                  part_path w = path) f cols)
  end.
  - intros [w fs1] it Hw. unfold addStream_in.
    destruct (addStream (part_path w) it.1 it.2 0 false (base w, fs1))
      as [b fs2] eqn:E. simpl in *.
    assert (Hb : storage b = storage (base w) /\
                 index_offset b = index_offset (base w)).
    { change b with (b, fs2).1. rewrite <- E.
      apply (addStream_invariant
               (fun st => storage st.1 = storage (base w) /\
                          index_offset st.1 = index_offset (base w)));
        [|split; reflexivity].
      intros self fs0 sn Hs _. exact Hs. }
    destruct Hb as [-> ->]. exact Hw.
  - unfold init, mode_of. simpl.
    destruct (decide (merging_params_mode storage_ ≠ Unsorted)); simpl;
      repeat split; reflexivity.
Qed.

Lemma MergedBlockOutputStream_new_ready storage_ path
    (cols : list (string * DataType)) method fs :
  1 <= index_granularity storage_ ->
  writer_ready (MergedBlockOutputStream_new storage_ path cols method fs).1.
Proof.
  intros Hg.
  destruct (MergedBlockOutputStream_new_spec storage_ path cols method fs)
    as (H1 & H2 & H3 & H4 & H5 & H6 & H7).
  unfold writer_ready, mode_of. rewrite H1, H2, H4, H5.
  split; [lia|]. split; [now left|].
  intros Hm. rewrite decide_True by exact Hm. eauto.
Qed.

End Constructor.

(** ** Blocks that carry the same rows *)

Section SameRows.

Context {DataType Field : Type}.
Context `{!IDataType DataType Field} `{!IOEnv DataType}.

Implicit Types self : MergedBlockOutputStream DataType Field.
Implicit Types block : Block DataType Field.

Lemma write_all_calls fuel (blocks : list (Block DataType Field)) self :
  write_all fuel blocks self
  = write_calls fuel (map (fun b => (b, None)) blocks) self.
Proof.
  unfold write_all, write_calls. revert self.
  induction blocks as [|b blocks IH]; intros self; simpl; [reflexivity|].
  unfold bind, write. simpl. destruct (writeImpl fuel b None self); auto.
Qed.

Lemma mapM_concat {A B C} (f : A -> option B) (g : C -> list A) cs kss :
  Forall2 (fun c ks => mapM f (g c) = Some ks) cs kss ->
  mapM f (concat (map g cs)) = Some (concat kss).
Proof.
  intros H. apply mapM_Some. induction H as [|c ks cs kss Hc H IH]; simpl.
  - constructor.
  - apply Forall2_app; [now apply mapM_Some | exact IH].
Qed.

Lemma block_rows_length block :
  Forall (fun elem => IColumn_size (column elem) = rows block) block ->
  Z.of_nat (length (block_rows block)) = rows block.
Proof.
  intros Hrect. pose proof (block_rows_rectangular block Hrect) as E.
  apply length_mapM in E. rewrite length_seq in E. rewrite <- E.
  assert (0 <= rows block);
    [unfold rows; destruct block; unfold IColumn_size; lia | lia].
Qed.

Lemma index_column_at_view n self j :
  index_column_at self j = default [] (index_view n self !! j).
Proof.
  unfold index_column_at, index_view, ensure_index.
  destruct (index_columns self) eqn:E; [|now rewrite E].
  simpl. destruct (replicate n [] !! j) eqn:R; [|reflexivity].
  apply lookup_replicate in R. destruct R as [-> _]. reflexivity.
Qed.

Lemma total_rows_length_le (blocks : list (Block DataType Field)) block :
  In block blocks ->
  (length (block_rows block) <= length (total_rows blocks))%nat.
Proof.
  unfold total_rows. induction blocks as [|b blocks IH]; intros Hin.
  - destruct Hin.
  - simpl. rewrite length_app. destruct Hin as [->|Hin]; [lia|].
    specialize (IH Hin). lia.
Qed.

(** The summary of the index after the blocks of a list were written to a
    writer that is ready. *)
Lemma write_all_summary fuel (blocks : list (Block DataType Field)) self self' :
  write_all fuel blocks self = Returns tt self' ->
  let g := index_granularity (storage (base self)) in
  let io := index_offset (base self) in
  let sd := getSortDescription (storage (base self)) in
  1 <= g -> writer_ready self ->
  Z.of_nat (length (total_rows blocks)) + g < size_t_modulus ->
  exists keys,
    mapM (key_of_row sd) (total_rows blocks) = Some keys /\
    index_summary (length sd) self'
    = fold_left (summary_step (is_sorted self))
        (sample_from g (Z.to_nat io) keys) (index_summary (length sd) self) /\
    index_offset (base self')
    = (io - Z.of_nat (length (total_rows blocks))) mod g /\
    writer_ready self'.
Proof.
  intros E g io sd Hg Hready Hsize. rewrite write_all_calls in E.
  destruct (write_calls_summary _ _ _ _ E Hg Hready)
    as (keyss & K1 & K2 & K3 & _ & _ & _ & _ & K8).
  { apply Forall_forall. intros [b p] Hin Hrect. simpl in *.
    apply list_elem_of_In, in_map_iff in Hin.
    destruct Hin as (b' & Eb & Hin). injection Eb as -> <-.
    rewrite <- (block_rows_length b Hrect).
    pose proof (total_rows_length_le blocks b Hin). fold g. lia. }
  assert (Hkeys : mapM (key_of_row sd) (total_rows blocks)
                  = Some (concat keyss)).
  { unfold total_rows. apply mapM_concat.
    apply Forall2_fmap_l in K1. eapply Forall2_impl; [exact K1|].
    intros b keys [_ Hk]. simpl in Hk. now apply Hk. }
  exists (concat keyss). split; [exact Hkeys|]. split; [exact K2|].
  split; [|exact K8].
  rewrite K3. apply length_mapM in Hkeys. rewrite Hkeys. reflexivity.
Qed.

(** C1.  Two sequences of blocks with the same rows, written to a new
    writer, leave the same count of marks, the same index columns, the
    same bytes in [primary.idx] and the same carried offset, which is
    aligned to the total count of rows; after each call the carried
    offset is [(g - ((g - old + rows) mod g)) mod g].  The counts of rows
    are taken to fit in a [size_t] together with the granularity. *)
Theorem same_rows_same_index storage_ path (cols : list (string * DataType))
    method fs fuel1 fuel2 (blocks1 blocks2 : list (Block DataType Field))
    w1 w2 :
  let w0 := (MergedBlockOutputStream_new storage_ path cols method fs).1 in
  let g := index_granularity storage_ in
  1 <= g ->
  Z.of_nat (length (total_rows blocks1)) + g < size_t_modulus ->
  total_rows blocks1 = total_rows blocks2 ->
  write_all fuel1 blocks1 w0 = Returns tt w1 ->
  write_all fuel2 blocks2 w0 = Returns tt w2 ->
  marks_count w1 = marks_count w2 /\
  (forall j, index_column_at w1 j = index_column_at w2 j) /\
  index_stream w1 = index_stream w2 /\
  index_offset (base w1) = index_offset (base w2) /\
  index_offset (base w1)
  = (g - (g - 0 + Z.of_nat (length (total_rows blocks1))) mod g) mod g /\
  (forall fuel block perm w w',
     index_granularity (storage (base w)) = g -> writer_ready w ->
     rows block + g < size_t_modulus ->
     writeImpl fuel block perm w = Returns tt w' ->
     index_offset (base w')
     = (g - (g - index_offset (base w) + rows block) mod g) mod g).
Proof.
  intros w0 g Hg Hsize Hrows E1 E2.
  destruct (MergedBlockOutputStream_new_spec storage_ path cols method fs)
    as (H1 & H2 & _).
  pose proof (MergedBlockOutputStream_new_ready storage_ path cols method fs Hg)
    as Hready.
  fold w0 in H1, H2, Hready.
  destruct (write_all_summary _ _ _ _ E1) as (keys1 & A1 & A2 & A3 & _);
    [rewrite H1; exact Hg | exact Hready | rewrite H1; exact Hsize |].
  destruct (write_all_summary _ _ _ _ E2) as (keys2 & B1 & B2 & B3 & _);
    [rewrite H1; exact Hg | exact Hready
     | rewrite H1, <- Hrows; exact Hsize |].
  rewrite <- Hrows, A1 in B1. injection B1 as <-.
  rewrite <- B2 in A2. rewrite <- Hrows, <- A3 in B3.
  injection A2 as M1 M2 M3.
  split; [exact M1|]. split; [|split; [exact M2|split; [now symmetry|split]]].
  - intros j.
    rewrite (index_column_at_view
               (length (getSortDescription (storage (base w0)))) w1 j).
    rewrite (index_column_at_view
               (length (getSortDescription (storage (base w0)))) w2 j).
    now rewrite M3.
  - rewrite A3, H1, H2. fold g.
    rewrite Zminus_mod_idemp_r. f_equal. lia.
  - intros fuel block perm w w' Hgw Hw Hs E.
    destruct (writeImpl_summary _ _ _ _ _ E) as (_ & _ & _ & _ & K & _);
      [rewrite Hgw; exact Hg | exact Hw | rewrite Hgw; exact Hs |].
    rewrite K, Hgw. rewrite Zminus_mod_idemp_r. f_equal. lia.
Qed.

End SameRows.

(** ** Invariants of the streams across calls *)

Section Calls.

Context {DataType Field : Type}.
Context `{!IDataType DataType Field} `{!IOEnv DataType}.

Implicit Types self : MergedBlockOutputStream DataType Field.
Implicit Types block : Block DataType Field.

Lemma keeps_stateless {St A} (P : St -> Prop) (m : M St A) :
  (forall s, match m s with
             | Returns _ s' | Throws _ s' => s' = s
             | _ => True
             end) ->
  keeps P m.
Proof.
  intros Hm s Hs. specialize (Hm s).
  destruct (m s); try exact I; now subst.
Qed.

Lemma keeps_getByName {St} (P : St -> Prop) block n :
  keeps P (getByName block n).
Proof.
  apply keeps_stateless. intros s. unfold getByName.
  destruct (find _ block); reflexivity.
Qed.

Lemma keeps_safeGetByPosition {St} (P : St -> Prop) block k :
  keeps P (safeGetByPosition block k).
Proof.
  apply keeps_stateless. intros s. unfold safeGetByPosition.
  destruct (block !! k); reflexivity.
Qed.

Lemma keeps_permute {St} (P : St -> Prop) (c : list Field) perm :
  keeps P (permute c perm).
Proof.
  apply keeps_stateless. intros s. unfold permute.
  destruct (length perm <? length c)%nat; [reflexivity|].
  destruct (mapM _ _); [reflexivity | exact I].
Qed.

Lemma keeps_resolve {St} (P : St -> Prop) block perm :
  forall sd i pcs m,
  keeps P (resolve_primary_columns block perm sd i pcs m).
Proof.
  induction sd as [|descr sd IH]; intros i pcs m; simpl.
  - apply keeps_ret.
  - apply keeps_bind.
    { destruct (negb _); [apply keeps_ret|].
      apply keeps_bind; [apply keeps_safeGetByPosition|].
      intros e. apply keeps_ret. }
    intros n. destruct (m !! n); [intros s Hs; exact Hs|].
    apply keeps_bind.
    { destruct (negb _);
        [apply keeps_getByName | apply keeps_safeGetByPosition]. }
    intros elem. apply keeps_bind; [|intros elem'; apply IH].
    destruct perm as [perm|]; [|apply keeps_ret].
    apply keeps_bind; [apply keeps_permute | intros c; apply keeps_ret].
Qed.

(** What [writeData] and the update of the carried offset keep in the
    base class, [writeImpl] keeps. *)
Section BaseInvariant.

Variable P : IMergedBlockOutputStream -> Prop.
Hypothesis P_writeData : forall fuel n (t : DataType) (c : list Field) oc skip,
  keeps P (writeData fuel n t c oc skip).
Hypothesis P_offset : forall b io, P b -> P (set_index_offset io b).

Lemma keeps_writeData_in fuel n t (c : list Field) oc skip :
  keeps (fun self => P (base self)) (writeData_in fuel n t c oc skip).
Proof.
  intros s Hs. unfold writeData_in, on_base.
  pose proof (P_writeData fuel n t c oc skip (base s) Hs) as K.
  destruct (writeData fuel n t c oc skip (base s)); try exact I; exact K.
Qed.

Lemma keeps_index_loop pcs n :
  forall fuel i,
  keeps (fun self => P (base self)) (index_loop fuel pcs n i).
Proof.
  induction fuel as [|fuel IH]; intros i; simpl.
  - destruct (i <? n); [intros s _; exact I | apply keeps_ret].
  - destruct (i <? n); [|apply keeps_ret].
    apply keeps_bind; [apply keeps_get | intros self].
    apply keeps_bind; [|intros _; apply keeps_bind; [|intros _; apply IH]].
    + destruct (decide _); [|apply keeps_ret].
      apply keeps_for_each. intros j s Hs. unfold index_insert.
      destruct (pcs !! j); [|exact I].
      destruct (index_columns s !! j); [|exact I].
      destruct (index_stream s); [|exact I].
      destruct (column _ !! _); [exact Hs | exact I].
    + intros s Hs. exact Hs.
Qed.

Lemma keeps_writeImpl fuel block perm :
  keeps (fun self => P (base self)) (writeImpl fuel block perm).
Proof.
  unfold writeImpl.
  apply keeps_bind.
  { apply keeps_stateless. intros s. unfold checkNumberOfRows.
    destruct (forallb _ block); reflexivity. }
  intros _. apply keeps_bind; [apply keeps_get | intros self].
  apply keeps_bind; [apply keeps_resolve | intros primary].
  apply keeps_bind.
  { destruct (index_columns self); [|apply keeps_ret].
    intros s Hs. exact Hs. }
  intros _. apply keeps_bind.
  { unfold write_columns. apply keeps_for_each. intros it.
    apply keeps_bind; [apply keeps_getByName | intros elem].
    destruct perm as [perm|]; [|apply keeps_writeData_in].
    destruct (primary.2 !! it.1) as [pos|].
    - destruct (primary.1 !! pos); [apply keeps_writeData_in|].
      intros s _. exact I.
    - apply keeps_bind; [apply keeps_permute|].
      intros c. apply keeps_writeData_in. }
  intros _. apply keeps_bind; [apply keeps_get | intros self1].
  apply keeps_bind; [apply keeps_index_loop | intros _].
  intros s Hs. unfold on_base, update_index_offset.
  destruct (index_granularity (storage (base s)) =? 0); [exact I|].
  simpl. now apply P_offset.
Qed.

Lemma keeps_write_calls fuel calls :
  keeps (fun self => P (base self)) (write_calls fuel calls).
Proof.
  unfold write_calls. apply keeps_for_each. intros call.
  apply keeps_writeImpl.
Qed.

End BaseInvariant.

(** A property of the streams that the updates of [writeData] keep holds
    of every stream after any sequence of calls. *)
Lemma all_streams_update (Q : ColumnStream -> Prop) :
  (forall f s, stream_update f -> Q s -> Q (f s)) ->
  forall (b : IMergedBlockOutputStream) n s f,
  stream_update f -> all_streams Q b -> column_streams b !! n = Some s ->
  all_streams Q (set_column_streams (<[n := f s]> (column_streams b)) b).
Proof.
  intros HQ b n s f Hf Hall Hn n' s' Hn'. simpl in Hn'.
  destruct (decide (n = n')) as [->|Hne].
  - rewrite lookup_insert_eq in Hn'. injection Hn' as <-.
    apply HQ; [exact Hf | eapply Hall; exact Hn].
  - rewrite lookup_insert_ne in Hn' by exact Hne. eapply Hall; exact Hn'.
Qed.

Lemma all_streams_write_calls (Q : ColumnStream -> Prop) fuel calls :
  (forall f s, stream_update f -> Q s -> Q (f s)) ->
  keeps (fun self => all_streams Q (base self)) (write_calls fuel calls).
Proof.
  intros HQ. apply keeps_write_calls.
  - intros fuel' n t c oc skip. apply writeData_keeps.
    intros b n' s f Hf. now apply all_streams_update.
  - intros b io Hb. exact Hb.
Qed.

End Calls.

(** ** File names *)

Lemma string_app_cons x (a b : string) : String x a +:+ b = String x (a +:+ b).
Proof. reflexivity. Qed.

Lemma string_app_assoc (a b c : string) : (a +:+ b) +:+ c = a +:+ (b +:+ c).
Proof.
  induction a as [|x a IH]; [reflexivity|].
  rewrite !string_app_cons. f_equal. exact IH.
Qed.

Lemma string_app_length (a b : string) :
  String.length (a +:+ b) = (String.length a + String.length b)%nat.
Proof.
  induction a as [|x a IH]; [reflexivity|].
  rewrite string_app_cons. simpl. f_equal. exact IH.
Qed.

(** No data file and no marks file is [primary.idx]. *)
Lemma stream_file_not_index (n : string) :
  n +:+ DATA_FILE_EXTENSION <> "primary.idx" /\
  n +:+ MARKS_FILE_EXTENSION <> "primary.idx".
Proof.
  split; intros E;
    (assert (Hlen : String.length n = 7%nat)
       by (apply (f_equal String.length) in E;
           rewrite string_app_length in E; simpl in E; lia));
    do 8 (destruct n as [|? n]; try discriminate Hlen);
    rewrite !string_app_cons in E; discriminate E.
Qed.

Lemma stream_path_not_index (path n : string) :
  (path +:+ n) +:+ DATA_FILE_EXTENSION <> path +:+ "primary.idx" /\
  (path +:+ n) +:+ MARKS_FILE_EXTENSION <> path +:+ "primary.idx".
Proof.
  destruct (stream_file_not_index n) as [H1 H2].
  rewrite !string_app_assoc.
  split; intros E; apply String.app_inj in E; contradiction.
Qed.

Section StreamFiles.

Context {DataType Field : Type}.
Context `{!IDataType DataType Field} `{!IOEnv DataType}.

Lemma stream_of_part_next path s :
  stream_of_part path s -> stream_of_part path (compressed_next s).
Proof. unfold compressed_next. destruct (compressed s); auto. Qed.

Lemma stream_of_part_nextIfAtEnd path s :
  stream_of_part path s -> stream_of_part path (compressed_nextIfAtEnd s).
Proof.
  unfold compressed_nextIfAtEnd. destruct (_ =? _)%nat; [|auto].
  apply stream_of_part_next.
Qed.

Lemma stream_of_part_update path f s :
  stream_update f -> stream_of_part path s -> stream_of_part path (f s).
Proof.
  intros [m|bytes|] Hs.
  - unfold write_mark.
    assert (H1 : stream_of_part path
                   (if compressed_offset s >=? m then compressed_next s else s)).
    { destruct (_ >=? _); [now apply stream_of_part_next | exact Hs]. }
    exact H1.
  - unfold compressed_write. revert s Hs.
    induction bytes as [|b bytes IH]; intros s Hs; simpl; [exact Hs|].
    apply IH. unfold compressed_put.
    now apply stream_of_part_nextIfAtEnd in Hs.
  - now apply stream_of_part_nextIfAtEnd.
Qed.

(** The constructor makes streams of the part and, in the unsorted mode,
    no [primary.idx]. *)
Lemma MergedBlockOutputStream_new_files storage_ path
    (cols : list (string * DataType)) method fs :
  let st := MergedBlockOutputStream_new storage_ path cols method fs in
  all_streams (stream_of_part path) (base st.1) /\
  (merging_params_mode storage_ = Unsorted ->
   files st.2 !! (path +:+ "primary.idx") = files fs !! (path +:+ "primary.idx")).
Proof.
  unfold MergedBlockOutputStream_new.
  match goal with
  | |- context [fold_left ?f cols ?init] =>
      apply (fold_left_invariant
               (fun st : MergedBlockOutputStream DataType Field * FileSystem =>
                  part_path st.1 = path /\
                  all_streams (stream_of_part path) (base st.1) /\
                  (merging_params_mode storage_ = Unsorted ->
                   files st.2 !! (path +:+ "primary.idx")
                   = files fs !! (path +:+ "primary.idx"))) f cols)
  end.
  - intros [w fs1] it (Hp & Hall & Hfs). unfold addStream_in.
    assert (Hadd :
      let st := addStream (part_path w) it.1 it.2 0 false (base w, fs1) in
      all_streams (stream_of_part path) st.1 /\
      (merging_params_mode storage_ = Unsorted ->
       files st.2 !! (path +:+ "primary.idx")
       = files fs !! (path +:+ "primary.idx"))).
    { apply (addStream_invariant
               (fun st => all_streams (stream_of_part path) st.1 /\
                          (merging_params_mode storage_ = Unsorted ->
                           files st.2 !! (path +:+ "primary.idx")
                           = files fs !! (path +:+ "primary.idx"))));
        [|split; assumption].
      intros self fs0 sn [Hs Hf] Hnone. simpl in Hp. rewrite Hp. simpl. split.
      + intros n s Hn. simpl in Hn. destruct (decide (sn = n)) as [->|Hne].
        * rewrite lookup_insert_eq in Hn. injection Hn as <-.
          repeat split.
        * rewrite lookup_insert_ne in Hn by exact Hne. eapply Hs; exact Hn.
      + intros Hm. destruct (stream_path_not_index path sn) as [N1 N2].
        rewrite !lookup_insert_ne by assumption. now apply Hf. }
    destruct (addStream (part_path w) it.1 it.2 0 false (base w, fs1))
      as [b fs2] eqn:E. simpl in *.
    split; [exact Hp | exact Hadd].
  - unfold init, mode_of. simpl.
    destruct (decide (merging_params_mode storage_ ≠ Unsorted)) as [Hm|Hm];
      simpl; (split; [reflexivity|]); (split; [intros n s Hn; discriminate|]);
      intros Hu; [contradiction | reflexivity].
Qed.

End StreamFiles.

(** ** The unsorted mode *)

Section Unsorted.

Context {DataType Field : Type}.
Context `{!IDataType DataType Field} `{!IOEnv DataType}.

Implicit Types self : MergedBlockOutputStream DataType Field.

Lemma files_set_ne k f (checksums : Checksums) k' :
  k <> k' -> files_set k f checksums !! k' = checksums !! k'.
Proof. intros Hne. unfold files_set. now rewrite lookup_insert_ne. Qed.

Lemma addToChecksums_index path s (checksums : Checksums) :
  stream_of_part path s ->
  addToChecksums s checksums !! "primary.idx" = checksums !! "primary.idx".
Proof.
  intros (E1 & E2 & _). unfold addToChecksums. rewrite E1, E2.
  destruct (stream_file_not_index (escaped_column_name s)) as [N1 N2].
  rewrite !files_set_ne by assumption. reflexivity.
Qed.

Lemma finalize_index path s fs :
  stream_of_part path s ->
  stream_of_part path (finalize s fs).1 /\
  files (finalize s fs).2 !! (path +:+ "primary.idx")
  = files fs !! (path +:+ "primary.idx").
Proof.
  intros Hs. unfold finalize. simpl.
  pose proof (stream_of_part_next path s Hs) as Hn.
  split; [exact Hn|].
  destruct Hn as (_ & _ & -> & ->).
  destruct (stream_path_not_index path
              (escaped_column_name (compressed_next s))) as [N1 N2].
  rewrite !lookup_insert_ne by assumption. reflexivity.
Qed.

(** Finalizing the streams of a part touches neither the checksum of
    [primary.idx] nor the file. *)
Lemma finalize_streams_index path sync_ (streams : gmap string ColumnStream)
    (checksums : Checksums) fs :
  (forall n s, streams !! n = Some s -> stream_of_part path s) ->
  (finalize_streams sync_ streams checksums fs).1 !! "primary.idx"
  = checksums !! "primary.idx" /\
  files (finalize_streams sync_ streams checksums fs).2
    !! (path +:+ "primary.idx")
  = files fs !! (path +:+ "primary.idx").
Proof.
  unfold finalize_streams.
  apply (map_fold_weak_ind
           (fun (r : Checksums * FileSystem) (m : gmap string ColumnStream) =>
              (forall n s, m !! n = Some s -> stream_of_part path s) ->
              r.1 !! "primary.idx" = checksums !! "primary.idx" /\
              files r.2 !! (path +:+ "primary.idx")
              = files fs !! (path +:+ "primary.idx"))).
  - intros _. split; reflexivity.
  - intros n s m [cs fs1] Hnone IH Hall.
    assert (Hs : stream_of_part path s).
    { apply (Hall n). apply lookup_insert_eq. }
    destruct IH as [I1 I2].
    { intros n' s' Hn'. apply (Hall n').
      rewrite lookup_insert_ne; [exact Hn'|]. congruence. }
    destruct (finalize_index path s fs1 Hs) as [F1 F2].
    destruct (finalize s fs1) as [s' fs2]. simpl in *.
    split.
    + rewrite (addToChecksums_index path) by exact F1. exact I1.
    + destruct sync_; unfold ColumnStream_sync; rewrite F2; exact I2.
Qed.

Lemma fold_summary_step_marks sorted (keys : list (list (DataType * Field))) :
  forall summary,
  (fold_left (summary_step sorted) keys summary).1.1
  = wrap (summary.1.1 + Z.of_nat (length keys)) \/
  keys = [] /\ (fold_left (summary_step sorted) keys summary).1.1 = summary.1.1.
Proof.
  induction keys as [|key keys IH]; intros summary.
  - right. auto.
  - left. simpl fold_left. destruct (IH (summary_step sorted summary key))
      as [E|[-> E]].
    + rewrite E. unfold summary_step, wrap. simpl fst.
      rewrite Zplus_mod_idemp_l. f_equal. simpl length. lia.
    + simpl. unfold wrap. f_equal.
Qed.

Lemma written_rows_keys (calls : list (Block DataType Field * option (list nat)))
    (keyss : list (list (list (DataType * Field)))) (R : _ -> _ -> Prop) :
  Forall2 (fun call keys => Z.of_nat (length keys) = rows call.1 /\ R call keys)
    calls keyss ->
  Z.of_nat (length (concat keyss)) = written_rows calls.
Proof.
  induction 1 as [|call keys calls keyss [Hk _] H IH]; simpl.
  - reflexivity.
  - rewrite length_app, Nat2Z.inj_add, Hk, IH. reflexivity.
Qed.

Lemma rows_nonneg (block : Block DataType Field) : 0 <= rows block.
Proof. unfold rows. destruct block; unfold IColumn_size; lia. Qed.

Lemma written_rows_bound (calls : list (Block DataType Field * option (list nat)))
    call :
  In call calls -> 0 <= rows call.1 <= written_rows calls.
Proof.
  induction calls as [|c calls IH]; intros Hin; [destruct Hin|].
  simpl. pose proof (rows_nonneg c.1).
  assert (0 <= written_rows calls).
  { clear. induction calls as [|c calls IH]; simpl; [lia|].
    pose proof (rows_nonneg c.1). lia. }
  destruct Hin as [->|Hin]; [lia|]. specialize (IH Hin). lia.
Qed.

Lemma fold_summary_step_unsorted (keys : list (list (DataType * Field))) :
  forall summary,
  (fold_left (summary_step false) keys summary).1.2 = summary.1.2.
Proof.
  induction keys as [|key keys IH]; intros summary; simpl; [reflexivity|].
  rewrite IH. reflexivity.
Qed.

(** C6.  In the unsorted mode the writer creates no [primary.idx], the
    checksums that [writeSuffixAndGetChecksums] returns have no entry for
    it unless one was supplied, and every call still counts one mark per
    [index_granularity] rows: after [n] rows the count is [n] divided by
    the granularity, rounded up. *)
Theorem unsorted_part_has_no_index storage_ path
    (cols total_column_list : list (string * DataType)) method fs fuel
    (calls : list (Block DataType Field * option (list nat)))
    additional_column_checksums w checksums w' fs' :
  let st0 := MergedBlockOutputStream_new storage_ path cols method fs in
  let g := index_granularity storage_ in
  merging_params_mode storage_ = Unsorted ->
  1 <= g -> written_rows calls + g < size_t_modulus ->
  files fs !! (path +:+ "primary.idx") = None ->
  default ∅ additional_column_checksums !! "primary.idx" = None ->
  write_calls fuel calls st0.1 = Returns tt w ->
  writeSuffixAndGetChecksums total_column_list additional_column_checksums
    (w, st0.2) = Returns checksums (w', fs') ->
  files st0.2 !! (path +:+ "primary.idx") = None /\
  index_stream w = None /\
  marks_count w = (written_rows calls + g - 1) / g /\
  checksums !! "primary.idx" = None /\
  files fs' !! (path +:+ "primary.idx") = None.
Proof.
  intros st0 g Hmode Hg Hsize Hfs Hadd Ecalls Esuffix.
  destruct (MergedBlockOutputStream_new_spec storage_ path cols method fs)
    as (H1 & H2 & H3 & H4 & H5 & H6 & H7).
  destruct (MergedBlockOutputStream_new_files storage_ path cols method fs)
    as (Hstreams & Hidx).
  pose proof (MergedBlockOutputStream_new_ready storage_ path cols method fs Hg)
    as Hready.
  fold st0 in H1, H2, H3, H4, H5, H6, H7, Hstreams, Hidx, Hready.
  rewrite decide_False in H5 by (intros Hm; now apply Hm).
  specialize (Hidx Hmode). rewrite Hfs in Hidx.
  destruct (write_calls_summary _ _ _ _ Ecalls)
    as (keyss & K1 & K2 & K3 & K4 & K5 & K6 & K7 & K8);
    [rewrite H1; exact Hg | exact Hready | |].
  { rewrite H1. apply Forall_forall. intros call Hin _.
    apply list_elem_of_In in Hin.
    pose proof (written_rows_bound calls call Hin). fold g. lia. }
  rewrite H1, H2 in *. fold g in K2, K3.
  pose proof (written_rows_keys _ _ _ K1) as Hrows.
  assert (Hsorted : is_sorted st0.1 = false).
  { unfold is_sorted, mode_of. rewrite H1, Hmode.
    apply bool_decide_eq_false_2. intros Hm. now apply Hm. }
  rewrite Hsorted in K2.
  assert (Hmarks : marks_count w = (written_rows calls + g - 1) / g).
  { change (marks_count w) with (index_summary
        (length (getSortDescription storage_)) w).1.1.
    rewrite K2.
    pose proof (sample_from_length g (concat keyss) Hg 0%nat ltac:(lia)) as Hl.
    rewrite Hrows in Hl.
    replace (written_rows calls - Z.of_nat 0 + g - 1)
      with (written_rows calls + g - 1) in Hl by lia.
    assert (0 <= written_rows calls).
    { rewrite <- Hrows. lia. }
    assert (Hb : 0 <= (written_rows calls + g - 1) / g < size_t_modulus).
    { split; [apply Z.div_pos; lia|].
      apply Z.div_lt_upper_bound; [lia|].
      assert (0 < size_t_modulus) by reflexivity. nia. }
    change (Z.to_nat 0) with 0%nat.
    destruct (fold_summary_step_marks false
                (sample_from g 0 (concat keyss))
                (index_summary (length (getSortDescription storage_)) st0.1))
      as [E|[En E]].
    - rewrite E. simpl fst. rewrite H3, Hl.
      rewrite Z.add_0_l. now apply wrap_small.
    - rewrite E. simpl fst. rewrite H3.
      rewrite En in Hl. simpl in Hl. exact Hl. }
  assert (Hstream : index_stream w = None).
  { change (index_stream w) with (index_summary
        (length (getSortDescription storage_)) w).1.2.
    rewrite K2, fold_summary_step_unsorted. simpl. exact H5. }
  assert (Hall : all_streams (stream_of_part path) (base w)).
  { eapply (keeps_Returns (fun self => all_streams (stream_of_part path) (base self)));
      [|exact Hstreams|exact Ecalls].
    apply all_streams_write_calls.
    intros f s. apply stream_of_part_update. }
  split; [exact Hidx|]. split; [exact Hstream|]. split; [exact Hmarks|].
  unfold writeSuffixAndGetChecksums in Esuffix.
  assert (Hmw : mode_of w = Unsorted).
  { unfold mode_of. now rewrite K4. }
  rewrite decide_False in Esuffix by (intros Hm; now apply Hm).
  destruct (finalize_streams_index path false (column_streams (base w))
              (default ∅ additional_column_checksums) st0.2 Hall) as [F1 F2].
  destruct (finalize_streams false _ _ _) as [cs fs1]. simpl in *.
  rewrite K7, H7 in Esuffix.
  destruct (marks_count w =? 0).
  - injection Esuffix as <- _ <-. split; [apply lookup_empty|].
    apply remove_recursive_files, prefix_app.
  - injection Esuffix as <- _ <-. split; [now rewrite F1|].
    simpl. rewrite !lookup_insert_ne.
    + now rewrite F2.
    + intros E. apply String.app_inj in E. discriminate E.
    + intros E. apply String.app_inj in E. discriminate E.
Qed.

End Unsorted.

(** ** The length of the index *)

Lemma keeps_bind_with {S A B} (P : S -> Prop) (Q : A -> Prop) (m : M S A)
    (k : A -> M S B) :
  (forall s, P s ->
     match m s with
     | Returns a s' => P s' /\ Q a
     | Throws _ s' => P s'
     | _ => True
     end) ->
  (forall a, Q a -> keeps P (k a)) -> keeps P (bind m k).
Proof.
  intros Hm Hk s Hs. unfold bind. specialize (Hm s Hs).
  destruct (m s) as [a s1|e s1| |]; try exact Hm; try exact I.
  destruct Hm as [H1 H2]. now apply Hk.
Qed.

Lemma for_each_never_throws {S A} (l : list A) (body : A -> M S unit) :
  (forall x s e s', body x s <> Throws e s') ->
  forall s e s', for_each l body s <> Throws e s'.
Proof.
  intros Hbody. induction l as [|x l IH]; intros s e s'; simpl.
  - discriminate.
  - unfold bind. specialize (Hbody x s).
    destruct (body x s) as [[] s1|e1 s1| |]; try discriminate; [apply IH|].
    exfalso. eapply Hbody. reflexivity.
Qed.

Section IndexLength.

Context {DataType Field : Type}.
Context `{!IDataType DataType Field} `{!IOEnv DataType}.

Implicit Types self : MergedBlockOutputStream DataType Field.
Implicit Types pcs : list (ColumnWithTypeAndName DataType Field).

Lemma index_insert_never_throws pcs i j self e self' :
  index_insert pcs i j self <> Throws e self'.
Proof.
  unfold index_insert.
  destruct (pcs !! j); [|discriminate].
  destruct (index_columns self !! j); [|discriminate].
  destruct (index_stream self); [|discriminate].
  destruct (column _ !! _); discriminate.
Qed.

(** Inside the loop over the key columns: the columns before [k] have
    their new value, the others not yet. *)
Lemma index_insert_columns pcs i (mc : Z) (b : IMergedBlockOutputStream) N :
  forall m k self,
  (length (index_columns self) = N /\ base self = b /\ marks_count self = mc /\
   forall j col, index_columns self !! j = Some col ->
     wrap (IColumn_size col) = if (j <? k)%nat then wrap (mc + 1) else mc) ->
  match for_each (seq k m) (index_insert pcs i) self with
  | Returns _ self' | Throws _ self' =>
      length (index_columns self') = N /\ base self' = b /\
      marks_count self' = mc /\
      forall j col, index_columns self' !! j = Some col ->
        wrap (IColumn_size col) = if (j <? k + m)%nat then wrap (mc + 1) else mc
  | _ => True
  end.
Proof.
  induction m as [|m IH]; intros k self (Hlen & Hb & Hmc & Hcols).
  - simpl. rewrite Nat.add_0_r. auto.
  - simpl for_each. unfold bind. unfold index_insert at 1.
    destruct (pcs !! k) as [pc|]; [|exact I].
    destruct (index_columns self !! k) as [col|] eqn:Hcol; [|exact I].
    destruct (index_stream self) as [out|]; [|exact I].
    destruct (column pc !! Z.to_nat i) as [v|]; [|exact I].
    replace (k + S m)%nat with (S k + m)%nat by lia.
    apply IH. simpl. rewrite length_insert.
    split; [exact Hlen|]. split; [exact Hb|]. split; [exact Hmc|].
    intros j col' Hj.
    destruct (decide (j = k)) as [->|Hne].
    + rewrite list_lookup_insert_eq in Hj
        by (apply lookup_lt_is_Some; eauto).
      injection Hj as <-.
      replace (k <? S k)%nat with true by (symmetry; apply Nat.ltb_lt; lia).
      specialize (Hcols k col Hcol). rewrite Nat.ltb_irrefl in Hcols.
      unfold IColumn_size in *. rewrite length_app. simpl.
      rewrite Nat2Z.inj_add. unfold wrap in *.
      rewrite <- Zplus_mod_idemp_l, Hcols. reflexivity.
    + rewrite list_lookup_insert_ne in Hj by congruence.
      rewrite (Hcols j col' Hj).
      destruct (j <? k)%nat eqn:E1; destruct (j <? S k)%nat eqn:E2;
        try reflexivity.
      * apply Nat.ltb_lt in E1. apply Nat.ltb_ge in E2. lia.
      * apply Nat.ltb_ge in E1. apply Nat.ltb_lt in E2. lia.
Qed.

Lemma index_loop_in_step pcs n :
  forall fuel i,
  keeps (fun self => index_in_step self /\
                     length (index_columns self) = length pcs /\
                     length pcs
                     = length (getSortDescription (storage (base self))))
    (index_loop fuel pcs n i).
Proof.
  induction fuel as [|fuel IH]; intros i; simpl.
  - destruct (i <? n); [intros s _; exact I | apply keeps_ret].
  - destruct (i <? n); [|apply keeps_ret].
    intros s [(Hmode & Hlen & Hall) [Hpcs Hsd]]. unfold bind at 1. unfold get.
    unfold bind at 1. rewrite decide_True by exact Hmode.
    pose proof (index_insert_columns pcs i (marks_count s) (base s)
                  (length pcs) (length pcs) 0%nat s) as Hins.
    assert (Hpre :
      length (index_columns s) = length pcs /\ base s = base s /\
      marks_count s = marks_count s /\
      forall j (col : list Field), index_columns s !! j = Some col ->
        wrap (IColumn_size col)
        = if (j <? 0)%nat then wrap (marks_count s + 1) else marks_count s).
    { split; [exact Hpcs|]. split; [reflexivity|]. split; [reflexivity|].
      intros j col Hj. simpl.
      rewrite Forall_lookup in Hall. now apply (Hall j). }
    specialize (Hins Hpre).
    pose proof (for_each_never_throws (seq 0 (length pcs))
                  (index_insert pcs i) (index_insert_never_throws pcs i) s)
      as Hthrow.
    destruct (for_each (seq 0 (length pcs)) (index_insert pcs i) s)
      as [[] s1|e s1| |]; try exact I.
    + destruct Hins as (L1 & L2 & L3 & L4).
      unfold bind, modify. apply IH.
      unfold index_in_step, mode_of in *. simpl. rewrite L1, L2.
      split; [|split; [reflexivity | exact Hsd]].
      split; [exact Hmode|]. split; [right; exact Hsd|].
      apply Forall_lookup. intros j col Hj. rewrite L3.
      rewrite (L4 j col Hj).
      replace (j <? 0 + length pcs)%nat with true; [reflexivity|].
      symmetry. apply Nat.ltb_lt. rewrite <- L1.
      apply lookup_lt_is_Some. eauto.
    + exfalso. eapply Hthrow. reflexivity.
Qed.

Lemma write_columns_keeps (P : MergedBlockOutputStream DataType Field -> Prop)
    fuel block perm pcs m oc cols :
  (forall s b, P s -> same_frame (base s) b -> P (set_base b s)) ->
  keeps P (write_columns fuel block perm pcs m oc cols).
Proof.
  intros HP.
  assert (Hw : forall n t (c : list Field) skip,
            keeps P (writeData_in fuel n t c oc skip)).
  { intros n t c skip s Hs. unfold writeData_in, on_base.
    pose proof (writeData_keeps (same_frame (base s))
                  (fun s0 n0 st f _ Hs0 Hn => same_frame_update _ s0 n0 st f Hs0 Hn)
                  fuel n t c oc skip (base s) (same_frame_refl _)) as K.
    destruct (writeData fuel n t c oc skip (base s)); try exact I;
      now apply HP. }
  unfold write_columns. apply keeps_for_each. intros it.
  apply keeps_bind; [apply keeps_getByName | intros elem].
  destruct perm as [perm|]; [|apply Hw].
  destruct (m !! it.1) as [pos|].
  - destruct (pcs !! pos); [apply Hw | intros s _; exact I].
  - apply keeps_bind; [apply keeps_permute | intros c; apply Hw].
Qed.

Lemma writeImpl_in_step fuel block perm :
  keeps index_in_step (writeImpl fuel block perm).
Proof.
  intros s Hs. unfold writeImpl.
  unfold bind at 1.
  assert (E0 : match checkNumberOfRows block s with
               | Returns _ s' | Throws _ s' => s' = s
               | _ => True
               end).
  { unfold checkNumberOfRows. destruct (forallb _ block); reflexivity. }
  destruct (checkNumberOfRows block s) as [[] s0|e s0| |]; try exact I;
    subst s0; [|exact Hs].
  unfold bind at 1. unfold get. unfold bind at 1.
  pose proof (keeps_resolve (eq s) block perm
                (getSortDescription (storage (base s))) 0%nat [] ∅ s eq_refl)
    as E1.
  destruct (resolve_primary_columns block perm _ 0%nat [] ∅ s)
    as [[pcs m] s1|e s1| |] eqn:E; try exact I; subst s1; [|exact Hs].
  apply resolve_primary_columns_spec in E. destruct E as (_ & Hlen & _).
  simpl in Hlen. simpl fst. simpl snd.
  set (P2 := fun self : MergedBlockOutputStream DataType Field =>
               index_in_step self /\
               length (index_columns self) = length pcs /\
               length pcs = length (getSortDescription (storage (base self)))).
  assert (HP2 : forall s' b, P2 s' -> storage b = storage (base s') ->
                             P2 (set_base b s')).
  { intros s' b [(H1 & H2 & H3) [H4 H5]] F1.
    unfold P2, index_in_step, mode_of in *. simpl. rewrite F1. auto. }
  assert (Hweak : forall s', P2 s' -> index_in_step s') by (intros s' [H _]; exact H).
  unfold bind at 1.
  assert (H2 : exists s2,
      (match index_columns s with
       | [] => modify (set_index_columns
                         (map (fun elem => cloneEmpty (column elem)) pcs))
       | _ :: _ => ret tt
       end) s = Returns tt s2 /\ P2 s2).
  { destruct Hs as (Hm & Hd & Hall). unfold P2.
    destruct (index_columns s) eqn:Eidx.
    - eexists. split; [reflexivity|].
      unfold index_in_step, mode_of. simpl. rewrite length_map.
      split; [|auto].
      split; [exact Hm|]. split; [right; exact Hlen|].
      destruct Hd as [[_ Hmc]|Hd].
      + apply Forall_map. apply Forall_forall. intros elem _. simpl.
        rewrite Hmc. reflexivity.
      + simpl in Hd. destruct pcs; [constructor | simpl in Hlen; lia].
    - eexists. split; [reflexivity|].
      split; [unfold index_in_step; rewrite Eidx; auto|].
      rewrite Eidx. destruct Hd as [[? _]|Hd]; [discriminate|].
      split; lia. }
  destruct H2 as (s2 & E2 & H2). rewrite E2.
  unfold bind at 1.
  pose proof (write_columns_keeps P2 fuel block perm pcs m ∅ (columns_list s)
                (fun s' b H F => HP2 s' b H (proj1 F)) s2 H2) as H3.
  destruct (write_columns fuel block perm pcs m ∅ (columns_list s) s2)
    as [[] s3|e s3| |]; try exact I; [|now apply Hweak].
  unfold bind at 1. unfold get. unfold bind at 1.
  pose proof (index_loop_in_step pcs (rows block) fuel
                (index_offset (base s3)) s3 H3) as H4.
  destruct (index_loop fuel pcs (rows block) (index_offset (base s3)) s3)
    as [[] s4|e s4| |]; try exact I; [|now apply Hweak].
  unfold on_base, update_index_offset.
  destruct (index_granularity (storage (base s4)) =? 0); [exact I|].
  apply Hweak, HP2; [exact H4 | reflexivity].
Qed.

Lemma write_calls_in_step fuel calls :
  keeps index_in_step (write_calls fuel calls).
Proof.
  unfold write_calls. apply keeps_for_each. intros call.
  apply writeImpl_in_step.
Qed.

(** C2.  In a sorted mode, after every sequence of calls of [write] and
    [writeWithPermutation] on a new writer, whether the last one returned
    or threw, every index column has [marks_count] values (the count of the
    values of a column being a [size_t]). *)
Theorem index_length_is_marks_count storage_ path
    (cols : list (string * DataType)) method fs fuel
    (calls : list (Block DataType Field * option (list nat))) :
  merging_params_mode storage_ <> Unsorted ->
  match
    write_calls fuel calls
      (MergedBlockOutputStream_new storage_ path cols method fs).1
  with
  | Returns _ w | Throws _ w =>
      forall col, In col (index_columns w) ->
        IColumn_size col < size_t_modulus ->
        IColumn_size col = marks_count w
  | _ => True
  end.
Proof.
  intros Hmode.
  destruct (MergedBlockOutputStream_new_spec storage_ path cols method fs)
    as (H1 & H2 & H3 & H4 & _).
  assert (H0 : index_in_step
                 (MergedBlockOutputStream_new storage_ path cols method fs).1).
  { unfold index_in_step, mode_of. rewrite H1, H3, H4.
    split; [exact Hmode|]. split; [now left | constructor]. }
  pose proof (write_calls_in_step fuel calls _ H0) as K.
  assert (Hfin : forall w : MergedBlockOutputStream DataType Field,
            index_in_step w ->
            forall col, In col (index_columns w) ->
              IColumn_size col < size_t_modulus ->
              IColumn_size col = marks_count w).
  { intros w (_ & _ & Hall) col Hin Hsize.
    rewrite List.Forall_forall in Hall. rewrite <- (Hall col Hin).
    symmetry. apply wrap_small. unfold IColumn_size in *. lia. }
  destruct (write_calls fuel calls _); try exact I; now apply Hfin.
Qed.

End IndexLength.

(** ** Writing with a permutation *)

Lemma for_each_ext {S A} (l : list A) (f g : A -> M S unit) :
  (forall x s, f x s = g x s) -> forall s, for_each l f s = for_each l g s.
Proof.
  intros Hfg. induction l as [|x l IH]; intros s; simpl; [reflexivity|].
  unfold bind. rewrite Hfg. destruct (g x s); auto.
Qed.

Section WithPermutation.

Context {DataType Field : Type}.
Context `{!IDataType DataType Field} `{!IOEnv DataType}.

Implicit Types self : MergedBlockOutputStream DataType Field.
Implicit Types block : Block DataType Field.
Implicit Types elem : ColumnWithTypeAndName DataType Field.

(** A permutation of the rows of a column permutes it. *)
Lemma permute_permuted {St} (c : list Field) perm (s : St) :
  Permutation perm (seq 0 (length c)) ->
  permute c perm s = Returns (permuted c perm) s /\
  length (permuted c perm) = length c.
Proof.
  intros Hperm. pose proof (Permutation_length Hperm) as Hlen.
  rewrite length_seq in Hlen.
  assert (Hsome : is_Some (mapM (fun k => c !! k) (take (length c) perm))).
  { apply mapM_is_Some_2. rewrite take_ge by lia.
    apply List.Forall_forall. intros k Hk. simpl.
    apply lookup_lt_is_Some.
    apply (Permutation_in _ Hperm) in Hk. apply in_seq in Hk. lia. }
  destruct Hsome as [res Hres]. unfold permute, permuted. rewrite Hres.
  replace (length perm <? length c)%nat with false
    by (symmetry; apply Nat.ltb_ge; lia).
  split; [reflexivity|]. simpl.
  apply length_mapM in Hres. rewrite length_take in Hres. lia.
Qed.

Lemma find_permute_block block perm n :
  find (fun e => String.eqb (name e) n) (permute_block block perm)
  = option_map
      (fun elem => mkColumnWithTypeAndName (permuted (column elem) perm)
                     (type elem) (name elem))
      (find (fun e => String.eqb (name e) n) block).
Proof.
  induction block as [|elem block IH]; simpl; [reflexivity|].
  destruct (String.eqb (name elem) n); [reflexivity | exact IH].
Qed.

Lemma lookup_permute_block block perm k :
  permute_block block perm !! k
  = option_map
      (fun elem => mkColumnWithTypeAndName (permuted (column elem) perm)
                     (type elem) (name elem))
      (block !! k).
Proof.
  revert k. induction block as [|elem block IH]; intros [|k]; simpl;
    try reflexivity. apply IH.
Qed.

Lemma find_unique_name block k elem :
  NoDup (map name block) -> block !! k = Some elem ->
  find (fun e => String.eqb (name e) (name elem)) block = Some elem.
Proof.
  revert k. induction block as [|e block IH]; intros k Hnd Hk; [discriminate|].
  simpl in Hnd. apply NoDup_cons in Hnd. destruct Hnd as [Hnot Hnd].
  destruct k as [|k]; simpl in *.
  - injection Hk as ->. now rewrite String.eqb_refl.
  - destruct (String.eqb (name e) (name elem)) eqn:E.
    + apply String.eqb_eq in E. exfalso. apply Hnot. rewrite E.
      apply list_elem_of_In, in_map. apply list_elem_of_In.
      eapply list_elem_of_lookup_2; exact Hk.
    + eapply IH; eassumption.
Qed.

Local Abbreviation pe perm :=
  (fun elem => mkColumnWithTypeAndName (permuted (column elem) perm)
                 (type elem) (name elem)).

Local Abbreviation positions_agree block perm pcs m :=
  (forall n pos, m !! n = Some pos ->
     exists elem,
       find (fun e => String.eqb (name e) n) block = Some elem /\
       pcs !! pos = Some (pe perm elem)).

(** Resolving the key columns with the permutation is resolving them in
    the permuted block, and each position found by name holds the
    permuted column of that name. *)
Lemma resolve_permuted {St} block perm :
  Forall (fun elem => Permutation perm (seq 0 (length (column elem)))) block ->
  forall sd i (pcs : list (ColumnWithTypeAndName DataType Field))
         (m : gmap string nat) (s : St),
  NoDup (map name block) \/ Forall (fun d => column_name d <> "") sd ->
  i = length pcs ->
  positions_agree block perm pcs m ->
  resolve_primary_columns block (Some perm) sd i pcs m s
  = resolve_primary_columns (permute_block block perm) None sd i pcs m s /\
  forall pcs' m' s',
    resolve_primary_columns block (Some perm) sd i pcs m s
    = Returns (pcs', m') s' ->
    positions_agree block perm pcs' m'.
Proof.
  intros Hperm. induction sd as [|descr sd IH]; intros i pcs m s Hok Hi Hinv.
  - simpl. split; [reflexivity|]. intros pcs' m' s' E.
    injection E as <- <- <-. exact Hinv.
  - assert (Hok' : NoDup (map name block) \/
                   Forall (fun d => column_name d <> "") sd).
    { destruct Hok as [?|Hall]; [now left|].
      right. now inversion Hall. }
    assert (Hstep : forall elem (n : string),
      In elem block ->
      find (fun e => String.eqb (name e) n) block = Some elem ->
      m !! n = None ->
      resolve_primary_columns block (Some perm) sd (S i)
        (pcs ++ [pe perm elem]) (<[n := i]> m) s
      = resolve_primary_columns (permute_block block perm) None sd (S i)
          (pcs ++ [pe perm elem]) (<[n := i]> m) s /\
      forall pcs' m' s',
        resolve_primary_columns block (Some perm) sd (S i)
          (pcs ++ [pe perm elem]) (<[n := i]> m) s = Returns (pcs', m') s' ->
        positions_agree block perm pcs' m').
    { intros elem n Hin Hfind Hnone. apply IH; [exact Hok'| |].
      - rewrite length_app. simpl. lia.
      - intros n' pos Hn'. destruct (decide (n = n')) as [->|Hne].
        + rewrite lookup_insert_eq in Hn'. injection Hn' as <-.
          exists elem. split; [exact Hfind|].
          rewrite Hi. rewrite lookup_app_r by lia.
          now rewrite Nat.sub_diag.
        + rewrite lookup_insert_ne in Hn' by exact Hne.
          destruct (Hinv n' pos Hn') as (e & He & Hp).
          exists e. split; [exact He|].
          apply lookup_app_l_Some. exact Hp. }
    simpl resolve_primary_columns.
    rewrite List.Forall_forall in Hperm.
    destruct (negb (String.eqb (column_name descr) "")) eqn:Enamed;
      cbv beta iota zeta delta [bind ret throw getByName safeGetByPosition].
    + destruct (m !! column_name descr) eqn:Em.
      { split; [reflexivity | discriminate]. }
      rewrite find_permute_block.
      destruct (find _ block) as [elem|] eqn:Efind; simpl.
      2:{ split; [reflexivity | discriminate]. }
      pose proof (find_In_block _ _ _ Efind) as Hin.
      destruct (permute_permuted (column elem) perm s (Hperm _ Hin)) as [Ep _].
      rewrite Ep. apply Hstep; assumption.
    + rewrite lookup_permute_block.
      destruct (block !! column_number descr) as [elem|] eqn:Epos; simpl.
      2:{ split; [reflexivity | discriminate]. }
      destruct (m !! name elem) eqn:Em.
      { split; [reflexivity | discriminate]. }
      assert (Hin : In elem block).
      { apply list_elem_of_In. eapply list_elem_of_lookup_2; exact Epos. }
      destruct (permute_permuted (column elem) perm s (Hperm _ Hin)) as [Ep _].
      rewrite Ep. apply Hstep; [exact Hin| |exact Em].
      destruct Hok as [Hnd|Hall].
      * eapply find_unique_name; eassumption.
      * inversion Hall as [|? ? Hd _]; subst. exfalso.
        apply negb_false_iff, String.eqb_eq in Enamed. contradiction.
Qed.

Lemma write_columns_permuted fuel block perm
    (pcs : list (ColumnWithTypeAndName DataType Field)) (m : gmap string nat)
    oc cols self :
  Forall (fun elem => Permutation perm (seq 0 (length (column elem)))) block ->
  positions_agree block perm pcs m ->
  write_columns fuel block (Some perm) pcs m oc cols self
  = write_columns fuel (permute_block block perm) None pcs m oc cols self.
Proof.
  intros Hperm Hinv. unfold write_columns. apply for_each_ext.
  intros it s. cbv beta iota zeta delta [bind getByName ret throw].
  rewrite find_permute_block.
  destruct (find _ block) as [elem|] eqn:Efind; simpl; [|reflexivity].
  destruct (m !! it.1) as [pos|] eqn:Em.
  - destruct (Hinv _ _ Em) as (e & He & Hp).
    rewrite Efind in He. injection He as <-. rewrite Hp. reflexivity.
  - rewrite List.Forall_forall in Hperm.
    destruct (permute_permuted (column elem) perm s
                (Hperm _ (find_In_block _ _ _ Efind))) as [Ep _].
    rewrite Ep. reflexivity.
Qed.

(** C3.  For a block whose columns have the same count of rows and a
    permutation of these rows, [writeWithPermutation] does what [write]
    does on the block with every column permuted: the same outcome and the
    same writer, hence the same bytes in every stream, the same marks and
    the same [primary.idx].  The columns of the block have distinct names,
    or else the sort description refers to its columns by name. *)
Theorem writeWithPermutation_is_write_of_permuted fuel block perm self :
  Forall (fun elem => IColumn_size (column elem) = rows block) block ->
  Permutation perm (seq 0 (Z.to_nat (rows block))) ->
  NoDup (map name block) \/
  Forall (fun d => column_name d <> "")
    (getSortDescription (storage (base self))) ->
  writeWithPermutation fuel block perm self
  = write fuel (permute_block block perm) self.
Proof.
  intros Hrect Hperm Hok.
  assert (Hperm' : Forall (fun elem =>
                     Permutation perm (seq 0 (length (column elem)))) block).
  { eapply Forall_impl; [exact Hrect|]. intros elem He. simpl in He.
    unfold IColumn_size in He.
    replace (length (column elem)) with (Z.to_nat (rows block)) by lia.
    exact Hperm. }
  assert (Hrows : rows (permute_block block perm) = rows block).
  { destruct block as [|elem block]; [reflexivity|]. simpl.
    unfold IColumn_size. f_equal.
    inversion Hperm' as [|? ? Hp _]; subst.
    now destruct (permute_permuted (St := unit) (column elem) perm tt Hp). }
  assert (Hcheck : forall b : Block DataType Field,
            Forall (fun elem => IColumn_size (column elem) = rows b) b ->
            checkNumberOfRows b self = Returns tt self).
  { intros b Hb. unfold checkNumberOfRows.
    replace (forallb _ b) with true; [reflexivity|].
    symmetry. apply forallb_forall. intros elem Hin. apply Z.eqb_eq.
    rewrite List.Forall_forall in Hb. now apply Hb. }
  assert (Hrect' : Forall (fun elem => IColumn_size (column elem)
                                       = rows (permute_block block perm))
                     (permute_block block perm)).
  { rewrite Hrows. unfold permute_block. apply Forall_map.
    apply List.Forall_forall. intros elem Hin. simpl.
    rewrite List.Forall_forall in Hrect, Hperm'.
    rewrite <- (Hrect _ Hin). unfold IColumn_size. f_equal.
    now destruct (permute_permuted (St := unit) (column elem) perm tt
                    (Hperm' _ Hin)). }
  unfold writeWithPermutation, write, writeImpl.
  rewrite (bind_eq _ _ _ _ _ (Hcheck _ Hrect)).
  rewrite (bind_eq _ _ _ _ _ (Hcheck _ Hrect')).
  cbv beta iota zeta delta [bind get modify ret].
  rewrite Hrows.
  destruct (resolve_permuted (St := MergedBlockOutputStream DataType Field)
              block perm Hperm'
              (getSortDescription (storage (base self))) 0%nat [] ∅ self Hok
              eq_refl) as [Eres Hinv].
  { intros n pos Hn. rewrite lookup_empty in Hn. discriminate. }
  rewrite Eres.
  destruct (resolve_primary_columns (permute_block block perm) None _ 0%nat [] ∅ self)
    as [[pcs m] s1|e s1| |] eqn:E; try reflexivity.
  specialize (Hinv pcs m s1 Eres). simpl fst. simpl snd.
  destruct (index_columns self);
    rewrite (write_columns_permuted _ _ _ _ _ _ _ _ Hperm' Hinv);
    reflexivity.
Qed.

End WithPermutation.

(** ** The marks of a stream *)

Lemma mark_pairs_app (ints : list Z) a b :
  Nat.Even (length ints) ->
  mark_pairs (ints ++ [a; b]) = mark_pairs ints ++ [(a, b)].
Proof.
  assert (H : forall n (l : list Z), (length l <= n)%nat ->
            Nat.Even (length l) ->
            mark_pairs (l ++ [a; b]) = mark_pairs l ++ [(a, b)]).
  { induction n as [|n IH]; intros l Hn Hev.
    - destruct l; [reflexivity | simpl in Hn; lia].
    - destruct l as [|x [|y l]]; [reflexivity| |].
      + destruct Hev as [k Hk]. simpl in Hk. lia.
      + simpl. f_equal. apply IH; [simpl in Hn; lia|].
        destruct Hev as [k Hk]. exists (k - 1)%nat. simpl in Hk. lia. }
  intros Hev. now apply (H (length ints)).
Qed.

Lemma StronglySorted_snoc (l : list Z) a :
  StronglySorted Z.le l -> Forall (fun x => x <= a) l ->
  StronglySorted Z.le (l ++ [a]).
Proof.
  induction 1 as [|x l Hs IH Hx]; intros Hall; simpl.
  - repeat constructor.
  - inversion Hall as [|? ? Hxa Hla]; subst.
    constructor; [now apply IH|].
    apply Forall_app. split; [exact Hx | now constructor].
Qed.

Section Marks.

Context {DataType Field : Type}.
Context `{!IDataType DataType Field} `{!IOEnv DataType}.

Lemma compressed_next_count s :
  marks (compressed_next s) = marks s /\
  plain_hashing_count s <= plain_hashing_count (compressed_next s).
Proof.
  unfold compressed_next, plain_hashing_count.
  destruct (compressed s); simpl; [split; [reflexivity | lia]|].
  split; [reflexivity|]. rewrite length_app. lia.
Qed.

Lemma compressed_nextIfAtEnd_count s :
  marks (compressed_nextIfAtEnd s) = marks s /\
  plain_hashing_count s <= plain_hashing_count (compressed_nextIfAtEnd s).
Proof.
  unfold compressed_nextIfAtEnd. destruct (_ =? _)%nat.
  - apply compressed_next_count.
  - split; [reflexivity | lia].
Qed.

Lemma compressed_write_count bytes :
  forall s,
  marks (compressed_write bytes s) = marks s /\
  plain_hashing_count s <= plain_hashing_count (compressed_write bytes s).
Proof.
  unfold compressed_write.
  induction bytes as [|b bytes IH]; intros s; simpl.
  - split; [reflexivity | lia].
  - destruct (IH (compressed_put s b)) as [-> H].
    destruct (compressed_nextIfAtEnd_count s) as [E1 E2].
    unfold compressed_put in *. simpl in *.
    split; [exact E1|]. unfold plain_hashing_count in *. simpl in *. lia.
Qed.

Lemma marks_monotone_grow (s s' : ColumnStream) :
  marks s' = marks s -> plain_hashing_count s <= plain_hashing_count s' ->
  marks_monotone s -> marks_monotone s'.
Proof.
  intros Em Hc (H1 & H2 & H3). unfold marks_monotone. rewrite Em.
  split; [exact H1|]. split; [exact H2|].
  eapply Forall_impl; [exact H3|]. intros mark Hm. simpl in *. lia.
Qed.

Lemma marks_monotone_update f s :
  stream_update f -> marks_monotone s -> marks_monotone (f s).
Proof.
  intros [m|bytes|] Hs.
  - unfold write_mark.
    set (s1 := if compressed_offset s >=? m then compressed_next s else s).
    assert (H1 : marks s1 = marks s /\
                 plain_hashing_count s <= plain_hashing_count s1).
    { subst s1. destruct (_ >=? _); [apply compressed_next_count|].
      split; [reflexivity | lia]. }
    destruct H1 as [Em Hc].
    pose proof (marks_monotone_grow s s1 Em Hc Hs) as (M1 & M2 & M3).
    unfold marks_monotone. simpl. rewrite <- app_assoc. simpl.
    split; [|split].
    + rewrite length_app. simpl. destruct M1 as [k Hk].
      exists (S k). lia.
    + rewrite mark_pairs_app by exact M1. rewrite map_app. simpl.
      apply StronglySorted_snoc; [exact M2|].
      rewrite Forall_map. exact M3.
    + rewrite mark_pairs_app by exact M1. apply Forall_app.
      split; [exact M3|]. constructor; [|constructor].
      simpl. unfold plain_hashing_count. simpl. lia.
  - destruct (compressed_write_count bytes s) as [Em Hc].
    eapply marks_monotone_grow; eassumption.
  - destruct (compressed_nextIfAtEnd_count s) as [Em Hc].
    eapply marks_monotone_grow; eassumption.
Qed.

Lemma MergedBlockOutputStream_new_marks storage_ path
    (cols : list (string * DataType)) method fs :
  all_streams marks_monotone
    (base (MergedBlockOutputStream_new storage_ path cols method fs).1).
Proof.
  unfold MergedBlockOutputStream_new.
  match goal with
  | |- context [fold_left ?f cols ?init] =>
      apply (fold_left_invariant
               (fun st : MergedBlockOutputStream DataType Field * FileSystem =>
                  all_streams marks_monotone (base st.1)) f cols)
  end.
  - intros [w fs1] it Hall. unfold addStream_in.
    assert (Hadd : all_streams marks_monotone
              (addStream (part_path w) it.1 it.2 0 false (base w, fs1)).1).
    { apply (addStream_invariant (fun st => all_streams marks_monotone st.1));
        [|exact Hall].
      intros self fs0 sn Hs Hnone. simpl. intros n' s' Hn. simpl in Hn.
      destruct (decide (sn = n')) as [->|Hne].
      - rewrite lookup_insert_eq in Hn. injection Hn as <-.
        split; [exists 0%nat; reflexivity|]. split; constructor.
      - rewrite lookup_insert_ne in Hn by exact Hne. eapply Hs; exact Hn. }
    destruct (addStream _ _ _ _ _ _) as [b fs2]. exact Hadd.
  - unfold init. simpl.
    destruct (decide _) as [Hm|Hm]; intros n' s' Hn; discriminate.
Qed.


End Marks.

(** * The properties on the small type system *)

Import Example.

(** The key column has the one stream [k]. *)
Lemma key_streams_ready (column_ : list Field) w :
  is_Some (column_streams w !! "k") ->
  streams_ready "k" UInt8 column_ false (column_streams w).
Proof.
  intros Hk. split.
  - intros path [<-|[]] _. exact Hk.
  - intros offset limit path bytes [E|[]] _. injection E as <- _. exact Hk.
Qed.

(** Ten rows of the key in one block and in two blocks of five, with a
    granularity of four. *)
Lemma same_rows_same_index_witness :
  match
    write_all 20 [ten_rows] (key_writer 4 Ordinary).1,
    write_all 20 [first_five; last_five] (key_writer 4 Ordinary).1
  with
  | Returns _ w1, Returns _ w2 =>
      marks_count w1 = marks_count w2 /\
      (forall j, index_column_at w1 j = index_column_at w2 j) /\
      index_stream w1 = index_stream w2 /\
      index_offset (base w1) = index_offset (base w2)
  | _, _ => False
  end.
Proof.
  destruct (write_all 20 [ten_rows] _) as [[] w1| | |] eqn:E1;
    try (vm_compute in E1; discriminate E1).
  destruct (write_all 20 [first_five; last_five] _) as [[] w2| | |] eqn:E2;
    try (vm_compute in E2; discriminate E2).
  assert (Hg : 1 <= index_granularity (storage_of 4 Ordinary))
    by (simpl; lia).
  assert (Hsize : Z.of_nat (length (total_rows [ten_rows]))
                  + index_granularity (storage_of 4 Ordinary)
                  < size_t_modulus) by (vm_compute; reflexivity).
  assert (Hrows : total_rows [ten_rows] = total_rows [first_five; last_five])
    by (vm_compute; reflexivity).
  destruct (same_rows_same_index (storage_of 4 Ordinary) "/part/"
              [("k", UInt8)] LZ4 no_files 20 20 [ten_rows]
              [first_five; last_five] w1 w2 Hg Hsize Hrows E1 E2)
    as (H1 & H2 & H3 & H4 & _).
  auto.
Defined.

(** A block of ten rows, then three rows given with a permutation. *)
Lemma index_length_is_marks_count_witness :
  match
    write_calls 20 [(ten_rows, None); (unsorted_rows, Some [1; 0; 2]%nat)]
      (key_writer 4 Ordinary).1
  with
  | Returns _ w | Throws _ w =>
      forall col, In col (index_columns w) ->
        IColumn_size col < size_t_modulus -> IColumn_size col = marks_count w
  | _ => True
  end.
Proof.
  apply (index_length_is_marks_count (storage_of 4 Ordinary) "/part/"
           [("k", UInt8)] LZ4 no_files 20).
  simpl. discriminate.
Defined.

(** Three rows of a key and a value, sorted by the permutation [1; 0; 2]. *)
Lemma writeWithPermutation_is_write_of_permuted_witness :
  writeWithPermutation 20 unsorted_rows [1; 0; 2]%nat key_value_writer.1
  = write 20 (permute_block unsorted_rows [1; 0; 2]%nat) key_value_writer.1.
Proof.
  apply writeWithPermutation_is_write_of_permuted.
  - repeat constructor.
  - simpl. apply perm_swap.
  - left. apply (bool_decide_unpack _). vm_compute. exact I.
Defined.

(** The first granule of ten rows of the key column in a new part. *)
Lemma marks_written_before_granule_witness :
  exists marked,
    for_each_stream "k" UInt8 false (write_mark 8)
      (base (key_writer 4 Ordinary).1) = Returns tt marked /\
    (column_streams marked !! "k"
     = write_mark 8 <$> column_streams (base (key_writer 4 Ordinary).1) !! "k").
Proof.
  destruct (marks_written_before_granule 20 "k" UInt8
              (map UInt [0; 1; 2; 3; 4; 5; 6; 7; 8; 9]) ∅ false 10 0
              (base (key_writer 4 Ordinary).1))
    as (marked & E & Hl & _).
  - reflexivity.
  - vm_compute. reflexivity.
  - apply (bool_decide_unpack _). vm_compute. exact I.
  - apply key_streams_ready. vm_compute. eauto.
  - exists marked. split; [exact E|].
    rewrite (Hl "k"). apply decide_True. vm_compute. constructor.
Defined.

(** The unsorted part of ten rows with a granularity of four: three marks
    and no index. *)
Lemma unsorted_part_has_no_index_witness :
  match write_calls 20 [(ten_rows, None)] (key_writer 4 Unsorted).1 with
  | Returns _ w =>
      match
        writeSuffixAndGetChecksums [("k", UInt8)] None
          (w, (key_writer 4 Unsorted).2)
      with
      | Returns checksums (w', fs') =>
          index_stream w = None /\ marks_count w = 3 /\
          checksums !! "primary.idx" = None /\
          files fs' !! "/part/primary.idx" = None
      | _ => False
      end
  | _ => False
  end.
Proof.
  set (st0 := key_writer 4 Unsorted).
  set (r1 := write_calls 20 [(ten_rows, None)] st0.1).
  set (w := match r1 with Returns _ w => w | _ => st0.1 end).
  assert (E1 : r1 = Returns tt w) by (vm_compute; reflexivity).
  rewrite E1.
  set (r2 := writeSuffixAndGetChecksums [("k", UInt8)] None (w, st0.2)).
  set (checksums := match r2 with Returns c _ => c | _ => ∅ end).
  set (w' := match r2 with Returns _ s => s.1 | _ => w end).
  set (fs' := match r2 with Returns _ s => s.2 | _ => st0.2 end).
  assert (E2 : r2 = Returns checksums (w', fs')) by (vm_compute; reflexivity).
  rewrite E2.
  assert (Hg : 1 <= index_granularity (storage_of 4 Unsorted))
    by (simpl; lia).
  assert (Hsize : written_rows [(ten_rows, @None (list nat))]
                  + index_granularity (storage_of 4 Unsorted)
                  < size_t_modulus) by (vm_compute; reflexivity).
  assert (Hfs : files no_files !! ("/part/" +:+ "primary.idx") = None)
    by (vm_compute; reflexivity).
  assert (Hadd : default (∅ : Checksums) None !! "primary.idx" = None)
    by (vm_compute; reflexivity).
  destruct (unsorted_part_has_no_index (storage_of 4 Unsorted) "/part/"
              [("k", UInt8)] [("k", UInt8)] LZ4 no_files 20
              [(ten_rows, None)] None w checksums w' fs'
              eq_refl Hg Hsize Hfs Hadd E1 E2)
    as (_ & H2 & H3 & H4 & H5).
  split; [exact H2|]. split; [exact H3|]. split; [exact H4 | exact H5].
Defined.

(** A new part closed before any row was written. *)
Lemma empty_part_is_removed_witness :
  exists self' fs',
    writeSuffixAndGetChecksums [("k", UInt8)] None (key_writer 4 Ordinary)
    = Returns ∅ (self', fs') /\
    files fs' !! "/part/columns.txt" = None /\
    files fs' !! "/part/checksums.txt" = None /\
    files fs' !! "/part/primary.idx" = None /\
    files fs' !! "/part/k.bin" = None.
Proof.
  destruct (empty_part_is_removed [("k", UInt8)] None
              (key_writer 4 Ordinary).1 (key_writer 4 Ordinary).2)
    as (self' & fs' & E & _ & _ & Hfiles & H1 & H2 & _).
  - vm_compute. reflexivity.
  - intros _. vm_compute. eauto.
  - exists self', fs'. split.
    + rewrite <- E. reflexivity.
    + split; [exact H1|]. split; [exact H2|].
      split; apply Hfiles; vm_compute; reflexivity.
Defined.


(** Ten rows of the key column with a granularity of four, and of zero. *)
Lemma writeData_terminates_witness :
  (exists self',
     writeData 10 "k" UInt8 (map UInt [0; 1; 2; 3; 4; 5; 6; 7; 8; 9]) ∅ false
       (base (key_writer 4 Ordinary).1) = Returns tt self') /\
  (forall fuel,
     writeData fuel "k" UInt8 (map UInt [0; 1; 2; 3; 4; 5; 6; 7; 8; 9]) ∅ false
       (base (key_writer 0 Ordinary).1) = Diverges).
Proof.
  split.
  - destruct (writeData_terminates "k" UInt8
                (map UInt [0; 1; 2; 3; 4; 5; 6; 7; 8; 9]) ∅ false
                (base (key_writer 4 Ordinary).1)) as [H _].
    destruct (H ltac:(vm_compute; discriminate)
                ltac:(vm_compute; split; [discriminate | reflexivity])
                ltac:(vm_compute; discriminate) 10%nat ltac:(simpl; lia))
      as [_ Hr].
    apply Hr. apply key_streams_ready. vm_compute. eauto.
  - destruct (writeData_terminates "k" UInt8
                (map UInt [0; 1; 2; 3; 4; 5; 6; 7; 8; 9]) ∅ false
                (base (key_writer 0 Ordinary).1)) as [_ H].
    apply H.
    + reflexivity.
    + reflexivity.
    + discriminate.
    + apply key_streams_ready. vm_compute. eauto.
Defined.



(** The loop of [writeData] does not depend on the set of offset columns. *)
Lemma writeData_loop_offset_columns {DataType Field : Type}
    `{!IDataType DataType Field} `{!IOEnv DataType}
    fuel name_ type_ (column_ : list Field) oc oc' skip size pm self :
  writeData_loop fuel name_ type_ column_ oc skip size pm self
  = writeData_loop fuel name_ type_ column_ oc' skip size pm self.
Proof.
  revert pm self. induction fuel as [|fuel IH]; intros pm self; simpl.
  - reflexivity.
  - destruct (pm <? size); [|reflexivity].
    cbv beta delta [bind get].
    do 4 (match goal with
          | |- match ?x with _ => _ end = _ =>
              destruct x as [? ?| | |]; try reflexivity
          end).
    apply IH.
Qed.

(** C4.  [writeData] returns the same result for every set of offset
    columns it is given, so the set cannot keep the second sibling from
    the shared sizes.  One row of the nested structure [n]: the stream
    [n.size0] that [n.a] and [n.b] share takes two marks for the one
    granule and the sizes twice, sixteen bytes instead of eight. *)
Theorem shared_sizes_written_twice :
  (forall (DataType Field : Type) (types : IDataType DataType Field)
          (io : IOEnv DataType) fuel name_ type_ (column_ : list Field)
          oc oc' skip self,
     writeData fuel name_ type_ column_ oc skip self
     = writeData fuel name_ type_ column_ oc' skip self) /\
  match write 20 nested_row nested_writer.1 with
  | Returns _ w =>
      match column_streams (base w) !! "n.size0" with
      | Some s =>
          marks s = [0; 0; 9; 0] /\
          length (compressed_blocks s ++ compressed s) = 16%nat
      | None => False
      end
  | _ => False
  end.
Proof.
  split.
  - intros. apply writeData_loop_offset_columns.
  - vm_compute. split; reflexivity.
Qed.

(** ** The streams of a column *)

Section AddStream.

Context {DataType Field : Type}.
Context `{!IDataType DataType Field} `{!IOEnv DataType}.

Lemma same_settings_refl self : same_settings self self.
Proof. repeat split. Qed.

Lemma elem_of_stream_names name_ (type_ : DataType) skip n :
  n ∈ stream_names name_ type_ skip <->
  exists path, In path (enumerateStreams type_) /\
    skip && is_array_sizes path = false /\
    n = getFileNameForStream name_ path.
Proof.
  unfold stream_names. rewrite list_elem_of_In, in_map_iff. split.
  - intros (path & <- & Hin). apply list_elem_of_In, list_elem_of_filter in Hin.
    destruct Hin as [Hs Hin]. apply list_elem_of_In in Hin. eauto.
  - intros (path & Hin & Hs & ->). exists path. split; [reflexivity|].
    apply list_elem_of_In, list_elem_of_filter. split; [exact Hs|].
    now apply list_elem_of_In.
Qed.

Lemma addStream_spec path name_ (type_ : DataType) est skip self fs :
  streams_added path (stream_names name_ type_ skip) (self, fs)
    (addStream path name_ type_ est skip (self, fs)).
Proof.
  unfold streams_added, addStream, stream_names. cbn [fst snd].
  generalize (enumerateStreams type_) as paths. intros paths.
  revert self fs. induction paths as [|sp paths IH]; intros self fs.
  - cbn [fold_left fst snd]. rewrite filter_nil. cbn [map].
    split; [apply same_settings_refl|]. split; [auto|].
    split; [intros n Hn; rewrite decide_False; [exact Hn|]; inversion 1|].
    split; [reflexivity|]. split; [intros n file Hn; inversion Hn | auto].
  - cbn [fold_left]. rewrite filter_cons.
    destruct (skip && is_array_sizes sp) eqn:Es.
    + rewrite decide_False by discriminate. apply IH.
    + rewrite decide_True by reflexivity. cbn [map].
      set (n0 := getFileNameForStream name_ sp).
      destruct (column_streams self !! n0) as [s0|] eqn:E0.
      * specialize (IH self fs). cbv zeta in IH.
        destruct IH as (I1 & I2 & I3 & I4 & I5 & I6).
        split; [exact I1|]. split; [exact I2|].
        assert (Hne : forall n, column_streams self !! n = None -> n <> n0)
          by (intros n Hn ->; congruence).
        split; [|split; [exact I4|split]].
        -- intros n Hn. rewrite (I3 n Hn).
           destruct (decide (n ∈ _)) as [Hin|Hin];
             destruct (decide (n ∈ n0 :: _)) as [Hin'|Hin']; try reflexivity.
           ++ exfalso. apply Hin'. now apply elem_of_cons; right.
           ++ exfalso. apply Hin. apply elem_of_cons in Hin'.
              destruct Hin' as [->|Hin']; [now destruct (Hne n0 Hn)|exact Hin'].
        -- intros n file Hin Hn Hf. apply (I5 n file); try assumption.
           apply elem_of_cons in Hin.
           destruct Hin as [->|Hin]; [now destruct (Hne n0 Hn)|exact Hin].
        -- intros file Hfile. apply I6. intros n Hin Hn.
           apply Hfile; [now apply elem_of_cons; right|exact Hn].
      * unfold ColumnStream_new.
        set (self1 := set_column_streams _ self).
        set (fs1 := create_file _ _).
        specialize (IH self1 fs1). cbv zeta in IH.
        destruct IH as (I1 & I2 & I3 & I4 & I5 & I6).
        split; [exact I1|]. split; [|split; [|split; [exact I4|split]]].
        -- intros n s Hn. apply I2. unfold self1. simpl.
           rewrite lookup_insert_ne by congruence. exact Hn.
        -- intros n Hn. destruct (decide (n = n0)) as [->|Hne].
           ++ rewrite decide_True by (apply elem_of_cons; now left).
              apply I2. unfold self1. simpl. rewrite lookup_insert_eq.
              reflexivity.
           ++ rewrite I3
                by (unfold self1; simpl; rewrite lookup_insert_ne by congruence;
                    exact Hn).
              destruct (decide (n ∈ _)) as [Hin|Hin];
                destruct (decide (n ∈ n0 :: _)) as [Hin'|Hin']; try reflexivity.
              ** exfalso. apply Hin'. now apply elem_of_cons; right.
              ** exfalso. apply Hin. apply elem_of_cons in Hin'.
                 destruct Hin' as [->|Hin']; [contradiction|exact Hin'].
        -- intros n file Hin Hn Hf.
           destruct (decide (n ∈ map (getFileNameForStream name_)
                                 (filter (fun path =>
                                    skip && is_array_sizes path = false) paths)
                             /\ n <> n0)) as [[Hin' Hne]|Hnot].
           ++ apply (I5 n file Hin'); [|exact Hf].
              unfold self1. simpl. rewrite lookup_insert_ne by congruence.
              exact Hn.
           ++ assert (n = n0) as ->.
              { apply elem_of_cons in Hin. destruct Hin as [->|Hin];
                  [reflexivity|].
                destruct (decide (n = n0)) as [->|Hne]; [reflexivity|].
                exfalso. apply Hnot. split; assumption. }
              destruct (decide (Exists (fun n =>
                                  column_streams self1 !! n = None
                                  /\ file ∈ stream_files path n)
                                (map (getFileNameForStream name_)
                                   (filter (fun path =>
                                      skip && is_array_sizes path = false)
                                      paths)))) as [Hex|Hex];
                rewrite Exists_exists in Hex.
              ** destruct Hex as (n & H1 & H2 & H3). now apply (I5 n file).
              ** rewrite I6.
                 2:{ intros n H1 H2 H3. apply Hex. eauto. }
                 unfold fs1, create_file, stream_files in *. simpl.
                 apply elem_of_cons in Hf. destruct Hf as [->|Hf].
                 --- destruct (decide ((path +:+ n0) +:+ MARKS_FILE_EXTENSION
                                       = (path +:+ n0) +:+ DATA_FILE_EXTENSION))
                       as [->|Hd].
                     +++ now rewrite lookup_insert_eq.
                     +++ rewrite lookup_insert_ne by exact Hd.
                         now rewrite lookup_insert_eq.
                 --- apply elem_of_cons in Hf. destruct Hf as [->|Hf];
                       [|inversion Hf].
                     now rewrite lookup_insert_eq.
        -- intros file Hfile. rewrite I6.
           ++ specialize (Hfile n0 ltac:(apply elem_of_cons; now left) E0).
              unfold fs1, create_file, stream_files in *. simpl.
              rewrite !lookup_insert_ne; [reflexivity| |];
                intros <-; apply Hfile; repeat constructor.
           ++ intros n Hin Hn. apply Hfile; [now apply elem_of_cons; right|].
              unfold self1 in Hn. simpl in Hn.
              destruct (decide (n = n0)) as [->|Hne].
              ** now rewrite lookup_insert_eq in Hn.
              ** now rewrite lookup_insert_ne in Hn by congruence.
Qed.

Lemma streams_added_nil path st : streams_added path [] st st.
Proof.
  split; [apply same_settings_refl|]. split; [auto|].
  split; [intros n Hn; rewrite decide_False; [exact Hn|]; inversion 1|].
  split; [reflexivity|]. split; [intros n file Hn; inversion Hn | auto].
Qed.

Lemma streams_added_app path l1 l2 a b c :
  streams_added path l1 a b -> streams_added path l2 b c ->
  streams_added path (l1 ++ l2) a c.
Proof.
  intros (A1 & A2 & A3 & A4 & A5 & A6) (B1 & B2 & B3 & B4 & B5 & B6).
  assert (Hmethod : compression_method b.1 = compression_method a.1)
    by (destruct A1 as (_ & _ & _ & _ & -> & _); reflexivity).
  assert (Hback : forall n, column_streams b.1 !! n = None ->
                            column_streams a.1 !! n = None).
  { intros n Hn. destruct (column_streams a.1 !! n) as [s|] eqn:E;
      [|reflexivity].
    rewrite (A2 n s E) in Hn. discriminate. }
  split.
  { destruct A1 as (a1 & a2 & a3 & a4 & a5 & a6),
      B1 as (b1 & b2 & b3 & b4 & b5 & b6). repeat split; congruence. }
  split; [auto|]. split; [|split; [congruence|split]].
  - intros n Hn. specialize (A3 n Hn).
    destruct (decide (n ∈ l1)) as [H1|H1].
    + rewrite decide_True by (apply elem_of_app; now left). now apply B2.
    + rewrite (B3 n A3), Hmethod.
      destruct (decide (n ∈ l2)) as [H2|H2].
      * rewrite decide_True by (apply elem_of_app; now right). reflexivity.
      * rewrite decide_False; [reflexivity|].
        intros Hin. apply elem_of_app in Hin. tauto.
  - intros n file Hin Hn Hfile.
    destruct (decide (Exists (fun n' => column_streams b.1 !! n' = None
                                        /\ file ∈ stream_files path n') l2))
      as [Hex|Hex]; rewrite Exists_exists in Hex.
    + destruct Hex as (n' & H1 & H2 & H3). now apply (B5 n' file).
    + assert (Hsame : files c.2 !! file = files b.2 !! file).
      { apply B6. intros n' H1 H2 H3. apply Hex. eauto. }
      rewrite Hsame. apply elem_of_app in Hin. destruct Hin as [Hin|Hin].
      * now apply (A5 n file).
      * destruct (decide (n ∈ l1)) as [H1|H1]; [now apply (A5 n file)|].
        exfalso. apply Hex. exists n. split; [exact Hin|].
        split; [|exact Hfile].
        rewrite (A3 n Hn). now rewrite decide_False.
  - intros file Hfile. rewrite B6.
    + apply A6. intros n Hin Hn. apply Hfile; [|exact Hn].
      apply elem_of_app. now left.
    + intros n Hin Hn. apply Hfile; [|now apply Hback].
      apply elem_of_app. now right.
Qed.

Lemma addStream_exists path name_ (type_ : DataType) est skip self fs :
  (forall n, n ∈ stream_names name_ type_ skip ->
     is_Some (column_streams self !! n)) ->
  addStream path name_ type_ est skip (self, fs) = (self, fs).
Proof.
  unfold addStream, stream_names.
  generalize (enumerateStreams type_) as paths. intros paths.
  induction paths as [|sp paths IH]; intros Hall; [reflexivity|].
  cbn [fold_left]. rewrite filter_cons in Hall.
  destruct (skip && is_array_sizes sp) eqn:Es.
  - rewrite decide_False in Hall by discriminate. now apply IH.
  - rewrite decide_True in Hall by reflexivity. cbn [map] in Hall.
    destruct (Hall (getFileNameForStream name_ sp)) as [s0 ->];
      [apply elem_of_cons; now left|].
    apply IH. intros n Hn. apply Hall. apply elem_of_cons. now right.
Qed.

(** X1.  [addStream] gives the writer every stream of the column that is
    not skipped: a stream that exists, as the sizes of a nested structure
    that a sibling has brought, is kept with what it holds and its files
    are not opened again, a missing one is created empty with its [.bin]
    and [.mrk] files empty, and no other stream or file changes.  A second
    call for the same column changes nothing. *)
Theorem addStream_creates_missing_streams path name_ (type_ : DataType)
    est est' skip self fs :
  let st := addStream path name_ type_ est skip (self, fs) in
  streams_added path (stream_names name_ type_ skip) (self, fs) st /\
  (forall substream_path, In substream_path (enumerateStreams type_) ->
     skip && is_array_sizes substream_path = false ->
     is_Some (column_streams st.1
                !! getFileNameForStream name_ substream_path)) /\
  addStream path name_ type_ est' skip st = st.
Proof.
  intros st. pose proof (addStream_spec path name_ type_ est skip self fs)
    as Hspec. fold st in Hspec.
  assert (Hall : forall n, n ∈ stream_names name_ type_ skip ->
                           is_Some (column_streams st.1 !! n)).
  { intros n Hn. destruct Hspec as (_ & H2 & H3 & _). cbn [fst] in H2, H3.
    destruct (column_streams self !! n) as [s|] eqn:E.
    - rewrite (H2 n s E). eauto.
    - rewrite (H3 n E), decide_True by exact Hn. eauto. }
  split; [exact Hspec|]. split.
  - intros sp Hin Hs. apply Hall. apply elem_of_stream_names. eauto.
  - destruct st as [self' fs'] eqn:Est. now apply addStream_exists.
Qed.

End AddStream.

Section NewPart.

Context {DataType Field : Type}.
Context `{!IDataType DataType Field} `{!IOEnv DataType}.

Lemma addStream_in_fold est_of :
  forall (cols : list (string * DataType))
         (w : MergedBlockOutputStream DataType Field) fs,
  let st := fold_left (fun st it => addStream_in it.1 it.2 (est_of it) st)
              cols (w, fs) in
  streams_added (part_path w) (part_stream_names cols false)
    (base w, fs) (base st.1, st.2) /\
  st.1 = set_base (base st.1) w.
Proof.
  induction cols as [|it cols IH]; intros w fs; cbn [fold_left].
  - split; [apply streams_added_nil|]. now destruct w.
  - pose proof (addStream_spec (part_path w) it.1 it.2 (est_of it) false
                  (base w) fs) as Hadd.
    assert (E : addStream_in it.1 it.2 (est_of it) (w, fs)
                = (set_base (addStream (part_path w) it.1 it.2 (est_of it)
                               false (base w, fs)).1 w,
                   (addStream (part_path w) it.1 it.2 (est_of it)
                      false (base w, fs)).2)).
    { unfold addStream_in. now destruct (addStream _ _ _ _ _ _). }
    rewrite E. clear E.
    destruct (addStream (part_path w) it.1 it.2 (est_of it) false (base w, fs))
      as [b fs1]. cbn [fst snd].
    specialize (IH (set_base b w) fs1). cbv zeta in IH.
    cbn [part_path set_base base] in IH.
    destruct IH as [IH1 IH2]. split.
    + unfold part_stream_names. cbn [flat_map].
      eapply streams_added_app; [exact Hadd | exact IH1].
    + rewrite IH2 at 1. reflexivity.
Qed.

(** X2.  The constructor creates the directory of the part and, for every
    stream of every column of the list, an empty stream whose [.bin] and
    [.mrk] files are empty; in a sorted mode [primary.idx] is empty too.
    The writer has no other stream and no other file is touched. *)
Theorem MergedBlockOutputStream_new_creates_part storage_ path
    (cols : list (string * DataType)) method fs :
  let st := MergedBlockOutputStream_new storage_ path cols method fs in
  let names := part_stream_names cols false in
  (forall n,
     column_streams (base st.1) !! n
     = if decide (n ∈ names) then Some (empty_stream path n method)
       else None) /\
  directories st.2 = {[path]} ∪ directories fs /\
  (forall n file, n ∈ names -> file ∈ stream_files path n ->
     files st.2 !! file = Some []) /\
  (merging_params_mode storage_ <> Unsorted ->
   files st.2 !! (path +:+ "primary.idx") = Some []) /\
  (forall file,
     (forall n, n ∈ names -> file ∉ stream_files path n) ->
     (merging_params_mode storage_ <> Unsorted ->
      file <> path +:+ "primary.idx") ->
     files st.2 !! file = files fs !! file).
Proof.
  intros st names. unfold MergedBlockOutputStream_new in st.
  match type of st with
  | _ => match eval unfold st in st with
         | fold_left _ cols (init (?w0, fs)) => set (self0 := w0) in *
         end
  end.
  destruct (init (self0, fs)) as [w fs1] eqn:Einit.
  assert (Hw : base w = base self0 /\ part_path w = path /\
               directories fs1 = {[path]} ∪ directories fs /\
               (merging_params_mode storage_ <> Unsorted ->
                files fs1 !! (path +:+ "primary.idx") = Some []) /\
               forall file,
                 (merging_params_mode storage_ <> Unsorted ->
                  file <> path +:+ "primary.idx") ->
                 files fs1 !! file = files fs !! file).
  { unfold init, mode_of in Einit. cbn in Einit.
    destruct (decide (merging_params_mode storage_ ≠ Unsorted)) as [Hm|Hm];
      injection Einit as <- <-; cbn.
    - repeat split; try reflexivity.
      + intros _. now rewrite lookup_insert_eq.
      + intros file Hfile. rewrite lookup_insert_ne; [reflexivity|].
        intros <-. now apply Hfile.
    - repeat split; try reflexivity. intros Hm'. contradiction. }
  destruct Hw as (Hbase & Hpath & Hdir & Hidx & Hother).
  destruct (addStream_in_fold (fun _ => 0) cols w fs1) as [Hadd _].
  fold st in Hadd. rewrite Hpath in Hadd. fold names in Hadd.
  destruct Hadd as (_ & _ & A3 & A4 & A5 & A6). cbn [fst snd] in *.
  assert (Hempty : forall n, column_streams (base w) !! n = None)
    by (intros n; rewrite Hbase; apply lookup_empty).
  assert (Hmethod : compression_method (base w) = method)
    by (rewrite Hbase; reflexivity).
  split; [|split; [|split; [|split]]].
  - intros n. rewrite (A3 n (Hempty n)), Hmethod. reflexivity.
  - congruence.
  - intros n file Hn Hfile. now apply (A5 n file).
  - intros Hm. rewrite A6; [now apply Hidx|].
    intros n _ _ Hin. destruct (stream_path_not_index path n) as [N1 N2].
    unfold stream_files in Hin. apply elem_of_cons in Hin.
    destruct Hin as [Hin|Hin]; [now apply N1|].
    apply elem_of_cons in Hin. destruct Hin as [Hin|Hin]; [now apply N2|].
    inversion Hin.
  - intros file Hfile Hidx'. rewrite A6; [now apply Hother|].
    intros n Hn _. now apply Hfile.
Qed.

End NewPart.

Lemma bind_never_throws {S A B} (m : M S A) (k : A -> M S B) :
  (forall s e s', m s <> Throws e s') ->
  (forall a s e s', k a s <> Throws e s') ->
  forall s e s', bind m k s <> Throws e s'.
Proof.
  intros Hm Hk s e s'. unfold bind. specialize (Hm s).
  destruct (m s) as [a s1|e1 s1| |]; try discriminate.
  - apply Hk.
  - now destruct (Hm e1 s1).
Qed.

Section OwnStreams.

Context {DataType Field : Type}.
Context `{!IDataType DataType Field} `{!IOEnv DataType}.

Lemma with_stream_never_throws n f (self : IMergedBlockOutputStream) e self' :
  with_stream n f self <> Throws e self'.
Proof.
  rewrite with_stream_outcome. now destruct (column_streams self !! n).
Qed.

Lemma for_each_stream_never_throws name_ (type_ : DataType) skip f self e self' :
  for_each_stream name_ type_ skip f self <> Throws e self'.
Proof.
  unfold for_each_stream. apply for_each_never_throws.
  intros path s e0 s0. destruct (skip && is_array_sizes path);
    [discriminate | apply with_stream_never_throws].
Qed.

Lemma serialize_granule_never_throws name_ (type_ : DataType)
    (column_ : list Field) skip pm limit self e self' :
  serialize_granule name_ type_ column_ skip pm limit self <> Throws e self'.
Proof.
  unfold serialize_granule. apply for_each_never_throws.
  intros [path bytes] s e0 s0. destruct (skip && is_array_sizes path);
    [discriminate | apply with_stream_never_throws].
Qed.

Lemma writeData_loop_never_throws name_ (type_ : DataType)
    (column_ : list Field) oc skip size :
  forall fuel pm self e self',
  writeData_loop fuel name_ type_ column_ oc skip size pm self
  <> Throws e self'.
Proof.
  induction fuel as [|fuel IH]; intros pm self e self'; simpl;
    destruct (pm <? size); try discriminate.
  apply bind_never_throws; [discriminate|]. intros self0 s0 e0 s0'.
  apply bind_never_throws.
  - intros s1 e1 s1'.
    destruct ((pm =? 0) && negb (index_offset self0 =? 0)); [discriminate|].
    apply bind_never_throws; [|discriminate].
    intros. apply for_each_stream_never_throws.
  - intros limit s1 e1 s1'. apply bind_never_throws.
    + intros. apply serialize_granule_never_throws.
    + intros _ s2 e2 s2'. apply bind_never_throws.
      * intros. apply for_each_stream_never_throws.
      * intros. apply IH.
Qed.

Section Other.

Variable name_ : string.
Variable skip : bool.
Variable n : string.
Variable v : option ColumnStream.
Hypothesis other : forall path,
  skip && is_array_sizes path = false -> getFileNameForStream name_ path <> n.

Local Abbreviation untouched :=
  (fun self : IMergedBlockOutputStream => column_streams self !! n = v).

Lemma with_stream_other path f :
  skip && is_array_sizes path = false ->
  keeps untouched (with_stream (getFileNameForStream name_ path) f).
Proof.
  intros Hs self Hself. rewrite with_stream_outcome.
  destruct (column_streams self !! getFileNameForStream name_ path)
    as [s|] eqn:E; [|exact I].
  simpl. rewrite lookup_insert_ne by now apply other.
  exact Hself.
Qed.

Lemma for_each_stream_other (type_ : DataType) f :
  keeps untouched (for_each_stream name_ type_ skip f).
Proof.
  unfold for_each_stream. apply keeps_for_each. intros path.
  destruct (skip && is_array_sizes path) eqn:Es;
    [apply keeps_ret | now apply with_stream_other].
Qed.

Lemma serialize_granule_other (type_ : DataType) (column_ : list Field)
    pm limit :
  keeps untouched (serialize_granule name_ type_ column_ skip pm limit).
Proof.
  unfold serialize_granule. apply keeps_for_each. intros [path bytes].
  destruct (skip && is_array_sizes path) eqn:Es;
    [apply keeps_ret | now apply with_stream_other].
Qed.

Lemma writeData_loop_other (type_ : DataType) (column_ : list Field) oc size :
  forall fuel pm,
  keeps untouched (writeData_loop fuel name_ type_ column_ oc skip size pm).
Proof.
  induction fuel as [|fuel IH]; intros pm; simpl;
    destruct (pm <? size); try apply keeps_ret; try (intros s _; exact I).
  apply keeps_bind; [apply keeps_get|]. intros self0.
  apply keeps_bind.
  - destruct ((pm =? 0) && negb (index_offset self0 =? 0));
      [apply keeps_ret|].
    apply keeps_bind; [apply for_each_stream_other|].
    intros _. apply keeps_ret.
  - intros limit. apply keeps_bind; [apply serialize_granule_other|].
    intros _. apply keeps_bind; [apply for_each_stream_other|].
    intros _. apply IH.
Qed.

End Other.

(** X3.  When [writeData] returns, the settings of the writer, the
    carried offset and the set of its streams are as before, and a stream
    that is not named after a substream of the column written (or, with
    [skip_offsets], only after a substream of array sizes) is left exactly
    as it was. *)
Theorem writeData_changes_own_streams fuel name_ (type_ : DataType)
    (column_ : list Field) oc skip self self' :
  writeData fuel name_ type_ column_ oc skip self = Returns tt self' ->
  same_frame self self' /\
  forall n,
    (forall path, skip && is_array_sizes path = false ->
       getFileNameForStream name_ path <> n) ->
    column_streams self' !! n = column_streams self !! n.
Proof.
  intros E. split.
  - eapply writeData_loop_frame. exact E.
  - intros n Hn.
    pose proof (writeData_loop_other name_ skip n (column_streams self !! n)
                  Hn type_ column_ oc (Z.of_nat (length column_)) fuel 0
                  self eq_refl) as Hk.
    unfold writeData in E. rewrite E in Hk. exact Hk.
Qed.

End OwnStreams.

(** Writing the key column leaves the stream of the value column alone. *)
Lemma writeData_changes_own_streams_witness :
  match
    writeData 10 "k" UInt8 (map UInt [1; 2; 3]) ∅ false
      (base key_value_writer.1)
  with
  | Returns _ self' =>
      column_streams self' !! "v"
      = column_streams (base key_value_writer.1) !! "v"
  | _ => False
  end.
Proof.
  destruct (writeData 10 "k" UInt8 _ ∅ false _) as [[] self'| | |]
    eqn:E; try (vm_compute in E; discriminate E).
  destruct (writeData_changes_own_streams 10 "k" UInt8
              (map UInt [1; 2; 3]) ∅ false
              (base key_value_writer.1) self' E) as [_ H].
  apply H. intros path _. simpl.
  unfold fileNameForStream. simpl.
  destruct (is_array_sizes path); simpl; discriminate.
Defined.

(** ** Where the marks point *)

Section MarkBounds.

Context {DataType Field : Type}.
Context `{!IDataType DataType Field} `{!IOEnv DataType}.

(** A mark of the stream: a count of bytes of the data file that the file
    has reached, and an offset in the open block below the least size of a
    block. *)
Local Abbreviation marks_in_bounds m :=
  (fun s : ColumnStream =>
     Nat.Even (length (marks s)) /\
     Forall (fun mark : Z * Z =>
               0 <= mark.1 <= plain_hashing_count s /\
               0 <= mark.2 < Z.max 1 m) (mark_pairs (marks s))).

Lemma marks_in_bounds_grow m (s s' : ColumnStream) :
  marks s' = marks s -> plain_hashing_count s <= plain_hashing_count s' ->
  marks_in_bounds m s -> marks_in_bounds m s'.
Proof.
  intros Hm Hc [He Hb]. rewrite Hm. split; [exact He|].
  eapply Forall_impl; [exact Hb|]. simpl. intros mark ?. lia.
Qed.

Lemma marks_in_bounds_mark m s :
  marks_in_bounds m s -> marks_in_bounds m (write_mark m s).
Proof.
  intros [He Hb]. destruct (write_mark_spec m s) as (H1 & H2 & H3).
  rewrite H3. split.
  - rewrite length_app. simpl. destruct He as [k Hk]. exists (S k). lia.
  - rewrite mark_pairs_app by exact He. apply Forall_app. split.
    + eapply Forall_impl; [exact Hb|]. simpl. intros mark Hmark.
      assert (plain_hashing_count s <= plain_hashing_count (write_mark m s)).
      { unfold plain_hashing_count.
        destruct (Z_le_gt_dec m (compressed_offset s)) as [Hle|Hgt].
        - destruct (H1 Hle) as [-> _].
          pose proof (compressed_next_count s) as [_ Hc].
          exact Hc.
        - destruct (H2 ltac:(lia)) as [-> _]. lia. }
      lia.
    + constructor; [|constructor]. simpl.
      unfold plain_hashing_count, compressed_offset.
      destruct (Z_le_gt_dec m (compressed_offset s)) as [Hle|Hgt].
      * destruct (H1 Hle) as [_ ->]. simpl. lia.
      * destruct (H2 ltac:(lia)) as [_ ->].
        unfold compressed_offset in Hgt. lia.
Qed.

Lemma with_stream_in_bounds m n f :
  (forall s, marks_in_bounds m s -> marks_in_bounds m (f s)) ->
  keeps (fun self => min_compress_block_size self = m /\
                     all_streams (marks_in_bounds m) self)
    (with_stream n f).
Proof.
  intros Hf self [Hm Hall]. rewrite with_stream_outcome.
  destruct (column_streams self !! n) as [s|] eqn:E; [|exact I].
  split; [exact Hm|]. intros n' s' Hn'. simpl in Hn'.
  destruct (decide (n = n')) as [<-|Hne].
  - rewrite lookup_insert_eq in Hn'. injection Hn' as <-.
    apply Hf. now apply (Hall n s).
  - rewrite lookup_insert_ne in Hn' by exact Hne. now apply (Hall n' s').
Qed.

Lemma for_each_stream_in_bounds m name_ (type_ : DataType) skip f :
  (forall s, marks_in_bounds m s -> marks_in_bounds m (f s)) ->
  keeps (fun self => min_compress_block_size self = m /\
                     all_streams (marks_in_bounds m) self)
    (for_each_stream name_ type_ skip f).
Proof.
  intros Hf. unfold for_each_stream. apply keeps_for_each. intros path.
  destruct (skip && is_array_sizes path);
    [apply keeps_ret | now apply with_stream_in_bounds].
Qed.

Lemma serialize_granule_in_bounds m name_ (type_ : DataType)
    (column_ : list Field) skip pm limit :
  keeps (fun self => min_compress_block_size self = m /\
                     all_streams (marks_in_bounds m) self)
    (serialize_granule name_ type_ column_ skip pm limit).
Proof.
  unfold serialize_granule. apply keeps_for_each. intros [path bytes].
  destruct (skip && is_array_sizes path); [apply keeps_ret|].
  apply with_stream_in_bounds. intros s.
  destruct (compressed_write_count bytes s) as [H1 H2].
  now apply marks_in_bounds_grow.
Qed.

Lemma writeData_loop_in_bounds m name_ (type_ : DataType)
    (column_ : list Field) oc skip size :
  forall fuel pm,
  keeps (fun self => min_compress_block_size self = m /\
                     all_streams (marks_in_bounds m) self)
    (writeData_loop fuel name_ type_ column_ oc skip size pm).
Proof.
  induction fuel as [|fuel IH]; intros pm; simpl;
    destruct (pm <? size); try apply keeps_ret; try (intros s _; exact I).
  apply (keeps_bind_with _ (fun self0 => min_compress_block_size self0 = m)).
  { intros s [Hm Hall]. unfold get. split; [split|]; assumption. }
  intros self0 Hm0. apply keeps_bind.
  - destruct ((pm =? 0) && negb (index_offset self0 =? 0));
      [apply keeps_ret|].
    apply keeps_bind; [|intros _; apply keeps_ret].
    apply for_each_stream_in_bounds. rewrite Hm0.
    apply marks_in_bounds_mark.
  - intros limit. apply keeps_bind; [apply serialize_granule_in_bounds|].
    intros _. apply keeps_bind; [|intros _; apply IH].
    apply for_each_stream_in_bounds. intros s.
    destruct (compressed_nextIfAtEnd_count s) as [H1 H2].
    now apply marks_in_bounds_grow.
Qed.

Lemma writeData_in_bounds m fuel name_ (type_ : DataType)
    (column_ : list Field) oc skip :
  keeps (fun self => min_compress_block_size self = m /\
                     all_streams (marks_in_bounds m) self)
    (writeData fuel name_ type_ column_ oc skip).
Proof. apply writeData_loop_in_bounds. Qed.

Lemma MergedBlockOutputStream_new_streams storage_ path
    (cols : list (string * DataType)) method fs :
  let w := (MergedBlockOutputStream_new storage_ path cols method fs).1 in
  min_compress_block_size (base w)
  = settings_min_compress_block_size (getSettings storage_) /\
  forall n,
    column_streams (base w) !! n
    = if decide (n ∈ part_stream_names cols false)
      then Some (empty_stream path n method) else None.
Proof.
  intros w. unfold MergedBlockOutputStream_new in w.
  match eval unfold w in w with
  | (fold_left _ cols (init (?w0, fs))).1 => set (self0 := w0) in *
  end.
  destruct (init (self0, fs)) as [w1 fs1] eqn:Einit.
  assert (Hw : base w1 = base self0 /\ part_path w1 = path).
  { unfold init in Einit. cbn in Einit.
    destruct (decide (mode_of self0 ≠ Unsorted));
      injection Einit as <- <-; split; reflexivity. }
  destruct Hw as [Hbase Hpath].
  destruct (addStream_in_fold (fun _ => 0) cols w1 fs1) as [Hadd _].
  fold w in Hadd. rewrite Hpath in Hadd.
  destruct Hadd as ((_ & A1 & _) & _ & A3 & _). cbn [fst snd] in *.
  split; [rewrite A1, Hbase; reflexivity|].
  intros n. rewrite A3 by (rewrite Hbase; apply lookup_empty).
  rewrite Hbase. reflexivity.
Qed.


End MarkBounds.

(** ** The stages of [writeImpl] and its errors *)

Section Stages.

Context {DataType Field : Type}.
Context `{!IDataType DataType Field} `{!IOEnv DataType}.

Implicit Types self : MergedBlockOutputStream DataType Field.
Implicit Types block : Block DataType Field.
Implicit Types pcs : list (ColumnWithTypeAndName DataType Field).

Lemma cloneEmpty_replicate pcs :
  map (fun elem => cloneEmpty (column elem)) pcs
  = replicate (length pcs) ([] : list Field).
Proof. induction pcs; simpl; [reflexivity | now f_equal]. Qed.

(** [writeImpl], stage by stage. *)
Lemma writeImpl_stages fuel block perm self :
  writeImpl fuel block perm self
  = if forallb (fun elem => IColumn_size (column elem) =? rows block) block
    then
      match
        resolve_primary_columns block perm
          (getSortDescription (storage (base self))) 0%nat [] ∅ self
      with
      | Returns primary _ =>
          match
            write_columns fuel block perm primary.1 primary.2 ∅
              (columns_list self)
              (ensure_index
                 (length (getSortDescription (storage (base self)))) self)
          with
          | Returns _ written =>
              match
                index_loop fuel primary.1 (rows block)
                  (index_offset (base written)) written
              with
              | Returns _ sampled =>
                  on_base base set_base (update_index_offset (rows block))
                    sampled
              | Throws e s => Throws e s
              | Undefined => Undefined
              | Diverges => Diverges
              end
          | Throws e s => Throws e s
          | Undefined => Undefined
          | Diverges => Diverges
          end
      | Throws e _ => Throws e self
      | Undefined => Undefined
      | Diverges => Diverges
      end
    else Throws SIZES_OF_COLUMNS_DOESNT_MATCH self.
Proof.
  unfold writeImpl, checkNumberOfRows. unfold bind at 1.
  destruct (forallb _ block); [|reflexivity].
  unfold ret at 1. unfold bind at 1. unfold get at 1. unfold bind at 1.
  pose proof (keeps_resolve (eq self) block perm
                (getSortDescription (storage (base self))) 0%nat [] ∅ self
                eq_refl) as Hk.
  destruct (resolve_primary_columns block perm _ 0%nat [] ∅ self)
    as [[pcs m] s1|e s1| |] eqn:E; try reflexivity; subst s1;
    [|reflexivity].
  apply resolve_primary_columns_spec in E. destruct E as (_ & Hlen & _).
  simpl in Hlen. cbn [fst snd]. unfold bind at 1.
  replace ((match index_columns self with
            | [] => modify (set_index_columns
                              (map (fun elem => cloneEmpty (column elem)) pcs))
            | _ :: _ => ret tt
            end) self)
    with (Returns (S := MergedBlockOutputStream DataType Field) tt
            (ensure_index (length (getSortDescription (storage (base self))))
               self)).
  2:{ unfold ensure_index. destruct (index_columns self); [|reflexivity].
      unfold modify. rewrite cloneEmpty_replicate, Hlen. reflexivity. }
  unfold bind at 1.
  destruct (write_columns _ _ _ _ _ _ _ _) as [[] s2|e s2| |];
    reflexivity.
Qed.

Lemma index_loop_never_throws pcs rows_ :
  forall fuel i self e self',
  index_loop fuel pcs rows_ i self <> Throws e self'.
Proof.
  induction fuel as [|fuel IH]; intros i self e self'; simpl;
    destruct (i <? rows_); try discriminate.
  apply bind_never_throws; [discriminate|]. intros self0 s0 e0 s0'.
  apply bind_never_throws.
  - intros s1 e1 s1'. destruct (decide (mode_of self0 ≠ Unsorted));
      [|discriminate].
    apply for_each_never_throws. intros. apply index_insert_never_throws.
  - intros _ s1 e1 s1'. apply bind_never_throws; [discriminate|].
    intros. apply IH.
Qed.

Lemma write_columns_throws fuel block perm pcs (m : gmap string nat) oc cols :
  forall self e self',
  write_columns fuel block perm pcs m oc cols self = Throws e self' ->
  (e = NOT_FOUND_COLUMN_IN_BLOCK \/
   e = SIZE_OF_PERMUTATION_IS_LESS_THAN_REQUIRED) /\
  only_streams_changed self self'.
Proof.
  intros self e self' E. split.
  - revert self E. unfold write_columns.
    induction cols as [|it cols IH]; intros self E; simpl in E;
      [discriminate|].
    unfold bind at 1 in E.
    destruct (bind (getByName block it.1) _ self) as [[] s1|e1 s1| |] eqn:E1;
      try discriminate.
    + now apply (IH s1).
    + injection E as <- <-. unfold bind, getByName in E1.
      destruct (find _ block) as [elem|];
        [|injection E1 as <- _; now left].
      unfold ret in E1.
      assert (Hw : forall n t (c : list Field) skip s,
                writeData_in fuel n t c oc skip s <> Throws e1 s1).
      { intros n t c skip s. unfold writeData_in, on_base.
        pose proof (fun e2 s2 =>
                      writeData_loop_never_throws n t c oc skip
                        (Z.of_nat (length c)) fuel 0 (base s) e2 s2) as Hn.
        fold (writeData fuel n t c oc skip) in Hn.
        destruct (writeData fuel n t c oc skip (base s)) as [| e2 s2 | |];
          try discriminate.
        now destruct (Hn e2 s2). }
      destruct perm as [perm|]; [|now destruct (Hw _ _ _ _ _ E1)].
      destruct (m !! it.1) as [pos|].
      * destruct (pcs !! pos); [now destruct (Hw _ _ _ _ _ E1)|discriminate].
      * unfold permute in E1.
        destruct (length perm <? length (column elem))%nat;
          [injection E1 as <- _; now right|].
        destruct (mapM _ _); [now destruct (Hw _ _ _ _ _ E1)|discriminate].
  - pose proof (write_columns_keeps (only_streams_changed self) fuel block
                  perm pcs m oc cols) as Hk.
    specialize (Hk ltac:(intros s b (b0 & -> & F0) F; exists b; split;
                           [reflexivity | eapply same_frame_trans; eassumption])
                   self).
    rewrite E in Hk. apply Hk. exists (base self).
    split; [now destruct self | apply same_frame_refl].
Qed.

End Stages.

Section Errors.

Context {DataType Field : Type}.
Context `{!IDataType DataType Field} `{!IOEnv DataType}.

Implicit Types self : MergedBlockOutputStream DataType Field.
Implicit Types block : Block DataType Field.

Lemma index_view_ensure n self b :
  index_view n (set_base b (ensure_index n self)) = index_view n self.
Proof.
  unfold index_view, ensure_index.
  destruct (index_columns self) as [|c l] eqn:E; cbn.
  - destruct n; reflexivity.
  - rewrite E. cbn. rewrite E. reflexivity.
Qed.

(** X5.  The checks that [write] and [writeWithPermutation] make on their
    arguments all come before the index loop.  When the call throws the
    error of one of them (columns of different sizes, a repeated column of
    the primary key, a position out of the block, a column that the block
    lacks, a permutation that is too short), no row has been sampled for
    the index: the count of marks, the bytes of [primary.idx], the index
    columns and the carried offset are those before the call, and only the
    content of the streams may have changed.  For the first three the
    writer has not changed at all.  Exceptions of the file buffers are not
    part of the embedding and the statement is not about them. *)
Theorem writeImpl_throws_before_index fuel block perm self e self' :
  writeImpl fuel block perm self = Throws e self' ->
  In e [SIZES_OF_COLUMNS_DOESNT_MATCH; BAD_ARGUMENTS; POSITION_OUT_OF_BOUND;
        NOT_FOUND_COLUMN_IN_BLOCK; SIZE_OF_PERMUTATION_IS_LESS_THAN_REQUIRED] ->
  let n := length (getSortDescription (storage (base self))) in
  (e = SIZES_OF_COLUMNS_DOESNT_MATCH \/ e = BAD_ARGUMENTS \/
   e = POSITION_OUT_OF_BOUND -> self' = self) /\
  marks_count self' = marks_count self /\
  index_stream self' = index_stream self /\
  index_view n self' = index_view n self /\
  same_frame (base self) (base self').
Proof.
  intros E _ n. rewrite writeImpl_stages in E.
  destruct (forallb _ block).
  2:{ injection E as <- <-. repeat split; reflexivity. }
  destruct (resolve_primary_columns block perm _ 0%nat [] ∅ self)
    as [[pcs m] s1|e1 s1| |]; try discriminate.
  2:{ injection E as <- <-. repeat split; reflexivity. }
  cbn [fst snd] in E.
  destruct (write_columns fuel block perm pcs m ∅ (columns_list self) _)
    as [[] s2|e2 s2| |] eqn:E2; try discriminate.
  - destruct (index_loop fuel pcs (rows block) _ s2) as [[] s3|e3 s3| |]
      eqn:E3; try discriminate.
    + unfold on_base, update_index_offset in E.
      destruct (index_granularity _ =? 0); discriminate.
    + now destruct (index_loop_never_throws _ _ _ _ _ _ _ E3).
  - injection E as <- <-.
    apply write_columns_throws in E2.
    destruct E2 as [He [b [Hs2 F]]]. subst s2. fold n in F. fold n.
    split; [intros [-> | [-> | ->]]; destruct He; discriminate|].
    assert (Hb : base (ensure_index n self) = base self)
      by (unfold ensure_index; destruct (index_columns self); reflexivity).
    rewrite Hb in F.
    split; [unfold ensure_index; destruct (index_columns self); reflexivity|].
    split; [unfold ensure_index; destruct (index_columns self); reflexivity|].
    split; [apply index_view_ensure | exact F].
Qed.

End Errors.

(** A block whose columns have two and one rows. *)
Lemma writeImpl_throws_before_index_witness :
  exists e self',
    writeImpl 10 (key_column [1; 2] :: tl unsorted_rows) None
      key_value_writer.1 = Throws e self' /\
    marks_count self' = marks_count key_value_writer.1 /\
    same_frame (base key_value_writer.1) (base self').
Proof.
  assert (E : writeImpl 10 (key_column [1; 2] :: tl unsorted_rows) None
                key_value_writer.1
              = Throws SIZES_OF_COLUMNS_DOESNT_MATCH key_value_writer.1)
    by (vm_compute; reflexivity).
  exists SIZES_OF_COLUMNS_DOESNT_MATCH, key_value_writer.1.
  split; [exact E|].
  destruct (writeImpl_throws_before_index 10
              (key_column [1; 2] :: tl unsorted_rows) None key_value_writer.1
              SIZES_OF_COLUMNS_DOESNT_MATCH key_value_writer.1 E
              ltac:(simpl; left; reflexivity))
    as (_ & H2 & _ & _ & H5).
  split; assumption.
Defined.

Section SortDescription.

Context {DataType Field : Type}.
Context `{!IDataType DataType Field} `{!IOEnv DataType}.

Implicit Types self : MergedBlockOutputStream DataType Field.
Implicit Types block : Block DataType Field.
Implicit Types pcs : list (ColumnWithTypeAndName DataType Field).

(** Without a permutation, and when every element of the sort description
    finds its column, the first loop of [writeImpl] fails on a name that it
    has met, and only then. *)
Lemma resolve_names {St} block :
  forall sd names i pcs (m : gmap string nat) (s : St),
  mapM (sort_column_name block) sd = Some names ->
  Forall (fun d => is_Some (lookup_column block d)) sd ->
  if decide (NoDup names /\ Forall (fun n => m !! n = None) names)
  then exists new m',
         resolve_primary_columns block None sd i pcs m s
         = Returns (pcs ++ new, m') s /\
         Forall2 (fun d pc => lookup_column block d = Some pc) sd new
  else resolve_primary_columns block None sd i pcs m s
       = Throws BAD_ARGUMENTS s.
Proof.
  induction sd as [|d sd IH]; intros names i pcs m s Hnames Hfound.
  - injection Hnames as <-. rewrite decide_True by (split; constructor).
    exists [], m. rewrite app_nil_r. split; [reflexivity | constructor].
  - rewrite mapM_Some in Hnames. inversion Hnames as [|? n ? names' Hn Hrest];
      subst. rewrite <- mapM_Some in Hrest.
    inversion Hfound as [|? ? [elem Helem] Hfound']; subst.
    specialize (IH names' (S i) (pcs ++ [elem]) (<[n := i]> m) s Hrest Hfound').
    unfold sort_column_name in Hn. unfold lookup_column in Helem.
    assert (E1 : (if negb (String.eqb (column_name d) "")
                  then ret (column_name d)
                  else let* elem := safeGetByPosition block (column_number d) in
                       ret (name elem)) s
                 = Returns (S := St) n s).
    { destruct (negb (String.eqb (column_name d) ""));
        [injection Hn as <-; reflexivity|].
      unfold bind, safeGetByPosition. rewrite Helem in *. simpl in Hn.
      injection Hn as <-. reflexivity. }
    assert (E2 : (if negb (String.eqb (column_name d) "")
                  then getByName block (column_name d)
                  else safeGetByPosition block (column_number d)) s
                 = Returns (S := St) elem s).
    { unfold getByName, safeGetByPosition.
      destruct (negb (String.eqb (column_name d) "")); now rewrite Helem. }
    assert (Estep :
      resolve_primary_columns block None (d :: sd) i pcs m s
      = match m !! n with
        | Some _ => Throws BAD_ARGUMENTS s
        | None => resolve_primary_columns block None sd (S i) (pcs ++ [elem])
                    (<[n := i]> m) s
        end).
    { cbn [resolve_primary_columns]. unfold bind at 1. rewrite E1.
      destruct (m !! n); [reflexivity|].
      unfold bind at 1. rewrite E2. reflexivity. }
    rewrite Estep. clear Estep E1 E2.
    destruct (m !! n) as [pos|] eqn:Em.
    { rewrite decide_False; [reflexivity|].
      intros [_ H]. inversion H; congruence. }
    assert (Hiff : (NoDup (n :: names') /\
                    Forall (fun n0 => m !! n0 = None) (n :: names')) <->
                   (NoDup names' /\
                    Forall (fun n0 => <[n := i]> m !! n0 = None) names')).
    { rewrite NoDup_cons, Forall_cons. split.
      - intros [[Hnin Hnd] [_ Hall]]. split; [exact Hnd|].
        apply Forall_forall. intros n0 Hn0.
        rewrite lookup_insert_ne by (intros ->; contradiction).
        rewrite Forall_forall in Hall. now apply Hall.
      - intros [Hnd Hall]. rewrite Forall_forall in Hall.
        assert (Hnin : n ∉ names').
        { intros Hin. specialize (Hall n Hin).
          now rewrite lookup_insert_eq in Hall. }
        repeat split; try assumption.
        apply Forall_forall. intros n0 Hn0. specialize (Hall n0 Hn0).
        rewrite lookup_insert_ne in Hall by (intros ->; contradiction).
        exact Hall. }
    destruct (decide (NoDup names' /\ _)) as [Hok|Hbad].
    + rewrite decide_True by (apply Hiff; exact Hok).
      destruct IH as (new & m' & E & Hnew).
      exists (elem :: new), m'. rewrite <- app_assoc in E. split; [exact E|].
      constructor; [exact Helem | exact Hnew].
    + rewrite decide_False by (intros H; apply Hbad, Hiff; exact H).
      exact IH.
Qed.

(** X6.  For a block with columns of one size in which every element of
    the sort description finds its column, [write] throws
    [BAD_ARGUMENTS] exactly when two elements of the sort description, by
    name or by position, stand for the same column name; the writer is
    then as it was. *)
Theorem repeated_key_column_is_rejected fuel block self names :
  Forall (fun elem => IColumn_size (column elem) = rows block) block ->
  Forall (fun d => is_Some (lookup_column block d))
    (getSortDescription (storage (base self))) ->
  mapM (sort_column_name block) (getSortDescription (storage (base self)))
  = Some names ->
  (~ NoDup names -> write fuel block self = Throws BAD_ARGUMENTS self) /\
  (NoDup names ->
   forall self', write fuel block self <> Throws BAD_ARGUMENTS self').
Proof.
  intros Hrect Hfound Hnames. unfold write.
  rewrite writeImpl_stages.
  assert (Hf : forallb (fun elem => IColumn_size (column elem) =? rows block)
                 block = true).
  { apply forallb_forall. intros elem Hin. apply Z.eqb_eq.
    rewrite Forall_forall in Hrect. apply Hrect. now apply list_elem_of_In. }
  rewrite Hf.
  pose proof (resolve_names block _ names 0%nat [] ∅ self Hnames Hfound)
    as Hres.
  assert (Hempty : Forall (fun n => (∅ : gmap string nat) !! n = None) names)
    by (apply Forall_forall; intros; apply lookup_empty).
  split.
  - intros Hdup. rewrite decide_False in Hres by tauto. now rewrite Hres.
  - intros Hnd self' E. rewrite decide_True in Hres by tauto.
    destruct Hres as (new & m' & Eres & _). rewrite Eres in E.
    cbn [fst snd] in E.
    destruct (write_columns fuel block None _ _ ∅ _ _) as [[] s2|e2 s2| |]
      eqn:E2; try discriminate.
    + destruct (index_loop fuel _ (rows block) _ s2) as [[] s3|e3 s3| |]
        eqn:E3; try discriminate.
      * unfold on_base, update_index_offset in E.
        destruct (index_granularity _ =? 0); discriminate.
      * now destruct (index_loop_never_throws _ _ _ _ _ _ _ E3).
    + injection E as -> ->. apply write_columns_throws in E2.
      destruct E2 as [[?|?] _]; discriminate.
Qed.

End SortDescription.

(** The key by name and by position: the same column twice. *)
Lemma repeated_key_column_is_rejected_witness :
  write 10 ten_rows twice_keyed_writer.1
  = Throws BAD_ARGUMENTS twice_keyed_writer.1.
Proof.
  refine (proj1 (repeated_key_column_is_rejected 10 ten_rows
                   twice_keyed_writer.1 ["k"; "k"]%string _ _ _) _).
  - repeat constructor.
  - repeat constructor; vm_compute; eauto.
  - vm_compute. reflexivity.
  - intros H. inversion H as [|? ? Hnin _]. apply Hnin. repeat constructor.
Defined.

Section Preconditions.

Context {DataType Field : Type}.
Context `{!IDataType DataType Field} `{!IOEnv DataType}.

Implicit Types self : MergedBlockOutputStream DataType Field.
Implicit Types block : Block DataType Field.
Implicit Types pcs : list (ColumnWithTypeAndName DataType Field).

Lemma resolve_Returns_names {St} block perm :
  forall sd i pcs (m : gmap string nat) (s s' : St) pcs' m',
  resolve_primary_columns block perm sd i pcs m s = Returns (pcs', m') s' ->
  Forall (fun d => is_Some (lookup_column block d)) sd /\
  exists names,
    mapM (sort_column_name block) sd = Some names /\
    NoDup names /\ Forall (fun n => m !! n = None) names.
Proof.
  induction sd as [|d sd IH]; intros i pcs m s s' pcs' m' E.
  - split; [constructor|]. exists []. repeat split; constructor.
  - cbn [resolve_primary_columns] in E.
    apply bind_Returns in E. destruct E as (n & s1 & E1 & E).
    destruct (m !! n) as [pos|] eqn:Em; [discriminate|].
    apply bind_Returns in E. destruct E as (elem & s2 & E2 & E).
    apply bind_Returns in E. destruct E as (elem' & s3 & E3 & E).
    apply IH in E. destruct E as (Hfound & names & Hnames & Hnd & Hall).
    assert (Hd : lookup_column block d = Some elem /\
                 sort_column_name block d = Some n).
    { unfold lookup_column, sort_column_name.
      destruct (negb (String.eqb (column_name d) "")).
      - apply getByName_Returns in E2. injection E1 as <- _. tauto.
      - apply safeGetByPosition_Returns in E2. destruct E2 as [_ E2].
        apply bind_Returns in E1. destruct E1 as (elem0 & s0 & E0 & E1).
        apply safeGetByPosition_Returns in E0. destruct E0 as [_ E0].
        injection E1 as <- _. rewrite E0. split; [congruence | reflexivity]. }
    destruct Hd as [Hd1 Hd2].
    split; [constructor; [rewrite Hd1; eauto | exact Hfound]|].
    exists (n :: names). split.
    { rewrite mapM_Some. constructor; [exact Hd2|]. now apply mapM_Some. }
    rewrite Forall_forall in Hall.
    assert (Hnin : n ∉ names).
    { intros Hin. specialize (Hall n Hin).
      now rewrite lookup_insert_eq in Hall. }
    split; [now constructor|]. constructor; [exact Em|].
    apply Forall_forall. intros n0 Hn0. specialize (Hall n0 Hn0).
    rewrite lookup_insert_ne in Hall by (intros ->; contradiction).
    exact Hall.
Qed.

Lemma write_columns_Returns_found fuel block perm pcs (m : gmap string nat)
    oc cols :
  forall self self',
  write_columns fuel block perm pcs m oc cols self = Returns tt self' ->
  Forall (fun it : string * DataType =>
            is_Some (find (fun e => String.eqb (name e) it.1) block)) cols.
Proof.
  unfold write_columns. induction cols as [|it cols IH]; intros self self' E;
    [constructor|].
  simpl in E. apply bind_Returns in E. destruct E as ([] & s1 & E1 & E).
  constructor; [|now apply (IH s1 self')].
  apply bind_Returns in E1. destruct E1 as (elem & s0 & E0 & _).
  apply getByName_Returns in E0. destruct E0 as [_ ->]. eauto.
Qed.

(** X7.  What [write] and [writeWithPermutation] need in order to return:
    the columns of the block have one size, every column of the list of
    the part is in the block, every element of the sort description finds
    its column, no two of them stand for one name, and the granularity is
    not zero.  Without one of these the call throws, or is undefined. *)
Theorem writeImpl_returns_only_if fuel block perm self self' :
  writeImpl fuel block perm self = Returns tt self' ->
  Forall (fun elem => IColumn_size (column elem) = rows block) block /\
  Forall (fun it : string * DataType =>
            is_Some (find (fun e => String.eqb (name e) it.1) block))
    (columns_list self) /\
  Forall (fun d => is_Some (lookup_column block d))
    (getSortDescription (storage (base self))) /\
  (exists names,
     mapM (sort_column_name block) (getSortDescription (storage (base self)))
     = Some names /\ NoDup names) /\
  index_granularity (storage (base self)) <> 0.
Proof.
  intros E. rewrite writeImpl_stages in E.
  destruct (forallb _ block) eqn:Hf; [|discriminate].
  destruct (resolve_primary_columns block perm _ 0%nat [] ∅ self)
    as [[pcs m] s1|e1 s1| |] eqn:E1; try discriminate.
  cbn [fst snd] in E.
  destruct (write_columns fuel block perm pcs m ∅ (columns_list self) _)
    as [[] s2|e2 s2| |] eqn:E2; try discriminate.
  destruct (index_loop fuel pcs (rows block) _ s2) as [[] s3|e3 s3| |]
    eqn:E3; try discriminate.
  apply resolve_Returns_names in E1.
  destruct E1 as (Hfound & names & Hnames & Hnd & _).
  split.
  { apply Forall_forall. intros elem Hin. apply Z.eqb_eq.
    rewrite forallb_forall in Hf. apply Hf. now apply list_elem_of_In. }
  split; [eapply write_columns_Returns_found; exact E2|].
  split; [exact Hfound|]. split; [eauto|].
  pose proof (write_columns_frame _ _ _ _ _ _ _ _ _ E2) as (b & -> & F).
  assert (Hst : storage (base s3) = storage (base self)).
  { pose proof (keeps_index_loop (fun b' => storage b' = storage (base self))
                  pcs (rows block) fuel
                  (index_offset (base (set_base b
                     (ensure_index
                        (length (getSortDescription (storage (base self))))
                        self))))
                  (set_base b (ensure_index
                     (length (getSortDescription (storage (base self))))
                     self))) as Hk.
    rewrite E3 in Hk. apply Hk. simpl. destruct F as [-> _].
    unfold ensure_index. destruct (index_columns self); reflexivity. }
  unfold on_base, update_index_offset in E. rewrite Hst in E.
  destruct (index_granularity (storage (base self)) =? 0) eqn:Eg;
    [discriminate|]. now apply Z.eqb_neq.
Qed.

End Preconditions.

(** A block of ten rows of the key is written. *)
Lemma writeImpl_returns_only_if_witness :
  Forall (fun elem => IColumn_size (column elem) = rows ten_rows) ten_rows /\
  index_granularity (storage (base (key_writer 4 Ordinary).1)) <> 0.
Proof.
  set (w0 := (key_writer 4 Ordinary).1).
  set (r := writeImpl 20 ten_rows None w0).
  set (w := match r with Returns _ w => w | _ => w0 end).
  assert (E : r = Returns tt w) by (vm_compute; reflexivity).
  destruct (writeImpl_returns_only_if 20 ten_rows None w0 w E)
    as (H1 & _ & _ & _ & H5).
  split; assumption.
Defined.

Section Returns.

Context {DataType Field : Type}.
Context `{!IDataType DataType Field} `{!IOEnv DataType}.

Implicit Types self : MergedBlockOutputStream DataType Field.
Implicit Types block : Block DataType Field.
Implicit Types pcs : list (ColumnWithTypeAndName DataType Field).

Lemma writeData_returns fuel name_ (type_ : DataType) (column_ : list Field)
    oc skip (b : IMergedBlockOutputStream) :
  1 <= index_granularity (storage b) ->
  0 <= index_offset b < size_t_modulus ->
  IColumn_size column_ + index_granularity (storage b) <= size_t_modulus ->
  (length column_ <= fuel)%nat ->
  streams_ready name_ type_ column_ skip (column_streams b) ->
  exists b',
    writeData fuel name_ type_ column_ oc skip b = Returns tt b' /\
    same_frame b b'.
Proof.
  intros Hg Hio Hsize Hfuel Hready. unfold writeData, IColumn_size in *.
  destruct (granules_enough _ _ _ Hg Hio Hsize fuel 0) as [l G]; [lia|lia|].
  rewrite (writeData_loop_granules _ _ _ _ _ _ _ _ _ _ G).
  now apply for_each_granules_returns.
Qed.

Lemma write_columns_returns fuel block pcs (m : gmap string nat) oc
    (cols : list (string * DataType)) self :
  1 <= index_granularity (storage (base self)) ->
  0 <= index_offset (base self) < size_t_modulus ->
  Forall (fun it : string * DataType =>
            exists elem,
              find (fun e => String.eqb (name e) it.1) block = Some elem /\
              streams_ready (name elem) (type elem) (column elem) false
                (column_streams (base self)) /\
              IColumn_size (column elem)
              + index_granularity (storage (base self)) <= size_t_modulus /\
              (length (column elem) <= fuel)%nat) cols ->
  exists self',
    write_columns fuel block None pcs m oc cols self = Returns tt self'.
Proof.
  intros Hg Hio Hcols. unfold write_columns.
  destruct (for_each_returns (only_streams_changed self) cols
              (fun it =>
                 let* column_ := getByName block it.1 in
                 writeData_in fuel (name column_) (type column_)
                   (column column_) oc false)) with (s := self)
    as (self' & E & _).
  - intros it s Hin (b & -> & F).
    rewrite Forall_forall in Hcols.
    destruct (Hcols it ltac:(now apply list_elem_of_In))
      as (elem & Hfind & Hready & Hsize & Hfuel).
    unfold bind, getByName. rewrite Hfind. unfold ret.
    unfold writeData_in, on_base. cbn [base set_base].
    destruct F as (F1 & F2 & F3 & F4 & F5 & F6 & F7).
    destruct (writeData_returns fuel (name elem) (type elem) (column elem)
                oc false b) as (b' & -> & F').
    + now rewrite F1.
    + now rewrite F6.
    + now rewrite F1.
    + exact Hfuel.
    + eapply streams_ready_frame; [|exact Hready].
      repeat split; assumption.
    + eexists. split; [reflexivity|]. exists b'. split; [reflexivity|].
      eapply same_frame_trans; [|exact F']. repeat split; assumption.
  - exists (base self). split; [now destruct self | apply same_frame_refl].
  - eauto.
Qed.

Lemma writeImpl_returns fuel block self names :
  1 <= index_granularity (storage (base self)) ->
  writer_ready self ->
  rows block + index_granularity (storage (base self)) < size_t_modulus ->
  (Z.to_nat (rows block) <= fuel)%nat ->
  Forall (fun elem => IColumn_size (column elem) = rows block) block ->
  Forall (fun d => is_Some (lookup_column block d))
    (getSortDescription (storage (base self))) ->
  mapM (sort_column_name block) (getSortDescription (storage (base self)))
  = Some names ->
  NoDup names ->
  Forall (fun it : string * DataType =>
            exists elem,
              find (fun e => String.eqb (name e) it.1) block = Some elem /\
              streams_ready (name elem) (type elem) (column elem) false
                (column_streams (base self))) (columns_list self) ->
  exists self', writeImpl fuel block None self = Returns tt self'.
Proof.
  intros Hg (Hio & Hidx & Hout) Hsize Hfuel Hrect Hfound Hnames Hnd Hcols.
  set (g := index_granularity (storage (base self))) in *.
  set (sd := getSortDescription (storage (base self))) in *.
  rewrite writeImpl_stages. fold sd.
  assert (Hf : forallb (fun elem => IColumn_size (column elem) =? rows block)
                 block = true).
  { apply forallb_forall. intros elem Hin. apply Z.eqb_eq.
    rewrite Forall_forall in Hrect. apply Hrect. now apply list_elem_of_In. }
  rewrite Hf.
  pose proof (resolve_names block sd names 0%nat [] ∅ self Hnames Hfound)
    as Hres.
  rewrite decide_True in Hres.
  2:{ split; [exact Hnd|]. apply Forall_forall. intros. apply lookup_empty. }
  destruct Hres as (pcs & m & Eres & _). cbn [app] in Eres.
  rewrite Eres. cbn [fst snd].
  pose proof (resolve_primary_columns_spec _ _ _ _ _ _ _ _ _ _ Eres)
    as (_ & Hlen & Hrows). cbn [length Nat.add] in Hlen.
  assert (Hbase : base (ensure_index (length sd) self) = base self)
    by (unfold ensure_index; destruct (index_columns self); reflexivity).
  assert (Hn : 0 <= rows block) by apply rows_nonneg.
  destruct (write_columns_returns fuel block pcs m ∅ (columns_list self)
              (ensure_index (length sd) self)) as (s2 & E2).
  { rewrite Hbase. exact Hg. }
  { rewrite Hbase. fold g. lia. }
  { rewrite Hbase. eapply Forall_impl; [exact Hcols|].
    intros it (elem & H1 & H2). exists elem.
    assert (Hin : elem ∈ block)
      by (apply list_elem_of_In; eapply find_In_block; exact H1).
    rewrite Forall_forall in Hrect. specialize (Hrect elem Hin).
    cbn beta in Hrect.
    split; [exact H1|]. split; [exact H2|]. split.
    - rewrite Hrect. fold g. lia.
    - unfold IColumn_size in Hrect. lia. }
  replace (columns_list (ensure_index (length sd) self))
    with (columns_list self) in E2
    by (unfold ensure_index; destruct (index_columns self); reflexivity).
  rewrite E2.
  pose proof (write_columns_frame _ _ _ _ _ _ _ _ _ E2) as (b & -> & F).
  rewrite Hbase in F. destruct F as (F1 & F2 & F3 & F4 & F5 & F6 & F7).
  destruct (keys_exist pcs (Z.to_nat (rows block))) as (keys & Hklen & Hkeys).
  { apply Hrows; [|constructor].
    eapply Forall_impl; [exact Hrect|]. intros e He. cbn beta in He.
    unfold IColumn_size in He. lia. }
  cbn [base set_base]. rewrite F6.
  replace (rows block) with (Z.of_nat (length keys)) by lia.
  replace (index_offset (base self))
    with (Z.of_nat (Z.to_nat (index_offset (base self)))) by lia.
  rewrite (index_loop_spec pcs keys g); try assumption; try lia.
  2:{ cbn. now rewrite F1. }
  2:{ unfold mode_of. cbn [base set_base]. rewrite F1. intros Hm.
      split; [|unfold ensure_index; destruct (index_columns self);
                now apply Hout].
      cbn. rewrite Hlen. now apply ensure_index_length. }
  unfold on_base, update_index_offset.
  match goal with
  | |- context [index_granularity (storage (base ?s)) =? 0] =>
      assert (Hst : storage (base s) = storage (base self))
  end.
  { rewrite fold_sample_row_set_base by (rewrite Hbase; exact F1).
    cbn. exact F1. }
  rewrite Hst. fold g.
  destruct (g =? 0) eqn:Eg; [apply Z.eqb_eq in Eg; lia|]. eauto.
Qed.

End Returns.

Section ReturnsAll.

Context {DataType Field : Type}.
Context `{!IDataType DataType Field} `{!IOEnv DataType}.

Implicit Types self : MergedBlockOutputStream DataType Field.
Implicit Types block : Block DataType Field.

Hypothesis serializer_asks_enumerated :
  forall (type_ : DataType) (column_ : list Field) offset limit path bytes,
  In (path, bytes)
     (serializeBinaryBulkWithMultipleStreams type_ column_ offset limit) ->
  In path (enumerateStreams type_).

Lemma streams_ready_of_names name_ (type_ : DataType) (column_ : list Field)
    (streams : gmap string ColumnStream) :
  (forall n, n ∈ stream_names name_ type_ false -> is_Some (streams !! n)) ->
  streams_ready name_ type_ column_ false streams.
Proof.
  intros Hall. split.
  - intros path Hin _. apply Hall, elem_of_stream_names. eauto.
  - intros offset limit path bytes Hin _.
    apply Hall, elem_of_stream_names. exists path.
    split; [eapply serializer_asks_enumerated; exact Hin | auto].
Qed.

Lemma write_all_returns_from storage_ (cols : list (string * DataType)) fuel :
  1 <= index_granularity storage_ ->
  forall (blocks : list (Block DataType Field)) self,
  writer_ready self -> storage (base self) = storage_ ->
  columns_list self = cols ->
  (forall n, n ∈ part_stream_names cols false ->
     is_Some (column_streams (base self) !! n)) ->
  Forall (fun block =>
            Forall (fun elem => IColumn_size (column elem) = rows block)
              block /\
            rows block + index_granularity storage_ < size_t_modulus /\
            (Z.to_nat (rows block) <= fuel)%nat /\
            Forall (fun d => is_Some (lookup_column block d))
              (getSortDescription storage_) /\
            (exists names,
               mapM (sort_column_name block) (getSortDescription storage_)
               = Some names /\ NoDup names) /\
            Forall (fun it : string * DataType =>
                      exists elem,
                        find (fun e => String.eqb (name e) it.1) block
                        = Some elem /\ type elem = it.2) cols) blocks ->
  exists w, write_all fuel blocks self = Returns tt w.
Proof.
  intros Hg. induction blocks as [|block blocks IH];
    intros self Hready Hst Hcols Hstreams Hblocks.
  - eexists. reflexivity.
  - inversion Hblocks
      as [|? ? (Hrect & Hsize & Hfuel & Hfound & (names & Hnames & Hnd) & Hin)
            Hrest]; subst.
    destruct (writeImpl_returns fuel block self names) as (self1 & E);
      try rewrite Hst; try assumption.
    { apply Forall_forall. intros it Hit. rewrite Forall_forall in Hin.
      destruct (Hin it Hit) as (elem & Hfind & Htype).
      exists elem. split; [exact Hfind|].
      apply streams_ready_of_names. intros n Hn. apply Hstreams.
      unfold part_stream_names. apply list_elem_of_In, in_flat_map.
      exists it. split; [now apply list_elem_of_In|].
      apply list_elem_of_In. rewrite <- Htype.
      apply find_some in Hfind. destruct Hfind as [_ Heq].
      apply String.eqb_eq in Heq. now rewrite <- Heq. }
    destruct (writeImpl_summary fuel block None self self1 E)
      as (_ & _ & _ & _ & _ & F & Hc & _ & Hready1);
      try rewrite Hst; try assumption.
    destruct F as (F1 & _ & _ & _ & _ & _ & F7). cbn in F1, F7.
    destruct (IH self1) as (w & Ew); try assumption; try congruence.
    { intros n Hn. apply elem_of_dom. rewrite F7. apply elem_of_dom.
      now apply Hstreams. }
    exists w. unfold write_all in *. cbn [for_each]. unfold bind.
    unfold write. rewrite E. exact Ew.
Qed.

(** X8.  On a new writer with a granularity of at least one, [write]
    returns for every block of a sequence when, for each block, the columns
    have one size that fits a [size_t] together with the granularity, every
    element of the sort description finds its column and no two stand for
    one name, and every column of the list is in the block with the type
    of the list.  The type system is taken to serialize only into the
    substreams it enumerates. *)
Theorem write_all_returns storage_ path (cols : list (string * DataType))
    method fs fuel (blocks : list (Block DataType Field)) :
  1 <= index_granularity storage_ ->
  Forall (fun block =>
            Forall (fun elem => IColumn_size (column elem) = rows block)
              block /\
            rows block + index_granularity storage_ < size_t_modulus /\
            (Z.to_nat (rows block) <= fuel)%nat /\
            Forall (fun d => is_Some (lookup_column block d))
              (getSortDescription storage_) /\
            (exists names,
               mapM (sort_column_name block) (getSortDescription storage_)
               = Some names /\ NoDup names) /\
            Forall (fun it : string * DataType =>
                      exists elem,
                        find (fun e => String.eqb (name e) it.1) block
                        = Some elem /\ type elem = it.2) cols) blocks ->
  exists w,
    write_all fuel blocks
      (MergedBlockOutputStream_new storage_ path cols method fs).1
    = Returns tt w.
Proof.
  intros Hg Hblocks.
  destruct (MergedBlockOutputStream_new_spec storage_ path cols method fs)
    as (H1 & _ & _ & _ & _ & H6 & _).
  destruct (MergedBlockOutputStream_new_streams storage_ path cols method fs)
    as [_ Hstreams].
  apply (write_all_returns_from storage_ cols fuel Hg); try assumption.
  - now apply MergedBlockOutputStream_new_ready.
  - intros n Hn. rewrite Hstreams, decide_True by exact Hn. eauto.
Qed.

End ReturnsAll.

Lemma serializeBulk_enumerated (type_ : DataType) :
  forall (rows_ : list Field) path substream_path bytes,
  In (substream_path, bytes) (serializeBulk type_ rows_ path) ->
  In substream_path (enumerate type_ path).
Proof.
  induction type_ as [|nested IH]; intros rows_ path sp bytes Hin; simpl in *.
  - destruct Hin as [Hin|[]]. injection Hin as <- _. now left.
  - destruct Hin as [Hin|Hin]; [injection Hin as <- _; now left|].
    right. eapply IH. exact Hin.
Qed.

(** Ten rows of the key in two blocks of five. *)
Lemma write_all_returns_witness :
  exists w,
    write_all 20 [first_five; last_five] (key_writer 4 Ordinary).1
    = Returns tt w.
Proof.
  unfold key_writer.
  apply (@write_all_returns DataType Field type_system io_env
           (fun type_ column_ offset limit path bytes =>
              serializeBulk_enumerated type_ (row_range column_ offset limit)
                [] path bytes)
           (storage_of 4 Ordinary) "/part/" [("k", UInt8)] LZ4 no_files 20
           [first_five; last_five]).
  - simpl. lia.
  - repeat (constructor; [repeat split|]); try constructor;
      try (repeat constructor; fail);
      try (simpl; lia); try (vm_compute; reflexivity);
      try (vm_compute; eauto; fail);
      try (exists ["k"%string]; split;
           [reflexivity | apply (bool_decide_unpack _); vm_compute; exact I]);
      try (eexists; split; reflexivity).
Defined.

(** ** A block without rows *)

Section EmptyBlock.

Context {DataType Field : Type}.
Context `{!IDataType DataType Field} `{!IOEnv DataType}.

Implicit Types self : MergedBlockOutputStream DataType Field.
Implicit Types block : Block DataType Field.
Implicit Types pcs : list (ColumnWithTypeAndName DataType Field).

Lemma writeData_in_nil fuel name_ (type_ : DataType) oc skip self :
  writeData_in fuel name_ type_ [] oc skip self = Returns tt self.
Proof.
  unfold writeData_in, on_base, writeData.
  destruct fuel; simpl; now destruct self.
Qed.

Lemma write_columns_nil fuel block perm pcs (m : gmap string nat) oc cols :
  Forall (fun elem => column elem = []) block ->
  Forall (fun elem => column elem = []) pcs ->
  forall self self',
  write_columns fuel block perm pcs m oc cols self = Returns tt self' ->
  self' = self.
Proof.
  intros Hblock Hpcs. unfold write_columns.
  induction cols as [|it cols IH]; intros self self' E; simpl in E.
  - now injection E as <-.
  - apply bind_Returns in E. destruct E as ([] & s1 & E1 & E).
    apply IH in E. subst self'.
    apply bind_Returns in E1. destruct E1 as (elem & s0 & E0 & E1).
    apply getByName_Returns in E0. destruct E0 as [-> Hfind].
    assert (Hc : column elem = []).
    { rewrite Forall_forall in Hblock. apply Hblock, list_elem_of_In.
      eapply find_In_block. exact Hfind. }
    rewrite Hc in E1. destruct perm as [perm|].
    + destruct (m !! it.1) as [pos|].
      * destruct (pcs !! pos) as [primary|] eqn:Epos; [|discriminate].
        rewrite Forall_forall in Hpcs.
        rewrite (Hpcs primary) in E1
          by (eapply list_elem_of_lookup_2; exact Epos).
        rewrite writeData_in_nil in E1. now injection E1 as <-.
      * unfold bind, permute in E1. simpl in E1.
        rewrite writeData_in_nil in E1. now injection E1 as <-.
    + rewrite writeData_in_nil in E1. now injection E1 as <-.
Qed.

(** X9.  A block without rows changes nothing: when [write] or
    [writeWithPermutation] returns for it, the streams, the marks, the
    count of marks, the bytes of [primary.idx] and the carried offset are
    those before the call; only the columns of the index are created,
    empty, if there were none. *)
Theorem empty_block_changes_nothing fuel block perm self self' :
  rows block = 0 ->
  0 <= index_offset (base self) < index_granularity (storage (base self)) ->
  index_granularity (storage (base self)) < size_t_modulus ->
  writeImpl fuel block perm self = Returns tt self' ->
  self' = ensure_index (length (getSortDescription (storage (base self))))
            self.
Proof.
  intros Hrows Hio Hg E. rewrite writeImpl_stages in E.
  destruct (forallb _ block) eqn:Hf; [|discriminate].
  assert (Hnil : Forall (fun elem => column elem = []) block).
  { apply Forall_forall. intros elem Hin. rewrite forallb_forall in Hf.
    specialize (Hf elem ltac:(now apply list_elem_of_In)).
    apply Z.eqb_eq in Hf. rewrite Hrows in Hf. unfold IColumn_size in Hf.
    destruct (column elem); [reflexivity | simpl in Hf; lia]. }
  destruct (resolve_primary_columns block perm _ 0%nat [] ∅ self)
    as [[pcs m] s1|e1 s1| |] eqn:E1; try discriminate.
  apply resolve_primary_columns_spec in E1. destruct E1 as (_ & _ & Hlen).
  specialize (Hlen 0%nat).
  assert (Hpcs : Forall (fun elem => column elem = []) pcs).
  { eapply Forall_impl; [apply Hlen; [|constructor]|].
    - eapply Forall_impl; [exact Hnil|]. intros elem ->. reflexivity.
    - intros elem He. cbn beta in He. now destruct (column elem). }
  cbn [fst snd] in E.
  destruct (write_columns fuel block perm pcs m ∅ (columns_list self) _)
    as [[] s2|e2 s2| |] eqn:E2; try discriminate.
  apply (write_columns_nil fuel block perm pcs m ∅ _ Hnil Hpcs) in E2.
  subst s2. rewrite Hrows in E.
  set (s := ensure_index _ self) in *.
  assert (Hbase : base s = base self)
    by (unfold s, ensure_index; destruct (index_columns self); reflexivity).
  rewrite Hbase in E.
  assert (Eloop : index_loop fuel pcs 0 (index_offset (base self)) s
                  = Returns tt s).
  { destruct fuel; simpl;
      (destruct (index_offset (base self) <? 0) eqn:El;
       [apply Z.ltb_lt in El; lia | reflexivity]). }
  rewrite Eloop in E. unfold on_base, update_index_offset in E.
  rewrite Hbase in E.
  destruct (index_granularity (storage (base self)) =? 0); [discriminate|].
  injection E as <-.
  destruct (next_index_offset_eq (index_granularity (storage (base self)))
              (index_offset (base self)) 0) as [_ ->]; try lia.
  rewrite Z.sub_0_r, Z.mod_small by lia.
  destruct s as [b ? ? ? ? ? ?]. cbn in *. subst b.
  now destruct (base self).
Qed.

End EmptyBlock.

(** A block with the key column and no row. *)
Lemma empty_block_changes_nothing_witness :
  write 10 [key_column []] (key_writer 4 Ordinary).1
  = Returns tt (ensure_index 1 (key_writer 4 Ordinary).1).
Proof.
  set (w0 := (key_writer 4 Ordinary).1).
  set (r := writeImpl 10 [key_column []] None w0).
  set (w := match r with Returns _ w => w | _ => w0 end).
  assert (E : r = Returns tt w) by (vm_compute; reflexivity).
  unfold write. fold r. rewrite E. apply (f_equal (Returns tt)).
  apply (empty_block_changes_nothing 10 [key_column []] None w0 w).
  - reflexivity.
  - vm_compute. split; [discriminate | reflexivity].
  - vm_compute. reflexivity.
  - exact E.
Defined.

(** ** The content of the primary index *)

Lemma sample_from_Forall {A} (P : A -> Prop) g (l : list A) :
  Forall P l -> forall skip, Forall P (sample_from g skip l).
Proof.
  induction 1 as [|x l Hx Hl IH]; intros skip; simpl; [constructor|].
  destruct skip; [constructor; [exact Hx|] |]; apply IH.
Qed.

Lemma sample_from_length_le {A} g (l : list A) :
  forall skip, (length (sample_from g skip l) <= length l)%nat.
Proof.
  induction l as [|x l IH]; intros skip; simpl; [lia|].
  destruct skip; simpl; [specialize (IH (Z.to_nat (g - 1)))
                        | specialize (IH skip)]; lia.
Qed.

Lemma sample_from_nth {A} g (l : list A) : 1 <= g ->
  forall k i, sample_from g i l !! k = l !! (i + k * Z.to_nat g)%nat.
Proof.
  intros Hg. induction k as [|k IH]; intros i;
    rewrite (sample_from_lookup g l Hg i).
  - rewrite Nat.add_0_r. destruct (l !! i) eqn:E; [reflexivity|].
    now rewrite lookup_nil.
  - destruct (l !! i) eqn:E.
    + cbn [lookup list_lookup]. rewrite IH. f_equal. lia.
    + rewrite lookup_nil. symmetry. apply lookup_ge_None.
      apply lookup_ge_None in E. lia.
Qed.

Section IndexContent.

Context {DataType Field : Type}.
Context `{!IDataType DataType Field} `{!IOEnv DataType}.

Implicit Types self : MergedBlockOutputStream DataType Field.
Implicit Types keys : list (list (DataType * Field)).

Lemma fold_summary_step_sorted n keys :
  Forall (fun key => length key = n) keys ->
  forall summary : Z * option (list byte) * list (list Field),
  length summary.2 = n ->
  let r := fold_left (summary_step true) keys summary in
  r.1.2 = option_map (fun out => out ++ flat_map key_image keys) summary.1.2 /\
  length r.2 = n /\
  forall j, r.2 !! j
            = option_map (fun col => col ++ key_column_values j keys)
                (summary.2 !! j).
Proof.
  induction 1 as [|key keys Hkey Hkeys IH]; intros [[mc out] cols] Hlen.
  - cbn. split; [destruct out; cbn; now rewrite ?app_nil_r|].
    split; [exact Hlen|]. intros j. destruct (cols !! j); cbn;
      now rewrite ?app_nil_r.
  - cbn [fold_left]. cbn in Hlen.
    specialize (IH (summary_step true (mc, out, cols) key)).
    cbn [summary_step fst snd] in IH. cbv zeta in IH.
    destruct IH as (I1 & I2 & I3).
    { rewrite length_zip_with. lia. }
    cbv zeta. cbn [summary_step fst snd].
    split; [|split; [exact I2|]].
    + rewrite I1. destruct out; cbn; [|reflexivity].
      now rewrite <- app_assoc.
    + intros j. rewrite I3, lookup_zip_with.
      unfold key_column_values. cbn [omap list_omap].
      destruct (cols !! j) as [col|] eqn:Ec; cbn; [|reflexivity].
      destruct (key !! j) as [tv|] eqn:Ek; cbn.
      * now rewrite <- app_assoc.
      * apply lookup_ge_None in Ek. apply lookup_lt_Some in Ec. lia.
Qed.

(** X10.  In a sorted mode, after the blocks of a sequence were written to
    a new writer, the index holds the primary key of the first row and of
    every [index_granularity]-th row after it, counted over all the blocks
    together: [marks_count] is their number, [primary.idx] holds their
    binary images one after the other, and the index column [j] holds
    their values of the key column [j]. *)
Theorem index_holds_every_granularity_th_key storage_ path
    (cols : list (string * DataType)) method fs fuel
    (blocks : list (Block DataType Field)) w :
  let g := index_granularity storage_ in
  let sd := getSortDescription storage_ in
  merging_params_mode storage_ <> Unsorted ->
  1 <= g ->
  Z.of_nat (length (total_rows blocks)) + g < size_t_modulus ->
  write_all fuel blocks
    (MergedBlockOutputStream_new storage_ path cols method fs).1
  = Returns tt w ->
  exists keys,
    mapM (key_of_row sd) (total_rows blocks) = Some keys /\
    let sampled := sample_from g 0 keys in
    (forall k, sampled !! k = keys !! (k * Z.to_nat g)%nat) /\
    marks_count w = Z.of_nat (length sampled) /\
    index_stream w = Some (flat_map key_image sampled) /\
    forall j, index_column_at w j = key_column_values j sampled.
Proof.
  intros g sd Hmode Hg Hsize E.
  destruct (MergedBlockOutputStream_new_spec storage_ path cols method fs)
    as (H1 & H2 & H3 & H4 & H5 & _).
  pose proof (MergedBlockOutputStream_new_ready storage_ path cols method fs Hg)
    as Hready.
  set (w0 := (MergedBlockOutputStream_new storage_ path cols method fs).1) in *.
  destruct (write_all_summary fuel blocks w0 w E) as (keys & K1 & K2 & _);
    [rewrite H1; exact Hg | exact Hready | rewrite H1; exact Hsize|].
  rewrite H1, H2 in *. fold g sd in K1, K2. change (Z.to_nat 0) with 0%nat in K2.
  set (sampled := sample_from g 0 keys) in *.
  exists keys. split; [exact K1|]. intros sampled'. subst sampled'.
  fold sampled.
  split; [intros k; apply (sample_from_nth g keys Hg k 0)|].
  assert (Hsorted : is_sorted w0 = true).
  { unfold is_sorted, mode_of. rewrite H1.
    now apply bool_decide_eq_true_2. }
  rewrite Hsorted in K2.
  assert (Hlens : Forall (fun key => length key = length sd) sampled).
  { apply sample_from_Forall. rewrite mapM_Some in K1.
    clear -K1. induction K1 as [|row key rows keys Hk _ IH]; constructor;
      [|exact IH].
    unfold key_of_row in Hk. apply length_mapM in Hk. now rewrite <- Hk. }
  assert (H0 : index_summary (length sd) w0
               = (0, Some [], replicate (length sd) [])).
  { unfold index_summary, index_view, ensure_index. rewrite H3, H4, H5.
    rewrite decide_True by exact Hmode. reflexivity. }
  rewrite H0 in K2.
  destruct (fold_summary_step_sorted (length sd) sampled Hlens
              (0, Some [], replicate (length sd) []))
    as (F1 & F2 & F3); [cbn; apply length_replicate|].
  cbv zeta in F1, F2, F3. rewrite <- K2 in F1, F2, F3.
  cbn [index_summary fst snd] in F1, F2, F3.
  split; [|split; [exact F1|]].
  - assert (Hmc : marks_count w = (index_summary (length sd) w).1.1)
      by reflexivity.
    rewrite Hmc, K2.
    destruct (fold_summary_step_marks true sampled
                (0, Some [], replicate (length sd) [])) as [->|[-> ->]];
      [|reflexivity].
    cbn [fst]. apply wrap_small.
    assert (length sampled <= length keys)%nat.
      by apply sample_from_length_le.
    apply length_mapM in K1. lia.
  - intros j. rewrite (index_column_at_view (length sd)), F3.
    destruct (decide (j < length sd)%nat) as [Hj|Hj].
    + assert (Hr : replicate (length sd) ([] : list Field) !! j = Some [])
        by (apply lookup_replicate_2; exact Hj).
      rewrite Hr. reflexivity.
    + assert (Hr : replicate (length sd) ([] : list Field) !! j = None)
        by (apply lookup_replicate_None; lia).
      rewrite Hr. cbn.
      unfold key_column_values. symmetry.
      clear -Hlens Hj. induction Hlens as [|key keys' Hk _ IH]; cbn;
        [reflexivity|].
      rewrite (proj2 (lookup_ge_None key j)) by lia. exact IH.
Qed.

End IndexContent.

(** Ten rows with a granularity of four: the keys of the rows 0, 4 and 8. *)
Lemma index_holds_every_granularity_th_key_witness :
  match write_all 20 [ten_rows] (key_writer 4 Ordinary).1 with
  | Returns _ w =>
      marks_count w = 3 /\
      index_stream w = Some [x00; x04; x08] /\
      index_column_at w 0 = [UInt 0; UInt 4; UInt 8]
  | _ => False
  end.
Proof.
  set (w0 := (key_writer 4 Ordinary).1).
  set (r := write_all 20 [ten_rows] w0).
  set (w := match r with Returns _ w => w | _ => w0 end).
  assert (E : r = Returns tt w) by (vm_compute; reflexivity).
  rewrite E.
  destruct (index_holds_every_granularity_th_key (storage_of 4 Ordinary)
              "/part/" [("k", UInt8)] LZ4 no_files 20 [ten_rows] w)
    as (keys & K1 & K).
  - discriminate.
  - simpl. lia.
  - vm_compute. reflexivity.
  - exact E.
  - vm_compute in K1. injection K1 as <-.
    destruct K as (_ & K3 & K4 & K5).
    split; [exact K3|]. split; [exact K4 | exact (K5 0%nat)].
Defined.

(** ** Names of files *)

Lemma string_app_inj_r (a b e : string) : a +:+ e = b +:+ e -> a = b.
Proof.
  revert b. induction a as [|x a IH]; intros [|y b] E.
  - reflexivity.
  - apply (f_equal String.length) in E. rewrite !string_app_length in E.
    simpl in E. lia.
  - apply (f_equal String.length) in E. rewrite !string_app_length in E.
    simpl in E. lia.
  - rewrite !string_app_cons in E. injection E as -> E. f_equal. now apply IH.
Qed.

Lemma string_last_ne (a b : string) (c1 c2 : ascii) :
  c1 <> c2 -> a +:+ String c1 "" <> b +:+ String c2 "".
Proof.
  intros Hc E.
  assert (Hlen : String.length a = String.length b).
  { apply (f_equal String.length) in E. rewrite !string_app_length in E.
    simpl in E. lia. }
  pose proof (append_correct2 a (String c1 "") 0) as H1.
  pose proof (append_correct2 b (String c2 "") 0) as H2.
  simpl in H1, H2. rewrite E, Hlen, <- H2 in H1. congruence.
Qed.

Lemma stream_files_apart (path n n' : string) :
  ((path +:+ n) +:+ DATA_FILE_EXTENSION
   = (path +:+ n') +:+ DATA_FILE_EXTENSION -> n = n') /\
  ((path +:+ n) +:+ MARKS_FILE_EXTENSION
   = (path +:+ n') +:+ MARKS_FILE_EXTENSION -> n = n') /\
  (path +:+ n) +:+ DATA_FILE_EXTENSION
  <> (path +:+ n') +:+ MARKS_FILE_EXTENSION /\
  (n +:+ DATA_FILE_EXTENSION = n' +:+ DATA_FILE_EXTENSION -> n = n') /\
  (n +:+ MARKS_FILE_EXTENSION = n' +:+ MARKS_FILE_EXTENSION -> n = n') /\
  n +:+ DATA_FILE_EXTENSION <> n' +:+ MARKS_FILE_EXTENSION.
Proof.
  assert (Hne : forall a b : string,
            a +:+ DATA_FILE_EXTENSION <> b +:+ MARKS_FILE_EXTENSION).
  { intros a b. change DATA_FILE_EXTENSION with (".bi" +:+ "n")%string.
    change MARKS_FILE_EXTENSION with (".mr" +:+ "k")%string.
    rewrite <- !string_app_assoc. apply string_last_ne. discriminate. }
  repeat split; try apply Hne.
  - intros E. apply string_app_inj_r in E. now apply String.app_inj in E.
  - intros E. apply string_app_inj_r in E. now apply String.app_inj in E.
  - apply string_app_inj_r.
  - apply string_app_inj_r.
Qed.

Lemma stream_files_not_lists (path n : string) :
  (path +:+ n) +:+ DATA_FILE_EXTENSION <> path +:+ "columns.txt" /\
  (path +:+ n) +:+ MARKS_FILE_EXTENSION <> path +:+ "columns.txt" /\
  (path +:+ n) +:+ DATA_FILE_EXTENSION <> path +:+ "checksums.txt" /\
  (path +:+ n) +:+ MARKS_FILE_EXTENSION <> path +:+ "checksums.txt".
Proof.
  change DATA_FILE_EXTENSION with (".bi" +:+ "n")%string.
  change MARKS_FILE_EXTENSION with (".mr" +:+ "k")%string.
  change "columns.txt"%string with ("columns.tx" +:+ "t")%string.
  change "checksums.txt"%string with ("checksums.tx" +:+ "t")%string.
  rewrite <- !string_app_assoc.
  repeat split; apply string_last_ne; discriminate.
Qed.

(** ** Finalizing the streams *)

Section Finalize.

Context {DataType Field : Type}.
Context `{!IDataType DataType Field} `{!IOEnv DataType}.

Lemma length_marks_bytes (s : ColumnStream) :
  Z.of_nat (length (marks_bytes s)) = 8 * Z.of_nat (length (marks s)).
Proof.
  unfold marks_bytes. induction (marks s) as [|x l IH]; [reflexivity|].
  cbn [flat_map]. rewrite length_app. cbn [length].
  unfold writeIntBinary_bytes at 1. rewrite length_map, length_seq. lia.
Qed.

Lemma compressed_next_fields (s : ColumnStream) :
  escaped_column_name (compressed_next s) = escaped_column_name s /\
  data_file_extension (compressed_next s) = data_file_extension s /\
  marks_file_extension (compressed_next s) = marks_file_extension s /\
  plain_file (compressed_next s) = plain_file s /\
  marks_file (compressed_next s) = marks_file s /\
  marks (compressed_next s) = marks s /\
  compressed_blocks (compressed_next s) ++ compressed (compressed_next s)
  = compressed_blocks s ++ compressed s.
Proof.
  unfold compressed_next. destruct (compressed s) eqn:E; cbn;
    rewrite ?E, ?app_nil_r; repeat split; reflexivity.
Qed.

Lemma addToChecksums_spec (s : ColumnStream) (checksums : Checksums) :
  let bin := escaped_column_name s +:+ data_file_extension s in
  let mrk := escaped_column_name s +:+ marks_file_extension s in
  bin <> mrk ->
  (exists c, addToChecksums s checksums !! bin = Some c /\
     file_size c = plain_hashing_count s /\
     file_hash c = getHash (plain_hashing s) /\
     is_compressed c = true /\
     uncompressed_size c = compressed_count s /\
     uncompressed_hash c = getHash (compressed_blocks s ++ compressed s)) /\
  (exists c, addToChecksums s checksums !! mrk = Some c /\
     file_size c = 8 * Z.of_nat (length (marks s)) /\
     file_hash c = getHash (marks_bytes s)) /\
  (forall k, k <> bin -> k <> mrk ->
     addToChecksums s checksums !! k = checksums !! k).
Proof.
  intros bin mrk Hne. unfold addToChecksums, files_set. cbv zeta.
  fold bin mrk. split; [|split].
  - rewrite !(lookup_insert_ne _ mrk bin) by congruence.
    rewrite !lookup_insert_eq. cbn. eexists. split; [reflexivity|].
    cbn. repeat split.
  - rewrite !lookup_insert_eq. cbn. eexists. split; [reflexivity|].
    cbn. repeat split.
  - intros k H1 H2. rewrite !lookup_insert_ne by congruence. reflexivity.
Qed.

Lemma finalize_streams_spec path sync_ (streams : gmap string ColumnStream)
    (checksums : Checksums) fs :
  (forall n s, streams !! n = Some s -> stream_registered path n s) ->
  let r := finalize_streams sync_ streams checksums fs in
  (forall n s, streams !! n = Some s ->
     stream_checksummed path n s r.1 r.2) /\
  (forall k,
     (forall n, is_Some (streams !! n) ->
        k <> n +:+ DATA_FILE_EXTENSION /\ k <> n +:+ MARKS_FILE_EXTENSION) ->
     r.1 !! k = checksums !! k) /\
  (forall file,
     (forall n, is_Some (streams !! n) -> file ∉ stream_files path n) ->
     files r.2 !! file = files fs !! file) /\
  directories r.2 = directories fs.
Proof.
  unfold finalize_streams.
  apply (map_fold_weak_ind
           (fun (r : Checksums * FileSystem) (m : gmap string ColumnStream) =>
              (forall n s, m !! n = Some s -> stream_registered path n s) ->
              (forall n s, m !! n = Some s ->
                 stream_checksummed path n s r.1 r.2) /\
              (forall k,
                 (forall n, is_Some (m !! n) ->
                    k <> n +:+ DATA_FILE_EXTENSION /\
                    k <> n +:+ MARKS_FILE_EXTENSION) ->
                 r.1 !! k = checksums !! k) /\
              (forall file,
                 (forall n, is_Some (m !! n) -> file ∉ stream_files path n) ->
                 files r.2 !! file = files fs !! file) /\
              directories r.2 = directories fs)).
  - intros _. split; [intros n s Hn; now rewrite lookup_empty in Hn|].
    repeat split; reflexivity.
  - intros i x m [cs fs1] Hnone IH Hall.
    destruct (Hall i x (lookup_insert_eq _ _ _))
      as (Hname & Hd & Hm & Hbin & Hmrk).
    destruct IH as (I1 & I2 & I3 & I4).
    { intros n s Hn. apply (Hall n).
      rewrite lookup_insert_ne; [exact Hn | congruence]. }
    destruct (compressed_next_fields x)
      as (N1 & N2 & N3 & N4 & N5 & N6 & N7).
    unfold finalize. cbn [fst snd].
    replace (if sync_
             then ColumnStream_sync (compressed_next x)
                    (store_file (marks_file (compressed_next x))
                       (marks_bytes (compressed_next x))
                       (store_file (plain_file (compressed_next x))
                          (plain_hashing (compressed_next x)) fs1))
             else store_file (marks_file (compressed_next x))
                    (marks_bytes (compressed_next x))
                    (store_file (plain_file (compressed_next x))
                       (plain_hashing (compressed_next x)) fs1))
      with (store_file (marks_file (compressed_next x))
              (marks_bytes (compressed_next x))
              (store_file (plain_file (compressed_next x))
                 (plain_hashing (compressed_next x)) fs1))
      by (destruct sync_; reflexivity).
    assert (Hmb : marks_bytes (compressed_next x) = marks_bytes x)
      by (unfold marks_bytes; now rewrite N6).
    rewrite N4, N5, Hbin, Hmrk, Hname, Hmb.
    pose proof (addToChecksums_spec (compressed_next x) cs) as Hspec.
    cbv zeta in Hspec. rewrite N1, N2, N3, Hname, Hd, Hm in Hspec.
    destruct Hspec as (A1 & A2 & A3);
      [apply (stream_files_apart path i i)|].
    cbn [files directories store_file].
    split; [|split; [|split; [|exact I4]]].
    + intros n s Hn. destruct (decide (n = i)) as [->|Hni].
      * rewrite lookup_insert_eq in Hn. injection Hn as <-.
        unfold stream_checksummed. cbv zeta.
        cbn [fst snd files directories store_file].
        split.
        { rewrite lookup_insert_ne
            by (intros E; symmetry in E;
                now apply (stream_files_apart path i i) in E).
          now rewrite lookup_insert_eq. }
        split; [now rewrite lookup_insert_eq|].
        split.
        { destruct A1 as (c & C0 & C1 & C2 & C3 & C4 & C5).
          exists c. rewrite C0, C1, C2, C3, C4, C5.
          unfold plain_hashing_count, compressed_count.
          rewrite <- length_app, N7. repeat split. }
        { destruct A2 as (c & C0 & C1 & C2).
          exists c. split; [exact C0|]. split.
          - rewrite C1, N6. symmetry. apply length_marks_bytes.
          - rewrite C2, Hmb. reflexivity. }
      * rewrite lookup_insert_ne in Hn by congruence.
        destruct (I1 n s Hn) as (S1 & S2 & S3 & S4).
        destruct (stream_files_apart path n i) as (P1 & P2 & P3 & P4 & P5 & P6).
        destruct (stream_files_apart path i n) as (_ & _ & Q3 & _ & _ & Q6).
        unfold stream_checksummed. cbv zeta.
        cbn [fst snd files directories store_file].
        assert (F1 : (path +:+ i) +:+ MARKS_FILE_EXTENSION
                     <> (path +:+ n) +:+ DATA_FILE_EXTENSION)
          by (intros E; symmetry in E; now apply P3 in E).
        assert (F2 : (path +:+ i) +:+ DATA_FILE_EXTENSION
                     <> (path +:+ n) +:+ DATA_FILE_EXTENSION)
          by (intros E; symmetry in E; now apply P1 in E).
        assert (F3 : (path +:+ i) +:+ MARKS_FILE_EXTENSION
                     <> (path +:+ n) +:+ MARKS_FILE_EXTENSION)
          by (intros E; symmetry in E; now apply P2 in E).
        assert (K1 : n +:+ DATA_FILE_EXTENSION <> i +:+ DATA_FILE_EXTENSION)
          by (intros E; now apply P4 in E).
        assert (K3 : n +:+ MARKS_FILE_EXTENSION <> i +:+ DATA_FILE_EXTENSION)
          by (intros E; symmetry in E; now apply Q6 in E).
        assert (K4 : n +:+ MARKS_FILE_EXTENSION <> i +:+ MARKS_FILE_EXTENSION)
          by (intros E; now apply P5 in E).
        split; [rewrite !lookup_insert_ne by assumption; exact S1|].
        split; [rewrite !lookup_insert_ne by assumption; exact S2|].
        split; rewrite A3 by assumption; assumption.
    + cbn [fst snd]. intros k Hk. destruct (Hk i) as [K1 K2];
        [rewrite lookup_insert_eq; eauto|].
      rewrite A3 by assumption. apply I2. intros n Hn. apply Hk.
      rewrite lookup_insert_ne; [exact Hn|]. intros <-.
      rewrite Hnone in Hn. now destruct Hn.
    + intros file Hfile.
      assert (Hi : file ∉ stream_files path i)
        by (apply Hfile; rewrite lookup_insert_eq; eauto).
      unfold stream_files in Hi. cbn [fst snd files store_file].
      rewrite !lookup_insert_ne.
      * apply I3. intros n Hn. apply Hfile.
        rewrite lookup_insert_ne; [exact Hn|]. intros <-.
        rewrite Hnone in Hn. now destruct Hn.
      * intros <-. apply Hi. repeat constructor.
      * intros <-. apply Hi. repeat constructor.
Qed.

End Finalize.

Section Registered.

Context {DataType Field : Type}.
Context `{!IDataType DataType Field} `{!IOEnv DataType}.

Implicit Types self : MergedBlockOutputStream DataType Field.

Lemma compressed_put_name s b :
  escaped_column_name (compressed_put s b) = escaped_column_name s.
Proof.
  unfold compressed_put, compressed_nextIfAtEnd.
  destruct (_ =? _)%nat; cbn; [apply compressed_next_fields | reflexivity].
Qed.

Lemma stream_update_name f s :
  stream_update f -> escaped_column_name (f s) = escaped_column_name s.
Proof.
  intros [m|bytes|].
  - unfold write_mark. cbn.
    destruct (_ >=? _); [apply compressed_next_fields | reflexivity].
  - unfold compressed_write. revert s.
    induction bytes as [|b bytes IH]; intros s; cbn; [reflexivity|].
    rewrite IH. apply compressed_put_name.
  - unfold compressed_nextIfAtEnd.
    destruct (_ =? _)%nat; [apply compressed_next_fields | reflexivity].
Qed.

Lemma registered_write_calls storage_ path (cols : list (string * DataType))
    method fs fuel (calls : list (Block DataType Field * option (list nat))) :
  match
    write_calls fuel calls
      (MergedBlockOutputStream_new storage_ path cols method fs).1
  with
  | Returns _ w | Throws _ w =>
      storage (base w) = storage_ /\
      forall n s, column_streams (base w) !! n = Some s ->
        stream_registered path n s
  | _ => True
  end.
Proof.
  set (P := fun b : IMergedBlockOutputStream =>
              storage b = storage_ /\
              forall n s, column_streams b !! n = Some s ->
                stream_registered path n s).
  assert (Hupdate : forall (b : IMergedBlockOutputStream) n s f,
            stream_update f -> P b -> column_streams b !! n = Some s ->
            P (set_column_streams (<[n := f s]> (column_streams b)) b)).
  { intros b n s f Hf [Hst Hall] Hn. split; [exact Hst|].
    intros n' s' Hn'. cbn in Hn'. destruct (decide (n = n')) as [<-|Hne].
    - rewrite lookup_insert_eq in Hn'. injection Hn' as <-.
      destruct (Hall n s Hn) as [H1 H2]. split.
      + now rewrite stream_update_name.
      + now apply stream_of_part_update.
    - rewrite lookup_insert_ne in Hn' by exact Hne. now apply Hall. }
  apply (keeps_write_calls P
           (fun fuel0 n t c oc skip =>
              writeData_keeps P Hupdate fuel0 n t c oc skip)
           (fun b io Hb => Hb) fuel calls).
  destruct (MergedBlockOutputStream_new_spec storage_ path cols method fs)
    as (H1 & _).
  destruct (MergedBlockOutputStream_new_streams storage_ path cols method fs)
    as [_ Hstreams].
  split; [exact H1|]. intros n s Hn. rewrite Hstreams in Hn.
  destruct (decide (n ∈ _)); [|discriminate]. injection Hn as <-.
  repeat split.
Qed.

Lemma index_loop_part_path pcs rows_ p :
  forall fuel i,
  keeps (fun self => part_path self = p) (index_loop fuel pcs rows_ i).
Proof.
  induction fuel as [|fuel IH]; intros i; simpl;
    destruct (i <? rows_); try apply keeps_ret; try (intros s _; exact I).
  apply keeps_bind; [apply keeps_get|]. intros self0.
  apply keeps_bind.
  - destruct (decide (mode_of self0 ≠ Unsorted)); [|apply keeps_ret].
    apply keeps_for_each. intros j s Hs. unfold index_insert.
    destruct (pcs !! j); [|exact I].
    destruct (index_columns s !! j); [|exact I].
    destruct (index_stream s); [|exact I].
    destruct (column _ !! _); [exact Hs | exact I].
  - intros _. apply keeps_bind; [|intros _; apply IH].
    intros s Hs. exact Hs.
Qed.

Lemma writeImpl_part_path fuel block perm p :
  keeps (fun self => part_path self = p) (writeImpl fuel block perm).
Proof.
  intros self Hp. rewrite writeImpl_stages.
  destruct (forallb _ block); [|exact Hp].
  destruct (resolve_primary_columns block perm _ 0%nat [] ∅ self)
    as [[pcs m] s1|e1 s1| |]; try exact I; [|exact Hp].
  cbn [fst snd].
  pose proof (write_columns_keeps (fun self => part_path self = p) fuel block
                perm pcs m ∅ (columns_list self)
                (fun s b Hs _ => Hs)
                (ensure_index
                   (length (getSortDescription (storage (base self)))) self))
    as Hk.
  specialize (Hk ltac:(unfold ensure_index;
                       destruct (index_columns self); exact Hp)).
  destruct (write_columns _ _ _ _ _ _ _ _) as [[] s2|e2 s2| |];
    try exact I; [|exact Hk].
  pose proof (index_loop_part_path pcs (rows block) p fuel
                (index_offset (base s2)) s2 Hk) as Hk'.
  destruct (index_loop _ _ _ _ s2) as [[] s3|e3 s3| |]; try exact I;
    [|exact Hk'].
  unfold on_base, update_index_offset.
  destruct (_ =? 0); [exact I | exact Hk'].
Qed.

End Registered.

Section SuffixFiles.

Context {DataType Field : Type}.
Context `{!IDataType DataType Field} `{!IOEnv DataType}.

Implicit Types self : MergedBlockOutputStream DataType Field.

(** X11.  When rows were written and [writeSuffixAndGetChecksums]
    returns, the checksums it returns describe the files it leaves: for
    every stream of the writer the [.bin] file holds the compressed data
    and the [.mrk] file the marks, and the two entries of the checksums
    give the sizes and the hashes of exactly these contents; in a sorted
    mode the same holds of [primary.idx]; [columns.txt] holds the text of
    the column list and [checksums.txt] the text of the checksums
    returned.  The writer is left without streams. *)
Theorem suffix_checksums_describe_files storage_ path
    (cols total_column_list : list (string * DataType)) method fs0 fuel
    (calls : list (Block DataType Field * option (list nat)))
    additional_column_checksums fs w checksums w' fs' :
  write_calls fuel calls
    (MergedBlockOutputStream_new storage_ path cols method fs0).1
  = Returns tt w ->
  marks_count w <> 0 ->
  writeSuffixAndGetChecksums total_column_list additional_column_checksums
    (w, fs) = Returns checksums (w', fs') ->
  files fs' !! (path +:+ "columns.txt")
  = Some (NamesAndTypesList_writeText total_column_list) /\
  files fs' !! (path +:+ "checksums.txt") = Some (Checksums_write checksums) /\
  (forall n s, column_streams (base w) !! n = Some s ->
     stream_checksummed path n s checksums fs') /\
  (merging_params_mode storage_ <> Unsorted ->
   exists out c,
     index_stream w = Some out /\
     files fs' !! (path +:+ "primary.idx") = Some out /\
     checksums !! "primary.idx" = Some c /\
     file_size c = Z.of_nat (length out) /\ file_hash c = getHash out) /\
  column_streams (base w') = ∅.
Proof.
  intros Ecalls Hmarks Esuffix.
  pose proof (registered_write_calls storage_ path cols method fs0 fuel calls)
    as Hreg. rewrite Ecalls in Hreg. destruct Hreg as [Hst Hreg].
  assert (Hpath : part_path w = path).
  { pose proof (keeps_for_each (fun self => part_path self = path) calls
                  (fun call => writeImpl fuel call.1 call.2)
                  (fun call => writeImpl_part_path fuel call.1 call.2 path)
                  (MergedBlockOutputStream_new storage_ path cols method fs0).1)
      as Hk.
    fold (write_calls fuel calls) in Hk. rewrite Ecalls in Hk. apply Hk.
    apply MergedBlockOutputStream_new_spec. }
  unfold writeSuffixAndGetChecksums in Esuffix. rewrite Hpath in Esuffix.
  unfold mode_of in Esuffix. rewrite Hst in Esuffix.
  set (cs0 := default (∅ : Checksums) additional_column_checksums) in *.
  assert (Hmc : (marks_count w =? 0) = false) by now apply Z.eqb_neq.
  assert (Hlists : forall n file, file ∈ stream_files path n ->
            file <> path +:+ "columns.txt" /\
            file <> path +:+ "checksums.txt" /\
            file <> path +:+ "primary.idx").
  { intros n file Hin. unfold stream_files in Hin.
    destruct (stream_files_not_lists path n) as (L1 & L2 & L3 & L4).
    destruct (stream_path_not_index path n) as (L5 & L6).
    apply elem_of_cons in Hin. destruct Hin as [->|Hin]; [auto|].
    apply elem_of_cons in Hin. destruct Hin as [->|Hin]; [auto|].
    inversion Hin. }
  assert (Hkeys : forall n,
            "primary.idx"%string <> n +:+ DATA_FILE_EXTENSION /\
            "primary.idx"%string <> n +:+ MARKS_FILE_EXTENSION).
  { intros n. destruct (stream_file_not_index n) as [K1 K2].
    split; congruence. }
  assert (Htxt : path +:+ "checksums.txt" <> path +:+ "columns.txt")
    by (intros E; apply String.app_inj in E; discriminate E).
  assert (Hidx : path +:+ "checksums.txt" <> path +:+ "primary.idx" /\
                 path +:+ "columns.txt" <> path +:+ "primary.idx")
    by (split; intros E; apply String.app_inj in E; discriminate E).
  destruct (decide (merging_params_mode storage_ ≠ Unsorted)) as [Hm|Hm].
  - destruct (index_stream w) as [out|] eqn:Eout; [|discriminate].
    cbn [base set_index_stream part_path marks_count] in Esuffix.
    match type of Esuffix with
    | context [finalize_streams false ?streams ?cs ?fs1] =>
        pose proof (finalize_streams_spec path false streams cs fs1 Hreg)
          as Hfin;
        destruct (finalize_streams false streams cs fs1) as [cs1 fs2]
    end.
    cbv zeta in Hfin. cbn [fst snd] in Hfin.
    destruct Hfin as (S1 & S2 & S3 & _).
    cbn beta iota zeta in Esuffix.
    cbn [base set_base set_index_stream marks_count part_path] in Esuffix.
    rewrite Hmc, ?Hpath in Esuffix. injection Esuffix as <- <- <-.
    cbn [files store_file].
    split.
    { rewrite lookup_insert_ne by exact Htxt. now rewrite lookup_insert_eq. }
    split; [now rewrite lookup_insert_eq|].
    split.
    { intros n s Hn. destruct (S1 n s Hn) as (T1 & T2 & T3 & T4).
      unfold stream_checksummed. cbn [files store_file].
      split; [|split; [|split; assumption]].
      - destruct (Hlists n ((path +:+ n) +:+ DATA_FILE_EXTENSION))
          as (B1 & B2 & _); [repeat constructor|].
        rewrite !lookup_insert_ne by congruence. exact T1.
      - destruct (Hlists n ((path +:+ n) +:+ MARKS_FILE_EXTENSION))
          as (B1 & B2 & _); [repeat constructor|].
        rewrite !lookup_insert_ne by congruence. exact T2. }
    split; [|reflexivity].
    intros _. exists out.
    rewrite S2 by (intros n _; apply Hkeys).
    unfold files_set. rewrite !lookup_insert_eq. cbn.
    eexists. split; [reflexivity|].
    split; [|repeat split].
    destruct Hidx. rewrite !lookup_insert_ne by assumption.
    rewrite S3.
    + cbn. now rewrite lookup_insert_eq.
    + intros n _ Hin. apply (Hlists n) in Hin. tauto.
  - match type of Esuffix with
    | context [finalize_streams false ?streams ?cs ?fs1] =>
        pose proof (finalize_streams_spec path false streams cs fs1 Hreg)
          as Hfin;
        destruct (finalize_streams false streams cs fs1) as [cs1 fs2]
    end.
    cbv zeta in Hfin. cbn [fst snd] in Hfin.
    destruct Hfin as (S1 & _).
    cbn beta iota zeta in Esuffix.
    cbn [base set_base set_index_stream marks_count part_path] in Esuffix.
    rewrite Hmc, ?Hpath in Esuffix. injection Esuffix as <- <- <-.
    cbn [files store_file].
    split.
    { rewrite lookup_insert_ne by exact Htxt. now rewrite lookup_insert_eq. }
    split; [now rewrite lookup_insert_eq|].
    split; [|split; [intros; contradiction | reflexivity]].
    intros n s Hn. destruct (S1 n s Hn) as (T1 & T2 & T3 & T4).
    unfold stream_checksummed. cbn [files store_file].
    split; [|split; [|split; assumption]].
    + destruct (Hlists n ((path +:+ n) +:+ DATA_FILE_EXTENSION))
        as (B1 & B2 & _); [repeat constructor|].
      rewrite !lookup_insert_ne by congruence. exact T1.
    + destruct (Hlists n ((path +:+ n) +:+ MARKS_FILE_EXTENSION))
        as (B1 & B2 & _); [repeat constructor|].
      rewrite !lookup_insert_ne by congruence. exact T2.
Qed.

End SuffixFiles.

(** The part of ten rows of the key, closed. *)
Lemma suffix_checksums_describe_files_witness :
  match write_calls 20 [(ten_rows, None)] (key_writer 4 Ordinary).1 with
  | Returns _ w =>
      match
        writeSuffixAndGetChecksums [("k", UInt8)] None
          (w, (key_writer 4 Ordinary).2)
      with
      | Returns checksums (w', fs') =>
          files fs' !! "/part/checksums.txt"
          = Some (Checksums_write checksums) /\
          column_streams (base w') = ∅
      | _ => False
      end
  | _ => False
  end.
Proof.
  set (st0 := key_writer 4 Ordinary).
  set (r1 := write_calls 20 [(ten_rows, None)] st0.1).
  set (w := match r1 with Returns _ w => w | _ => st0.1 end).
  assert (E1 : r1 = Returns tt w) by (vm_compute; reflexivity).
  rewrite E1.
  set (r2 := writeSuffixAndGetChecksums [("k", UInt8)] None (w, st0.2)).
  set (checksums := match r2 with Returns c _ => c | _ => ∅ end).
  set (w' := match r2 with Returns _ s => s.1 | _ => w end).
  set (fs' := match r2 with Returns _ s => s.2 | _ => st0.2 end).
  assert (E2 : r2 = Returns checksums (w', fs')) by (vm_compute; reflexivity).
  rewrite E2.
  assert (Hmarks : marks_count w <> 0) by (vm_compute; discriminate).
  destruct (suffix_checksums_describe_files (storage_of 4 Ordinary) "/part/"
              [("k", UInt8)] [("k", UInt8)] LZ4 no_files 20
              [(ten_rows, None)] None st0.2 w checksums w' fs'
              E1 Hmarks E2) as (_ & H2 & _ & _ & H5).
  split; [exact H2 | exact H5].
Defined.

(** ** The column-only writer *)

Lemma on_base_for_each {S B A} (proj : S -> B) (upd : B -> S -> S)
    (l : list A) (f : A -> M B unit) :
  (forall b s, proj (upd b s) = b) ->
  (forall b b' s, upd b (upd b' s) = upd b s) ->
  (forall s, upd (proj s) s = s) ->
  forall s,
  for_each l (fun x => on_base proj upd (f x)) s
  = on_base proj upd (for_each l f) s.
Proof.
  intros L1 L2 L3. induction l as [|x l IH]; intros s; simpl.
  - unfold on_base, ret. now rewrite L3.
  - unfold bind at 1. unfold on_base at 1 3. unfold bind at 1.
    destruct (f x (proj s)) as [[] b|e b| |]; try reflexivity.
    rewrite IH. unfold on_base. rewrite L1.
    destruct (for_each l f b) as [[] b'|e b'| |]; try reflexivity;
      now rewrite L2.
Qed.

Lemma for_each_map {S A B} (g : A -> B) (l : list A) (f : B -> M S unit) s :
  for_each (map g l) f s = for_each l (fun x => f (g x)) s.
Proof.
  revert s. induction l as [|x l IH]; intros s; simpl; [reflexivity|].
  unfold bind. destruct (f (g x) s); try reflexivity. apply IH.
Qed.

Lemma for_each_ext_in {S A} (l : list A) (f g : A -> M S unit) :
  (forall x, In x l -> forall s, f x s = g x s) ->
  forall s, for_each l f s = for_each l g s.
Proof.
  induction l as [|x l IH]; intros Hfg s; simpl; [reflexivity|].
  unfold bind. rewrite (Hfg x) by now left.
  destruct (g x s); try reflexivity. apply IH.
  intros y Hy. apply Hfg. now right.
Qed.

Section ColumnOnlyStreams.

Context {DataType Field : Type}.
Context `{!IDataType DataType Field} `{!IOEnv DataType}.

Implicit Types block : Block DataType Field.

Lemma addStream_fold_block path skip :
  forall block (b : IMergedBlockOutputStream) fs,
  streams_added path
    (flat_map (fun elem => stream_names (name elem) (type elem) skip) block)
    (b, fs)
    (fold_left (fun st elem =>
                  addStream path (name elem) (type elem) 0 skip st)
       block (b, fs)).
Proof.
  induction block as [|elem block IH]; intros b fs; cbn [fold_left flat_map].
  - apply streams_added_nil.
  - pose proof (addStream_spec path (name elem) (type elem) 0 skip b fs)
      as Hadd.
    destruct (addStream path (name elem) (type elem) 0 skip (b, fs))
      as [b1 fs1].
    eapply streams_added_app; [exact Hadd | apply IH].
Qed.

Lemma writer_eq (a b : IMergedBlockOutputStream) :
  same_settings a b -> column_streams b = column_streams a -> a = b.
Proof.
  destruct a, b. intros (H1 & H2 & H3 & H4 & H5 & H6) H7. cbn in *.
  now subst.
Qed.

Lemma part_stream_names_block block skip :
  part_stream_names (map (fun elem => (name elem, type elem)) block) skip
  = flat_map (fun elem => stream_names (name elem) (type elem) skip) block.
Proof.
  unfold part_stream_names. induction block as [|elem block IH];
    [reflexivity|]. cbn [map flat_map]. now rewrite IH.
Qed.

(** The streams of the column-only writer after its first block has
    initialized it. *)
Lemma initialize_streams storage_ path sync_ method skip block fs :
  let st := ColumnOnly.initialize block
              (ColumnOnly.MergedColumnOnlyOutputStream_new storage_ path sync_
                 method skip, fs) in
  ColumnOnly.skip_offsets st.1 = skip /\
  ColumnOnly.initialized st.1 = true /\
  same_settings
    (IMergedBlockOutputStream_new storage_
       (settings_min_compress_block_size (getSettings storage_))
       (settings_max_compress_block_size (getSettings storage_)) method
       (settings_min_bytes_to_use_direct_io (getSettings storage_)))
    (ColumnOnly.base st.1) /\
  forall n,
    column_streams (ColumnOnly.base st.1) !! n
    = if decide (n ∈ flat_map (fun elem =>
                                 stream_names (name elem) (type elem) skip)
                       block)
      then Some (empty_stream path n method) else None.
Proof.
  unfold ColumnOnly.initialize, ColumnOnly.MergedColumnOnlyOutputStream_new.
  cbn [ColumnOnly.initialized ColumnOnly.part_path ColumnOnly.skip_offsets
       ColumnOnly.base].
  pose proof (addStream_fold_block path skip block
                (set_column_streams ∅
                   (IMergedBlockOutputStream_new storage_
                      (settings_min_compress_block_size (getSettings storage_))
                      (settings_max_compress_block_size (getSettings storage_))
                      method
                      (settings_min_bytes_to_use_direct_io
                         (getSettings storage_)))) fs) as Hadd.
  destruct (fold_left _ block _) as [b fs1].
  destruct Hadd as (A1 & _ & A3 & _). cbn [fst snd] in *.
  split; [reflexivity|]. split; [reflexivity|]. split; [exact A1|].
  intros n. rewrite A3 by apply lookup_empty. reflexivity.
Qed.

End ColumnOnlyStreams.

Section ColumnOnlyAndFull.

Context {DataType Field : Type}.
Context `{!IDataType DataType Field} `{!IOEnv DataType}.

Implicit Types block : Block DataType Field.

Lemma write_columns_of_block fuel block pcs (m : gmap string nat)
    (s : MergedBlockOutputStream DataType Field) :
  NoDup (map name block) ->
  write_columns fuel block None pcs m ∅
    (map (fun elem => (name elem, type elem)) block) s
  = on_base base set_base
      (for_each block (fun elem =>
         writeData fuel (name elem) (type elem) (column elem) ∅ false)) s.
Proof.
  intros Hnd. unfold write_columns. rewrite for_each_map. cbn [fst].
  rewrite <- on_base_for_each; [|reflexivity|reflexivity|now intros []].
  apply for_each_ext_in. intros elem Hin s'.
  apply list_elem_of_In, list_elem_of_lookup_1 in Hin. destruct Hin as [k Hk].
  unfold bind, getByName. rewrite (find_unique_name block k elem Hnd Hk).
  reflexivity.
Qed.

(** X12.  For a block whose columns have distinct names, what [write] of
    the full writer does to the streams, the column-only writer without
    [skip_offsets] does as well: when a new full writer for the columns of
    the block returns from [write], a new column-only writer returns from
    [write] of the same block with the same streams, holding the same
    bytes and marks, and the same carried offset. *)
Theorem column_only_writes_what_write_writes storage_ path method sync_ fuel
    block fs fs' w :
  NoDup (map name block) ->
  write fuel block
    (MergedBlockOutputStream_new storage_ path
       (map (fun elem => (name elem, type elem)) block) method fs).1
  = Returns tt w ->
  exists st',
    ColumnOnly.write fuel block
      (ColumnOnly.MergedColumnOnlyOutputStream_new storage_ path sync_ method
         false, fs') = Returns tt st' /\
    ColumnOnly.base st'.1 = base w.
Proof.
  intros Hnd E.
  set (cols := map (fun elem => (name elem, type elem)) block) in *.
  destruct (MergedBlockOutputStream_new_spec storage_ path cols method fs)
    as (H1 & H2 & _ & _ & _ & H6 & _).
  destruct (MergedBlockOutputStream_new_streams storage_ path cols method fs)
    as [Hmin Hstreams].
  set (w0 := (MergedBlockOutputStream_new storage_ path cols method fs).1) in *.
  assert (Hsettings : same_settings
            (IMergedBlockOutputStream_new storage_
               (settings_min_compress_block_size (getSettings storage_))
               (settings_max_compress_block_size (getSettings storage_)) method
               (settings_min_bytes_to_use_direct_io (getSettings storage_)))
            (base w0)).
  { unfold w0, MergedBlockOutputStream_new.
    match goal with
    | |- context [fold_left _ cols (init (?x, fs))] => set (self0 := x)
    end.
    destruct (init (self0, fs)) as [w1 fs1] eqn:Einit.
    assert (Hb : base w1 = base self0).
    { unfold init in Einit. cbn in Einit.
      destruct (decide (mode_of self0 ≠ Unsorted));
        now injection Einit as <- <-. }
    destruct (addStream_in_fold (fun _ => 0) cols w1 fs1) as [Hadd _].
    destruct Hadd as (A1 & _). cbn [fst] in A1. rewrite Hb in A1. exact A1. }
  destruct (initialize_streams storage_ path sync_ method false block fs')
    as (I1 & I2 & I3 & I4).
  destruct (ColumnOnly.initialize block _) as [self1 fs1] eqn:Einit.
  cbn [fst snd] in I1, I2, I3, I4.
  assert (Hbase : ColumnOnly.base self1 = base w0).
  { apply writer_eq.
    - destruct I3 as (a1 & a2 & a3 & a4 & a5 & a6),
        Hsettings as (b1 & b2 & b3 & b4 & b5 & b6).
      repeat split; congruence.
    - apply map_eq. intros n. rewrite Hstreams, I4.
      unfold cols. now rewrite part_stream_names_block. }
  unfold write in E. rewrite writeImpl_stages in E.
  destruct (forallb _ block); [|discriminate].
  destruct (resolve_primary_columns block None _ 0%nat [] ∅ w0)
    as [[pcs m] s1|e1 s1| |]; try discriminate.
  cbn [fst snd] in E. rewrite H6 in E. unfold cols in E.
  rewrite (write_columns_of_block fuel block pcs m _ Hnd) in E.
  unfold on_base at 1 in E.
  assert (Hb0 : base (ensure_index
                        (length (getSortDescription (storage (base w0)))) w0)
                = base w0)
    by (unfold ensure_index; destruct (index_columns w0); reflexivity).
  rewrite Hb0 in E.
  destruct (for_each block _ (base w0)) as [[] b2|e2 b2| |] eqn:E2;
    try discriminate.
  match type of E with
  | context [index_loop fuel pcs (rows block) ?i ?s] =>
      pose proof (keeps_index_loop (eq b2) pcs (rows block) fuel i s eq_refl)
        as Hk;
      destruct (index_loop fuel pcs (rows block) i s) as [[] s3|e3 s3| |];
        try discriminate
  end.
  unfold on_base in E. rewrite <- Hk in E.
  destruct (update_index_offset (rows block) b2) as [[] b3|e3 b3| |] eqn:E3;
    try discriminate.
  injection E as <-.
  unfold ColumnOnly.write. rewrite Einit. unfold on_base.
  cbn [fst snd]. rewrite Hbase, I1. unfold bind at 1. rewrite E2, E3.
  eexists. split; reflexivity.
Qed.

End ColumnOnlyAndFull.

(** Three rows of a key and a value, written by both writers. *)
Lemma column_only_writes_what_write_writes_witness :
  match
    write 20 unsorted_rows key_value_writer.1,
    ColumnOnly.write 20 unsorted_rows
      (ColumnOnly.MergedColumnOnlyOutputStream_new (storage_of 4 Ordinary)
         "/part/" false LZ4 false, no_files)
  with
  | Returns _ w, Returns _ st' => ColumnOnly.base st'.1 = base w
  | _, _ => False
  end.
Proof.
  set (w0 := key_value_writer.1).
  set (r := write 20 unsorted_rows w0).
  set (w := match r with Returns _ w => w | _ => w0 end).
  assert (E : r = Returns tt w) by (vm_compute; reflexivity).
  assert (Hnd : NoDup (map name unsorted_rows))
    by (apply (bool_decide_unpack _); vm_compute; exact I).
  destruct (column_only_writes_what_write_writes (storage_of 4 Ordinary)
              "/part/" LZ4 false 20 unsorted_rows no_files no_files w Hnd E)
    as (st' & E' & Heq).
  rewrite E, E'. exact Heq.
Defined.

Section ColumnOnlyFiles.

Context {DataType Field : Type}.
Context `{!IDataType DataType Field} `{!IOEnv DataType}.

Implicit Types block : Block DataType Field.
Implicit Types st : ColumnOnly.MergedColumnOnlyOutputStream * FileSystem.

(** The streams that the writer has: those of [names], each registered
    under its name in the part under [path]. *)
Local Abbreviation has_streams path names :=
  (fun b : IMergedBlockOutputStream =>
     (forall n, is_Some (column_streams b !! n) <-> n ∈ names) /\
     forall n s, column_streams b !! n = Some s -> stream_registered path n s).

Lemma has_streams_update path (names : list string)
    (b : IMergedBlockOutputStream) n s f :
  stream_update f -> has_streams path names b ->
  column_streams b !! n = Some s ->
  has_streams path names
    (set_column_streams (<[n := f s]> (column_streams b)) b).
Proof.
  intros Hf [Hdom Hreg] Hn. cbn. split.
  - intros n'. rewrite <- Hdom. destruct (decide (n = n')) as [<-|Hne].
    + rewrite lookup_insert_eq, Hn. split; eauto.
    + now rewrite lookup_insert_ne.
  - intros n' s' Hn'. destruct (decide (n = n')) as [<-|Hne].
    + rewrite lookup_insert_eq in Hn'. injection Hn' as <-.
      destruct (Hreg n s Hn) as [H1 H2]. split.
      * now rewrite stream_update_name.
      * now apply stream_of_part_update.
    + rewrite lookup_insert_ne in Hn' by exact Hne. now apply Hreg.
Qed.

(** [write] once the writer is initialized. *)
Lemma column_only_write_initialized path (names : list string) fuel block st
    st' :
  ColumnOnly.initialized st.1 = true ->
  has_streams path names (ColumnOnly.base st.1) ->
  ColumnOnly.write fuel block st = Returns tt st' ->
  ColumnOnly.initialized st'.1 = true /\
  has_streams path names (ColumnOnly.base st'.1) /\
  ColumnOnly.part_path st'.1 = ColumnOnly.part_path st.1 /\
  ColumnOnly.sync st'.1 = ColumnOnly.sync st.1 /\
  st'.2 = st.2.
Proof.
  destruct st as [self fs]. cbn [fst snd]. intros Hinit Hstreams E.
  unfold ColumnOnly.write, ColumnOnly.initialize in E. rewrite Hinit in E.
  unfold on_base in E. cbn [fst snd] in E.
  pose proof (keeps_bind (has_streams path names)
                (for_each block (fun elem =>
                   writeData fuel (name elem) (type elem) (column elem) ∅
                     (ColumnOnly.skip_offsets self)))
                (fun _ => update_index_offset (rows block))) as Hk.
  specialize (Hk ltac:(apply keeps_for_each; intros elem;
                       apply writeData_keeps;
                       intros; now apply has_streams_update)).
  specialize (Hk ltac:(intros _ b Hb; unfold update_index_offset;
                       destruct (_ =? 0); [exact I | exact Hb])).
  specialize (Hk (ColumnOnly.base self) Hstreams).
  destruct (bind _ _ (ColumnOnly.base self)) as [[] b'|e b'| |];
    try discriminate.
  injection E as <-. cbn [fst snd ColumnOnly.initialized ColumnOnly.base
                           ColumnOnly.set_base ColumnOnly.part_path
                           ColumnOnly.sync].
  split; [exact Hinit|]. split; [exact Hk|]. repeat split.
Qed.

Lemma column_only_writes_initialized path (names : list string) fuel :
  forall (blocks : list (Block DataType Field)) st st',
  ColumnOnly.initialized st.1 = true ->
  has_streams path names (ColumnOnly.base st.1) ->
  for_each blocks (ColumnOnly.write fuel) st = Returns tt st' ->
  ColumnOnly.initialized st'.1 = true /\
  has_streams path names (ColumnOnly.base st'.1) /\
  ColumnOnly.part_path st'.1 = ColumnOnly.part_path st.1 /\
  ColumnOnly.sync st'.1 = ColumnOnly.sync st.1 /\
  st'.2 = st.2.
Proof.
  induction blocks as [|block blocks IH]; intros st st' Hinit Hstreams E.
  - injection E as <-. split; [exact Hinit|]. split; [exact Hstreams|].
    repeat split.
  - cbn [for_each] in E. apply bind_Returns in E.
    destruct E as ([] & st1 & E1 & E).
    destruct (column_only_write_initialized path names fuel block st st1
                Hinit Hstreams E1) as (J1 & J2 & J3 & J4 & J5).
    destruct (IH st1 st' J1 J2 E) as (K1 & K2 & K3 & K4 & K5).
    split; [exact K1|]. split; [exact K2|]. repeat split; congruence.
Qed.

Lemma column_only_write_initialize fuel block st :
  ColumnOnly.write fuel block st
  = ColumnOnly.write fuel block (ColumnOnly.initialize block st).
Proof.
  unfold ColumnOnly.write.
  destruct (ColumnOnly.initialize block st) as [self1 fs1] eqn:E.
  assert (Hinit : ColumnOnly.initialized self1 = true).
  { unfold ColumnOnly.initialize in E. destruct st as [self fs].
    destruct (ColumnOnly.initialized self) eqn:Ei.
    - now injection E as <- <-.
    - destruct (fold_left _ block _) as [b fs2]. now injection E as <- <-. }
  unfold ColumnOnly.initialize. now rewrite Hinit.
Qed.

Lemma initialize_files storage_ path sync_ method skip block fs :
  let st := ColumnOnly.initialize block
              (ColumnOnly.MergedColumnOnlyOutputStream_new storage_ path sync_
                 method skip, fs) in
  ColumnOnly.part_path st.1 = path /\
  ColumnOnly.sync st.1 = sync_ /\
  forall file,
    (forall n,
       n ∈ flat_map (fun elem => stream_names (name elem) (type elem) skip)
             block ->
       file ∉ stream_files path n) ->
    files st.2 !! file = files fs !! file.
Proof.
  unfold ColumnOnly.initialize, ColumnOnly.MergedColumnOnlyOutputStream_new.
  cbn [ColumnOnly.initialized ColumnOnly.part_path ColumnOnly.skip_offsets
       ColumnOnly.base].
  pose proof (addStream_fold_block path skip block
                (set_column_streams ∅
                   (IMergedBlockOutputStream_new storage_
                      (settings_min_compress_block_size (getSettings storage_))
                      (settings_max_compress_block_size (getSettings storage_))
                      method
                      (settings_min_bytes_to_use_direct_io
                         (getSettings storage_)))) fs) as Hadd.
  destruct (fold_left _ block _) as [b fs1].
  destruct Hadd as (_ & _ & _ & _ & _ & A6). cbn [fst snd] in *.
  split; [reflexivity|]. split; [reflexivity|].
  intros file Hfile. apply A6. intros n Hn _. now apply Hfile.
Qed.

(** X13.  The column-only writer has the streams of the columns of its
    first block, without those of array sizes when [skip_offsets] is set,
    and no other.  When its [writeSuffixAndGetChecksums] returns, the
    checksums have the [.bin] and the [.mrk] entry of each of these streams
    and no other entry, the entries give the sizes and the hashes of what
    the two files of the stream then hold, no other file has changed since
    the writer was made, and the writer is left uninitialized and without
    streams. *)
Theorem column_only_checksums storage_ path sync_ method skip fuel
    block (blocks : list (Block DataType Field)) fs st1 checksums st2 :
  for_each (block :: blocks) (ColumnOnly.write fuel)
    (ColumnOnly.MergedColumnOnlyOutputStream_new storage_ path sync_ method
       skip, fs) = Returns tt st1 ->
  ColumnOnly.writeSuffixAndGetChecksums st1 = Returns checksums st2 ->
  let names :=
    flat_map (fun elem => stream_names (name elem) (type elem) skip) block in
  (forall n,
     is_Some (column_streams (ColumnOnly.base st1.1) !! n) <-> n ∈ names) /\
  (forall n s, column_streams (ColumnOnly.base st1.1) !! n = Some s ->
     stream_checksummed path n s checksums st2.2) /\
  (forall k,
     is_Some (checksums !! k) <->
     exists n, n ∈ names /\
       (k = n +:+ DATA_FILE_EXTENSION \/ k = n +:+ MARKS_FILE_EXTENSION)) /\
  (forall file,
     (forall n, n ∈ names -> file ∉ stream_files path n) ->
     files st2.2 !! file = files fs !! file) /\
  ColumnOnly.initialized st2.1 = false /\
  column_streams (ColumnOnly.base st2.1) = ∅.
Proof.
  intros E Esuffix names.
  change (for_each (block :: blocks) (ColumnOnly.write fuel))
    with (fun st => for_each (A := Block DataType Field) (block :: blocks)
                      (ColumnOnly.write fuel) st) in E.
  cbn [for_each] in E. unfold bind at 1 in E.
  rewrite column_only_write_initialize in E.
  destruct (initialize_streams storage_ path sync_ method skip block fs)
    as (I1 & I2 & I3 & I4).
  destruct (initialize_files storage_ path sync_ method skip block fs)
    as (I5 & I6 & I7).
  set (st0 := ColumnOnly.initialize block _) in *. fold names in I4, I7.
  assert (H0 : has_streams path names (ColumnOnly.base st0.1)).
  { split.
    - intros n. rewrite I4. destruct (decide (n ∈ names)) as [Hn|Hn];
        (split; [intros [? Hx]; try discriminate Hx; assumption|]);
        [eauto | contradiction].
    - intros n s Hn. rewrite I4 in Hn.
      destruct (decide (n ∈ names)); [|discriminate].
      injection Hn as <-. repeat split. }
  assert (Hall : ColumnOnly.initialized st1.1 = true /\
                 has_streams path names (ColumnOnly.base st1.1) /\
                 ColumnOnly.part_path st1.1 = path /\
                 ColumnOnly.sync st1.1 = sync_ /\ st1.2 = st0.2).
  { destruct (ColumnOnly.write fuel block st0) as [[] st'|e st'| |] eqn:E1;
      try discriminate.
    destruct (column_only_write_initialized path names fuel block st0 st'
                I2 H0 E1) as (J1 & J2 & J3 & J4 & J5).
    destruct (column_only_writes_initialized path names fuel blocks st' st1
                J1 J2 E) as (K1 & K2 & K3 & K4 & K5).
    split; [exact K1|]. split; [exact K2|]. repeat split; congruence. }
  destruct Hall as (_ & [Hdom Hreg] & Hpath & Hsync & Hfs).
  destruct st1 as [self1 fs1]. cbn [fst snd] in *. subst fs1.
  unfold ColumnOnly.writeSuffixAndGetChecksums in Esuffix.
  pose proof (finalize_streams_spec path (ColumnOnly.sync self1)
                (column_streams (ColumnOnly.base self1)) ∅ st0.2 Hreg)
    as Hfin.
  destruct (finalize_streams _ _ _ _) as [cs fs2].
  injection Esuffix as <- <-. cbv zeta in Hfin. cbn [fst snd] in *.
  destruct Hfin as (F1 & F2 & F3 & _).
  split; [exact Hdom|]. split; [exact F1|].
  split; [|split; [|split; reflexivity]].
  - intros k. split.
    + intros Hk.
      destruct (decide (Exists (fun n => k = n +:+ DATA_FILE_EXTENSION \/
                                         k = n +:+ MARKS_FILE_EXTENSION)
                          names)) as [Hex|Hex];
        rewrite Exists_exists in Hex; [exact Hex|].
      rewrite F2 in Hk; [rewrite lookup_empty in Hk; now destruct Hk|].
      intros n Hn. apply Hdom in Hn.
      split; intros ->; apply Hex; eauto.
    + intros (n & Hn & Hk). apply Hdom in Hn. destruct Hn as [s Hs].
      destruct (F1 n s Hs) as (_ & _ & (c & C & _) & (c' & C' & _)).
      destruct Hk as [->| ->]; eauto.
  - intros file Hfile. rewrite F3.
    + now apply I7.
    + intros n Hn. apply Hfile. now apply Hdom.
Qed.

End ColumnOnlyFiles.

(** One row of the nested structure written with [skip_offsets]: the
    checksums have the key and no sizes. *)
Lemma column_only_checksums_witness :
  match
    for_each [nested_row] (ColumnOnly.write 20)
      (ColumnOnly.MergedColumnOnlyOutputStream_new (storage_of 4 Ordinary)
         "/part/" false LZ4 true, no_files)
  with
  | Returns _ st1 =>
      match ColumnOnly.writeSuffixAndGetChecksums st1 with
      | Returns checksums st2 =>
          is_Some (checksums !! "k.bin") /\
          checksums !! "n.size0.bin" = None
      | _ => False
      end
  | _ => False
  end.
Proof.
  set (st0 := (ColumnOnly.MergedColumnOnlyOutputStream_new
                 (storage_of 4 Ordinary) "/part/" false LZ4 true, no_files)).
  set (r1 := for_each [nested_row] (ColumnOnly.write 20) st0).
  set (st1 := match r1 with Returns _ st => st | _ => st0 end).
  assert (E1 : r1 = Returns tt st1) by (vm_compute; reflexivity).
  rewrite E1.
  set (r2 := ColumnOnly.writeSuffixAndGetChecksums st1).
  set (checksums := match r2 with Returns c _ => c | _ => ∅ end).
  set (st2 := match r2 with Returns _ st => st | _ => st1 end).
  assert (E2 : r2 = Returns checksums st2) by (vm_compute; reflexivity).
  rewrite E2.
  destruct (column_only_checksums (storage_of 4 Ordinary) "/part/" false LZ4
              true 20 nested_row [] no_files st1 checksums st2 E1 E2)
    as (_ & _ & H3 & _).
  split.
  - apply H3. exists "k"%string. split; [|left; reflexivity].
    apply (bool_decide_unpack _). vm_compute. exact I.
  - destruct (checksums !! "n.size0.bin") as [c|] eqn:Ec; [|reflexivity].
    destruct (proj1 (H3 "n.size0.bin"%string)) as (n & Hn & Hk);
      [rewrite Ec; eauto|].
    exfalso. vm_compute in Hn.
    repeat (apply elem_of_cons in Hn; destruct Hn as [->|Hn];
            [destruct Hk as [Hk|Hk]; discriminate Hk|]).
    inversion Hn.
Defined.

(** ** The full writer after its suffix *)

Section SingleUse.

Context {DataType Field : Type}.
Context `{!IDataType DataType Field} `{!IOEnv DataType}.

Implicit Types self : MergedBlockOutputStream DataType Field.
Implicit Types block : Block DataType Field.
Implicit Types pcs : list (ColumnWithTypeAndName DataType Field).

Lemma for_each_stream_without_streams name_ (type_ : DataType) skip f
    (b : IMergedBlockOutputStream) :
  column_streams b = ∅ -> stream_names name_ type_ skip <> [] ->
  for_each_stream name_ type_ skip f b = Undefined.
Proof.
  intros Hb Hnames. rewrite for_each_stream_names.
  destruct (stream_names name_ type_ skip) as [|n names]; [congruence|].
  cbn [for_each]. unfold bind. rewrite with_stream_outcome, Hb, lookup_empty.
  reflexivity.
Qed.

Lemma writeData_without_streams fuel name_ (type_ : DataType)
    (column_ : list Field) oc skip (b b' : IMergedBlockOutputStream) :
  column_streams b = ∅ -> stream_names name_ type_ skip <> [] ->
  column_ <> [] ->
  writeData fuel name_ type_ column_ oc skip b <> Returns tt b'.
Proof.
  intros Hb Hnames Hcol. unfold writeData.
  assert (Hsize : (0 <? Z.of_nat (length column_)) = true).
  { apply Z.ltb_lt. destruct column_; [congruence | simpl; lia]. }
  intros E. destruct fuel as [|fuel]; simpl in E; rewrite Hsize in E;
    [discriminate|].
  apply bind_Returns in E. destruct E as (b0 & s0 & E0 & E).
  unfold get in E0. injection E0 as <- <-.
  apply bind_Returns in E. destruct E as (limit & s1 & E1 & E).
  assert (Hs1 : column_streams s1 = ∅).
  { match type of E1 with (if ?c then _ else _) _ = _ => destruct c end.
    - unfold ret in E1. injection E1 as _ <-. exact Hb.
    - apply bind_Returns in E1. destruct E1 as ([] & s2 & E2 & _).
      now rewrite (for_each_stream_without_streams _ _ _ _ _ Hb Hnames) in E2. }
  apply bind_Returns in E. destruct E as ([] & s2 & E2 & E).
  assert (Hs2 : column_streams s2 = ∅).
  { eapply (keeps_Returns (fun b0 => column_streams b0 = ∅));
      [|exact Hs1|exact E2].
    apply serialize_granule_keeps.
    intros b0 n s f _ H0 Hn. rewrite H0, lookup_empty in Hn. discriminate. }
  apply bind_Returns in E. destruct E as ([] & s3 & E3 & _).
  now rewrite (for_each_stream_without_streams _ _ _ _ _ Hs2 Hnames) in E3.
Qed.

Lemma writeData_in_without_streams fuel name_ (type_ : DataType)
    (column_ : list Field) oc skip self self' :
  column_streams (base self) = ∅ ->
  writeData_in fuel name_ type_ column_ oc skip self = Returns tt self' ->
  column_streams (base self') = ∅ /\
  (stream_names name_ type_ skip = [] \/ column_ = []).
Proof.
  intros Hb E. unfold writeData_in, on_base in E.
  destruct (writeData fuel name_ type_ column_ oc skip (base self))
    as [[] b'|e b'| |] eqn:Ew; try discriminate.
  injection E as <-. split.
  - apply writeData_loop_frame in Ew. destruct Ew as (_ & _ & _ & _ & _ & _ & Hd).
    cbn. apply dom_empty_inv_L. now rewrite Hd, Hb, dom_empty_L.
  - destruct (decide (stream_names name_ type_ skip = [])) as [?|Hn];
      [now left|].
    destruct column_ as [|v c]; [now right|].
    now destruct (writeData_without_streams fuel name_ type_ (v :: c) oc skip
                    (base self) b' Hb Hn ltac:(discriminate)).
Qed.

Lemma write_columns_without_streams fuel block perm pcs
    (m : gmap string nat) oc cols n :
  (0 < n)%nat ->
  Forall (fun elem => length (column elem) = n) block ->
  Forall (fun elem => length (column elem) = n) pcs ->
  forall self self',
  column_streams (base self) = ∅ ->
  write_columns fuel block perm pcs m oc cols self = Returns tt self' ->
  Forall (fun it : string * DataType =>
            forall elem,
              find (fun e => String.eqb (name e) it.1) block = Some elem ->
              stream_names (name elem) (type elem) false = []) cols.
Proof.
  intros Hn Hblock Hpcs. unfold write_columns.
  assert (Hne : forall c : list Field, length c = n -> c <> []).
  { intros c Hc ->. simpl in Hc. lia. }
  induction cols as [|it cols IH]; intros self self' Hb E; [constructor|].
  simpl in E. apply bind_Returns in E. destruct E as ([] & s1 & E1 & E).
  apply bind_Returns in E1. destruct E1 as (elem & s0 & E0 & E1).
  apply getByName_Returns in E0. destruct E0 as [-> Hfind].
  assert (Hc : length (column elem) = n).
  { rewrite List.Forall_forall in Hblock. apply Hblock.
    eapply find_In_block. exact Hfind. }
  assert (Hdone : column_streams (base s1) = ∅ /\
                  stream_names (name elem) (type elem) false = []).
  { destruct perm as [perm|].
    - destruct (m !! it.1) as [pos|].
      + destruct (pcs !! pos) as [primary|] eqn:Epos; [|discriminate].
        apply writeData_in_without_streams in E1; [|exact Hb].
        destruct E1 as [H1 [H2|H2]]; [tauto|].
        rewrite List.Forall_forall in Hpcs.
        destruct (Hne (column primary)); [|exact H2].
        apply Hpcs, list_elem_of_In.
        eapply list_elem_of_lookup_2. exact Epos.
      + apply bind_Returns in E1. destruct E1 as (c & s2 & E2 & E1).
        pose proof (permute_length _ _ _ _ _ E2) as Hlen.
        apply permute_Returns in E2. destruct E2 as (-> & _).
        apply writeData_in_without_streams in E1; [|exact Hb].
        destruct E1 as [H1 [H2|H2]]; [tauto|].
        destruct (Hne c); [congruence | exact H2].
    - apply writeData_in_without_streams in E1; [|exact Hb].
      destruct E1 as [H1 [H2|H2]]; [tauto|].
      now destruct (Hne (column elem)). }
  destruct Hdone as [Hb1 Hnames].
  constructor; [|now apply (IH s1 self')].
  intros elem' Hfind'. rewrite Hfind in Hfind'. now injection Hfind' as <-.
Qed.

(** A full writer without streams returns from no write of rows to a
    column that has a stream. *)
Lemma writeImpl_without_streams fuel block perm self w it elem :
  column_streams (base self) = ∅ ->
  0 < rows block ->
  In it (columns_list self) ->
  find (fun e => String.eqb (name e) it.1) block = Some elem ->
  stream_names (name elem) (type elem) false <> [] ->
  writeImpl fuel block perm self <> Returns tt w.
Proof.
  intros Hb Hrows Hit Hfind Hnames E. rewrite writeImpl_stages in E.
  destruct (forallb _ block) eqn:Hrect; [|discriminate].
  destruct (resolve_primary_columns block perm _ 0%nat [] ∅ self)
    as [[pcs m] s1|e s1| |] eqn:Eres; try discriminate.
  apply resolve_primary_columns_spec in Eres.
  destruct Eres as (_ & _ & Hlen).
  cbn [fst snd] in E.
  destruct (write_columns fuel block perm pcs m ∅ (columns_list self) _)
    as [[] s2|e s2| |] eqn:Ecols; try discriminate.
  assert (Hblock : Forall (fun e => length (column e) = Z.to_nat (rows block))
                     block).
  { apply List.Forall_forall. intros e He.
    rewrite forallb_forall in Hrect. specialize (Hrect e He).
    apply Z.eqb_eq in Hrect. unfold IColumn_size in Hrect. lia. }
  apply (write_columns_without_streams _ _ _ _ _ _ _ (Z.to_nat (rows block)))
    in Ecols.
  - rewrite List.Forall_forall in Ecols. now destruct (Hnames (Ecols it Hit elem Hfind)).
  - lia.
  - exact Hblock.
  - apply Hlen; [exact Hblock | constructor].
  - unfold ensure_index. now destruct (index_columns self).
Qed.

(** X14.  [writeSuffixAndGetChecksums] spends the writer: it is left
    without streams and without the index stream.  In a sorted mode a
    second call is undefined, and in every mode a later write of a block
    with rows never returns when a column of the writer that the block
    holds has a stream. *)
Theorem writer_is_spent_after_suffix total additional self fs checksums
    self' fs' :
  writeSuffixAndGetChecksums total additional (self, fs)
  = Returns checksums (self', fs') ->
  (mode_of self <> Unsorted ->
   forall total' additional' fs'',
     writeSuffixAndGetChecksums total' additional' (self', fs'') = Undefined) /\
  (forall fuel block perm w it elem,
     0 < rows block ->
     In it (columns_list self) ->
     find (fun e => String.eqb (name e) it.1) block = Some elem ->
     stream_names (name elem) (type elem) false <> [] ->
     writeImpl fuel block perm self' <> Returns tt w).
Proof.
  intros E.
  assert (Hspent : column_streams (base self') = ∅ /\
                   columns_list self' = columns_list self /\
                   storage (base self') = storage (base self) /\
                   (mode_of self <> Unsorted -> index_stream self' = None)).
  { unfold writeSuffixAndGetChecksums in E.
    destruct (decide (mode_of self <> Unsorted)) as [Hm|Hm].
    - destruct (index_stream self) as [out|]; [|discriminate].
      destruct (finalize_streams _ _ _ _) as [c1 fs1].
      destruct (marks_count _ =? 0); injection E as _ <- _;
        repeat split; reflexivity.
    - destruct (finalize_streams _ _ _ _) as [c1 fs1].
      destruct (marks_count _ =? 0); injection E as _ <- _;
        repeat split; try reflexivity; intros Hm'; now destruct Hm. }
  destruct Hspent as (Hb & Hcols & Hst & Hidx). split.
  - intros Hm total' additional' fs''. unfold writeSuffixAndGetChecksums.
    assert (Hm' : mode_of self' <> Unsorted).
    { unfold mode_of in *. now rewrite Hst. }
    rewrite decide_True by exact Hm'. now rewrite (Hidx Hm).
  - intros fuel block perm w it elem Hrows Hit Hfind Hnames.
    apply (writeImpl_without_streams fuel block perm self' w it elem);
      [exact Hb | exact Hrows | now rewrite Hcols | exact Hfind | exact Hnames].
Qed.

End SingleUse.

(** After the suffix of the part of ten rows, a second suffix is
    undefined and a further write of the same rows does not return. *)
Lemma writer_is_spent_after_suffix_witness :
  match write_calls 20 [(ten_rows, None)] (key_writer 4 Ordinary).1 with
  | Returns _ w =>
      match
        writeSuffixAndGetChecksums [("k", UInt8)] None
          (w, (key_writer 4 Ordinary).2)
      with
      | Returns _ (w', fs') =>
          writeSuffixAndGetChecksums [("k", UInt8)] None (w', fs') = Undefined
          /\ forall w'', write 20 ten_rows w' <> Returns tt w''
      | _ => False
      end
  | _ => False
  end.
Proof.
  set (st0 := key_writer 4 Ordinary).
  set (r1 := write_calls 20 [(ten_rows, None)] st0.1).
  set (w := match r1 with Returns _ w => w | _ => st0.1 end).
  assert (E1 : r1 = Returns tt w) by (vm_compute; reflexivity).
  rewrite E1.
  set (r2 := writeSuffixAndGetChecksums [("k", UInt8)] None (w, st0.2)).
  set (checksums := match r2 with Returns c _ => c | _ => ∅ end).
  set (w' := match r2 with Returns _ s => s.1 | _ => w end).
  set (fs' := match r2 with Returns _ s => s.2 | _ => st0.2 end).
  assert (E2 : r2 = Returns checksums (w', fs')) by (vm_compute; reflexivity).
  rewrite E2.
  destruct (writer_is_spent_after_suffix [("k", UInt8)] None w st0.2
              checksums w' fs' E2) as [H1 H2].
  split.
  - apply (H1 ltac:(vm_compute; discriminate) [("k", UInt8)] None fs').
  - intros w''.
    apply (H2 20%nat ten_rows None w'' ("k", UInt8) (key_column [0; 1; 2; 3; 4; 5; 6; 7; 8; 9])).
    + vm_compute. reflexivity.
    + vm_compute. left. reflexivity.
    + vm_compute. reflexivity.
    + vm_compute. discriminate.
Defined.

(** ** Marks and the count of marks *)

(** The marked granules of a column are as many as the rows the index
    samples. *)
Lemma granules_marked_from {A} g io size (keys : list A) :
  1 <= g -> size + g <= size_t_modulus ->
  Z.of_nat (length keys) = size ->
  forall fuel (pm : nat) l,
  (0 < pm)%nat \/ io = 0 ->
  granules fuel g io size (Z.of_nat pm) = Some l ->
  length (List.filter (is_marked io) l) = length (sample_from g pm keys).
Proof.
  intros Hg Hsize Hkeys. induction fuel as [|fuel IH]; intros pm l Hpm G.
  - simpl in G. rewrite sample_from_lookup by exact Hg.
    destruct (Z.of_nat pm <? size) eqn:E; [discriminate|].
    injection G as <-. apply Z.ltb_ge in E.
    rewrite (lookup_ge_None_2 keys pm) by lia. reflexivity.
  - simpl in G. rewrite sample_from_lookup by exact Hg.
    destruct (Z.of_nat pm <? size) eqn:E.
    + apply Z.ltb_lt in E.
      assert (Hc : (Z.of_nat pm =? 0) && negb (io =? 0) = false).
      { destruct Hpm as [Hpm| ->].
        - rewrite (proj2 (Z.eqb_neq _ _)) by lia. reflexivity.
        - rewrite Z.eqb_refl. apply andb_false_r. }
      rewrite Hc in G. rewrite wrap_small in G by lia.
      replace (Z.of_nat pm + g) with (Z.of_nat (pm + Z.to_nat g)) in G by lia.
      destruct (granules fuel g io size _) as [l'|] eqn:G'; [|discriminate].
      injection G as <-.
      destruct (lookup_lt_is_Some_2 keys pm) as [key ->]; [lia|].
      cbn [List.filter]. unfold is_marked at 1. cbn [fst]. rewrite Hc.
      cbn [negb length]. f_equal. apply IH; [left; lia | exact G'].
    + injection G as <-. apply Z.ltb_ge in E.
      rewrite (lookup_ge_None_2 keys pm) by lia. reflexivity.
Qed.

Lemma granules_marked {A} g io size (keys : list A) fuel l :
  1 <= g -> 0 <= io < g -> size + g <= size_t_modulus ->
  Z.of_nat (length keys) = size ->
  granules fuel g io size 0 = Some l ->
  length (List.filter (is_marked io) l)
  = length (sample_from g (Z.to_nat io) keys).
Proof.
  intros Hg Hio Hsize Hkeys G.
  destruct (decide (io = 0)) as [->|Hne].
  - apply (granules_marked_from g 0 size keys Hg Hsize Hkeys fuel 0%nat l);
      [now right | exact G].
  - destruct fuel as [|fuel]; simpl in G.
    + destruct (0 <? size) eqn:E; [discriminate|]. injection G as <-.
      apply Z.ltb_ge in E. destruct keys; [reflexivity | simpl in Hkeys; lia].
    + destruct (0 <? size) eqn:E.
      * rewrite (proj2 (Z.eqb_neq io 0)) in G by exact Hne. simpl in G.
        rewrite wrap_small in G by lia. rewrite Z.add_0_l in G.
        destruct (granules fuel g io size io) as [l'|] eqn:G'; [|discriminate].
        injection G as <-. cbn [List.filter]. unfold is_marked at 1.
        cbn [fst]. rewrite (proj2 (Z.eqb_neq io 0)) by exact Hne.
        cbn [Z.eqb andb negb].
        apply (granules_marked_from g io size keys Hg Hsize Hkeys fuel
                 (Z.to_nat io) l'); [left; lia|].
        rewrite Z2Nat.id by lia. exact G'.
      * injection G as <-. apply Z.ltb_ge in E.
        destruct keys; [reflexivity | simpl in Hkeys; lia].
Qed.

Section MarksAligned.

Context {DataType Field : Type}.
Context `{!IDataType DataType Field} `{!IOEnv DataType}.

Implicit Types self : MergedBlockOutputStream DataType Field.
Implicit Types b : IMergedBlockOutputStream.
Implicit Types block : Block DataType Field.
Implicit Types pcs : list (ColumnWithTypeAndName DataType Field).

(** Every stream of [b] is a stream of [b'] with [c n] more values in its
    marks. *)
Local Abbreviation marks_grow b b' c :=
  (forall (n : string) s, column_streams b !! n = Some s ->
     exists s', column_streams b' !! n = Some s' /\
                length (marks s') = (length (marks s) + c n)%nat).

Lemma marks_compressed_nextIfAtEnd s :
  marks (compressed_nextIfAtEnd s) = marks s.
Proof.
  unfold compressed_nextIfAtEnd, compressed_next.
  destruct (_ =? _)%nat; [|reflexivity]. now destruct (compressed s).
Qed.

Lemma marks_compressed_write bytes s :
  marks (compressed_write bytes s) = marks s.
Proof.
  unfold compressed_write. revert s.
  induction bytes as [|x bytes IH]; intros s; [reflexivity|].
  simpl. rewrite IH. unfold compressed_put. cbn [marks].
  apply marks_compressed_nextIfAtEnd.
Qed.

Lemma marks_write_mark m s :
  length (marks (write_mark m s)) = (length (marks s) + 2)%nat.
Proof.
  unfold write_mark, writeIntBinary. cbn [marks].
  rewrite !length_app. cbn [length].
  assert (E : marks (if compressed_offset s >=? m then compressed_next s else s)
              = marks s).
  { destruct (_ >=? _); [|reflexivity]. unfold compressed_next.
    now destruct (compressed s). }
  rewrite E. lia.
Qed.

Lemma for_each_marks_kept {A} (l : list A)
    (body : A -> M IMergedBlockOutputStream unit) :
  (forall x b b', body x b = Returns tt b' -> marks_grow b b' (fun _ => 0%nat)) ->
  forall b b', for_each l body b = Returns tt b' ->
  marks_grow b b' (fun _ => 0%nat).
Proof.
  intros Hbody. induction l as [|x l IH]; intros b b' E n s Hs.
  - injection E as <-. exists s. split; [exact Hs | lia].
  - simpl in E. apply bind_Returns in E. destruct E as ([] & b1 & E1 & E).
    destruct (Hbody x b b1 E1 n s Hs) as (s1 & Hs1 & L1).
    destruct (IH b1 b' E n s1 Hs1) as (s2 & Hs2 & L2).
    exists s2. split; [exact Hs2 | lia].
Qed.

Lemma with_stream_marks_kept n0 (f : ColumnStream -> ColumnStream) b b' :
  (forall s, marks (f s) = marks s) ->
  with_stream n0 f b = Returns tt b' -> marks_grow b b' (fun _ => 0%nat).
Proof.
  intros Hf E n s Hs. rewrite with_stream_outcome in E.
  destruct (column_streams b !! n0) as [s0|] eqn:L; [|discriminate].
  injection E as <-. cbn.
  destruct (decide (n = n0)) as [->|Hne].
  - rewrite lookup_insert_eq. exists (f s0). split; [reflexivity|].
    rewrite Hf. rewrite L in Hs. injection Hs as ->. lia.
  - rewrite lookup_insert_ne by congruence. exists s. split; [exact Hs | lia].
Qed.

Lemma write_granule_marks name_ (type_ : DataType) (column_ : list Field)
    skip m io gr b b' :
  NoDup (stream_names name_ type_ skip) ->
  write_granule name_ type_ column_ skip m io gr b = Returns tt b' ->
  marks_grow b b'
    (fun n => if decide (n ∈ stream_names name_ type_ skip)
              then if is_marked io gr then 2%nat else 0%nat
              else 0%nat).
Proof.
  intros Hnd E n s Hs. unfold write_granule in E.
  apply bind_Returns in E. destruct E as ([] & b1 & E1 & E).
  apply bind_Returns in E. destruct E as ([] & b2 & E2 & E3).
  assert (H1 : exists s1, column_streams b1 !! n = Some s1 /\
             length (marks s1)
             = (length (marks s)
                + (if decide (n ∈ stream_names name_ type_ skip)
                   then if is_marked io gr then 2 else 0 else 0))%nat).
  { destruct (is_marked io gr).
    - rewrite for_each_stream_names in E1.
      pose proof (for_each_with_stream_lookup _ _ Hnd _ _ E1 n) as L.
      destruct (decide (n ∈ stream_names name_ type_ skip)).
      + rewrite Hs in L. cbn in L. eexists. split; [exact L|].
        apply marks_write_mark.
      + rewrite Hs in L. exists s. split; [exact L | lia].
    - injection E1 as <-. exists s. split; [exact Hs|].
      destruct (decide _); lia. }
  destruct H1 as (s1 & Hs1 & L1).
  assert (H2 : marks_grow b1 b2 (fun _ => 0%nat)).
  { unfold serialize_granule in E2. revert E2. apply for_each_marks_kept.
    intros [path bytes] c c' Ec.
    destruct (skip && is_array_sizes path).
    - injection Ec as <-. intros n' s' Hs'. exists s'. split; [exact Hs' | lia].
    - eapply with_stream_marks_kept; [|exact Ec].
      apply marks_compressed_write. }
  assert (H3 : marks_grow b2 b' (fun _ => 0%nat)).
  { unfold for_each_stream in E3. revert E3. apply for_each_marks_kept.
    intros path c c' Ec.
    destruct (skip && is_array_sizes path).
    - injection Ec as <-. intros n' s' Hs'. exists s'. split; [exact Hs' | lia].
    - eapply with_stream_marks_kept; [|exact Ec].
      apply marks_compressed_nextIfAtEnd. }
  destruct (H2 n s1 Hs1) as (s2 & Hs2 & L2).
  destruct (H3 n s2 Hs2) as (s3 & Hs3 & L3).
  exists s3. split; [exact Hs3 | lia].
Qed.

Lemma for_each_granules_marks name_ (type_ : DataType) (column_ : list Field)
    skip m io l :
  NoDup (stream_names name_ type_ skip) ->
  forall b b',
  for_each l (write_granule name_ type_ column_ skip m io) b = Returns tt b' ->
  marks_grow b b'
    (fun n => if decide (n ∈ stream_names name_ type_ skip)
              then (2 * length (List.filter (is_marked io) l))%nat
              else 0%nat).
Proof.
  intros Hnd. induction l as [|gr l IH]; intros b b' E n s Hs.
  - injection E as <-. exists s. split; [exact Hs|]. destruct (decide _); simpl; lia.
  - simpl in E. apply bind_Returns in E. destruct E as ([] & b1 & E1 & E).
    destruct (write_granule_marks _ _ _ _ _ _ _ _ _ Hnd E1 n s Hs)
      as (s1 & Hs1 & L1).
    destruct (IH b1 b' E n s1 Hs1) as (s2 & Hs2 & L2).
    exists s2. split; [exact Hs2|]. cbn [List.filter].
    destruct (decide _); [|lia]. destruct (is_marked io gr); simpl in *; lia.
Qed.

Lemma writeData_loop_Returns_granules fuel name_ (type_ : DataType)
    (column_ : list Field) oc skip size :
  forall pm b b',
  writeData_loop fuel name_ type_ column_ oc skip size pm b = Returns tt b' ->
  exists l,
    granules fuel (index_granularity (storage b)) (index_offset b) size pm
    = Some l.
Proof.
  induction fuel as [|fuel IH]; intros pm b b' E.
  - simpl in *. destruct (pm <? size); [discriminate | eauto].
  - destruct (pm <? size) eqn:Hlt.
    + rewrite writeData_loop_step in E by exact Hlt.
      apply bind_Returns in E. destruct E as ([] & b1 & E1 & E).
      apply IH in E. destruct E as [l G].
      apply write_granule_frame in E1.
      destruct E1 as (F1 & _ & _ & _ & _ & F6 & _).
      rewrite F1, F6 in G. simpl. rewrite Hlt, G. simpl. eauto.
    + simpl. rewrite Hlt. eauto.
Qed.

(** [writeData] of a column adds one mark, two values, per sampled row to
    every stream of the column and none to another stream. *)
Lemma writeData_marks {A} fuel name_ (type_ : DataType) (column_ : list Field)
    oc skip b b' (keys : list A) :
  let g := index_granularity (storage b) in
  let io := index_offset b in
  NoDup (stream_names name_ type_ skip) ->
  1 <= g -> 0 <= io < g ->
  Z.of_nat (length column_) + g <= size_t_modulus ->
  length keys = length column_ ->
  writeData fuel name_ type_ column_ oc skip b = Returns tt b' ->
  marks_grow b b'
    (fun n => if decide (n ∈ stream_names name_ type_ skip)
              then (2 * length (sample_from g (Z.to_nat io) keys))%nat
              else 0%nat).
Proof.
  intros g io Hnd Hg Hio Hsize Hkeys E. unfold writeData in E.
  destruct (writeData_loop_Returns_granules _ _ _ _ _ _ _ _ _ _ E) as [l G].
  rewrite (writeData_loop_granules _ _ _ _ _ _ _ _ _ _ G) in E.
  rewrite <- (granules_marked g io (Z.of_nat (length column_)) keys fuel l);
    [|exact Hg | exact Hio | exact Hsize | now rewrite Hkeys | exact G].
  exact (for_each_granules_marks _ _ _ _ _ _ _ Hnd _ _ E).
Qed.

Lemma write_columns_marks {A} fuel block perm pcs (m : gmap string nat) oc
    (keys : list A) g io :
  1 <= g -> 0 <= io < g ->
  Z.of_nat (length keys) + g <= size_t_modulus ->
  Forall (fun e => length (column e) = length keys) block ->
  Forall (fun e => length (column e) = length keys) pcs ->
  forall (cols : list (string * DataType)) self self',
  index_granularity (storage (base self)) = g ->
  index_offset (base self) = io ->
  NoDup (part_stream_names cols false) ->
  Forall (fun it : string * DataType =>
            forall elem,
              find (fun e => String.eqb (name e) it.1) block = Some elem ->
              type elem = it.2) cols ->
  write_columns fuel block perm pcs m oc cols self = Returns tt self' ->
  marks_grow (base self) (base self')
    (fun n => if decide (n ∈ part_stream_names cols false)
              then (2 * length (sample_from g (Z.to_nat io) keys))%nat
              else 0%nat).
Proof.
  intros Hg Hio Hsize Hblock Hpcs. unfold write_columns.
  induction cols as [|it cols IH]; intros self self' Eg Eio Hnd Htypes E n s Hs.
  - injection E as <-. exists s. split; [exact Hs|].
    rewrite decide_False by apply not_elem_of_nil. lia.
  - simpl in E. apply bind_Returns in E. destruct E as ([] & s1 & E1 & E).
    apply bind_Returns in E1. destruct E1 as (elem & s0 & E0 & E1).
    apply getByName_Returns in E0. destruct E0 as [-> Hfind].
    apply Forall_cons in Htypes. destruct Htypes as [Htype Htypes'].
    specialize (Htype elem Hfind).
    assert (Hname : name elem = it.1).
    { apply find_some in Hfind. now apply String.eqb_eq. }
    assert (Hc : length (column elem) = length keys).
    { rewrite List.Forall_forall in Hblock. apply Hblock.
      eapply find_In_block. exact Hfind. }
    assert (Hw : exists c : list Field,
               length c = length keys /\
               writeData fuel it.1 it.2 c oc false (base self)
               = Returns tt (base s1)).
    { assert (Hin : forall c,
                writeData_in fuel (name elem) (type elem) c oc false self
                = Returns tt s1 ->
                writeData fuel it.1 it.2 c oc false (base self)
                = Returns tt (base s1)).
      { intros c Ec. unfold writeData_in, on_base in Ec.
        rewrite Hname, Htype in Ec.
        destruct (writeData fuel it.1 it.2 c oc false (base self))
          as [[] b1|e b1| |]; try discriminate.
        now injection Ec as <-. }
      destruct perm as [perm|].
      - destruct (m !! it.1) as [pos|].
        + destruct (pcs !! pos) as [primary|] eqn:Epos; [|discriminate].
          exists (column primary). split; [|now apply Hin].
          rewrite List.Forall_forall in Hpcs. apply Hpcs, list_elem_of_In.
          eapply list_elem_of_lookup_2. exact Epos.
        + apply bind_Returns in E1. destruct E1 as (c & s2 & E2 & E1).
          pose proof (permute_length _ _ _ _ _ E2) as Hlen.
          apply permute_Returns in E2. destruct E2 as (-> & _).
          exists c. split; [congruence | now apply Hin].
      - exists (column elem). split; [exact Hc | now apply Hin]. }
    destruct Hw as (c & Hlen & Ew).
    unfold part_stream_names in Hnd. cbn [flat_map] in Hnd.
    apply NoDup_app in Hnd. destruct Hnd as (Hnd1 & Hdisj & Hnd2).
    pose proof (writeData_loop_frame _ _ _ _ _ _ _ _ _ _ _ Ew) as F.
    destruct F as (F1 & _ & _ & _ & _ & F6 & _).
    destruct (writeData_marks fuel it.1 it.2 c oc false (base self) (base s1)
                keys Hnd1 ltac:(rewrite Eg; exact Hg)
                ltac:(rewrite Eg, Eio; exact Hio)
                ltac:(rewrite Eg, Hlen; exact Hsize)
                ltac:(now rewrite Hlen) Ew n s Hs) as (s' & Hs' & L').
    rewrite Eg, Eio in L'.
    destruct (IH s1 self' ltac:(now rewrite F1) ltac:(now rewrite F6)
                Hnd2 Htypes' E n s' Hs') as (s'' & Hs'' & L'').
    exists s''. split; [exact Hs''|]. rewrite L'', L'.
    unfold part_stream_names. cbn [flat_map]. 
    destruct (decide (n ∈ stream_names it.1 it.2 false)) as [H1|H1].
    + rewrite (decide_False (P := n ∈ flat_map _ cols)) by (now apply Hdisj).
      rewrite decide_True by (apply elem_of_app; now left). lia.
    + destruct (decide (n ∈ flat_map _ cols)) as [H2|H2].
      * rewrite decide_True by (apply elem_of_app; now right). lia.
      * rewrite decide_False; [lia|]. rewrite elem_of_app. tauto.
Qed.

(** One call of [write] or [writeWithPermutation]. *)
Lemma writeImpl_marks {A} fuel block perm self self' (keys : list A) :
  let g := index_granularity (storage (base self)) in
  let io := index_offset (base self) in
  1 <= g -> 0 <= io < g -> rows block + g < size_t_modulus ->
  Z.of_nat (length keys) = rows block ->
  NoDup (part_stream_names (columns_list self) false) ->
  Forall (fun it : string * DataType =>
            forall elem,
              find (fun e => String.eqb (name e) it.1) block = Some elem ->
              type elem = it.2) (columns_list self) ->
  writeImpl fuel block perm self = Returns tt self' ->
  marks_grow (base self) (base self')
    (fun n => if decide (n ∈ part_stream_names (columns_list self) false)
              then (2 * length (sample_from g (Z.to_nat io) keys))%nat
              else 0%nat).
Proof.
  intros g io Hg Hio Hsize Hkeys Hnd Htypes E.
  rewrite writeImpl_stages in E.
  destruct (forallb _ block) eqn:Hrect; [|discriminate].
  destruct (resolve_primary_columns block perm _ 0%nat [] ∅ self)
    as [[pcs m] s1|e s1| |] eqn:Eres; try discriminate.
  apply resolve_primary_columns_spec in Eres.
  destruct Eres as (_ & _ & Hlen).
  cbn [fst snd] in E.
  destruct (write_columns fuel block perm pcs m ∅ (columns_list self) _)
    as [[] written|e s2| |] eqn:Ecols; try discriminate.
  assert (Hblock : Forall (fun e => length (column e) = length keys) block).
  { apply List.Forall_forall. intros e He.
    rewrite forallb_forall in Hrect. specialize (Hrect e He).
    apply Z.eqb_eq in Hrect. unfold IColumn_size in Hrect. lia. }
  assert (Hbase : base (ensure_index
                    (length (getSortDescription (storage (base self)))) self)
                  = base self).
  { unfold ensure_index. now destruct (index_columns self). }
  pose proof (write_columns_marks fuel block perm pcs m ∅ keys g io Hg Hio
                ltac:(lia) Hblock (Hlen _ Hblock ltac:(constructor))
                (columns_list self) _ written
                ltac:(now rewrite Hbase) ltac:(now rewrite Hbase)
                Hnd Htypes Ecols) as Hgrow.
  rewrite Hbase in Hgrow.
  destruct (index_loop fuel pcs (rows block) _ written)
    as [[] sampled|e s3| |] eqn:Eloop; try discriminate.
  assert (Hstreams : column_streams (base sampled)
                     = column_streams (base written)).
  { eapply (keeps_Returns
              (fun s => column_streams (base s) = column_streams (base written)));
      [|reflexivity | exact Eloop].
    apply (keeps_index_loop
             (fun b => column_streams b = column_streams (base written))). }
  unfold on_base, update_index_offset in E.
  destruct (index_granularity (storage (base sampled)) =? 0); [discriminate|].
  injection E as <-. cbn. rewrite Hstreams. exact Hgrow.
Qed.

Lemma marks_count_fold_summary sorted (sampled : list (list (DataType * Field)))
    summary :
  0 <= summary.1.1 ->
  summary.1.1 + Z.of_nat (length sampled) < size_t_modulus ->
  (fold_left (summary_step sorted) sampled summary).1.1
  = summary.1.1 + Z.of_nat (length sampled).
Proof.
  intros H0 Hlt.
  destruct (fold_summary_step_marks sorted sampled summary) as [->|[-> ->]].
  - apply wrap_small. lia.
  - simpl. lia.
Qed.

(** The marks of every stream and the count of marks grow together. *)
Lemma write_calls_marks fuel
    (calls : list (Block DataType Field * option (list nat))) :
  forall self self',
  write_calls fuel calls self = Returns tt self' ->
  let g := index_granularity (storage (base self)) in
  let names := part_stream_names (columns_list self) false in
  1 <= g -> writer_ready self ->
  0 <= marks_count self ->
  marks_count self + written_rows calls + g < size_t_modulus ->
  NoDup names ->
  (forall n, is_Some (column_streams (base self) !! n) -> n ∈ names) ->
  Forall (fun call : Block DataType Field * option (list nat) =>
            Forall (fun it : string * DataType =>
                      forall elem,
                        find (fun e => String.eqb (name e) it.1) call.1
                        = Some elem ->
                        type elem = it.2) (columns_list self)) calls ->
  (forall n s, column_streams (base self) !! n = Some s ->
     Z.of_nat (length (marks s)) = 2 * marks_count self) ->
  dom (column_streams (base self')) = dom (column_streams (base self)) /\
  forall n s, column_streams (base self') !! n = Some s ->
    Z.of_nat (length (marks s)) = 2 * marks_count self'.
Proof.
  induction calls as [|[block perm] calls IH];
    intros self self' E g names Hg Hready H0 Hsize Hnd Hdom Htypes Hinv.
  - injection E as <-. split; [reflexivity | exact Hinv].
  - unfold write_calls in E. simpl in E.
    apply bind_Returns in E. destruct E as ([] & s1 & E1 & E).
    apply Forall_cons in Htypes. destruct Htypes as [Ht Hts]. cbn [fst] in Ht.
    cbn [written_rows foldr fst] in Hsize.
    fold (written_rows calls) in Hsize.
    assert (Hrows : 0 <= rows block).
    { unfold rows. destruct block; [lia | unfold IColumn_size; lia]. }
    assert (Hrest : 0 <= written_rows calls).
    { clear. induction calls as [|[b p] calls IH]; simpl; [lia|].
      assert (0 <= rows b)
        by (unfold rows; destruct b; [lia | unfold IColumn_size; lia]).
      lia. }
    destruct (writeImpl_summary fuel block perm self s1 E1 Hg Hready)
      as (keys & K1 & _ & K3 & _ & K5 & K6 & _ & K8); [fold g; lia|].
    pose proof Hready as (Hio & _).
    pose proof (writeImpl_marks fuel block perm self s1 keys Hg Hio
                  ltac:(fold g; lia) K1 Hnd Ht E1) as Hgrow.
    fold g in K3, Hgrow.
    set (sampled := sample_from g (Z.to_nat (index_offset (base self))) keys)
      in *.
    assert (Hle : (length sampled <= length keys)%nat)
      by apply sample_from_length_le.
    assert (Hmc : marks_count s1 = marks_count self + Z.of_nat (length sampled)).
    { change (marks_count s1)
        with (index_summary
                (length (getSortDescription (storage (base self)))) s1).1.1.
      rewrite K3. rewrite marks_count_fold_summary; [reflexivity | exact H0|].
      cbn [index_summary fst]. lia. }
    destruct K5 as (F1 & _ & _ & _ & _ & _ & F7). cbn in F1, F7.
    rewrite <- F7.
    apply (IH s1 self' E); rewrite ?K6, ?F1.
    + exact Hg.
    + exact K8.
    + lia.
    + lia.
    + exact Hnd.
    + intros n' Hn'. apply Hdom. apply elem_of_dom. rewrite <- F7.
      now apply elem_of_dom.
    + exact Hts.
    + intros n' s' Hs'.
      assert (Hsome : is_Some (column_streams (base self) !! n')).
      { apply elem_of_dom. rewrite <- F7. apply elem_of_dom. eauto. }
      destruct Hsome as [s0 Hs0].
      destruct (Hgrow n' s0 Hs0) as (s2 & Hs2 & L2).
      rewrite Hs' in Hs2. injection Hs2 as <-.
      rewrite decide_True in L2 by (apply Hdom; eauto).
      rewrite L2, Hmc. specialize (Hinv n' s0 Hs0). lia.
Qed.


(** X15.  The marks of a part keep step with its index: after any
    sequence of [write] and [writeWithPermutation] calls on a new writer
    whose columns share no stream, with blocks that hold the columns
    under the types of the columns list, every stream of every column
    exists and holds exactly [marks_count] marks (two values each), so
    that its [.mrk] file will have 16 bytes for each row of the index. *)
Theorem marks_match_marks_count storage_ path (cols : list (string * DataType))
    method fs fuel (calls : list (Block DataType Field * option (list nat))) w :
  1 <= index_granularity storage_ ->
  written_rows calls + index_granularity storage_ < size_t_modulus ->
  NoDup (part_stream_names cols false) ->
  Forall (fun call : Block DataType Field * option (list nat) =>
            Forall (fun it : string * DataType =>
                      forall elem,
                        find (fun e => String.eqb (name e) it.1) call.1
                        = Some elem ->
                        type elem = it.2) cols) calls ->
  write_calls fuel calls
    (MergedBlockOutputStream_new storage_ path cols method fs).1
  = Returns tt w ->
  forall n, n ∈ part_stream_names cols false ->
  exists s,
    column_streams (base w) !! n = Some s /\
    Z.of_nat (length (marks s)) = 2 * marks_count w /\
    Z.of_nat (length (marks_bytes s)) = 16 * marks_count w.
Proof.
  intros Hg Hsize Hnd Htypes E n Hn.
  destruct (MergedBlockOutputStream_new_spec storage_ path cols method fs)
    as (H1 & H2 & H3 & H4 & H5 & H6 & _).
  pose proof (MergedBlockOutputStream_new_ready storage_ path cols method fs Hg)
    as Hready.
  destruct (MergedBlockOutputStream_new_streams storage_ path cols method fs)
    as [_ Hstreams].
  set (w0 := (MergedBlockOutputStream_new storage_ path cols method fs).1) in *.
  cbv zeta in H1, H2, H3, H4, H5, H6, Hstreams. fold w0 in Hstreams.
  destruct (write_calls_marks fuel calls w0 w E) as [Hdom Hmarks].
  - rewrite H1. exact Hg.
  - exact Hready.
  - rewrite H3. lia.
  - rewrite H3, H1. lia.
  - rewrite H6. exact Hnd.
  - intros n' [s' Hs']. rewrite H6. rewrite Hstreams in Hs'.
    now destruct (decide (n' ∈ part_stream_names cols false)).
  - rewrite H6. exact Htypes.
  - intros n' s' Hs'. rewrite Hstreams in Hs'.
    destruct (decide (n' ∈ part_stream_names cols false)); [|discriminate].
    injection Hs' as <-. rewrite H3. reflexivity.
  - assert (Hsome : is_Some (column_streams (base w) !! n)).
    { apply elem_of_dom. rewrite Hdom. apply elem_of_dom.
      rewrite Hstreams, decide_True by exact Hn. eauto. }
    destruct Hsome as [s Hs]. exists s. split; [exact Hs|].
    pose proof (Hmarks n s Hs) as L. split; [exact L|].
    rewrite length_marks_bytes. lia.
Qed.

End MarksAligned.

(** Ten rows at a granularity of four: three marks in [k.mrk]. *)
Lemma marks_match_marks_count_witness :
  match write_calls 20 [(ten_rows, None)] (key_writer 4 Ordinary).1 with
  | Returns _ w =>
      exists s,
        column_streams (base w) !! "k" = Some s /\
        Z.of_nat (length (marks s)) = 2 * marks_count w /\
        Z.of_nat (length (marks_bytes s)) = 16 * marks_count w
  | _ => False
  end.
Proof.
  set (st0 := key_writer 4 Ordinary).
  set (r1 := write_calls 20 [(ten_rows, None)] st0.1).
  set (w := match r1 with Returns _ w => w | _ => st0.1 end).
  assert (E1 : r1 = Returns tt w) by (vm_compute; reflexivity).
  rewrite E1.
  apply (marks_match_marks_count (storage_of 4 Ordinary) "/part/"
           [("k", UInt8)] LZ4 no_files 20 [(ten_rows, None)] w).
  - vm_compute. discriminate.
  - vm_compute. reflexivity.
  - apply (bool_decide_unpack _). vm_compute. exact I.
  - repeat constructor. intros elem Hf. vm_compute in Hf.
    injection Hf as <-. reflexivity.
  - exact E1.
  - apply (bool_decide_unpack _). vm_compute. exact I.
Defined.



(** ** The data of a stream *)

Section StreamData.

Context {DataType Field : Type}.
Context `{!IDataType DataType Field} `{!IOEnv DataType}.

Implicit Types b : IMergedBlockOutputStream.

(** Every stream of [b] is a stream of [b'] with the bytes [c n] after
    its data. *)
Local Abbreviation data_grow b b' c :=
  (forall (n : string) s, column_streams b !! n = Some s ->
     exists s', column_streams b' !! n = Some s' /\
                uncompressed_data s' = uncompressed_data s ++ c n).

Lemma uncompressed_data_next s :
  uncompressed_data (compressed_next s) = uncompressed_data s.
Proof.
  unfold uncompressed_data, compressed_next.
  destruct (compressed s) eqn:E; [now rewrite E|].
  cbn. now rewrite app_nil_r.
Qed.

Lemma uncompressed_data_nextIfAtEnd s :
  uncompressed_data (compressed_nextIfAtEnd s) = uncompressed_data s.
Proof.
  unfold compressed_nextIfAtEnd.
  destruct (_ =? _)%nat; [apply uncompressed_data_next | reflexivity].
Qed.

Lemma uncompressed_data_write bytes s :
  uncompressed_data (compressed_write bytes s) = uncompressed_data s ++ bytes.
Proof.
  unfold compressed_write. revert s.
  induction bytes as [|x bytes IH]; intros s; simpl.
  - now rewrite app_nil_r.
  - rewrite IH. unfold compressed_put, uncompressed_data at 1. cbn.
    rewrite app_assoc. fold (uncompressed_data (compressed_nextIfAtEnd s)).
    rewrite uncompressed_data_nextIfAtEnd, <- app_assoc. reflexivity.
Qed.

Lemma uncompressed_data_write_mark m s :
  uncompressed_data (write_mark m s) = uncompressed_data s.
Proof.
  unfold write_mark, writeIntBinary, uncompressed_data. cbn.
  destruct (_ >=? _); [apply uncompressed_data_next | reflexivity].
Qed.

Lemma for_each_data {A} (l : list A)
    (body : A -> M IMergedBlockOutputStream unit)
    (contrib : A -> string -> list byte) :
  (forall x b b', body x b = Returns tt b' -> data_grow b b' (contrib x)) ->
  forall b b', for_each l body b = Returns tt b' ->
  data_grow b b' (fun n => flat_map (fun x => contrib x n) l).
Proof.
  intros Hbody. induction l as [|x l IH]; intros b b' E n s Hs.
  - injection E as <-. exists s. split; [exact Hs | now rewrite app_nil_r].
  - simpl in E. apply bind_Returns in E. destruct E as ([] & b1 & E1 & E).
    destruct (Hbody x b b1 E1 n s Hs) as (s1 & Hs1 & L1).
    destruct (IH b1 b' E n s1 Hs1) as (s2 & Hs2 & L2).
    exists s2. split; [exact Hs2|]. cbn [flat_map].
    now rewrite L2, L1, <- app_assoc.
Qed.

Lemma with_stream_data n0 (f : ColumnStream -> ColumnStream) d b b' :
  (forall s, uncompressed_data (f s) = uncompressed_data s ++ d) ->
  with_stream n0 f b = Returns tt b' ->
  data_grow b b' (fun n => if decide (n = n0) then d else []).
Proof.
  intros Hf E n s Hs. rewrite with_stream_outcome in E.
  destruct (column_streams b !! n0) as [s0|] eqn:L; [|discriminate].
  injection E as <-. cbn.
  destruct (decide (n = n0)) as [->|Hne].
  - rewrite lookup_insert_eq. exists (f s0). split; [reflexivity|].
    rewrite Hf. rewrite L in Hs. now injection Hs as ->.
  - rewrite lookup_insert_ne by congruence. exists s.
    split; [exact Hs | now rewrite app_nil_r].
Qed.

Lemma flat_map_nil {A B} (l : list A) :
  flat_map (fun _ => ([] : list B)) l = [].
Proof. induction l; simpl; auto. Qed.

Lemma for_each_stream_data name_ (type_ : DataType) skip
    (f : ColumnStream -> ColumnStream) b b' :
  (forall s, uncompressed_data (f s) = uncompressed_data s) ->
  for_each_stream name_ type_ skip f b = Returns tt b' ->
  data_grow b b' (fun _ => []).
Proof.
  intros Hf E. unfold for_each_stream in E.
  assert (Hd : data_grow b b'
                 (fun n => flat_map (fun _ : SubstreamPath => []) 
                             (enumerateStreams type_))).
  { match type of E with
    | for_each ?l ?body _ = _ =>
        apply (for_each_data l body (fun _ _ => [])); [|exact E]
    end.
    intros path c c' Ec n s Hs. cbv beta in Ec.
    destruct (skip && is_array_sizes path).
    - unfold ret in Ec. injection Ec as <-. exists s.
      split; [exact Hs | now rewrite app_nil_r].
    - destruct (with_stream_data _ f [] c c'
                  ltac:(intros; now rewrite Hf, app_nil_r) Ec n s Hs)
        as (s2 & Hs2 & L2).
      exists s2. split; [exact Hs2|]. rewrite L2. now destruct (decide _). }
  intros n s Hs. destruct (Hd n s Hs) as (s1 & Hs1 & L1).
  exists s1. split; [exact Hs1|]. now rewrite L1, flat_map_nil.
Qed.

Lemma write_granule_data name_ (type_ : DataType) (column_ : list Field)
    skip m io gr b b' :
  write_granule name_ type_ column_ skip m io gr b = Returns tt b' ->
  data_grow b b' (fun n => granule_bytes name_ type_ column_ skip n gr).
Proof.
  intros E n s Hs. unfold write_granule in E.
  apply bind_Returns in E. destruct E as ([] & b1 & E1 & E).
  apply bind_Returns in E. destruct E as ([] & b2 & E2 & E3).
  assert (H1 : exists s1, column_streams b1 !! n = Some s1 /\
                          uncompressed_data s1 = uncompressed_data s).
  { destruct (is_marked io gr).
    - destruct (for_each_stream_data _ _ _ _ _ _
                  (uncompressed_data_write_mark m) E1 n s Hs)
        as (s1 & Hs1 & L1).
      exists s1. split; [exact Hs1 | now rewrite L1, app_nil_r].
    - unfold ret in E1. injection E1 as <-. eauto. }
  destruct H1 as (s1 & Hs1 & L1).
  unfold serialize_granule in E2.
  assert (H2 : data_grow b1 b2
                 (fun n =>
                    flat_map
                      (fun x : SubstreamPath * list byte =>
                         if skip && is_array_sizes x.1 then []
                         else if decide (n = getFileNameForStream name_ x.1)
                              then x.2 else [])
                      (serializeBinaryBulkWithMultipleStreams type_ column_
                         gr.1 gr.2))).
  { match type of E2 with
    | for_each ?l ?body _ = _ =>
        apply (for_each_data l body
                 (fun (x : SubstreamPath * list byte) n =>
                    if skip && is_array_sizes x.1 then []
                    else if decide (n = getFileNameForStream name_ x.1)
                         then x.2 else [])); [|exact E2]
    end.
    intros [path bytes] c c' Ec. cbv beta iota in Ec. cbn [fst snd].
    destruct (skip && is_array_sizes path).
    - unfold ret in Ec. injection Ec as <-. intros n' s' Hs'. exists s'.
      split; [exact Hs' | now rewrite app_nil_r].
    - exact (with_stream_data _ _ bytes c c'
               (uncompressed_data_write bytes) Ec). }
  destruct (H2 n s1 Hs1) as (s2 & Hs2 & L2).
  destruct (for_each_stream_data _ _ _ _ _ _
              uncompressed_data_nextIfAtEnd E3 n s2 Hs2) as (s3 & Hs3 & L3).
  exists s3. split; [exact Hs3|].
  rewrite L3, app_nil_r, L2, L1. f_equal. unfold granule_bytes.
  apply flat_map_ext. now intros [path bytes].
Qed.

(** X16.  [writeData] loses and repeats no byte: when it returns it has
    run over the granules of the column, and every stream of the writer
    holds the data it held followed by what the serializer yields for
    it, granule after granule.  Marks and the closing of compressed blocks
    move bytes from the open block to the closed ones and nothing more. *)
Theorem writeData_appends_serialized fuel name_ (type_ : DataType)
    (column_ : list Field) oc skip b b' :
  writeData fuel name_ type_ column_ oc skip b = Returns tt b' ->
  exists l,
    granules fuel (index_granularity (storage b)) (index_offset b)
      (Z.of_nat (length column_)) 0 = Some l /\
    forall n s, column_streams b !! n = Some s ->
      exists s',
        column_streams b' !! n = Some s' /\
        uncompressed_data s'
        = uncompressed_data s
          ++ flat_map (granule_bytes name_ type_ column_ skip n) l.
Proof.
  intros E. unfold writeData in E.
  destruct (writeData_loop_Returns_granules _ _ _ _ _ _ _ _ _ _ E) as [l G].
  exists l. split; [exact G|].
  rewrite (writeData_loop_granules _ _ _ _ _ _ _ _ _ _ G) in E.
  exact (for_each_data l _ _
           (fun gr c c' Ec =>
              write_granule_data name_ type_ column_ skip _ _ gr c c' Ec)
           b b' E).
Qed.

End StreamData.

(** The ten rows of the key, written at a granularity of four. *)
Lemma writeData_appends_serialized_witness :
  let b := base (key_writer 4 Ordinary).1 in
  let column_ := column (key_column [0; 1; 2; 3; 4; 5; 6; 7; 8; 9]) in
  match writeData 20 "k" UInt8 column_ ∅ false b with
  | Returns _ b' =>
      exists l s',
        granules 20 (index_granularity (storage b)) (index_offset b)
          (Z.of_nat (length column_)) 0 = Some l /\
        column_streams b' !! "k" = Some s' /\
        uncompressed_data s'
        = uncompressed_data (empty_stream "/part/" "k" LZ4)
          ++ flat_map (granule_bytes "k" UInt8 column_ false "k") l
  | _ => False
  end.
Proof.
  intros b column_.
  set (r := writeData 20 "k" UInt8 column_ ∅ false b).
  set (b' := match r with Returns _ b' => b' | _ => b end).
  assert (E : r = Returns tt b') by (vm_compute; reflexivity).
  rewrite E.
  destruct (writeData_appends_serialized 20 "k" UInt8 column_ ∅ false b b' E)
    as (l & G & H).
  destruct (H "k" (empty_stream "/part/" "k" LZ4)
              ltac:(vm_compute; reflexivity)) as (s' & Hs' & L).
  exists l, s'. split; [exact G|]. split; [exact Hs' | exact L].
Defined.

(** ** The rows that the marks point to *)

Lemma granules_unique g io size :
  forall fuel fuel' pm l l',
  granules fuel g io size pm = Some l ->
  granules fuel' g io size pm = Some l' -> l = l'.
Proof.
  induction fuel as [|fuel IH]; intros fuel' pm l l' G G'.
  - simpl in G. destruct (pm <? size) eqn:E; [discriminate|].
    injection G as <-.
    destruct fuel'; simpl in G'; rewrite E in G'; now injection G' as <-.
  - simpl in G. destruct (pm <? size) eqn:E.
    + destruct fuel' as [|fuel']; simpl in G'; rewrite E in G';
        [discriminate|].
      destruct (granules fuel _ _ _ _) as [l1|] eqn:G1; [|discriminate].
      destruct (granules fuel' _ _ _ _) as [l1'|] eqn:G1'; [|discriminate].
      simpl in G, G'. injection G as <-. injection G' as <-.
      f_equal. eapply IH; eassumption.
    + injection G as <-.
      destruct fuel'; simpl in G'; rewrite E in G'; now injection G' as <-.
Qed.

Lemma seq_from (K n : nat) :
  seq K n = map (fun k => (K + k)%nat) (seq 0 n).
Proof.
  revert K. induction n as [|n IH]; intros K; [reflexivity|].
  cbn [seq map]. f_equal; [lia|].
  rewrite <- (seq_shift n 0), map_map, (IH (S K)).
  apply map_ext. intros k. lia.
Qed.

(** After the short first granule, every granule is marked and starts a
    granularity after the one before. *)
Lemma granules_starts_from g io size :
  1 <= g -> size + g <= size_t_modulus ->
  forall fuel (pm : Z) l,
  0 < pm \/ io = 0 -> 0 <= pm -> pm < size + g ->
  granules fuel g io size pm = Some l ->
  List.filter (is_marked io) l = l /\
  map fst l = map (fun k => pm + Z.of_nat k * g) (seq 0 (length l)) /\
  size <= pm + Z.of_nat (length l) * g < size + g.
Proof.
  intros Hg Hsize. induction fuel as [|fuel IH]; intros pm l Hpm H0 Hlt G.
  - simpl in G. destruct (pm <? size) eqn:E; [discriminate|].
    injection G as <-. apply Z.ltb_ge in E. simpl. repeat split; lia.
  - simpl in G. destruct (pm <? size) eqn:E.
    + apply Z.ltb_lt in E.
      assert (Hc : (pm =? 0) && negb (io =? 0) = false).
      { destruct Hpm as [Hpm| ->].
        - rewrite (proj2 (Z.eqb_neq _ _)) by lia. reflexivity.
        - rewrite Z.eqb_refl. apply andb_false_r. }
      rewrite Hc in G. rewrite wrap_small in G by lia.
      destruct (granules fuel g io size (pm + g)) as [l'|] eqn:G';
        [|discriminate].
      injection G as <-.
      destruct (IH (pm + g) l') as (F1 & F2 & F3);
        [left; lia | lia | lia | exact G' |].
      cbn [List.filter]. unfold is_marked at 1. cbn [fst]. rewrite Hc.
      cbn [negb]. rewrite F1. split; [reflexivity|].
      cbn [length map fst seq].
      replace (Z.of_nat (S (length l')) * g)
        with (g + Z.of_nat (length l') * g)
        by (rewrite Nat2Z.inj_succ; ring).
      split; [|lia].
      f_equal; [simpl; lia|].
      rewrite F2, <- (seq_shift (length l') 0), map_map. apply map_ext. intros k.
      rewrite Nat2Z.inj_succ. ring.
    + injection G as <-. apply Z.ltb_ge in E. simpl. repeat split; lia.
Qed.

(** The granules of one call: the marked ones start at the carried offset
    and then at every granularity, and the offset carried on makes up for
    the rows of the last one. *)
Lemma granules_of_call g io size :
  1 <= g -> 0 <= io < g -> 0 <= size -> size + g < size_t_modulus ->
  exists l,
    granules (Z.to_nat size) g io size 0 = Some l /\
    map fst (List.filter (is_marked io) l)
    = map (fun k => io + Z.of_nat k * g)
        (seq 0 (length (List.filter (is_marked io) l))) /\
    next_index_offset g io size + size
    = io + Z.of_nat (length (List.filter (is_marked io) l)) * g.
Proof.
  intros Hg Hio Hsize Hmax.
  assert (Hnext : forall K : nat,
            size <= io + Z.of_nat K * g < size + g ->
            next_index_offset g io size + size = io + Z.of_nat K * g).
  { intros K HK.
    destruct (next_index_offset_eq g io size Hg Hio Hsize Hmax) as [_ ->].
    rewrite <- (Z.mod_unique_pos (io - size) g (- Z.of_nat K)
                  (io + Z.of_nat K * g - size)); [lia | lia | ring]. }
  destruct (granules_enough g io size Hg ltac:(lia) ltac:(lia)
              (Z.to_nat size) 0 ltac:(lia) ltac:(lia)) as [l G].
  exists l. split; [exact G|].
  destruct (decide (io = 0)) as [->|Hne].
  - destruct (granules_starts_from g 0 size Hg ltac:(lia) _ 0 l
                ltac:(now right) ltac:(lia) ltac:(lia) G) as (F1 & F2 & F3).
    rewrite F1. split; [exact F2 | now apply Hnext].
  - destruct (decide (size = 0)) as [->|Hpos].
    + simpl in G. injection G as <-. simpl. split; [reflexivity|].
      apply (Hnext 0%nat). simpl. lia.
    + replace (Z.to_nat size) with (S (Z.to_nat (size - 1))) in G by lia.
      simpl in G. rewrite (proj2 (Z.ltb_lt 0 size)) in G by lia.
      rewrite (proj2 (Z.eqb_neq io 0)) in G by exact Hne. simpl in G.
      rewrite wrap_small in G by lia. rewrite Z.add_0_l in G.
      destruct (granules _ g io size io) as [l'|] eqn:G'; [|discriminate].
      injection G as <-.
      destruct (granules_starts_from g io size Hg ltac:(lia) _ io l'
                  ltac:(left; lia) ltac:(lia) ltac:(lia) G')
        as (F1 & F2 & F3).
      assert (Hm : is_marked io (0, io) = false).
      { unfold is_marked. cbn [fst].
        now rewrite (proj2 (Z.eqb_neq io 0)) by exact Hne. }
      cbn [List.filter]. rewrite Hm, F1.
      split; [exact F2 | now apply Hnext].
Qed.

(** The marked granules of a sequence of writes start at the rows
    [before + offset], and then at every granularity. *)
Lemma marked_rows_spec g sizes :
  1 <= g ->
  forall io before,
  0 <= io < g ->
  Forall (fun size => 0 <= size /\ size + g < size_t_modulus) sizes ->
  marked_rows g io before sizes
  = map (fun k => before + io + Z.of_nat k * g)
      (seq 0 (length (marked_rows g io before sizes))).
Proof.
  intros Hg. induction sizes as [|size sizes IH]; intros io before Hio Hs;
    [reflexivity|].
  apply Forall_cons in Hs. destruct Hs as [[Hsize Hmax] Hs].
  destruct (granules_of_call g io size Hg Hio Hsize Hmax) as (l & G & F2 & F3).
  cbn [marked_rows]. rewrite G. change (default [] (Some l)) with l.
  set (marked := List.filter (is_marked io) l) in *.
  set (io' := next_index_offset g io size) in *.
  assert (Hio' : 0 <= io' < g).
  { subst io'.
    destruct (next_index_offset_eq g io size Hg Hio Hsize Hmax) as [_ ->].
    apply Z.mod_pos_bound. lia. }
  specialize (IH io' (before + size) Hio' Hs).
  set (rest := marked_rows g io' (before + size) sizes) in *.
  rewrite length_app, length_map, seq_app, map_app. f_equal.
  - assert (Hm : map (fun granule : Z * Z => before + granule.1) marked
                 = map (Z.add before) (map fst marked))
      by (rewrite List.map_map; reflexivity).
    rewrite Hm, F2, List.map_map.
    apply map_ext. intros k. lia.
  - rewrite IH at 1. rewrite (seq_from (0 + length marked)), List.map_map.
    apply map_ext. intros k. rewrite Nat.add_0_l, Nat2Z.inj_add. lia.
Qed.

Lemma length_mark_pairs (l : list Z) (k : nat) :
  length l = (2 * k)%nat -> length (mark_pairs l) = k.
Proof.
  revert l. induction k as [|k IH]; intros l Hl.
  - destruct l; [reflexivity | simpl in Hl; lia].
  - destruct l as [|a [|b l]]; simpl in Hl; try lia.
    simpl. f_equal. apply IH. lia.
Qed.

Section MarkRows.

Context {DataType Field : Type}.
Context `{!IDataType DataType Field} `{!IOEnv DataType}.

Implicit Types self : MergedBlockOutputStream DataType Field.
Implicit Types b : IMergedBlockOutputStream.
Implicit Types block : Block DataType Field.
Implicit Types pcs : list (ColumnWithTypeAndName DataType Field).

(** Every stream of [b] is a stream of [b'] with [c n] more values in its
    marks. *)
Local Abbreviation marks_added b b' c :=
  (forall (n : string) s, column_streams b !! n = Some s ->
     exists s', column_streams b' !! n = Some s' /\
                length (marks s') = (length (marks s) + c n)%nat).

(** A stream that is visited several times is updated as often. *)
Lemma for_each_with_stream_count (f : ColumnStream -> ColumnStream) ns :
  forall b b',
  for_each ns (fun n => with_stream n f) b = Returns tt b' ->
  forall n,
    column_streams b' !! n
    = Nat.iter (count_occ string_dec ns n) f <$> column_streams b !! n.
Proof.
  induction ns as [|n0 ns IH]; intros b b' E n.
  - injection E as <-. simpl. now destruct (column_streams b !! n).
  - simpl in E. apply bind_Returns in E. destruct E as ([] & b1 & E1 & E2).
    rewrite with_stream_outcome in E1.
    destruct (column_streams b !! n0) as [st|] eqn:L; [|discriminate].
    injection E1 as <-. rewrite (IH _ _ E2 n).
    cbn [column_streams set_column_streams].
    destruct (decide (n = n0)) as [->|Hne].
    + rewrite lookup_insert_eq, L, count_occ_cons_eq by reflexivity.
      cbn. f_equal. exact (eq_sym (Nat.iter_succ_r _ f st)).
    + rewrite lookup_insert_ne by congruence.
      rewrite count_occ_cons_neq by congruence. reflexivity.
Qed.

Lemma marks_iter_write_mark m (c : nat) s :
  length (marks (Nat.iter c (write_mark m) s))
  = (length (marks s) + 2 * c)%nat.
Proof.
  induction c as [|c IH]; [simpl; lia|].
  change (Nat.iter (S c) (write_mark m) s)
    with (write_mark m (Nat.iter c (write_mark m) s)).
  rewrite marks_write_mark, IH. lia.
Qed.

Lemma write_granule_marks_count name_ (type_ : DataType)
    (column_ : list Field) skip m io gr b b' :
  write_granule name_ type_ column_ skip m io gr b = Returns tt b' ->
  marks_added b b'
    (fun n => if is_marked io gr
              then (2 * count_occ string_dec (stream_names name_ type_ skip) n)%nat
              else 0%nat).
Proof.
  intros E n s Hs. unfold write_granule in E.
  apply bind_Returns in E. destruct E as ([] & b1 & E1 & E).
  apply bind_Returns in E. destruct E as ([] & b2 & E2 & E3).
  assert (H1 : exists s1, column_streams b1 !! n = Some s1 /\
             length (marks s1)
             = (length (marks s)
                + (if is_marked io gr
                   then 2 * count_occ string_dec
                              (stream_names name_ type_ skip) n
                   else 0))%nat).
  { destruct (is_marked io gr).
    - rewrite for_each_stream_names in E1.
      pose proof (for_each_with_stream_count _ _ _ _ E1 n) as L.
      rewrite Hs in L. cbn in L. eexists. split; [exact L|].
      apply marks_iter_write_mark.
    - unfold ret in E1. injection E1 as <-. exists s. split; [exact Hs | lia]. }
  destruct H1 as (s1 & Hs1 & L1).
  assert (H2 : marks_added b1 b2 (fun _ => 0%nat)).
  { unfold serialize_granule in E2. revert E2. apply for_each_marks_kept.
    intros [path bytes] c c' Ec.
    destruct (skip && is_array_sizes path).
    - unfold ret in Ec. injection Ec as <-. intros n' s' Hs'. exists s'.
      split; [exact Hs' | lia].
    - eapply with_stream_marks_kept; [|exact Ec].
      apply marks_compressed_write. }
  assert (H3 : marks_added b2 b' (fun _ => 0%nat)).
  { unfold for_each_stream in E3. revert E3. apply for_each_marks_kept.
    intros path c c' Ec.
    destruct (skip && is_array_sizes path).
    - unfold ret in Ec. injection Ec as <-. intros n' s' Hs'. exists s'.
      split; [exact Hs' | lia].
    - eapply with_stream_marks_kept; [|exact Ec].
      apply marks_compressed_nextIfAtEnd. }
  destruct (H2 n s1 Hs1) as (s2 & Hs2 & L2).
  destruct (H3 n s2 Hs2) as (s3 & Hs3 & L3).
  exists s3. split; [exact Hs3 | lia].
Qed.

Lemma for_each_granules_marks_count name_ (type_ : DataType)
    (column_ : list Field) skip m io l :
  forall b b',
  for_each l (write_granule name_ type_ column_ skip m io) b = Returns tt b' ->
  marks_added b b'
    (fun n => (2 * count_occ string_dec (stream_names name_ type_ skip) n
               * length (List.filter (is_marked io) l))%nat).
Proof.
  induction l as [|gr l IH]; intros b b' E n s Hs.
  - injection E as <-. exists s. split; [exact Hs | simpl; lia].
  - simpl in E. apply bind_Returns in E. destruct E as ([] & b1 & E1 & E).
    destruct (write_granule_marks_count _ _ _ _ _ _ _ _ _ E1 n s Hs)
      as (s1 & Hs1 & L1).
    destruct (IH b1 b' E n s1 Hs1) as (s2 & Hs2 & L2).
    exists s2. split; [exact Hs2|]. cbn [List.filter].
    destruct (is_marked io gr); cbn [length]; lia.
Qed.

(** [writeData] of a column adds to every stream one mark for each marked
    granule and each time the stream is met among the streams of the
    column. *)
Lemma writeData_marks_count fuel name_ (type_ : DataType)
    (column_ : list Field) oc skip b b' :
  writeData fuel name_ type_ column_ oc skip b = Returns tt b' ->
  exists l,
    granules fuel (index_granularity (storage b)) (index_offset b)
      (Z.of_nat (length column_)) 0 = Some l /\
    marks_added b b'
      (fun n => (2 * count_occ string_dec (stream_names name_ type_ skip) n
                 * length (List.filter (is_marked (index_offset b)) l))%nat).
Proof.
  intros E. unfold writeData in E.
  destruct (writeData_loop_Returns_granules _ _ _ _ _ _ _ _ _ _ E) as [l G].
  rewrite (writeData_loop_granules _ _ _ _ _ _ _ _ _ _ G) in E.
  exists l. split; [exact G|].
  exact (for_each_granules_marks_count _ _ _ _ _ _ _ _ _ E).
Qed.

Lemma write_columns_marks_count fuel block perm pcs (m : gmap string nat) oc
    g io size (K : nat) :
  (forall fuel' l, granules fuel' g io size 0 = Some l ->
                   length (List.filter (is_marked io) l) = K) ->
  Forall (fun e => Z.of_nat (length (column e)) = size) block ->
  Forall (fun e => Z.of_nat (length (column e)) = size) pcs ->
  forall (cols : list (string * DataType)) self self',
  index_granularity (storage (base self)) = g ->
  index_offset (base self) = io ->
  Forall (fun it : string * DataType =>
            forall elem,
              find (fun e => String.eqb (name e) it.1) block = Some elem ->
              type elem = it.2) cols ->
  write_columns fuel block perm pcs m oc cols self = Returns tt self' ->
  marks_added (base self) (base self')
    (fun n => (2 * stream_uses cols n * K)%nat).
Proof.
  intros HK Hblock Hpcs. unfold write_columns.
  induction cols as [|it cols IH]; intros self self' Eg Eio Htypes E n s Hs.
  - injection E as <-. exists s. split; [exact Hs|].
    unfold stream_uses. simpl. lia.
  - simpl in E. apply bind_Returns in E. destruct E as ([] & s1 & E1 & E).
    apply bind_Returns in E1. destruct E1 as (elem & s0 & E0 & E1).
    apply getByName_Returns in E0. destruct E0 as [-> Hfind].
    apply Forall_cons in Htypes. destruct Htypes as [Htype Htypes'].
    specialize (Htype elem Hfind).
    assert (Hname : name elem = it.1).
    { apply find_some in Hfind. now apply String.eqb_eq. }
    assert (Hc : Z.of_nat (length (column elem)) = size).
    { rewrite List.Forall_forall in Hblock. apply Hblock.
      eapply find_In_block. exact Hfind. }
    assert (Hw : exists c : list Field,
               Z.of_nat (length c) = size /\
               writeData fuel it.1 it.2 c oc false (base self)
               = Returns tt (base s1)).
    { assert (Hin : forall c,
                writeData_in fuel (name elem) (type elem) c oc false self
                = Returns tt s1 ->
                writeData fuel it.1 it.2 c oc false (base self)
                = Returns tt (base s1)).
      { intros c Ec. unfold writeData_in, on_base in Ec.
        rewrite Hname, Htype in Ec.
        destruct (writeData fuel it.1 it.2 c oc false (base self))
          as [[] b1|e b1| |]; try discriminate.
        now injection Ec as <-. }
      destruct perm as [perm|].
      - destruct (m !! it.1) as [pos|].
        + destruct (pcs !! pos) as [primary|] eqn:Epos; [|discriminate].
          exists (column primary). split; [|now apply Hin].
          rewrite List.Forall_forall in Hpcs. apply Hpcs, list_elem_of_In.
          eapply list_elem_of_lookup_2. exact Epos.
        + apply bind_Returns in E1. destruct E1 as (c & s2 & E2 & E1).
          pose proof (permute_length _ _ _ _ _ E2) as Hlen.
          apply permute_Returns in E2. destruct E2 as (-> & _).
          exists c. split; [lia | now apply Hin].
      - exists (column elem). split; [exact Hc | now apply Hin]. }
    destruct Hw as (c & Hlen & Ew).
    pose proof (writeData_loop_frame _ _ _ _ _ _ _ _ _ _ _ Ew) as F.
    destruct F as (F1 & _ & _ & _ & _ & F6 & _).
    destruct (writeData_marks_count _ _ _ _ _ _ _ _ Ew) as (l & G & Hgrow).
    rewrite Eg, Eio, Hlen in G. rewrite Eio, (HK _ _ G) in Hgrow.
    destruct (Hgrow n s Hs) as (s' & Hs' & L').
    destruct (IH s1 self' ltac:(now rewrite F1) ltac:(now rewrite F6)
                Htypes' E n s' Hs') as (s'' & Hs'' & L'').
    exists s''. split; [exact Hs''|]. rewrite L'', L'.
    unfold stream_uses, part_stream_names. cbn [flat_map].
    rewrite count_occ_app. lia.
Qed.

(** One call of [write] or [writeWithPermutation]. *)
Lemma writeImpl_marks_count fuel block perm self self' (K : nat) :
  let g := index_granularity (storage (base self)) in
  let io := index_offset (base self) in
  (forall fuel' l, granules fuel' g io (rows block) 0 = Some l ->
                   length (List.filter (is_marked io) l) = K) ->
  Forall (fun it : string * DataType =>
            forall elem,
              find (fun e => String.eqb (name e) it.1) block = Some elem ->
              type elem = it.2) (columns_list self) ->
  writeImpl fuel block perm self = Returns tt self' ->
  marks_added (base self) (base self')
    (fun n => (2 * stream_uses (columns_list self) n * K)%nat).
Proof.
  intros g io HK Htypes E.
  rewrite writeImpl_stages in E.
  destruct (forallb _ block) eqn:Hrect; [|discriminate].
  destruct (resolve_primary_columns block perm _ 0%nat [] ∅ self)
    as [[pcs m] s1|e s1| |] eqn:Eres; try discriminate.
  apply resolve_primary_columns_spec in Eres.
  destruct Eres as (_ & _ & Hlen).
  cbn [fst snd] in E.
  destruct (write_columns fuel block perm pcs m ∅ (columns_list self) _)
    as [[] written|e s2| |] eqn:Ecols; try discriminate.
  assert (Hrows : 0 <= rows block).
  { unfold rows. destruct block; [lia | unfold IColumn_size; lia]. }
  assert (Hblock : Forall (fun e => length (column e) = Z.to_nat (rows block))
                     block).
  { apply List.Forall_forall. intros e He.
    rewrite forallb_forall in Hrect. specialize (Hrect e He).
    apply Z.eqb_eq in Hrect. unfold IColumn_size in Hrect. lia. }
  pose proof (Hlen _ Hblock ltac:(constructor)) as Hpcs.
  assert (Hz : forall l : list (ColumnWithTypeAndName DataType Field),
            Forall (fun e => length (column e) = Z.to_nat (rows block)) l ->
            Forall (fun e => Z.of_nat (length (column e)) = rows block) l).
  { intros l Hl. eapply Forall_impl; [exact Hl|]. simpl. intros e He. lia. }
  assert (Hbase : base (ensure_index
                    (length (getSortDescription (storage (base self)))) self)
                  = base self).
  { unfold ensure_index. now destruct (index_columns self). }
  pose proof (write_columns_marks_count fuel block perm pcs m ∅ g io
                (rows block) K HK (Hz _ Hblock) (Hz _ Hpcs)
                (columns_list self) _ written
                ltac:(now rewrite Hbase) ltac:(now rewrite Hbase)
                Htypes Ecols) as Hgrow.
  rewrite Hbase in Hgrow.
  destruct (index_loop fuel pcs (rows block) _ written)
    as [[] sampled|e s3| |] eqn:Eloop; try discriminate.
  assert (Hstreams : column_streams (base sampled)
                     = column_streams (base written)).
  { eapply (keeps_Returns
              (fun s => column_streams (base s) = column_streams (base written)));
      [|reflexivity | exact Eloop].
    apply (keeps_index_loop
             (fun b => column_streams b = column_streams (base written))). }
  unfold on_base, update_index_offset in E.
  destruct (index_granularity (storage (base sampled)) =? 0); [discriminate|].
  injection E as <-. cbn. rewrite Hstreams. exact Hgrow.
Qed.

(** The marks of every stream after a sequence of calls: one for each
    marked granule and each column that the stream belongs to. *)
Lemma write_calls_marks_count fuel
    (calls : list (Block DataType Field * option (list nat))) :
  forall self self',
  write_calls fuel calls self = Returns tt self' ->
  let g := index_granularity (storage (base self)) in
  1 <= g -> writer_ready self ->
  written_rows calls + g < size_t_modulus ->
  Forall (fun call : Block DataType Field * option (list nat) =>
            Forall (fun it : string * DataType =>
                      forall elem,
                        find (fun e => String.eqb (name e) it.1) call.1
                        = Some elem ->
                        type elem = it.2) (columns_list self)) calls ->
  forall M : nat,
  (forall n s, column_streams (base self) !! n = Some s ->
     length (marks s) = (2 * stream_uses (columns_list self) n * M)%nat) ->
  forall before n s, column_streams (base self') !! n = Some s ->
    length (marks s)
    = (2 * stream_uses (columns_list self) n
       * (M + length (marked_rows g (index_offset (base self)) before
                        (map (fun call => rows call.1) calls))))%nat.
Proof.
  induction calls as [|[block perm] calls IH];
    intros self self' E g Hg Hready Hsize Htypes M Hinv before n s Hs.
  - injection E as <-. cbn [map marked_rows length]. rewrite Nat.add_0_r.
    now apply Hinv.
  - unfold write_calls in E. simpl in E.
    apply bind_Returns in E. destruct E as ([] & s1 & E1 & E).
    apply Forall_cons in Htypes. destruct Htypes as [Ht Hts]. cbn [fst] in Ht.
    cbn [written_rows foldr fst] in Hsize.
    fold (written_rows calls) in Hsize.
    assert (Hrows : 0 <= rows block).
    { unfold rows. destruct block; [lia | unfold IColumn_size; lia]. }
    assert (Hrest : 0 <= written_rows calls).
    { clear. induction calls as [|[b p] calls IH]; simpl; [lia|].
      assert (0 <= rows b)
        by (unfold rows; destruct b; [lia | unfold IColumn_size; lia]).
      lia. }
    destruct (writeImpl_summary fuel block perm self s1 E1 Hg Hready)
      as (keys & _ & _ & _ & K4 & K5 & K6 & _ & K8); [fold g; lia|].
    pose proof Hready as (Hio & _). fold g in Hio, K4.
    set (io := index_offset (base self)) in *.
    destruct (granules_of_call g io (rows block) Hg Hio Hrows ltac:(lia))
      as (l0 & G0 & _ & _).
    set (K := length (List.filter (is_marked io) l0)).
    assert (HK : forall fuel' l, granules fuel' g io (rows block) 0 = Some l ->
                 length (List.filter (is_marked io) l) = K).
    { intros fuel' l G. now rewrite (granules_unique _ _ _ _ _ _ _ _ G G0). }
    pose proof (writeImpl_marks_count fuel block perm self s1 K HK Ht E1)
      as Hgrow.
    destruct K5 as (F1 & _ & _ & _ & _ & _ & F7). cbn in F1, F7.
    assert (Hnext : index_offset (base s1) = next_index_offset g io (rows block)).
    { rewrite K4.
      destruct (next_index_offset_eq g io (rows block) Hg Hio Hrows
                  ltac:(lia)) as [_ ->]. reflexivity. }
    cbn [map marked_rows fst]. rewrite G0.
    change (default [] (Some l0)) with l0. fold K.
    rewrite length_app, length_map. fold K. rewrite <- Hnext.
    replace (M + (K + length (marked_rows g (index_offset (base s1))
                               (before + rows block)
                               (map (fun call => rows call.1) calls))))%nat
      with ((M + K) + length (marked_rows g (index_offset (base s1))
                               (before + rows block)
                               (map (fun call => rows call.1) calls)))%nat
      by lia.
    assert (Hg1 : index_granularity (storage (base s1)) = g)
      by (now rewrite F1).
    rewrite <- Hg1, <- K6.
    apply (IH s1 self' E); rewrite ?K6, ?Hg1.
    + exact Hg.
    + exact K8.
    + lia.
    + exact Hts.
    + intros n' s' Hs'.
      assert (Hsome : is_Some (column_streams (base self) !! n')).
      { apply elem_of_dom. rewrite <- F7. apply elem_of_dom. eauto. }
      destruct Hsome as [s0 Hs0].
      destruct (Hgrow n' s0 Hs0) as (s2 & Hs2 & L2).
      rewrite Hs' in Hs2. injection Hs2 as <-.
      rewrite L2, (Hinv n' s0 Hs0). lia.
    + exact Hs.
Qed.

Lemma rows_of_calls_bounded g
    (calls : list (Block DataType Field * option (list nat))) :
  written_rows calls + g < size_t_modulus ->
  Forall (fun size => 0 <= size /\ size + g < size_t_modulus)
    (map (fun call => rows call.1) calls).
Proof.
  assert (Hrows : forall block, 0 <= rows block).
  { intros block. unfold rows.
    destruct block; [lia | unfold IColumn_size; lia]. }
  induction calls as [|[block perm] calls IH]; intros Hsize; [constructor|].
  cbn [written_rows foldr fst] in Hsize. fold (written_rows calls) in Hsize.
  assert (Hrest : 0 <= written_rows calls).
  { clear -Hrows. induction calls as [|[b p] calls IH]; simpl; [lia|].
    specialize (Hrows b). lia. }
  specialize (Hrows block).
  cbn [map fst]. constructor; [lia | apply IH; lia].
Qed.

Lemma multiples_sorted g : 1 <= g ->
  forall a n,
  StronglySorted Z.lt (map (fun k => Z.of_nat k * g) (seq a n)).
Proof.
  intros Hg a n. revert a. induction n as [|n IH]; intros a; simpl;
    constructor; [apply IH|].
  apply List.Forall_forall. intros x Hx. apply in_map_iff in Hx.
  destruct Hx as (k & <- & Hk). apply in_seq in Hk. nia.
Qed.


End MarkRows.


